(* ===== verification/_CoqProject ===== *)
-Q . S2P
Prelude.v
PyBytes.v
PySearch.v
PyStr.v
Mos6502.v
Mos6502Inv.v
Mos6502Frame.v
Mos6502Arith.v
Mos6502Run.v
BenchStubs.v
Mos6502Thms.v
PyHashlib.v
Responder.v
ResponderInv.v
ResponderThms.v
Server.v
ServerThms.v
TunnelThms.v
Verdict.v
Pcap.v
PcapThms.v
Reassembly.v
ReassemblyThms.v
LeakSearch.v
LeakThms.v
WireChecks.v
WireThms.v
EchoArp.v
EchoThms.v
NetDiag.v
NetDiagThms.v
DeviceSession.v
SessionThms.v
UdpHelpers.v
UdpThms.v
UdpProbe.v
UdpProbeThms.v
Firmware.v
FirmwareThms.v
WireSearch.v
WireSearchThms.v
PyRegex.v
PyDict.v
RegexThms.v
Caps.v
CapsThms.v
Settle.v
Discipline.v
C64Input.v
InputThms.v
Gate.v
GateThms.v
GateCheck.v
GateCheckThms.v
RigConst.v
RigConstThms.v
Provenance.v
ProvenanceThms.v
RigText.v
RigHost.v
RigThms.v
RigVice.v
RigViceThms.v
ViceUtil.v
ViceUtilThms.v
TodRun.v
TodThms.v
BenchRun.v
BenchRunThms.v
BenchEmu.v
RigLaunch.v
RigLaunchThms.v
RigTap.v
RigTapThms.v
Chat.v
ChatThms.v
AbiDrift.v
AbiDriftThms.v
ServerMain.v
ServerMainThms.v
