(* ===== verification/Prelude.v ===== *)
(** * c64-wireguard: host-side tools, verified

    c64-wireguard is a WireGuard client for the Commodore 64.  Its firmware is 6502 assembly;
    everything around it is Python: a WireGuard responder for the C64 to talk to, drivers for the
    emulator and for real hardware, the checks that decide what a run has shown, and the gate
    that runs the suites.  This development models the Python under src/tools/ and proves what
    makes it correct.

    ** Effects and data

    [Prelude] holds the monad of the development: code that can raise is [eff S E A], a function
    from a state to a value with a state or an exception with a state, since Python keeps the
    mutations made before a [raise]; pure code that can raise is [res E A].  [PyBytes], [PyStr],
    [PySearch], [PyRegex] and [PyDict] are the parts of Python the tools rest on: slices,
    substring search, regular expressions as a backtracking matcher, dictionaries in insertion
    order.  Integers are [Z], with the masks and wrap-arounds the source writes; bytes are lists
    of [Z] or strings of one-byte characters.  What the tools print is left out, but for the texts
    that are data of the program; a message is a tag with the values it interpolates.

    What is not under src/ is a class or a parameter, and its promises are named: [NoiseLib] with
    [NoiseLaws] and, for two ends in step, [NoiseInitiator] with [NoisePair] (the Noise package),
    [Harness] (the device library), [Transport] (the C64 behind its transport, and the clock),
    [Vice] (the monitor of the emulator and its process), [BenchHost] (what the benchmarks need
    beside it), [Child] (a process the rig starts), [Host], [Make], [GateHost] and [CheckHost] (the
    operating system), [ProbeHost] (the probe's sockets), [Tree] (files), [Link] (a socket),
    [KeySource] (fresh keys). Most of them are adversarial: the theorems hold whatever the
    operations return or raise.

    ** Programs that record what they do

    The drivers record every use of the outside world in a log.  [Discipline] states what a
    program keeps as an automaton on these records and proves the rules for the composition of
    such programs; [InputThms], [RigViceThms], [ViceUtilThms] and [ChatThms] use them.  It also has
    the rules for what a step adds to its log when it returns and when it raises, which
    [RigTapThms] and [GateCheckThms] use.
    [SessionThms] and [GateThms] have rules of this shape of their own, the one for calls that may
    raise anything, the other for the traces of a machine.

    ** Loops

    A loop of the source that is bounded by its data is structural.  One that polls against a
    clock gets fuel; running out of it is an outcome of its own, different from every exception
    of the source.  [Settle] says what it means that a loop ends: from some amount of fuel on the
    outcome does not depend on it and is not the one for running out.  For each such loop this is
    proved from the progress of the clock, so the fuel is no restriction.  [Mos6502.call] gets its
    fuel from the budget of cycles its caller passes, and [call_terminates] proves it enough.

    ** The parts

    - tools/uci/mos6502.py, a 6502 interpreter: [Mos6502] (registers, table, operations, [step],
      [call]), [Mos6502Inv] (widths, and which exceptions can be raised), [Mos6502Frame] (what no
      instruction does, termination), [Mos6502Arith], [Mos6502Run]; the properties are in
      [Mos6502Thms], module [Cpu].
    - tools/bench_vic_blank.py, tools/bench_fe_ops.py and tools/bench_vic_blank_handshake.py:
      [BenchStubs] has the machine code they build and the decoders of what it leaves.  The stubs are
      executed by the interpreter: the loop stub calls its target exactly outer times inner times
      ([Mos6502Thms], module [Bench]), the clock routine reads one time of day whatever passes
      between its reads and the timer reports its target's jiffies ([TodRun], [TodThms]).  The three
      drivers are in [BenchRun], over the [Vice] of the rig; [BenchRunThms] shows what a line of their
      reports compares, on any machine that keeps the promises of [timed_machine], and [BenchEmu] that
      the interpreter with a clock and a video chip is such a machine, the stubs executed; a leg names
      every operation between the two states it is about, so its figure is the run's.
    - tools/wg_responder/responder.py: [Responder] with [PyHashlib], [ResponderInv] and
      [ResponderThms].  An accepted initiation was authentic and fresh and is answered in the wire
      format, a rejected one changes nothing, counters are nonces.
    - tools/wg_responder/server.py: [Server], [ServerThms].  The receive loop, whom it sends to,
      the text codecs; the interleaving of its two threads that puts counter and nonce out of step
      is in [ResponderThms].  [ServerMain] with [ServerMainThms] is its start from the command line,
      with the key helpers of tools/wg_responder/keys.py: the keys written as text are the keys of
      the responder that runs, and no datagram it sends exceeds the ceiling [Caps] resolves from the
      build.  [TunnelThms] puts a far end on the other side that
      starts the handshakes: what is typed arrives there and what it sends is shown, in order, under
      every interleaving and across renewals of the session, lines as they are cut to the ceiling and
      messages that fit a datagram.
    - tools/ip65_hw_checks.py, the verdicts over one run on hardware: [Verdict], [Pcap] and
      [PcapThms] (the capture reader inverts the writer), [Reassembly] and [ReassemblyThms] (one
      datagram per key, fragments in any order), [LeakSearch] and [LeakThms] (a pass means that no
      plaintext stands anywhere that was searched, and what escapes), [WireChecks] and [WireThms],
      [EchoArp] and [EchoThms], [NetDiag] and [NetDiagThms] (each check passes exactly when what
      it claims holds of the frames and the bytes).
    - tools/wire_plaintext_search.py: [WireSearch], [WireSearchThms].
    - tools/device_session.py: [DeviceSession], [SessionThms].  The device is touched only under
      its lock, and a run that passes has left it restored, whatever the harness does.
    - tools/uci/udp_echo_listener.py and tools/uci/udp_size_responder.py: [UdpHelpers], [UdpThms].  Each
      object is the moves of its owner and of its threads, in any order.
    - tools/uci/udp_probe_harness.py: [UdpProbe], [UdpProbeThms], over the session of
      [DeviceSession].
    - tools/u64_firmware.py: [Firmware], [FirmwareThms].
    - tools/c64_caps.py: [Caps] (the limits read from the labels or the sources, and the values the
      module exports), [CapsThms], over the lemmas on matches of [RegexThms].
    - tools/wg_c64_input.py: [C64Input], [InputThms].  The keyboard queue's protocol, staging by
      DMA, renewing the session.
    - tools/wg_demo.py and tools/wg_chat.py: [Chat], [ChatThms].  They drive the C64 with
      [C64Input] and answer it with the [Responder] session of [Server]; the chat's two threads
      are steps that interleave.
    - tools/run_regression.py: [Gate], [GateThms].  The gate is refined to an abstract pool
      machine; it passes exactly when every suite ended well and the build was restored; it ends.
      [GateCheck] with [GateCheckThms] is its self-check, which drives the same operations over
      throwaway suites.
    - tools/vice_eth_rig.py: [RigText] (the texts it reads), [RigHost] (the preflight, over which
      [RigThms] proves that a suite goes on exactly on a host that is ready), [RigVice] with
      [RigViceThms] (no wait pauses with the CPU stopped, which the keyboard driver of [C64Input]
      inherits through the resuming adapter), [RigLaunch] with [RigLaunchThms] (the build, the
      configuration, and the proof of the binding), [RigTap] with [RigTapThms] (the tcpdump of a tap
      and the decoy of a self-test, which never outlive what started them).
    - tools/vice_util.py: [ViceUtil], [ViceUtilThms].  The REU an image needs.
    - tools/check_abi_drift.py: [AbiDrift], [AbiDriftThms].  Imports against exports.
    - of tools/ip65_hw_checks.py also: [RigConst] with [RigConstThms] (the addresses of the rig,
      from its installed helper or pinned, never mixed) and [Provenance] with [ProvenanceThms] and
      [PyHashlib] (the stamp of a run has no warning exactly when no input is outside
      the repository or changed under the name that git prints).

    In each pair the first file holds definitions only, named as in the source, and the second the
    theorems; a theorem with hypotheses comes with a witness that meets them on a concrete input.

    ** Bounds

    Text read from files and commands is ASCII, and a line ends with a newline.  Timestamps of
    captures and readings of the clock that are added and compared are exact but in [NetDiag],
    where they are binary64.  Addresses of the emulated machine and sizes of datagrams are as in
    the source: a byte outside its range raises where Python raises.

    ** Not modelled

    The firmware (src/*.s and below), its build files and its shell scripts are not Python.  The
    suites tools/test_*.py are tests of the code modelled here and of the firmware.  Of the tools
    themselves these are left out: what real commands and sockets do (VICE, tcpdump, make, HTTP, a
    socket's options), which are operations of the classes; the parsing of options by [argparse]
    and what imports set up; logging, and the layout of printed reports. *)

From stdpp Require Export base tactics option list numbers strings gmap sorting.
From Stdlib Require Export ZArith Lia.

#[global] Open Scope Z_scope.

(** ** Effects *)

(** The result of running code that can raise: the value and the final state,
    or the exception and the state it was raised in.  Python keeps the
    mutations made before a [raise], so the state is kept on both sides. *)
Inductive outcome (S E A : Type) : Type :=
| Ret (a : A) (s : S)
| Raise (e : E) (s : S).
Arguments Ret {S E A} a s.
Arguments Raise {S E A} e s.

(** A method of an object with state [S] raising exceptions of type [E]. *)
Definition eff (S E A : Type) : Type := S → outcome S E A.

#[export] Instance eff_ret {S E} : MRet (eff S E) := λ A a s, Ret a s.
#[export] Instance eff_bind {S E} : MBind (eff S E) := λ A B f m s,
  match m s with
  | Ret a s' => f a s'
  | Raise e s' => Raise e s'
  end.

Definition get_st {S E} : eff S E S := λ s, Ret s s.
Definition gets {S E A} (f : S → A) : eff S E A := λ s, Ret (f s) s.
Definition modify {S E} (f : S → S) : eff S E unit := λ s, Ret tt (f s).
Definition raise {S E A} (e : E) : eff S E A := λ s, Raise e s.

Lemma run_bind {S E A B} (m : eff S E A) (f : A → eff S E B) s :
  (m ≫= f) s = match m s with Ret a s' => f a s' | Raise e s' => Raise e s' end.
Proof. done. Qed.

(** Running a pure fallible computation inside a stateful one. *)
Inductive res (E A : Type) : Type :=
| Ok (a : A)
| Err (e : E).
Arguments Ok {E A} a.
Arguments Err {E A} e.

#[export] Instance res_ret {E} : MRet (res E) := λ A a, Ok a.
#[export] Instance res_bind {E} : MBind (res E) := λ A B f m,
  match m with Ok a => f a | Err e => Err e end.

Definition lift {S E A} (r : res E A) : eff S E A := λ s,
  match r with Ok a => Ret a s | Err e => Raise e s end.

(** [try: m] with a [finally]: the exception of the last step that raised is the one that leaves. *)
Definition finally {S E A} (m : eff S E A) (last : eff S E unit) : eff S E A := λ s,
  match m s with
  | Ret a s' => match last s' with Ret _ s'' => Ret a s'' | Raise e s'' => Raise e s'' end
  | Raise e s' => match last s' with Ret _ s'' => Raise e s'' | Raise e' s'' => Raise e' s'' end
  end.
(** [try: m] [except Exception as e: h e] *)
Definition catch_any {S E A} (m : eff S E A) (h : E → eff S E A) : eff S E A := λ s,
  match m s with Ret a s' => Ret a s' | Raise e s' => h e s' end.

(** A precondition, a postcondition for returns and one for exceptions. *)
Definition triple {S E A} (P : S → Prop) (m : eff S E A)
    (Q : A → S → Prop) (X : E → S → Prop) : Prop :=
  ∀ s, P s → match m s with Ret a s' => Q a s' | Raise e s' => X e s' end.

Section triple_rules.
Context {S E : Type}.
Implicit Types P : S → Prop.
Implicit Types X : E → S → Prop.

Lemma triple_ret {A} P (a : A) Q X :
  (∀ s, P s → Q a s) → triple P (mret (M:=eff S E) a) Q X.
Proof. intros H s Hs. exact (H s Hs). Qed.

Lemma triple_bind {A B} P (m : eff S E A) (f : A → eff S E B) R Q X :
  triple P m R X →
  (∀ a, triple (R a) (f a) Q X) →
  triple P (m ≫= f) Q X.
Proof.
  intros Hm Hf s Hs. specialize (Hm s Hs).
  unfold mbind, eff_bind. destruct (m s) as [a s'|e s'].
  - exact (Hf a s' Hm).
  - exact Hm.
Qed.

Lemma triple_conseq {A} P P' (m : eff S E A) Q Q' X X' :
  triple P' m Q' X' →
  (∀ s, P s → P' s) →
  (∀ a s, Q' a s → Q a s) →
  (∀ e s, X' e s → X e s) →
  triple P m Q X.
Proof.
  intros Hm HP HQ HX s Hs. specialize (Hm s (HP s Hs)).
  destruct (m s); eauto.
Qed.

Lemma triple_gets {A} P (g : S → A) Q X :
  (∀ s, P s → Q (g s) s) → triple P (gets g) Q X.
Proof. intros H s Hs. exact (H s Hs). Qed.

Lemma triple_modify P (g : S → S) Q X :
  (∀ s, P s → Q tt (g s)) → triple P (modify g) Q X.
Proof. intros H s Hs. exact (H s Hs). Qed.

Lemma triple_raise {A} P (e : E) Q X :
  (∀ s, P s → X e s) → triple P (raise (A:=A) e) Q X.
Proof. intros H s Hs. exact (H s Hs). Qed.
End triple_rules.

(** ** Integers at a machine width *)

Definition byte (z : Z) : Prop := 0 ≤ z < 256.
Definition word16 (z : Z) : Prop := 0 ≤ z < 65536.
Abbreviation bytes := (list Z).
Definition is_bytes (l : bytes) : Prop := Forall byte l.

#[export] Instance byte_dec z : Decision (byte z).
Proof. unfold byte. apply _. Defined.
#[export] Instance word16_dec z : Decision (word16 z).
Proof. unfold word16. apply _. Defined.

Definition bool_Z (b : bool) : Z := if b then 1 else 0.
Definition truthy (z : Z) : bool := negb (z =? 0).

(** [x & 0xFF] and [x & 0xFFFF] are reductions modulo a power of two. *)
Definition u8 (z : Z) : Z := Z.land z 0xFF.
Definition u16 (z : Z) : Z := Z.land z 0xFFFF.

Lemma u8_mod z : u8 z = z mod 256.
Proof. unfold u8. change 0xFF with (Z.ones 8). by rewrite Z.land_ones. Qed.

Lemma u16_mod z : u16 z = z mod 65536.
Proof. unfold u16. change 0xFFFF with (Z.ones 16). by rewrite Z.land_ones. Qed.

Lemma u8_byte z : byte (u8 z).
Proof. rewrite u8_mod. unfold byte. apply Z.mod_pos_bound. lia. Qed.

Lemma u16_word16 z : word16 (u16 z).
Proof. rewrite u16_mod. unfold word16. apply Z.mod_pos_bound. lia. Qed.

Lemma u8_small z : byte z → u8 z = z.
Proof. intros H. rewrite u8_mod. by apply Z.mod_small. Qed.

Lemma u16_small z : word16 z → u16 z = z.
Proof. intros H. rewrite u16_mod. by apply Z.mod_small. Qed.

Lemma byte_word16 z : byte z → word16 z.
Proof. unfold byte, word16. lia. Qed.

(** Values that fit in [n] bits, and the bit operations that keep them there. *)
Lemma bits_below n z :
  0 ≤ n → (∀ i, n ≤ i → Z.testbit z i = false) → 0 ≤ z → z < 2 ^ n.
Proof.
  intros Hn Hb Hz. destruct (Z.eq_dec z 0) as [->|]; [apply Z.pow_pos_nonneg; lia|].
  apply Z.log2_lt_pow2; [lia|].
  destruct (Z.lt_ge_cases (Z.log2 z) n) as [|Hge]; [done|].
  specialize (Hb _ Hge). rewrite Z.bit_log2 in Hb; [done|lia].
Qed.

Lemma testbit_above n z i : 0 ≤ z < 2 ^ n → n ≤ i → Z.testbit z i = false.
Proof.
  intros [H0 H1] Hi. destruct (Z.eq_dec z 0) as [->|]; [apply Z.bits_0|].
  apply Z.bits_above_log2; [lia|].
  apply Z.lt_le_trans with n; [|lia].
  apply Z.log2_lt_pow2; lia.
Qed.

Lemma lor_bound n x y :
  0 ≤ n → 0 ≤ x < 2 ^ n → 0 ≤ y < 2 ^ n → 0 ≤ Z.lor x y < 2 ^ n.
Proof.
  intros Hn Hx Hy. assert (0 ≤ Z.lor x y) by (apply Z.lor_nonneg; lia).
  split; [done|]. apply bits_below; [lia| |done].
  intros i Hi. by rewrite Z.lor_spec, !(testbit_above n).
Qed.

Lemma lxor_bound n x y :
  0 ≤ n → 0 ≤ x < 2 ^ n → 0 ≤ y < 2 ^ n → 0 ≤ Z.lxor x y < 2 ^ n.
Proof.
  intros Hn Hx Hy. assert (0 ≤ Z.lxor x y) by (apply Z.lxor_nonneg; lia).
  split; [done|]. apply bits_below; [lia| |done].
  intros i Hi. by rewrite Z.lxor_spec, !(testbit_above n).
Qed.

Lemma land_bound n x y :
  0 ≤ n → 0 ≤ x < 2 ^ n → 0 ≤ y → 0 ≤ Z.land x y < 2 ^ n.
Proof.
  intros Hn Hx Hy. assert (0 ≤ Z.land x y) by (apply Z.land_nonneg; lia).
  split; [done|]. apply bits_below; [lia| |done].
  intros i Hi. rewrite Z.land_spec, (testbit_above n x); done.
Qed.

Lemma byte_lor x y : byte x → byte y → byte (Z.lor x y).
Proof. apply (lor_bound 8); lia. Qed.
Lemma byte_lxor x y : byte x → byte y → byte (Z.lxor x y).
Proof. apply (lxor_bound 8); lia. Qed.
Lemma byte_land x y : byte x → byte y → byte (Z.land x y).
Proof. intros Hx Hy. apply (land_bound 8); [lia|done|unfold byte in *; lia]. Qed.
Lemma byte_shiftr x : byte x → byte (x ≫ 1).
Proof.
  unfold byte. rewrite Z.shiftr_div_pow2 by lia. change (2 ^ 1) with 2.
  intros. Z.to_euclidean_division_equations. lia.
Qed.

(** [lo | (hi << 8)] of two bytes is [lo + 256 * hi]. *)
Lemma lor_shiftl8 lo hi : byte lo → 0 ≤ hi → Z.lor lo (hi ≪ 8) = lo + 256 * hi.
Proof.
  unfold byte. intros Hlo Hhi.
  assert (Hdisj : Z.land lo (hi ≪ 8) = 0).
  { apply Z.bits_inj'. intros i Hi. rewrite Z.land_spec, Z.bits_0.
    destruct (Z.lt_ge_cases i 8).
    - rewrite Z.shiftl_spec_low by lia. by rewrite andb_false_r.
    - by rewrite (testbit_above 8 lo i) by lia. }
  rewrite <- Z.lxor_lor, <- Z.add_nocarry_lxor, Z.shiftl_mul_pow2 by (done || lia).
  lia.
Qed.

Lemma word16_of_bytes lo hi : byte lo → byte hi → word16 (Z.lor lo (hi ≪ 8)).
Proof.
  intros Hlo Hhi. rewrite lor_shiftl8 by (done || by destruct Hhi).
  unfold byte, word16 in *. lia.
Qed.

Create HintDb width discriminated.
#[export] Hint Resolve u8_byte u16_word16 byte_word16 byte_lor byte_lxor
  byte_land byte_shiftr word16_of_bytes : width.
#[export] Hint Extern 1 (byte _) => unfold byte; lia : width.
#[export] Hint Extern 1 (word16 _) => unfold word16; lia : width.
