(* ===== verification/PyBytes.v ===== *)
(** * Python byte strings and integers

    The parts of Python's [bytes], [bytearray] and [int] the tools use: indexing with negative
    indices, slices, little and big endian conversions, substring search. *)

From S2P Require Export Prelude.

(** [seq[i]]: a negative index counts from the end, anything else out of
    range is an [IndexError] ([None] here). *)
Definition py_index (n i : Z) : option Z :=
  if decide (0 ≤ i < n) then Some i
  else if decide (- n ≤ i < 0) then Some (i + n)
  else None.

Lemma py_index_in n i : 0 ≤ i < n → py_index n i = Some i.
Proof. intros. unfold py_index. by rewrite decide_True. Qed.

Lemma py_index_out n i : n ≤ i → 0 ≤ n → py_index n i = None.
Proof. intros. unfold py_index. rewrite !decide_False; [done|lia..]. Qed.

Lemma py_index_range n i j : py_index n i = Some j → 0 ≤ j < n.
Proof. unfold py_index. repeat case_decide; intros; simplify_eq; lia. Qed.

(** [l[a:b]] for non-negative bounds, and [l[a:]]. *)
Definition slice {A} (a b : Z) (l : list A) : list A :=
  take (Z.to_nat (b - a)) (drop (Z.to_nat a) l).
Definition from {A} (a : Z) (l : list A) : list A := drop (Z.to_nat a) l.

(** [len(l)] and [l[i]] of a byte string, [None] for an [IndexError]. *)
Definition len {A} (l : list A) : Z := Z.of_nat (length l).
Definition item {A} (l : list A) (i : Z) : option A :=
  i ← py_index (len l) i; l !! Z.to_nat i.

(** [l[i]] where a length test has made sure that it exists. *)
Definition byte_at (l : bytes) (i : nat) : Z := default 0 (l !! i).

(** [int.from_bytes(l, "little")], [int.from_bytes(l, "big")]. *)
Fixpoint from_le (l : bytes) : Z :=
  match l with
  | [] => 0
  | b :: l => b + 256 * from_le l
  end.
Definition from_be (l : bytes) : Z := from_le (rev l).

(** The [n] low bytes of [z], and [z.to_bytes(n, "little")], [None] for an [OverflowError]. *)
Fixpoint le_bytes (n : nat) (z : Z) : bytes :=
  match n with
  | O => []
  | S n => z mod 256 :: le_bytes n (z / 256)
  end.
Definition to_le (n : nat) (z : Z) : option bytes :=
  if decide (0 ≤ z < 256 ^ Z.of_nat n) then Some (le_bytes n z) else None.
Definition to_be (n : nat) (z : Z) : option bytes := @rev Z <$> to_le n z.

Lemma len_nonneg {A} (l : list A) : 0 ≤ len l.
Proof. unfold len. lia. Qed.
Lemma len_app {A} (l k : list A) : len (l ++ k) = len l + len k.
Proof. unfold len. rewrite length_app. lia. Qed.
Lemma len_cons {A} (x : A) l : len (x :: l) = 1 + len l.
Proof. unfold len. cbn [length]. lia. Qed.
Lemma len_slice {A} a b (l : list A) : 0 ≤ a ≤ b → b ≤ len l → len (slice a b l) = b - a.
Proof. unfold len, slice. intros. rewrite length_take, length_drop. lia. Qed.
Lemma len_from {A} a (l : list A) : 0 ≤ a ≤ len l → len (from a l) = len l - a.
Proof. unfold len, from. intros. rewrite length_drop. lia. Qed.
Lemma item_in {A} (l : list A) i : 0 ≤ i < len l → item l i = l !! Z.to_nat i.
Proof. intros. unfold item. by rewrite py_index_in. Qed.
Lemma item_is_Some {A} (l : list A) i : 0 ≤ i < len l → is_Some (item l i).
Proof. intros. rewrite item_in by done. apply lookup_lt_is_Some. unfold len in *. lia. Qed.

Lemma slice_all {A} b (l : list A) : len l ≤ b → slice 0 b l = l.
Proof. unfold len, slice. intros. cbn. apply take_ge. lia. Qed.
Lemma slice_app {A} a b c (l : list A) :
  0 ≤ a ≤ b → b ≤ c → slice a b l ++ slice b c l = slice a c l.
Proof.
  intros. unfold slice. replace (Z.to_nat b) with (Z.to_nat a + Z.to_nat (b - a))%nat by lia.
  rewrite <- drop_drop. replace (Z.to_nat (c - a)) with (Z.to_nat (b - a) + Z.to_nat (c - b))%nat
    by lia. by rewrite take_add_app_drop || rewrite take_take_drop.
Qed.

Lemma slice_mid {A} x y (a b c : list A) : x = len a → y = x + len b → slice x y (a ++ b ++ c) = b.
Proof.
  intros -> ->. unfold slice, len. rewrite drop_app_length' by lia. apply take_app_length'. lia.
Qed.

Lemma is_bytes_slice a b l : is_bytes l → is_bytes (slice a b l).
Proof. intros. by apply Forall_take, Forall_drop. Qed.
Lemma is_bytes_from a l : is_bytes l → is_bytes (from a l).
Proof. intros. by apply Forall_drop. Qed.
Lemma is_bytes_app l k : is_bytes (l ++ k) ↔ is_bytes l ∧ is_bytes k.
Proof. apply Forall_app. Qed.

Lemma length_le_bytes n z : length (le_bytes n z) = n.
Proof. revert z. induction n; cbn; auto. Qed.
Lemma is_bytes_le_bytes n z : is_bytes (le_bytes n z).
Proof.
  revert z. induction n as [|n IH]; intros z; cbn; constructor; [|apply IH].
  apply Z.mod_pos_bound. lia.
Qed.

Lemma from_le_bound l : is_bytes l → 0 ≤ from_le l < 256 ^ len l.
Proof.
  induction 1 as [|b l Hb Hl IH]; [by cbn|]. cbn [from_le].
  rewrite len_cons, Z.pow_add_r by (try apply len_nonneg; lia).
  unfold byte in Hb. change (256 ^ 1) with 256. lia.
Qed.

Lemma from_le_bytes n z : from_le (le_bytes n z) = z mod 256 ^ Z.of_nat n.
Proof.
  revert z. induction n as [|n IH]; intros z; cbn [le_bytes from_le].
  - by rewrite Z.mod_1_r.
  - rewrite IH, Nat2Z.inj_succ, Z.pow_succ_r by lia.
    rewrite Z.rem_mul_r by lia. lia.
Qed.

Lemma le_bytes_from_le l : is_bytes l → le_bytes (length l) (from_le l) = l.
Proof.
  induction 1 as [|b l Hb Hl IH]; [done|]. cbn [length le_bytes from_le].
  unfold byte in Hb. f_equal.
  - rewrite Z.mul_comm, Z_mod_plus_full. by apply Z.mod_small.
  - rewrite Z.mul_comm, Z.div_add, Z.div_small by lia. exact IH.
Qed.

(** Decoding and encoding are inverse on values and on byte strings. *)
Lemma from_le_to_le n z l : to_le n z = Some l → from_le l = z ∧ length l = n ∧ is_bytes l.
Proof.
  unfold to_le. case_decide; [|done]. intros [= <-]. split_and!.
  - rewrite from_le_bytes. by apply Z.mod_small.
  - apply length_le_bytes.
  - apply is_bytes_le_bytes.
Qed.
Lemma to_le_from_le l n : is_bytes l → length l = n → to_le n (from_le l) = Some l.
Proof.
  intros Hl <-. unfold to_le. rewrite decide_True by by apply from_le_bound.
  by rewrite le_bytes_from_le.
Qed.
Lemma from_be_bound l : is_bytes l → 0 ≤ from_be l < 256 ^ len l.
Proof.
  intros Hl. unfold from_be. replace (len l) with (len (rev l)) by (unfold len; by rewrite length_rev).
  apply from_le_bound. by apply Forall_rev.
Qed.
Lemma from_be_inj l k :
  is_bytes l → is_bytes k → length l = length k → from_be l = from_be k → l = k.
Proof.
  unfold from_be. intros Hl Hk Hlen Heq. rewrite <- (rev_involutive l), <- (rev_involutive k). f_equal.
  rewrite <- (le_bytes_from_le (rev l)), <- (le_bytes_from_le (rev k))
    by by apply Forall_rev.
  by rewrite !length_rev, Hlen, Heq.
Qed.

(** [b"..."] *)
Definition bytes_of_string (s : string) : bytes :=
  (λ c, Z.of_nat (Ascii.nat_of_ascii c)) <$> String.list_ascii_of_string s.
