(* ===== verification/PySearch.v ===== *)
(** * Substring search on byte strings

    [pat in hay], [hay.find(pat, start)] and the loop over all matches, against the relation
    "[pat] stands at offset [i] of [hay]". *)

From S2P Require Export PyBytes.

Section search.
Context {A : Type} `{EqDecision A}.
Implicit Types pat hay : list A.

(** [pat] stands at offset [i] of [hay]. *)
Definition stands_at pat hay (i : Z) : Prop :=
  0 ≤ i ∧ ∃ l k, hay = l ++ pat ++ k ∧ len l = i.

Definition occurs pat hay : Prop := ∃ i, stands_at pat hay i.

Fixpoint starts_with pat hay : bool :=
  match pat, hay with
  | [], _ => true
  | p :: pat, h :: hay => bool_decide (p = h) && starts_with pat hay
  | _ :: _, [] => false
  end.

Fixpoint first_match pat hay : option Z :=
  if starts_with pat hay then Some 0
  else match hay with
       | [] => None
       | _ :: hay => (λ i, i + 1) <$> first_match pat hay
       end.

(** [hay.find(pat, start)] for a non-negative start; Python's -1 is [None]. *)
Definition py_find pat hay (start : Z) : option Z :=
  if len hay <? start then None else (λ i, start + i) <$> first_match pat (from start hay).

Definition py_in pat hay : bool := bool_decide (is_Some (first_match pat hay)).

Lemma starts_with_spec pat hay : starts_with pat hay = true ↔ ∃ k, hay = pat ++ k.
Proof.
  revert hay. induction pat as [|p pat IH]; intros hay; cbn; [naive_solver|].
  destruct hay as [|h hay]; [split; [done|intros [? [=]]]|].
  rewrite andb_true_iff, bool_decide_eq_true, IH. split.
  - intros [-> [k ->]]. by exists k.
  - intros [k [= -> ->]]. eauto.
Qed.

Lemma first_match_Some pat hay i :
  first_match pat hay = Some i →
  stands_at pat hay i ∧ ∀ j, stands_at pat hay j → i ≤ j.
Proof.
  revert i. induction hay as [|h hay IH]; intros i; cbn;
    (destruct (starts_with pat _) eqn:Hs;
     [intros [= <-]; apply starts_with_spec in Hs as [k Hk];
      split; [split; [lia|]; by exists [], k|by intros j [? _]]|]); [done|].
  destruct (first_match pat hay) as [i'|]; [|done]. intros [= <-].
  destruct (IH i' eq_refl) as [(H0 & l & k & -> & <-) Hmin]. split.
  - split; [lia|]. exists (h :: l), k. rewrite len_cons. split; [done|lia].
  - intros j (Hj & l' & k' & Heq & <-). destruct l' as [|h' l'].
    + exfalso. apply not_true_iff_false in Hs. apply Hs, starts_with_spec. by exists k'.
    + injection Heq as -> Heq. rewrite len_cons.
      enough (len l ≤ len l') by lia. apply Hmin. split; [apply len_nonneg|].
      by exists l', k'.
Qed.

Lemma first_match_head pat hay : starts_with pat hay = true → first_match pat hay = Some 0.
Proof. intros Hs. destruct hay; cbn [first_match]; by rewrite Hs. Qed.

Lemma first_match_None pat hay : first_match pat hay = None ↔ ¬ occurs pat hay.
Proof.
  split.
  - intros Hn (i & _ & l & k & -> & _). revert Hn. induction l as [|x l IH].
    + rewrite first_match_head; [done|]. apply starts_with_spec. by exists k.
    + cbn [app first_match]. destruct (starts_with pat _); [done|]. by destruct (first_match pat (l ++ pat ++ k)).
  - intros Hn. destruct (first_match pat hay) as [i|] eqn:Hm; [|done].
    apply first_match_Some in Hm as [Hm _]. destruct Hn. by exists i.
Qed.

Lemma py_in_spec pat hay : py_in pat hay = true ↔ occurs pat hay.
Proof.
  unfold py_in. rewrite bool_decide_eq_true. split.
  - intros [i Hi%first_match_Some]. exists i. apply Hi.
  - intros Ho. destruct (first_match pat hay) eqn:Hm; [eauto|].
    by apply first_match_None in Hm.
Qed.

(** Offsets in a suffix. *)
Lemma stands_at_from pat hay s i :
  0 ≤ s ≤ len hay → 0 ≤ i → stands_at pat (from s hay) i ↔ stands_at pat hay (s + i).
Proof.
  intros Hs Hi. unfold from.
  assert (Hl : len (take (Z.to_nat s) hay) = s) by (unfold len in *; rewrite length_take; lia).
  pose proof (take_drop (Z.to_nat s) hay) as Hhay.
  set (p := take _ hay) in *. set (q := drop _ hay) in *. clearbody p q. subst hay. split.
  - intros (_ & l & k & -> & <-). split; [lia|]. exists (p ++ l), k.
    by rewrite len_app, <- !app_assoc, Hl.
  - intros (_ & l & k & Heq & Hlen). split; [done|].
    apply app_eq_inv in Heq as [(m & -> & Heq)|(m & -> & Heq)].
    + rewrite len_app in Hl. assert (m = []) as -> by (destruct m; [done|]; rewrite len_cons in Hl;
        pose proof (len_nonneg m); lia).
      exists [], k. split; [done|]. unfold len in *. cbn in *. lia.
    + rewrite len_app in Hlen. exists m, k. split; [done|lia].
Qed.

Lemma stands_at_bound pat hay i : stands_at pat hay i → 0 ≤ i ≤ len hay - len pat.
Proof.
  intros (Hi & l & k & -> & <-). rewrite !len_app. pose proof (len_nonneg k). lia.
Qed.

Lemma py_find_Some pat hay s i :
  0 ≤ s → py_find pat hay s = Some i →
  s ≤ i ∧ stands_at pat hay i ∧ ∀ j, s ≤ j → stands_at pat hay j → i ≤ j.
Proof.
  unfold py_find. intros Hs. destruct (Z.ltb_spec (len hay) s); [done|].
  destruct (first_match pat (from s hay)) as [i'|] eqn:Hm; [|done]. intros [= <-].
  apply first_match_Some in Hm as [Hm Hmin]. pose proof (stands_at_bound _ _ _ Hm).
  split; [lia|]. split; [apply stands_at_from; [lia..|done]|].
  intros j Hj Hat. specialize (Hmin (j - s)). rewrite stands_at_from in Hmin by lia.
  replace (s + (j - s)) with j in Hmin by lia. specialize (Hmin Hat). lia.
Qed.

Lemma py_find_None pat hay s :
  0 ≤ s → py_find pat hay s = None → ∀ j, s ≤ j → ¬ stands_at pat hay j.
Proof.
  unfold py_find. intros Hs. destruct (Z.ltb_spec (len hay) s).
  - intros _ j Hj Hat. apply stands_at_bound in Hat. pose proof (len_nonneg pat). lia.
  - destruct (first_match pat (from s hay)) as [i'|] eqn:Hm; [done|]. intros _ j Hj Hat.
    apply first_match_None in Hm. apply Hm. exists (j - s).
    apply stands_at_from; [lia..|]. by replace (s + (j - s)) with j by lia.
Qed.

(** Every match from [s] on: [at = hay.find(pat, s); while at >= 0: ...; at =
    hay.find(pat, at + 1)]. *)
Fixpoint find_all (fuel : nat) pat hay (s : Z) : list Z :=
  match fuel with
  | O => []
  | S fuel => match py_find pat hay s with
              | None => []
              | Some i => i :: find_all fuel pat hay (i + 1)
              end
  end.
Definition matches pat hay : list Z := find_all (S (S (length hay))) pat hay 0.

Lemma find_all_spec fuel pat hay s i :
  0 ≤ s → len hay + 1 - s < Z.of_nat fuel →
  i ∈ find_all fuel pat hay s ↔ s ≤ i ∧ stands_at pat hay i.
Proof.
  revert s. induction fuel as [|fuel IH]; intros s Hs Hf; cbn [find_all].
  - rewrite elem_of_nil. split; [done|]. intros [Hi Hat%stands_at_bound].
    pose proof (len_nonneg pat). lia.
  - destruct (py_find pat hay s) as [j|] eqn:Hj.
    + apply py_find_Some in Hj as (Hsj & Hat & Hmin); [|done].
      pose proof (stands_at_bound _ _ _ Hat). pose proof (len_nonneg pat).
      rewrite elem_of_cons, IH by lia. split.
      * intros [->|[? ?]]; split; (done || lia).
      * intros [Hi Hati]. pose proof (Hmin i Hi Hati).
        destruct (decide (i = j)) as [|]; [by left|right]. split; [lia|done].
    + rewrite elem_of_nil. split; [done|]. intros [Hi Hat].
      by apply (py_find_None pat hay s Hs Hj i Hi).
Qed.

Lemma elem_of_matches pat hay i : i ∈ matches pat hay ↔ stands_at pat hay i.
Proof.
  unfold matches. rewrite find_all_spec by (unfold len; lia).
  split; [by intros [_ ?]|]. intros Hat. split; [apply Hat|done].
Qed.

Lemma occurs_matches pat hay : occurs pat hay ↔ matches pat hay ≠ [].
Proof.
  unfold occurs. setoid_rewrite <- elem_of_matches. split.
  - intros [i Hi] Hn. rewrite Hn in Hi. by apply elem_of_nil in Hi.
  - destruct (matches pat hay) as [|i l]; [done|]. exists i. by left.
Qed.

(** Weaker patterns and larger texts. *)
Lemma occurs_app pat l hay k : occurs pat hay → occurs pat (l ++ hay ++ k).
Proof.
  intros (i & Hi & l' & k' & -> & <-). exists (len l + len l'). split; [pose proof (len_nonneg l); lia|].
  exists (l ++ l'), (k' ++ k). by rewrite len_app, <- !app_assoc.
Qed.

Lemma occurs_sub pat pat' hay : occurs pat' hay → occurs pat pat' → occurs pat hay.
Proof. intros (i & _ & l & k & -> & _) Hp. by apply occurs_app. Qed.

Lemma occurs_slice pat hay a b : occurs pat (slice a b hay) → occurs pat hay.
Proof.
  intros Ho. unfold slice in Ho.
  rewrite <- (take_drop (Z.to_nat a) hay),
    <- (take_drop (Z.to_nat (b - a)) (drop (Z.to_nat a) hay)).
  by apply occurs_app.
Qed.
End search.
