(* ===== verification/PyStr.v ===== *)
(** * Python strings

    [str] restricted to one-byte characters, as [string]: number formatting, stripping,
    searching and splitting, as the tools use them. *)

From Stdlib Require Export Ascii.
From stdpp Require Export pretty.
From S2P Require Export PySearch.

Definition chars (s : string) : list ascii := String.list_ascii_of_string s.
Definition str (l : list ascii) : string := String.string_of_list_ascii l.

Lemma str_chars s : str (chars s) = s.
Proof. apply String.string_of_list_ascii_of_string. Qed.
Lemma chars_str l : chars (str l) = l.
Proof. apply String.list_ascii_of_string_of_list_ascii. Qed.
Lemma chars_app s t : chars (s +:+ t) = chars s ++ chars t.
Proof.
  unfold chars. induction s as [|c s IH]; [done|].
  change (String c s +:+ t) with (String c (s +:+ t)). cbn. by rewrite IH.
Qed.
Lemma chars_inj s t : chars s = chars t → s = t.
Proof. intros Heq. by rewrite <- (str_chars s), <- (str_chars t), Heq. Qed.

(** [str(z)] *)
Definition dec (z : Z) : string := pretty z.

(** [str(z)] is made of digits and possibly a sign. *)
Definition number_char (c : ascii) : Prop := c = "-"%char ∨ (48 ≤ nat_of_ascii c ≤ 57)%nat.

Lemma pretty_N_char_number n : number_char (pretty_N_char n).
Proof.
  right. unfold pretty_N_char.
  repeat case_match; apply (bool_decide_unpack _); by vm_compute.
Qed.

Lemma pretty_N_go_number x s :
  Forall number_char (chars s) → Forall number_char (chars (pretty_N_go x s)).
Proof.
  revert s. induction (N.lt_wf_0 x) as [x _ IH]; intros s Hs.
  assert (x = 0 ∨ 0 < x)%N as [->|?] by lia; [by rewrite pretty_N_go_0|].
  rewrite pretty_N_go_step by done. apply IH; [by apply N.div_lt|].
  constructor; [apply pretty_N_char_number|done].
Qed.

Lemma dec_number z : Forall number_char (chars (dec z)).
Proof.
  assert (HN : ∀ n : N, Forall number_char (chars (pretty n))).
  { intros n. unfold pretty, pretty_N. case_decide.
    - constructor; [|constructor]. right. apply (bool_decide_unpack _). by vm_compute.
    - by apply pretty_N_go_number; constructor. }
  unfold dec, pretty, pretty_Z. destruct z as [|p|p].
  - constructor; [|constructor]. right. apply (bool_decide_unpack _). by vm_compute.
  - apply HN.
  - apply Forall_cons. split; [by left|apply HN].
Qed.

Lemma dec_without c z : c ≠ "-"%char → ¬ (48 ≤ nat_of_ascii c ≤ 57)%nat → c ∉ chars (dec z).
Proof.
  intros Hd Hn Hin. pose proof (dec_number z) as Hall. rewrite Forall_forall in Hall.
  by destruct (Hall c Hin).
Qed.

#[export] Instance dec_inj : Inj (=) (=) dec.
Proof. unfold dec. apply _. Qed.

Definition hex_digit (upper : bool) (d : Z) : ascii :=
  Ascii.ascii_of_nat (Z.to_nat (if d <? 10 then 48 + d else (if upper then 55 else 87) + d)).

(** The [n] low hexadecimal digits of [z], most significant first. *)
Fixpoint hex_low (upper : bool) (n : nat) (z : Z) : list ascii :=
  match n with
  | O => []
  | S n => hex_low upper n (z / 16) ++ [hex_digit upper (z mod 16)]
  end.

(** How many hexadecimal digits a non-negative number has. *)
Definition hex_size (z : Z) : nat := Z.to_nat (if z =? 0 then 1 else Z.log2 z / 4 + 1).

(** [f"{z:0nx}"] and [f"{z:0nX}"] for a non-negative number. *)
Definition hex_pad (upper : bool) (n : nat) (z : Z) : string :=
  str (hex_low upper (Nat.max n (hex_size z)) z).

(** [l.hex()] *)
Definition hex_bytes (l : bytes) : string := str (concat (hex_low false 2 <$> l)).

Example hex_pad_short : hex_pad false 8 0x1a2b = "00001a2b". Proof. by vm_compute. Qed.
Example hex_pad_long : hex_pad true 2 0xDEAD = "DEAD". Proof. by vm_compute. Qed.
Example hex_bytes_two : hex_bytes [1; 255] = "01ff". Proof. by vm_compute. Qed.

(** [sorted] on strings, and [sorted(set(l))]. *)
Fixpoint insert_string (x : string) (l : list string) : list string :=
  match l with
  | [] => [x]
  | y :: l => if String.leb x y then x :: y :: l else y :: insert_string x l
  end.
Definition sort_strings (l : list string) : list string := foldr insert_string [] l.
Definition sort_unique (l : list string) : list string := sort_strings (remove_dups l).

Lemma insert_string_elem x y l : x ∈ insert_string y l ↔ x = y ∨ x ∈ l.
Proof.
  induction l as [|z l IH]; cbn [insert_string]; [rewrite elem_of_cons; tauto|].
  destruct (String.leb y z); rewrite !elem_of_cons; [done|]. rewrite IH. tauto.
Qed.
Lemma sort_unique_elem x l : x ∈ sort_unique l ↔ x ∈ l.
Proof.
  unfold sort_unique. rewrite <- (elem_of_remove_dups l x). induction (remove_dups l) as [|y ys IH]; [done|].
  cbn [sort_strings foldr]. rewrite insert_string_elem, IH, elem_of_cons. tauto.
Qed.
Lemma length_insert_string x l : length (insert_string x l) = S (length l).
Proof. induction l as [|y l IH]; [done|]. cbn [insert_string]. destruct (String.leb x y); [done|]. cbn. by rewrite IH. Qed.
Lemma length_sort_unique l : length (sort_unique l) = length (remove_dups l).
Proof.
  unfold sort_unique. induction (remove_dups l) as [|y ys IH]; [done|].
  unfold sort_strings in *. cbn [foldr length]. by rewrite length_insert_string, IH.
Qed.

(** ** Characters *)

Definition code (c : ascii) : Z := Z.of_nat (nat_of_ascii c).
Definition space_char (c : ascii) : bool :=
  let z := code c in
  ((9 <=? z) && (z <=? 13)) || ((28 <=? z) && (z <=? 32)) || (z =? 133) || (z =? 160).
Definition lower_char (c : ascii) : ascii :=
  if (65 <=? code c) && (code c <=? 90) then ascii_of_nat (nat_of_ascii c + 32) else c.
Definition upper_char (c : ascii) : ascii :=
  if (97 <=? code c) && (code c <=? 122) then ascii_of_nat (nat_of_ascii c - 32) else c.
(** [s.lower()] and [s.upper()] on ASCII text. *)
Definition lower (s : string) : string := str (lower_char <$> chars s).
Definition upper (s : string) : string := str (upper_char <$> chars s).

(** ** Stripping *)

Fixpoint drop_while {A} (f : A → bool) (l : list A) : list A :=
  match l with
  | x :: l' => if f x then drop_while f l' else l
  | [] => []
  end.
Definition rstrip {A} (f : A → bool) (l : list A) : list A := rev (drop_while f (rev l)).
Definition strip (s : string) : string :=
  str (rstrip space_char (drop_while space_char (chars s))).

Lemma drop_while_suffix {A} (f : A → bool) l : ∃ k, l = k ++ drop_while f l ∧ Forall (λ x, f x = true) k.
Proof.
  induction l as [|x l (k & Hl & Hk)]; [by exists []|]. cbn. destruct (f x) eqn:Hx.
  - exists (x :: k). cbn. rewrite <- Hl. split; [done|by constructor].
  - by exists [].
Qed.

(** ** Splitting *)

(** [s.split(c)] for one character: always at least one part. *)
Fixpoint split_chars (c : ascii) (l : list ascii) : list (list ascii) :=
  match l with
  | [] => [[]]
  | x :: l =>
      if decide (x = c) then [] :: split_chars c l
      else match split_chars c l with
           | p :: ps => (x :: p) :: ps
           | [] => [[x]]
           end
  end.
Definition split_on (c : ascii) (s : string) : list string := str <$> split_chars c (chars s).

(** [sep.join(l)] *)
Fixpoint join (sep : string) (l : list string) : string :=
  match l with
  | [] => ""
  | [s] => s
  | s :: l => s +:+ sep +:+ join sep l
  end.

Lemma split_chars_head c l r : c ∉ l → split_chars c (l ++ c :: r) = l :: split_chars c r.
Proof.
  induction l as [|x l IH]; intros Hc; cbn.
  - by rewrite decide_True.
  - apply not_elem_of_cons in Hc as [Hx Hc]. rewrite decide_False by done. by rewrite IH.
Qed.
Lemma split_chars_last c l : c ∉ l → split_chars c l = [l].
Proof.
  induction l as [|x l IH]; intros Hc; cbn; [done|].
  apply not_elem_of_cons in Hc as [Hx Hc]. rewrite decide_False by done. by rewrite IH.
Qed.

(** Splitting undoes joining, when no part holds the separator. *)
Lemma split_join c l :
  l ≠ [] → Forall (λ s, c ∉ chars s) l → split_on c (join (String c "") l) = l.
Proof.
  intros Hl Hc. unfold split_on. induction Hc as [|s l Hs Hc IH]; [done|].
  destruct l as [|s' l].
  - cbn [join]. rewrite split_chars_last by done. cbn. by rewrite str_chars.
  - change (join (String c "") (s :: s' :: l)) with (s +:+ String c "" +:+ join (String c "") (s' :: l)).
    rewrite !chars_app. change (chars (String c "")) with [c]. cbn [app].
    rewrite split_chars_head by done. cbn [fmap list_fmap]. by rewrite str_chars, IH.
Qed.

(** [s.partition(c)]: the part before, whether [c] is there, the part after. *)
Fixpoint partition_chars (c : ascii) (l : list ascii) : list ascii * bool * list ascii :=
  match l with
  | [] => ([], false, [])
  | x :: l =>
      if decide (x = c) then ([], true, l)
      else let '(a, found, b) := partition_chars c l in (x :: a, found, b)
  end.
Definition partition (c : ascii) (s : string) : string * bool * string :=
  let '(a, found, b) := partition_chars c (chars s) in (str a, found, str b).
(** [s.rpartition(c)] *)
Definition rpartition (c : ascii) (s : string) : string * bool * string :=
  let '(b, found, a) := partition_chars c (rev (chars s)) in
  if found then (str (rev a), true, str (rev b)) else ("", false, s).

(** [s.splitlines()] *)
Definition line_break (c : ascii) : bool :=
  let z := code c in
  (z =? 10) || (z =? 11) || (z =? 12) || (z =? 13) || (z =? 28) || (z =? 29) || (z =? 30)
  || (z =? 133).
Fixpoint lines_chars (l : list ascii) (acc : list ascii) : list (list ascii) :=
  match l with
  | [] => match acc with [] => [] | _ => [rev acc] end
  | x :: l' =>
      if line_break x then
        rev acc :: match l' with
                   | y :: l'' => if (code x =? 13) && (code y =? 10)
                                 then lines_chars l'' [] else lines_chars l' []
                   | [] => []
                   end
      else lines_chars l' (x :: acc)
  end.
Definition splitlines (s : string) : list string := str <$> lines_chars (chars s) [].

(** [s.startswith(prefix)] and [part in s] *)
Definition startswith (prefix s : string) : bool := starts_with (chars prefix) (chars s).
Definition contains (part s : string) : bool := py_in (chars part) (chars s).

(** ** Numbers *)

Definition digit_value (c : ascii) : option Z :=
  let z := code c in
  if (48 <=? z) && (z <=? 57) then Some (z - 48)
  else if (97 <=? z) && (z <=? 122) then Some (z - 87)
  else if (65 <=? z) && (z <=? 90) then Some (z - 55)
  else None.

(** The digits of a number; an underscore may separate two of them. *)
Fixpoint digits_value (base : Z) (l : list ascii) (acc : Z) (after_digit : bool) : option Z :=
  match l with
  | [] => if after_digit then Some acc else None
  | c :: l =>
      if decide (c = "_"%char) then
        if after_digit then digits_value base l acc false else None
      else
        d ← digit_value c;
        if d <? base then digits_value base l (acc * base + d) true else None
  end.

(** [int(s, base)] for base 10 or 16, [None] for a [ValueError]. *)
Definition parse_int (base : Z) (s : string) : option Z :=
  let l := chars (strip s) in
  let '(sign, l) := match l with
    | c :: l' => if decide (c = "-"%char) then (-1, l')
                 else if decide (c = "+"%char) then (1, l') else (1, l)
    | [] => (1, l)
    end in
  let l := match l with
    | z :: x :: l' =>
        if (base =? 16) && bool_decide (z = "0"%char) && (code (lower_char x) =? 120)
        then match l' with
             | u :: l'' => if decide (u = "_"%char) then l'' else l'
             | [] => l'
             end
        else l
    | _ => l
    end in
  Z.mul sign <$> digits_value base l 0 false.

Example parse_int_dec : parse_int 10 " -1_000 " = Some (-1000). Proof. by vm_compute. Qed.
Example parse_int_hex : parse_int 16 "0xfF" = Some 255. Proof. by vm_compute. Qed.
Example parse_int_bad : parse_int 10 "1__0" = None. Proof. by vm_compute. Qed.
Example splitlines_ex : splitlines (str (ascii_of_nat <$> [65; 13; 10; 66; 10; 10]%nat)) = ["A"; "B"; ""].
Proof. by vm_compute. Qed.
Example split_on_ex : split_on "." "10.0.66.1" = ["10"; "0"; "66"; "1"]. Proof. by vm_compute. Qed.
