(* ===== verification/Mos6502.v ===== *)
(** * The 6502 interpreter of tools/uci/mos6502.py

    The processor state, the opcode table, the addressing modes, one definition per
    operation and the two drivers [step] and [call].  Flags, which the code keeps
    as 0 or 1, are booleans; the 64 KiB [bytearray] is a finite map whose absent addresses
    hold 0; the I/O callbacks are an [IODevice]. *)

From S2P Require Export PyBytes.

(** ** Instructions *)

Inductive mode : Set :=
| IMP | ACC | IMM | ZP | ZPX | ZPY | ABS | ABX | ABY | IND | IZX | IZY | REL.

#[export] Instance mode_eq_dec : EqDecision mode.
Proof. solve_decision. Defined.

Inductive mnemonic : Set :=
| ADC | AND | ASL | BCC | BCS | BEQ | BIT | BMI | BNE | BPL | BRK | BVC | BVS | CLC | CLD
| CLI | CLV | CMP | CPX | CPY | DEC | DEX | DEY | EOR | INC | INX | INY | JMP | JSR | LDA
| LDX | LDY | LSR | NOP | ORA | PHA | PHP | PLA | PLP | ROL | ROR | RTI | RTS | SBC | SEC
| SED | SEI | STA | STX | STY | TAX | TAY | TSX | TXA | TXS | TYA.

#[export] Instance mnemonic_eq_dec : EqDecision mnemonic.
Proof. solve_decision. Defined.

(** opcode, then mnemonic, addressing mode and base cycles *)
Definition TABLE : list (Z * (mnemonic * mode * Z)) :=
  [
    (0x69, (ADC, IMM, 2)); (0x65, (ADC, ZP, 3)); (0x75, (ADC, ZPX, 4));
    (0x6D, (ADC, ABS, 4)); (0x7D, (ADC, ABX, 4)); (0x79, (ADC, ABY, 4));
    (0x61, (ADC, IZX, 6)); (0x71, (ADC, IZY, 5)); (0x29, (AND, IMM, 2));
    (0x25, (AND, ZP, 3)); (0x35, (AND, ZPX, 4)); (0x2D, (AND, ABS, 4));
    (0x3D, (AND, ABX, 4)); (0x39, (AND, ABY, 4)); (0x21, (AND, IZX, 6));
    (0x31, (AND, IZY, 5)); (0x0A, (ASL, ACC, 2)); (0x06, (ASL, ZP, 5));
    (0x16, (ASL, ZPX, 6)); (0x0E, (ASL, ABS, 6)); (0x1E, (ASL, ABX, 7));
    (0x90, (BCC, REL, 2)); (0xB0, (BCS, REL, 2)); (0xF0, (BEQ, REL, 2));
    (0x30, (BMI, REL, 2)); (0xD0, (BNE, REL, 2)); (0x10, (BPL, REL, 2));
    (0x50, (BVC, REL, 2)); (0x70, (BVS, REL, 2)); (0x24, (BIT, ZP, 3));
    (0x2C, (BIT, ABS, 4)); (0x00, (BRK, IMP, 7)); (0x18, (CLC, IMP, 2));
    (0xD8, (CLD, IMP, 2)); (0x58, (CLI, IMP, 2)); (0xB8, (CLV, IMP, 2));
    (0xC9, (CMP, IMM, 2)); (0xC5, (CMP, ZP, 3)); (0xD5, (CMP, ZPX, 4));
    (0xCD, (CMP, ABS, 4)); (0xDD, (CMP, ABX, 4)); (0xD9, (CMP, ABY, 4));
    (0xC1, (CMP, IZX, 6)); (0xD1, (CMP, IZY, 5)); (0xE0, (CPX, IMM, 2));
    (0xE4, (CPX, ZP, 3)); (0xEC, (CPX, ABS, 4)); (0xC0, (CPY, IMM, 2));
    (0xC4, (CPY, ZP, 3)); (0xCC, (CPY, ABS, 4)); (0xC6, (DEC, ZP, 5));
    (0xD6, (DEC, ZPX, 6)); (0xCE, (DEC, ABS, 6)); (0xDE, (DEC, ABX, 7));
    (0xCA, (DEX, IMP, 2)); (0x88, (DEY, IMP, 2)); (0x49, (EOR, IMM, 2));
    (0x45, (EOR, ZP, 3)); (0x55, (EOR, ZPX, 4)); (0x4D, (EOR, ABS, 4));
    (0x5D, (EOR, ABX, 4)); (0x59, (EOR, ABY, 4)); (0x41, (EOR, IZX, 6));
    (0x51, (EOR, IZY, 5)); (0xE6, (INC, ZP, 5)); (0xF6, (INC, ZPX, 6));
    (0xEE, (INC, ABS, 6)); (0xFE, (INC, ABX, 7)); (0xE8, (INX, IMP, 2));
    (0xC8, (INY, IMP, 2)); (0x4C, (JMP, ABS, 3)); (0x6C, (JMP, IND, 5));
    (0x20, (JSR, ABS, 6)); (0xA9, (LDA, IMM, 2)); (0xA5, (LDA, ZP, 3));
    (0xB5, (LDA, ZPX, 4)); (0xAD, (LDA, ABS, 4)); (0xBD, (LDA, ABX, 4));
    (0xB9, (LDA, ABY, 4)); (0xA1, (LDA, IZX, 6)); (0xB1, (LDA, IZY, 5));
    (0xA2, (LDX, IMM, 2)); (0xA6, (LDX, ZP, 3)); (0xB6, (LDX, ZPY, 4));
    (0xAE, (LDX, ABS, 4)); (0xBE, (LDX, ABY, 4)); (0xA0, (LDY, IMM, 2));
    (0xA4, (LDY, ZP, 3)); (0xB4, (LDY, ZPX, 4)); (0xAC, (LDY, ABS, 4));
    (0xBC, (LDY, ABX, 4)); (0x4A, (LSR, ACC, 2)); (0x46, (LSR, ZP, 5));
    (0x56, (LSR, ZPX, 6)); (0x4E, (LSR, ABS, 6)); (0x5E, (LSR, ABX, 7));
    (0xEA, (NOP, IMP, 2)); (0x09, (ORA, IMM, 2)); (0x05, (ORA, ZP, 3));
    (0x15, (ORA, ZPX, 4)); (0x0D, (ORA, ABS, 4)); (0x1D, (ORA, ABX, 4));
    (0x19, (ORA, ABY, 4)); (0x01, (ORA, IZX, 6)); (0x11, (ORA, IZY, 5));
    (0x48, (PHA, IMP, 3)); (0x08, (PHP, IMP, 3)); (0x68, (PLA, IMP, 4));
    (0x28, (PLP, IMP, 4)); (0x2A, (ROL, ACC, 2)); (0x26, (ROL, ZP, 5));
    (0x36, (ROL, ZPX, 6)); (0x2E, (ROL, ABS, 6)); (0x3E, (ROL, ABX, 7));
    (0x6A, (ROR, ACC, 2)); (0x66, (ROR, ZP, 5)); (0x76, (ROR, ZPX, 6));
    (0x6E, (ROR, ABS, 6)); (0x7E, (ROR, ABX, 7)); (0x40, (RTI, IMP, 6));
    (0x60, (RTS, IMP, 6)); (0xE9, (SBC, IMM, 2)); (0xE5, (SBC, ZP, 3));
    (0xF5, (SBC, ZPX, 4)); (0xED, (SBC, ABS, 4)); (0xFD, (SBC, ABX, 4));
    (0xF9, (SBC, ABY, 4)); (0xE1, (SBC, IZX, 6)); (0xF1, (SBC, IZY, 5));
    (0x38, (SEC, IMP, 2)); (0xF8, (SED, IMP, 2)); (0x78, (SEI, IMP, 2));
    (0x85, (STA, ZP, 3)); (0x95, (STA, ZPX, 4)); (0x8D, (STA, ABS, 4));
    (0x9D, (STA, ABX, 5)); (0x99, (STA, ABY, 5)); (0x81, (STA, IZX, 6));
    (0x91, (STA, IZY, 6)); (0x86, (STX, ZP, 3)); (0x96, (STX, ZPY, 4));
    (0x8E, (STX, ABS, 4)); (0x84, (STY, ZP, 3)); (0x94, (STY, ZPX, 4));
    (0x8C, (STY, ABS, 4)); (0xAA, (TAX, IMP, 2)); (0xA8, (TAY, IMP, 2));
    (0xBA, (TSX, IMP, 2)); (0x8A, (TXA, IMP, 2)); (0x9A, (TXS, IMP, 2));
    (0x98, (TYA, IMP, 2))
  ].

Definition TABLE_map : gmap Z (mnemonic * mode * Z) := list_to_map TABLE.

(** [_TABLE[op]], [None] for a missing key *)
Definition TABLE_get (op : Z) : option (mnemonic * mode * Z) := TABLE_map !! op.

(** ** State *)

(** The callbacks the constructor is given; they may raise. *)
Class IODevice (D : Type) := {
  io_read : Z → eff D unit Z;
  io_write : Z → Z → eff D unit unit;
}.

Inductive exn : Type :=
| UnknownOpcode (opcode pc : Z)
| CpuBudgetExceeded (addr pc : Z)
| NotImplementedError
| IndexError
| AssertionError (m : mode)
| DeviceError.

Record cpu (D : Type) : Type := Cpu {
  cpu_a : Z;
  cpu_x : Z;
  cpu_y : Z;
  cpu_sp : Z;
  cpu_pc : Z;
  cpu_c : bool;
  cpu_z : bool;
  cpu_v : bool;
  cpu_n : bool;
  cpu_i : bool;
  cpu_d : bool;
  cpu_cycles : Z;
  cpu_instructions : Z;
  cpu_mem : gmap Z Z;
  cpu_io_lo : Z;
  cpu_io_hi : Z;
  cpu_dev : D
}.
Arguments Cpu {D}.
Arguments cpu_a {D} c.
Arguments cpu_x {D} c.
Arguments cpu_y {D} c.
Arguments cpu_sp {D} c.
Arguments cpu_pc {D} c.
Arguments cpu_c {D} c.
Arguments cpu_z {D} c.
Arguments cpu_v {D} c.
Arguments cpu_n {D} c.
Arguments cpu_i {D} c.
Arguments cpu_d {D} c.
Arguments cpu_cycles {D} c.
Arguments cpu_instructions {D} c.
Arguments cpu_mem {D} c.
Arguments cpu_io_lo {D} c.
Arguments cpu_io_hi {D} c.
Arguments cpu_dev {D} c.

Definition set_a {D} (w : Z) (s : cpu D) : cpu D :=
  {| cpu_a := w; cpu_x := cpu_x s; cpu_y := cpu_y s; cpu_sp := cpu_sp s; cpu_pc := cpu_pc s;
     cpu_c := cpu_c s; cpu_z := cpu_z s; cpu_v := cpu_v s; cpu_n := cpu_n s; cpu_i := cpu_i s;
     cpu_d := cpu_d s; cpu_cycles := cpu_cycles s; cpu_instructions := cpu_instructions s;
     cpu_mem := cpu_mem s; cpu_io_lo := cpu_io_lo s; cpu_io_hi := cpu_io_hi s; cpu_dev :=
     cpu_dev s |}.
Definition set_x {D} (w : Z) (s : cpu D) : cpu D :=
  {| cpu_a := cpu_a s; cpu_x := w; cpu_y := cpu_y s; cpu_sp := cpu_sp s; cpu_pc := cpu_pc s;
     cpu_c := cpu_c s; cpu_z := cpu_z s; cpu_v := cpu_v s; cpu_n := cpu_n s; cpu_i := cpu_i s;
     cpu_d := cpu_d s; cpu_cycles := cpu_cycles s; cpu_instructions := cpu_instructions s;
     cpu_mem := cpu_mem s; cpu_io_lo := cpu_io_lo s; cpu_io_hi := cpu_io_hi s; cpu_dev :=
     cpu_dev s |}.
Definition set_y {D} (w : Z) (s : cpu D) : cpu D :=
  {| cpu_a := cpu_a s; cpu_x := cpu_x s; cpu_y := w; cpu_sp := cpu_sp s; cpu_pc := cpu_pc s;
     cpu_c := cpu_c s; cpu_z := cpu_z s; cpu_v := cpu_v s; cpu_n := cpu_n s; cpu_i := cpu_i s;
     cpu_d := cpu_d s; cpu_cycles := cpu_cycles s; cpu_instructions := cpu_instructions s;
     cpu_mem := cpu_mem s; cpu_io_lo := cpu_io_lo s; cpu_io_hi := cpu_io_hi s; cpu_dev :=
     cpu_dev s |}.
Definition set_sp {D} (w : Z) (s : cpu D) : cpu D :=
  {| cpu_a := cpu_a s; cpu_x := cpu_x s; cpu_y := cpu_y s; cpu_sp := w; cpu_pc := cpu_pc s;
     cpu_c := cpu_c s; cpu_z := cpu_z s; cpu_v := cpu_v s; cpu_n := cpu_n s; cpu_i := cpu_i s;
     cpu_d := cpu_d s; cpu_cycles := cpu_cycles s; cpu_instructions := cpu_instructions s;
     cpu_mem := cpu_mem s; cpu_io_lo := cpu_io_lo s; cpu_io_hi := cpu_io_hi s; cpu_dev :=
     cpu_dev s |}.
Definition set_pc {D} (w : Z) (s : cpu D) : cpu D :=
  {| cpu_a := cpu_a s; cpu_x := cpu_x s; cpu_y := cpu_y s; cpu_sp := cpu_sp s; cpu_pc := w;
     cpu_c := cpu_c s; cpu_z := cpu_z s; cpu_v := cpu_v s; cpu_n := cpu_n s; cpu_i := cpu_i s;
     cpu_d := cpu_d s; cpu_cycles := cpu_cycles s; cpu_instructions := cpu_instructions s;
     cpu_mem := cpu_mem s; cpu_io_lo := cpu_io_lo s; cpu_io_hi := cpu_io_hi s; cpu_dev :=
     cpu_dev s |}.
Definition set_c {D} (w : bool) (s : cpu D) : cpu D :=
  {| cpu_a := cpu_a s; cpu_x := cpu_x s; cpu_y := cpu_y s; cpu_sp := cpu_sp s; cpu_pc := cpu_pc
     s; cpu_c := w; cpu_z := cpu_z s; cpu_v := cpu_v s; cpu_n := cpu_n s; cpu_i := cpu_i s;
     cpu_d := cpu_d s; cpu_cycles := cpu_cycles s; cpu_instructions := cpu_instructions s;
     cpu_mem := cpu_mem s; cpu_io_lo := cpu_io_lo s; cpu_io_hi := cpu_io_hi s; cpu_dev :=
     cpu_dev s |}.
Definition set_z {D} (w : bool) (s : cpu D) : cpu D :=
  {| cpu_a := cpu_a s; cpu_x := cpu_x s; cpu_y := cpu_y s; cpu_sp := cpu_sp s; cpu_pc := cpu_pc
     s; cpu_c := cpu_c s; cpu_z := w; cpu_v := cpu_v s; cpu_n := cpu_n s; cpu_i := cpu_i s;
     cpu_d := cpu_d s; cpu_cycles := cpu_cycles s; cpu_instructions := cpu_instructions s;
     cpu_mem := cpu_mem s; cpu_io_lo := cpu_io_lo s; cpu_io_hi := cpu_io_hi s; cpu_dev :=
     cpu_dev s |}.
Definition set_v {D} (w : bool) (s : cpu D) : cpu D :=
  {| cpu_a := cpu_a s; cpu_x := cpu_x s; cpu_y := cpu_y s; cpu_sp := cpu_sp s; cpu_pc := cpu_pc
     s; cpu_c := cpu_c s; cpu_z := cpu_z s; cpu_v := w; cpu_n := cpu_n s; cpu_i := cpu_i s;
     cpu_d := cpu_d s; cpu_cycles := cpu_cycles s; cpu_instructions := cpu_instructions s;
     cpu_mem := cpu_mem s; cpu_io_lo := cpu_io_lo s; cpu_io_hi := cpu_io_hi s; cpu_dev :=
     cpu_dev s |}.
Definition set_n {D} (w : bool) (s : cpu D) : cpu D :=
  {| cpu_a := cpu_a s; cpu_x := cpu_x s; cpu_y := cpu_y s; cpu_sp := cpu_sp s; cpu_pc := cpu_pc
     s; cpu_c := cpu_c s; cpu_z := cpu_z s; cpu_v := cpu_v s; cpu_n := w; cpu_i := cpu_i s;
     cpu_d := cpu_d s; cpu_cycles := cpu_cycles s; cpu_instructions := cpu_instructions s;
     cpu_mem := cpu_mem s; cpu_io_lo := cpu_io_lo s; cpu_io_hi := cpu_io_hi s; cpu_dev :=
     cpu_dev s |}.
Definition set_i {D} (w : bool) (s : cpu D) : cpu D :=
  {| cpu_a := cpu_a s; cpu_x := cpu_x s; cpu_y := cpu_y s; cpu_sp := cpu_sp s; cpu_pc := cpu_pc
     s; cpu_c := cpu_c s; cpu_z := cpu_z s; cpu_v := cpu_v s; cpu_n := cpu_n s; cpu_i := w;
     cpu_d := cpu_d s; cpu_cycles := cpu_cycles s; cpu_instructions := cpu_instructions s;
     cpu_mem := cpu_mem s; cpu_io_lo := cpu_io_lo s; cpu_io_hi := cpu_io_hi s; cpu_dev :=
     cpu_dev s |}.
Definition set_d {D} (w : bool) (s : cpu D) : cpu D :=
  {| cpu_a := cpu_a s; cpu_x := cpu_x s; cpu_y := cpu_y s; cpu_sp := cpu_sp s; cpu_pc := cpu_pc
     s; cpu_c := cpu_c s; cpu_z := cpu_z s; cpu_v := cpu_v s; cpu_n := cpu_n s; cpu_i := cpu_i
     s; cpu_d := w; cpu_cycles := cpu_cycles s; cpu_instructions := cpu_instructions s; cpu_mem
     := cpu_mem s; cpu_io_lo := cpu_io_lo s; cpu_io_hi := cpu_io_hi s; cpu_dev := cpu_dev s |}.
Definition set_cycles {D} (w : Z) (s : cpu D) : cpu D :=
  {| cpu_a := cpu_a s; cpu_x := cpu_x s; cpu_y := cpu_y s; cpu_sp := cpu_sp s; cpu_pc := cpu_pc
     s; cpu_c := cpu_c s; cpu_z := cpu_z s; cpu_v := cpu_v s; cpu_n := cpu_n s; cpu_i := cpu_i
     s; cpu_d := cpu_d s; cpu_cycles := w; cpu_instructions := cpu_instructions s; cpu_mem :=
     cpu_mem s; cpu_io_lo := cpu_io_lo s; cpu_io_hi := cpu_io_hi s; cpu_dev := cpu_dev s |}.
Definition set_instructions {D} (w : Z) (s : cpu D) : cpu D :=
  {| cpu_a := cpu_a s; cpu_x := cpu_x s; cpu_y := cpu_y s; cpu_sp := cpu_sp s; cpu_pc := cpu_pc
     s; cpu_c := cpu_c s; cpu_z := cpu_z s; cpu_v := cpu_v s; cpu_n := cpu_n s; cpu_i := cpu_i
     s; cpu_d := cpu_d s; cpu_cycles := cpu_cycles s; cpu_instructions := w; cpu_mem := cpu_mem
     s; cpu_io_lo := cpu_io_lo s; cpu_io_hi := cpu_io_hi s; cpu_dev := cpu_dev s |}.
Definition set_mem {D} (w : gmap Z Z) (s : cpu D) : cpu D :=
  {| cpu_a := cpu_a s; cpu_x := cpu_x s; cpu_y := cpu_y s; cpu_sp := cpu_sp s; cpu_pc := cpu_pc
     s; cpu_c := cpu_c s; cpu_z := cpu_z s; cpu_v := cpu_v s; cpu_n := cpu_n s; cpu_i := cpu_i
     s; cpu_d := cpu_d s; cpu_cycles := cpu_cycles s; cpu_instructions := cpu_instructions s;
     cpu_mem := w; cpu_io_lo := cpu_io_lo s; cpu_io_hi := cpu_io_hi s; cpu_dev := cpu_dev s |}.
Definition set_dev {D} (w : D) (s : cpu D) : cpu D :=
  {| cpu_a := cpu_a s; cpu_x := cpu_x s; cpu_y := cpu_y s; cpu_sp := cpu_sp s; cpu_pc := cpu_pc
     s; cpu_c := cpu_c s; cpu_z := cpu_z s; cpu_v := cpu_v s; cpu_n := cpu_n s; cpu_i := cpu_i
     s; cpu_d := cpu_d s; cpu_cycles := cpu_cycles s; cpu_instructions := cpu_instructions s;
     cpu_mem := cpu_mem s; cpu_io_lo := cpu_io_lo s; cpu_io_hi := cpu_io_hi s; cpu_dev := w |}.

Definition RETURN_SENTINEL : Z := 0xFFF0.

(** The state the constructor builds, for a memory and an I/O window. *)
Definition init {D} (mem : gmap Z Z) (lo hi : Z) (dev : D) : cpu D :=
  {| cpu_a := 0; cpu_x := 0; cpu_y := 0; cpu_sp := 0xFD; cpu_pc := 0;
     cpu_c := false; cpu_z := false; cpu_v := false; cpu_n := false;
     cpu_i := true; cpu_d := false; cpu_cycles := 0; cpu_instructions := 0;
     cpu_mem := mem; cpu_io_lo := lo; cpu_io_hi := hi; cpu_dev := dev |}.

Section interpreter.
  Context {D : Type} `{IODevice D}.

  Abbreviation M := (eff (cpu D) exn).

(** ** The bus *)

(** [self.mem[addr]] *)
Definition mem_get (addr : Z) : M Z := λ s,
  match py_index 0x10000 addr with
  | Some i => Ret (default 0 (cpu_mem s !! i)) s
  | None => Raise IndexError s
  end.

(** [self.mem[addr] = value & 0xFF] *)
Definition mem_set (addr value : Z) : M unit := λ s,
  match py_index 0x10000 addr with
  | Some i => Ret tt (set_mem (<[i := u8 value]> (cpu_mem s)) s)
  | None => Raise IndexError s
  end.

(** Running a callback on the device component. *)
Definition on_dev {A} (f : eff D unit A) : M A := λ s,
  match f (cpu_dev s) with
  | Ret v d => Ret v (set_dev d s)
  | Raise _ d => Raise DeviceError (set_dev d s)
  end.

Definition in_io (addr : Z) (s : cpu D) : bool :=
  (cpu_io_lo s <=? addr) && (addr <? cpu_io_hi s).

Definition rd (addr : Z) : M Z :=
  io ← gets (in_io addr);
  if io : bool then v ← on_dev (io_read addr); mret (u8 v) else mem_get addr.

Definition wr (addr value : Z) : M unit :=
  io ← gets (in_io addr);
  if io : bool then on_dev (io_write addr (u8 value)) else mem_set addr value.

Definition rd16 (addr : Z) : M Z :=
  lo ← rd addr;
  hi ← rd (u16 (addr + 1));
  mret (Z.lor lo (hi ≪ 8)).

(** ** The stack *)

Definition push (v : Z) : M unit :=
  sp ← gets cpu_sp;
  mem_set (0x100 + sp) v;;
  modify (set_sp (u8 (sp - 1))).

Definition pop : M Z :=
  sp ← gets cpu_sp;
  let sp' := u8 (sp + 1) in
  modify (set_sp sp');;
  mem_get (0x100 + sp').

Definition p_get (s : cpu D) : Z :=
  Z.lor (if cpu_n s then 0x80 else 0) (Z.lor (if cpu_v s then 0x40 else 0)
  (Z.lor 0x20 (Z.lor (if cpu_d s then 0x08 else 0) (Z.lor (if cpu_i s then 0x04 else 0)
  (Z.lor (if cpu_z s then 0x02 else 0) (if cpu_c s then 0x01 else 0)))))).

Definition p_set (v : Z) (s : cpu D) : cpu D :=
  set_n (truthy (Z.land v 0x80)) (set_v (truthy (Z.land v 0x40))
  (set_d (truthy (Z.land v 0x08)) (set_i (truthy (Z.land v 0x04))
  (set_z (truthy (Z.land v 0x02)) (set_c (truthy (Z.land v 1)) s))))).

(** ** Addressing *)

Definition page_crossed (base eff_addr : Z) : bool :=
  negb (Z.land base 0xFF00 =? Z.land eff_addr 0xFF00).

(** The extra cycle of an indexed read that crosses a page. *)
Definition penalty (penalise : bool) (base eff_addr : Z) : M unit :=
  if penalise && page_crossed base eff_addr
  then modify (λ s, set_cycles (cpu_cycles s + 1) s)
  else mret tt.

(** The two operand bytes at [pc], read from the [bytearray] itself: [pc + 1]
    is not reduced, so an operand at the very top of memory is an [IndexError]. *)
Definition operand16 (pc : Z) : M Z :=
  lo ← mem_get pc;
  hi ← mem_get (pc + 1);
  mret (Z.lor lo (hi ≪ 8)).

Definition indexed (pc idx : Z) (penalise : bool) : M Z :=
  modify (set_pc (u16 (pc + 2)));;
  base ← operand16 pc;
  let ea := u16 (base + idx) in
  penalty penalise base ea;;
  mret ea.

Definition addr_of (m : mode) (penalise : bool) : M Z :=
  pc ← gets cpu_pc;
  match m with
  | IMM => modify (set_pc (u16 (pc + 1)));; mret pc
  | ZP => modify (set_pc (u16 (pc + 1)));; mem_get pc
  | ZPX =>
      modify (set_pc (u16 (pc + 1)));;
      b ← mem_get pc; x ← gets cpu_x; mret (u8 (b + x))
  | ZPY =>
      modify (set_pc (u16 (pc + 1)));;
      b ← mem_get pc; y ← gets cpu_y; mret (u8 (b + y))
  | ABS => modify (set_pc (u16 (pc + 2)));; operand16 pc
  | ABX => x ← gets cpu_x; indexed pc x penalise
  | ABY => y ← gets cpu_y; indexed pc y penalise
  | IZX =>
      modify (set_pc (u16 (pc + 1)));;
      b ← mem_get pc; x ← gets cpu_x;
      let zp := u8 (b + x) in
      lo ← mem_get zp; hi ← mem_get (u8 (zp + 1));
      mret (Z.lor lo (hi ≪ 8))
  | IZY =>
      modify (set_pc (u16 (pc + 1)));;
      zp ← mem_get pc;
      lo ← mem_get zp; hi ← mem_get (u8 (zp + 1)); y ← gets cpu_y;
      let base := Z.lor lo (hi ≪ 8) in
      let ea := u16 (base + y) in
      penalty penalise base ea;;
      mret ea
  | IND =>
      modify (set_pc (u16 (pc + 2)));;
      ptr ← operand16 pc;
      lo ← rd ptr;
      hi ← rd (Z.lor (Z.land ptr 0xFF00) (u8 (ptr + 1)));
      mret (Z.lor lo (hi ≪ 8))
  | IMP | ACC | REL => raise (AssertionError m)
  end.

Definition operand (m : mode) : M Z := a ← addr_of m true; rd a.

Definition setzn (v : Z) : M Z :=
  modify (λ s, set_n (truthy (Z.land v 0x80)) (set_z (v =? 0) s));; mret v.

(** ** Operations *)

(** The binary addition ADC and SBC share, [m] being the operand or its complement. *)
Definition add_with_carry (m : Z) : M unit :=
  a ← gets cpu_a; c ← gets cpu_c;
  let t := a + m + bool_Z c in
  let r := u8 t in
  modify (set_c (t >? 0xFF));;
  modify (set_v (truthy (Z.land (Z.land (Z.lnot (Z.lxor a m)) (Z.lxor a r)) 0x80)));;
  r' ← setzn r;
  modify (set_a r').

Definition op_ADC (m : mode) : M unit :=
  d ← gets cpu_d;
  if d : bool then raise NotImplementedError
  else v ← operand m; add_with_carry v.

Definition op_SBC (m : mode) : M unit :=
  d ← gets cpu_d;
  if d : bool then raise NotImplementedError
  else v ← operand m; add_with_carry (Z.lxor v 0xFF).

Definition op_AND (m : mode) : M unit :=
  a ← gets cpu_a; v ← operand m; r ← setzn (Z.land a v); modify (set_a r).

Definition op_ORA (m : mode) : M unit :=
  a ← gets cpu_a; v ← operand m; r ← setzn (Z.lor a v); modify (set_a r).

Definition op_EOR (m : mode) : M unit :=
  a ← gets cpu_a; v ← operand m; r ← setzn (Z.lxor a v); modify (set_a r).

Definition op_BIT (m : mode) : M unit :=
  v ← operand m;
  modify (λ s, set_z (Z.land (cpu_a s) v =? 0) s);;
  modify (set_n (truthy (Z.land v 0x80)));;
  modify (set_v (truthy (Z.land v 0x40))).

Definition cmp (reg : Z) (m : mode) : M unit :=
  v ← operand m;
  modify (set_c (reg >=? v));;
  setzn (u8 (reg - v));;
  mret tt.

Definition op_CMP (m : mode) : M unit := a ← gets cpu_a; cmp a m.
Definition op_CPX (m : mode) : M unit := x ← gets cpu_x; cmp x m.
Definition op_CPY (m : mode) : M unit := y ← gets cpu_y; cmp y m.

Definition op_ASL (m : mode) : M unit :=
  if decide (m = ACC) then
    a ← gets cpu_a;
    modify (set_c (truthy (Z.land a 0x80)));;
    r ← setzn (u8 (a ≪ 1)); modify (set_a r)
  else
    ea ← addr_of m false; v ← rd ea;
    modify (set_c (truthy (Z.land v 0x80)));;
    r ← setzn (u8 (v ≪ 1)); wr ea r.

Definition op_LSR (m : mode) : M unit :=
  if decide (m = ACC) then
    a ← gets cpu_a;
    modify (set_c (truthy (Z.land a 1)));;
    r ← setzn (a ≫ 1); modify (set_a r)
  else
    ea ← addr_of m false; v ← rd ea;
    modify (set_c (truthy (Z.land v 1)));;
    r ← setzn (v ≫ 1); wr ea r.

Definition op_ROL (m : mode) : M unit :=
  if decide (m = ACC) then
    a ← gets cpu_a; c ← gets cpu_c;
    let t := Z.lor (a ≪ 1) (bool_Z c) in
    modify (set_c (t >? 0xFF));;
    r ← setzn (u8 t); modify (set_a r)
  else
    ea ← addr_of m false; v ← rd ea; c ← gets cpu_c;
    let t := Z.lor (v ≪ 1) (bool_Z c) in
    modify (set_c (t >? 0xFF));;
    r ← setzn (u8 t); wr ea r.

Definition op_ROR (m : mode) : M unit :=
  if decide (m = ACC) then
    a ← gets cpu_a; c ← gets cpu_c;
    let t := Z.lor a (bool_Z c ≪ 8) in
    modify (set_c (truthy (Z.land t 1)));;
    r ← setzn (t ≫ 1); modify (set_a r)
  else
    ea ← addr_of m false; v ← rd ea; c ← gets cpu_c;
    let t := Z.lor v (bool_Z c ≪ 8) in
    modify (set_c (truthy (Z.land t 1)));;
    r ← setzn (t ≫ 1); wr ea r.

Definition op_INC (m : mode) : M unit :=
  ea ← addr_of m false; v ← rd ea; r ← setzn (u8 (v + 1)); wr ea r.

Definition op_DEC (m : mode) : M unit :=
  ea ← addr_of m false; v ← rd ea; r ← setzn (u8 (v - 1)); wr ea r.

Definition op_INX (m : mode) : M unit :=
  x ← gets cpu_x; r ← setzn (u8 (x + 1)); modify (set_x r).
Definition op_INY (m : mode) : M unit :=
  y ← gets cpu_y; r ← setzn (u8 (y + 1)); modify (set_y r).
Definition op_DEX (m : mode) : M unit :=
  x ← gets cpu_x; r ← setzn (u8 (x - 1)); modify (set_x r).
Definition op_DEY (m : mode) : M unit :=
  y ← gets cpu_y; r ← setzn (u8 (y - 1)); modify (set_y r).

Definition op_LDA (m : mode) : M unit := v ← operand m; r ← setzn v; modify (set_a r).
Definition op_LDX (m : mode) : M unit := v ← operand m; r ← setzn v; modify (set_x r).
Definition op_LDY (m : mode) : M unit := v ← operand m; r ← setzn v; modify (set_y r).

Definition op_STA (m : mode) : M unit :=
  ea ← addr_of m false; a ← gets cpu_a; wr ea a.
Definition op_STX (m : mode) : M unit :=
  ea ← addr_of m false; x ← gets cpu_x; wr ea x.
Definition op_STY (m : mode) : M unit :=
  ea ← addr_of m false; y ← gets cpu_y; wr ea y.

Definition op_TAX (m : mode) : M unit := a ← gets cpu_a; r ← setzn a; modify (set_x r).
Definition op_TAY (m : mode) : M unit := a ← gets cpu_a; r ← setzn a; modify (set_y r).
Definition op_TXA (m : mode) : M unit := x ← gets cpu_x; r ← setzn x; modify (set_a r).
Definition op_TYA (m : mode) : M unit := y ← gets cpu_y; r ← setzn y; modify (set_a r).
Definition op_TSX (m : mode) : M unit := sp ← gets cpu_sp; r ← setzn sp; modify (set_x r).
Definition op_TXS (m : mode) : M unit := x ← gets cpu_x; modify (set_sp x).

Definition op_PHA (m : mode) : M unit := a ← gets cpu_a; push a.
Definition op_PLA (m : mode) : M unit := v ← pop; r ← setzn v; modify (set_a r).
Definition op_PHP (m : mode) : M unit := p ← gets p_get; push (Z.lor p 0x10).
Definition op_PLP (m : mode) : M unit := v ← pop; modify (p_set v).

Definition branch (taken : bool) : M unit :=
  pc ← gets cpu_pc;
  off ← mem_get pc;
  let pc' := u16 (pc + 1) in
  modify (set_pc pc');;
  if taken then
    let off' := if truthy (Z.land off 0x80) then off - 0x100 else off in
    let dst := u16 (pc' + off') in
    modify (λ s, set_cycles (cpu_cycles s + (if page_crossed dst pc' then 2 else 1)) s);;
    modify (set_pc dst)
  else mret tt.

Definition op_BCC (m : mode) : M unit := c ← gets cpu_c; branch (negb c).
Definition op_BCS (m : mode) : M unit := c ← gets cpu_c; branch c.
Definition op_BEQ (m : mode) : M unit := z ← gets cpu_z; branch z.
Definition op_BNE (m : mode) : M unit := z ← gets cpu_z; branch (negb z).
Definition op_BMI (m : mode) : M unit := n ← gets cpu_n; branch n.
Definition op_BPL (m : mode) : M unit := n ← gets cpu_n; branch (negb n).
Definition op_BVS (m : mode) : M unit := v ← gets cpu_v; branch v.
Definition op_BVC (m : mode) : M unit := v ← gets cpu_v; branch (negb v).

Definition op_JMP (m : mode) : M unit := ea ← addr_of m false; modify (set_pc ea).

Definition op_JSR (m : mode) : M unit :=
  target ← addr_of ABS false;
  pc ← gets cpu_pc;
  let ret := u16 (pc - 1) in
  push (u8 (ret ≫ 8));;
  push (u8 ret);;
  modify (set_pc target).

Definition op_RTS (m : mode) : M unit :=
  lo ← pop; hi ← pop;
  modify (set_pc (u16 (Z.lor lo (hi ≪ 8) + 1))).

Definition op_RTI (m : mode) : M unit :=
  p ← pop; modify (p_set p);;
  lo ← pop; hi ← pop;
  modify (set_pc (Z.lor lo (hi ≪ 8))).

Definition op_BRK (m : mode) : M unit :=
  pc ← gets cpu_pc; raise (UnknownOpcode 0x00 (u16 (pc - 1))).

Definition op_NOP (m : mode) : M unit := mret tt.
Definition op_CLC (m : mode) : M unit := modify (set_c false).
Definition op_SEC (m : mode) : M unit := modify (set_c true).
Definition op_CLI (m : mode) : M unit := modify (set_i false).
Definition op_SEI (m : mode) : M unit := modify (set_i true).
Definition op_CLV (m : mode) : M unit := modify (set_v false).
Definition op_CLD (m : mode) : M unit := modify (set_d false).
Definition op_SED (m : mode) : M unit := raise NotImplementedError.

(** [self._ops[name]] *)
Definition ops (name : mnemonic) : mode → M unit :=
  match name with
  | ADC => op_ADC
  | AND => op_AND
  | ASL => op_ASL
  | BCC => op_BCC
  | BCS => op_BCS
  | BEQ => op_BEQ
  | BIT => op_BIT
  | BMI => op_BMI
  | BNE => op_BNE
  | BPL => op_BPL
  | BRK => op_BRK
  | BVC => op_BVC
  | BVS => op_BVS
  | CLC => op_CLC
  | CLD => op_CLD
  | CLI => op_CLI
  | CLV => op_CLV
  | CMP => op_CMP
  | CPX => op_CPX
  | CPY => op_CPY
  | DEC => op_DEC
  | DEX => op_DEX
  | DEY => op_DEY
  | EOR => op_EOR
  | INC => op_INC
  | INX => op_INX
  | INY => op_INY
  | JMP => op_JMP
  | JSR => op_JSR
  | LDA => op_LDA
  | LDX => op_LDX
  | LDY => op_LDY
  | LSR => op_LSR
  | NOP => op_NOP
  | ORA => op_ORA
  | PHA => op_PHA
  | PHP => op_PHP
  | PLA => op_PLA
  | PLP => op_PLP
  | ROL => op_ROL
  | ROR => op_ROR
  | RTI => op_RTI
  | RTS => op_RTS
  | SBC => op_SBC
  | SEC => op_SEC
  | SED => op_SED
  | SEI => op_SEI
  | STA => op_STA
  | STX => op_STX
  | STY => op_STY
  | TAX => op_TAX
  | TAY => op_TAY
  | TSX => op_TSX
  | TXA => op_TXA
  | TXS => op_TXS
  | TYA => op_TYA
  end.

(** ** Drivers *)

Definition fetch : M Z :=
  pc ← gets cpu_pc;
  lo ← gets cpu_io_lo; hi ← gets cpu_io_hi;
  if (pc <? lo) || (hi <=? pc) then mem_get pc else rd pc.

Definition step : M unit :=
  pc ← gets cpu_pc;
  op ← fetch;
  match TABLE_get op with
  | None => raise (UnknownOpcode op pc)
  | Some (name, m, cyc) =>
      modify (set_pc (u16 (pc + 1)));;
      modify (λ s, set_cycles (cpu_cycles s + cyc) s);;
      modify (λ s, set_instructions (cpu_instructions s + 1) s);;
      ops name m
  end.

(** The loop of [call]; [None] only when the fuel runs out. *)
Fixpoint call_loop (fuel : nat) (addr max_cycles start : Z) (s : cpu D) :
    option (outcome (cpu D) exn Z) :=
  if cpu_pc s =? RETURN_SENTINEL then Some (Ret (cpu_cycles s - start) s)
  else match fuel with
  | O => None
  | S fuel =>
      match step s with
      | Raise e s' => Some (Raise e s')
      | Ret _ s' =>
          if cpu_cycles s' - start >? max_cycles
          then Some (Raise (CpuBudgetExceeded addr (cpu_pc s')) s')
          else call_loop fuel addr max_cycles start s'
      end
  end.

(** Every step costs at least two cycles, so this many steps exceed the budget. *)
Definition call_fuel (max_cycles : Z) : nat := S (Z.to_nat (max_cycles / 2 + 1)).

Definition call_push (addr : Z) : M Z :=
  let ret := RETURN_SENTINEL - 1 in
  push (u8 (ret ≫ 8));;
  push (u8 ret);;
  modify (set_pc addr);;
  gets cpu_cycles.

Definition call (addr max_cycles : Z) (s : cpu D) : option (outcome (cpu D) exn Z) :=
  match call_push addr s with
  | Raise e s' => Some (Raise e s')
  | Ret start s' => call_loop (call_fuel max_cycles) addr max_cycles start s'
  end.

End interpreter.

Create HintDb mos_ops.
#[export] Hint Unfold op_ADC op_AND op_ASL op_BCC op_BCS op_BEQ op_BIT op_BMI op_BNE op_BPL
  op_BRK op_BVC op_BVS op_CLC op_CLD op_CLI op_CLV op_CMP op_CPX op_CPY op_DEC op_DEX op_DEY
  op_EOR op_INC op_INX op_INY op_JMP op_JSR op_LDA op_LDX op_LDY op_LSR op_NOP op_ORA op_PHA
  op_PHP op_PLA op_PLP op_ROL op_ROR op_RTI op_RTS op_SBC op_SEC op_SED op_SEI op_STA op_STX
  op_STY op_TAX op_TAY op_TSX op_TXA op_TXS op_TYA : mos_ops.
