(* ===== verification/Mos6502Inv.v ===== *)
(** * The 6502 interpreter: the type invariant, and which exceptions can be raised

    Every instruction keeps registers and memory within their widths, whether it returns or
    raises.  The judgement [keeps] carries, besides the invariant, the set of exceptions the
    code may raise, so one walk through the instructions proves both. *)

From S2P Require Export Mos6502.

(** Registers are bytes, the program counter is a 16-bit word, and memory is a
    [bytearray] of 64 KiB: bytes at 16-bit addresses. *)
Record wf {D} (s : cpu D) : Prop := Wf {
  wf_a : byte (cpu_a s);
  wf_x : byte (cpu_x s);
  wf_y : byte (cpu_y s);
  wf_sp : byte (cpu_sp s);
  wf_pc : word16 (cpu_pc s);
  wf_mem : map_Forall (λ k v, word16 k ∧ byte v) (cpu_mem s);
}.
#[export] Hint Resolve wf_a wf_x wf_y wf_sp wf_pc wf_mem : width.

Section judgement.
Context {D : Type} `{IODevice D}.
Implicit Types s : cpu D.
Implicit Types P : cpu D → Prop.
Implicit Types X : exn → Prop.
Abbreviation M := (eff (cpu D) exn).

(** From a well-formed state satisfying [P], [m] keeps the invariant, returns values in [Q]
    and raises only exceptions in [X]. *)
Definition keeps {A} P X (m : M A) (Q : A → Prop) : Prop :=
  triple (λ s, wf s ∧ P s) m (λ a s, Q a ∧ wf s) (λ e s, X e ∧ wf s).

Lemma keeps_ret {A} P X (a : A) (Q : A → Prop) : Q a → keeps P X (mret a) Q.
Proof. intros HQ. apply triple_ret. by intros s [Hs _]. Qed.

Lemma keeps_bind {A B} P X (m : M A) (f : A → M B) Q R :
  keeps P X m Q → (∀ a, Q a → keeps (λ _, True) X (f a) R) → keeps P X (m ≫= f) R.
Proof.
  intros Hm Hf. apply triple_bind with (R:=λ a s, Q a ∧ wf s); [done|].
  intros a s [Ha Hs]. by apply (Hf a Ha s).
Qed.

(** Reading a field loses nothing known about the state. *)
Lemma keeps_bind_gets {A B} P X (g : cpu D → A) (f : A → M B) (Q : A → Prop) R :
  (∀ s, wf s → Q (g s)) →
  (∀ a, Q a → keeps (λ s, P s ∧ g s = a) X (f a) R) → keeps P X (gets g ≫= f) R.
Proof. intros Hg Hf s [Hs HP]. apply (Hf (g s)); auto. Qed.

Lemma keeps_gets {A} P X (g : cpu D → A) (Q : A → Prop) :
  (∀ s, wf s → Q (g s)) → keeps P X (gets g) Q.
Proof. intros HQ s [Hs _]. split; auto. Qed.

Lemma keeps_modify P X (g : cpu D → cpu D) :
  (∀ s, wf s → wf (g s)) → keeps P X (modify g) (λ _, True).
Proof. intros HQ s [Hs _]. split; auto. Qed.

Lemma keeps_raise {A} P X e (Q : A → Prop) : (∀ s, wf s → P s → X e) → keeps P X (raise e) Q.
Proof. intros HX s [Hs HP]. split; eauto. Qed.

Lemma keeps_weaken {A} P P' (X X' : exn → Prop) (m : M A) (Q R : A → Prop) :
  keeps P' X m Q → (∀ s, P s → P' s) → (∀ a, Q a → R a) → (∀ e, X e → X' e) → keeps P X' m R.
Proof.
  intros Hm HP HQ HX. eapply triple_conseq; [exact Hm|..].
  - intros s [? ?]. auto.
  - intros a s [? ?]. auto.
  - intros e s [? ?]. auto.
Qed.

Lemma keeps_absurd {A} P X (m : M A) (Q : A → Prop) :
  (∀ s, wf s → P s → False) → keeps P X m Q.
Proof. intros HP s [Hs Hs']. destruct (HP s Hs Hs'). Qed.

(** *** Setters *)

Ltac setter := intros; constructor; cbn; eauto with width.

Lemma wf_set_a w s : byte w → wf s → wf (set_a w s). Proof. setter. Qed.
Lemma wf_set_x w s : byte w → wf s → wf (set_x w s). Proof. setter. Qed.
Lemma wf_set_y w s : byte w → wf s → wf (set_y w s). Proof. setter. Qed.
Lemma wf_set_sp w s : byte w → wf s → wf (set_sp w s). Proof. setter. Qed.
Lemma wf_set_pc w s : word16 w → wf s → wf (set_pc w s). Proof. setter. Qed.
Lemma wf_set_c w s : wf s → wf (set_c w s). Proof. setter. Qed.
Lemma wf_set_z w s : wf s → wf (set_z w s). Proof. setter. Qed.
Lemma wf_set_v w s : wf s → wf (set_v w s). Proof. setter. Qed.
Lemma wf_set_n w s : wf s → wf (set_n w s). Proof. setter. Qed.
Lemma wf_set_i w s : wf s → wf (set_i w s). Proof. setter. Qed.
Lemma wf_set_d w s : wf s → wf (set_d w s). Proof. setter. Qed.
Lemma wf_set_cycles w s : wf s → wf (set_cycles w s). Proof. setter. Qed.
Lemma wf_set_instructions w s : wf s → wf (set_instructions w s). Proof. setter. Qed.
Lemma wf_set_dev w s : wf s → wf (set_dev w s). Proof. setter. Qed.

Lemma wf_store k v s : word16 k → byte v → wf s → wf (set_mem (<[k:=v]> (cpu_mem s)) s).
Proof.
  intros Hk Hv Hs. constructor; cbn; eauto with width.
  apply map_Forall_insert_2; [done|]. by apply wf_mem.
Qed.

Lemma wf_p_set w s : wf s → wf (p_set w s).
Proof. intros. constructor; cbn; eauto with width. Qed.

Lemma p_get_byte s : byte (p_get s).
Proof. unfold p_get. repeat apply byte_lor; repeat case_match; unfold byte; lia. Qed.

(** *** The bus *)

Lemma mem_byte s i : wf s → byte (default 0 (cpu_mem s !! i)).
Proof.
  intros Hs. destruct (cpu_mem s !! i) as [v|] eqn:Hi; [|cbn; unfold byte; lia].
  by destruct (wf_mem s Hs i v Hi).
Qed.

Lemma keeps_mem_get P X a : word16 a → keeps P X (mem_get a) byte.
Proof.
  intros Ha s [Hs _]. unfold mem_get. rewrite py_index_in by done.
  split; [by apply mem_byte|done].
Qed.

Lemma keeps_mem_set P X a v : word16 a → keeps P X (mem_set a v) (λ _, True).
Proof.
  intros Ha s [Hs _]. unfold mem_set. rewrite py_index_in by done.
  split; [done|]. apply wf_store; [done|apply u8_byte|done].
Qed.

Lemma keeps_on_dev {A} P X (f : eff D unit A) : X DeviceError → keeps P X (on_dev f) (λ _, True).
Proof. intros HX s [Hs _]. unfold on_dev. destruct (f _); auto using wf_set_dev. Qed.
End judgement.

Create HintDb cpu discriminated.
#[export] Hint Resolve wf_set_a wf_set_x wf_set_y wf_set_sp wf_set_pc wf_set_c wf_set_z
  wf_set_v wf_set_n wf_set_i wf_set_d wf_set_cycles wf_set_instructions wf_set_dev
  wf_store wf_p_set p_get_byte keeps_mem_get keeps_mem_set keeps_on_dev : cpu.
#[export] Hint Resolve u8_byte u16_word16 byte_word16 byte_lor byte_lxor byte_land
  byte_shiftr word16_of_bytes wf_a wf_x wf_y wf_sp wf_pc : cpu.
(** Linear arithmetic over widths, knowing the range of every reduction. *)
Ltac width_lia :=
  repeat match goal with
  | |- context [u8 ?x] =>
      lazymatch goal with H : byte (u8 x) |- _ => fail | _ => pose proof (u8_byte x) end
  | |- context [u16 ?x] =>
      lazymatch goal with H : word16 (u16 x) |- _ => fail | _ => pose proof (u16_word16 x) end
  end; unfold byte, word16 in *; lia.
#[export] Hint Extern 3 (byte _) => width_lia : cpu.
#[export] Hint Extern 3 (word16 _) => width_lia : cpu.

(** The page-wrapped pointer of an indirect jump. *)
Lemma word16_page a b : word16 a → byte b → word16 (Z.lor (Z.land a 0xFF00) b).
Proof.
  intros Ha Hb. apply (lor_bound 16); [lia| |unfold byte in *; lia].
  apply (land_bound 16); [lia|done|lia].
Qed.
#[export] Hint Resolve word16_page : cpu.

(** Walk through the monadic code, using the lemmas of [cpu] at the leaves. *)
Ltac keeps_step :=
  match goal with
  | |- keeps _ _ (gets cpu_pc ≫= _) _ =>
      apply (keeps_bind_gets _ _ _ _ word16); [solve [eauto with cpu]|intros ? ?]
  | |- keeps _ _ (gets ?f ≫= _) _ =>
      first [ apply (keeps_bind_gets _ _ f _ byte); [solve [eauto with cpu]|intros ? ?]
            | apply (keeps_bind_gets _ _ f _ (λ _, True)); [done|intros ? ?] ]
  | |- keeps _ _ (_ ≫= _) _ =>
      eapply keeps_bind; [try solve [eauto with cpu]|intros ? ?]
  | |- keeps _ _ (mret _) _ => apply keeps_ret
  | |- keeps _ _ (gets _) _ => apply keeps_gets
  | |- keeps _ _ (modify _) _ =>
      eapply keeps_weaken; [apply keeps_modify with (P:=λ _, True) (X:=λ _, False);
        intros; eauto 10 with cpu|done|done|done]
  | |- keeps _ _ (if ?b then _ else _) _ => destruct b eqn:?
  | |- keeps _ _ (match ?b with _ => _ end) _ => destruct b
  | |- keeps _ _ (let x := _ in _) _ => cbn zeta
  end; cbn beta zeta in *.
Ltac keeps := repeat keeps_step; eauto 10 with cpu.

(** The exceptions an instruction is allowed to raise from a state in [P]. *)
Record Tolerates {D} (P : cpu D → Prop) (X : exn → Prop) (name : mnemonic) : Prop := {
  t_dev : X DeviceError;
  t_index : X IndexError ∨ ∀ s, wf s → P s → cpu_pc s ≠ 0xFFFF;
  t_decimal : ∀ s, wf s → P s → cpu_d s = true → X NotImplementedError;
  t_sed : name = SED → X NotImplementedError;
  t_brk : ∀ s, wf s → P s → name = BRK → X (UnknownOpcode 0 (u16 (cpu_pc s - 1)));
}.

Section instructions.
Context {D : Type} `{IODevice D}.
Implicit Types P : cpu D → Prop.
Context (X : exn → Prop) (HD : X DeviceError).

Lemma keeps_rd P a : word16 a → keeps P X (rd a) byte.
Proof. intros. unfold rd. keeps. Qed.
Lemma keeps_wr P a v : word16 a → keeps P X (wr a v) (λ _, True).
Proof. intros. unfold wr. keeps. Qed.
#[local] Hint Resolve keeps_rd keeps_wr : cpu.

Lemma keeps_push P v : keeps P X (push v) (λ _, True).
Proof. unfold push. keeps. Qed.
Lemma keeps_pop P : keeps P X pop byte.
Proof. unfold pop. keeps. Qed.
Lemma keeps_penalty P b x y : keeps P X (penalty b x y) (λ _, True).
Proof. unfold penalty. keeps. Qed.
Lemma keeps_operand16 P a :
  word16 a → X IndexError ∨ a ≠ 0xFFFF → keeps P X (operand16 a) word16.
Proof.
  intros Ha [HX|HX]; unfold operand16; [|keeps].
  eapply keeps_bind; [eauto with cpu|]. intros lo Hlo.
  destruct (decide (a = 0xFFFF)) as [->|]; [|keeps].
  intros s [Hs _]. unfold mem_get, mbind, eff_bind. by rewrite py_index_out by lia.
Qed.
#[local] Hint Resolve keeps_push keeps_pop keeps_penalty keeps_operand16 : cpu.
Lemma keeps_indexed P pc i b :
  word16 pc → X IndexError ∨ pc ≠ 0xFFFF → keeps P X (indexed pc i b) word16.
Proof. intros. unfold indexed. keeps. Qed.
#[local] Hint Resolve keeps_indexed : cpu.

(** The modes [_addr] accepts. *)
Definition addressable (m : mode) : bool :=
  match m with IMP | ACC | REL => false | _ => true end.

Lemma keeps_mem_get16 P a : word16 a → keeps P X (mem_get a) word16.
Proof.
  intros. eapply keeps_weaken with (Q:=byte); eauto with cpu.
Qed.
#[local] Hint Resolve keeps_mem_get16 | 50 : cpu.

Lemma keeps_addr_of P m b :
  (X IndexError ∨ ∀ s, wf s → P s → cpu_pc s ≠ 0xFFFF) →
  (X (AssertionError m) ∨ addressable m) →
  keeps P X (addr_of m b) word16.
Proof.
  intros HI HA. unfold addr_of.
  apply (keeps_bind_gets _ _ _ _ word16); [eauto with cpu|]. intros pc Hpc.
  destruct (decide (pc = 0xFFFF)) as [Heq|Hne].
  - destruct HI as [HX|HI]; [keeps; apply keeps_raise; by destruct HA|].
    apply keeps_absurd. intros s Hs [HP Hs']. apply (HI s Hs HP). congruence.
  - keeps; apply keeps_raise; by destruct HA.
Qed.
#[local] Hint Resolve keeps_addr_of : cpu.

Lemma keeps_operand P m :
  (X IndexError ∨ ∀ s, wf s → P s → cpu_pc s ≠ 0xFFFF) →
  (X (AssertionError m) ∨ addressable m) →
  keeps P X (operand m) byte.
Proof. intros. unfold operand. keeps. Qed.
Lemma keeps_setzn P v : byte v → keeps P X (setzn v) byte.
Proof. intros. unfold setzn. keeps. Qed.
#[local] Hint Resolve keeps_operand keeps_setzn : cpu.
Lemma keeps_add_with_carry P v : keeps P X (add_with_carry v) (λ _, True).
Proof. unfold add_with_carry. keeps. Qed.
Lemma keeps_cmp P r m :
  (X IndexError ∨ ∀ s, wf s → P s → cpu_pc s ≠ 0xFFFF) →
  (X (AssertionError m) ∨ addressable m) →
  keeps P X (cmp r m) (λ _, True).
Proof. intros. unfold cmp. keeps. Qed.
Lemma keeps_branch P b : keeps P X (branch b) (λ _, True).
Proof. unfold branch. keeps. Qed.
#[local] Hint Resolve keeps_add_with_carry keeps_cmp keeps_branch : cpu.

(** The 9-bit value ROR shifts is a byte again afterwards. *)
Lemma ror_byte v c : byte v → byte (Z.lor v (bool_Z c ≪ 8) ≫ 1).
Proof.
  intros Hv. rewrite lor_shiftl8 by (done || by destruct c).
  rewrite Z.shiftr_div_pow2 by lia. unfold byte in *. change (2 ^ 1) with 2.
  destruct c; cbn [bool_Z]; Z.to_euclidean_division_equations; lia.
Qed.
#[local] Hint Resolve ror_byte : cpu.

(** Reading fields first keeps the condition on the program counter. *)
Lemma index_weaken P P' :
  (X IndexError ∨ ∀ s, wf s → P s → cpu_pc s ≠ 0xFFFF) → (∀ s, P' s → P s) →
  X IndexError ∨ ∀ s, wf s → P' s → cpu_pc s ≠ 0xFFFF.
Proof. intros [HX|HP] Himp; [by left|right; eauto]. Qed.

#[local] Hint Extern 1 (_ ∨ (∀ s, wf s → _)) =>
  (eapply index_weaken; [eassumption|intros; tauto]) : cpu.

(** The modes the table pairs with an operation that forms an address. *)
Definition uses_address (name : mnemonic) : bool :=
  match name with
  | ADC | SBC | AND | ORA | EOR | BIT | CMP | CPX | CPY | ASL | LSR | ROL | ROR | INC
  | DEC | LDA | LDX | LDY | STA | STX | STY | JMP => true
  | _ => false
  end.
Definition mode_fits (name : mnemonic) (m : mode) : bool :=
  negb (uses_address name) || addressable m
  || match name with ASL | LSR | ROL | ROR => bool_decide (m = ACC) | _ => false end.

Lemma keeps_ops P name m :
  Tolerates P X name →
  (X (AssertionError m) ∨ mode_fits name m) →
  keeps P X (ops name m) (λ _, True).
Proof.
  intros HT HM. pose proof (t_index _ _ _ HT) as HI.
  assert (HA : match name with
               | ASL | LSR | ROL | ROR => m ≠ ACC → X (AssertionError m) ∨ addressable m
               | _ => if uses_address name then X (AssertionError m) ∨ addressable m else True
               end).
  { destruct name; cbn; try done;
      (destruct HM as [HM|HM]; [auto|]); destruct m; cbn in HM; tauto. }
  clear HM. destruct name; cbn [ops uses_address] in *; autounfold with mos_ops; keeps.
  all: try (apply keeps_raise; intros s Hs HP).
  - destruct HP as [HP Hd]. by apply (t_decimal _ _ _ HT s).
  - destruct HP as [HP <-]. by apply (t_brk _ _ _ HT s).
  - destruct HP as [HP Hd]. by apply (t_decimal _ _ _ HT s).
  - by apply (t_sed _ _ _ HT).
Qed.

Lemma keeps_fetch P : keeps P X fetch byte.
Proof. unfold fetch. keeps. Qed.

Lemma keeps_call_push P a : word16 a → keeps P X (call_push a) (λ _, True).
Proof. intros. unfold call_push. keeps. Qed.
End instructions.

(** ** The opcode table *)

Lemma TABLE_NoDup : NoDup TABLE.*1.
Proof. apply (bool_decide_unpack _). by vm_compute. Qed.

Lemma TABLE_get_spec op e : TABLE_get op = Some e ↔ (op, e) ∈ TABLE.
Proof. symmetry. apply elem_of_list_to_map. apply TABLE_NoDup. Qed.

(** A decidable property of every entry holds of every decoded opcode. *)
Lemma TABLE_all (f : Z * (mnemonic * mode * Z) → bool) op e :
  forallb f TABLE = true → TABLE_get op = Some e → f (op, e) = true.
Proof.
  rewrite TABLE_get_spec, forallb_forall. intros Hall Hin.
  apply Hall. by apply list_elem_of_In.
Qed.

Lemma TABLE_cycles op name m cyc : TABLE_get op = Some (name, m, cyc) → 2 ≤ cyc ≤ 7.
Proof.
  intros Hop. apply (TABLE_all (λ e, (2 <=? e.2.2) && (e.2.2 <=? 7))) in Hop; [|done].
  cbn in Hop. lia.
Qed.

Lemma TABLE_byte op e : TABLE_get op = Some e → byte op.
Proof.
  intros Hop. apply (TABLE_all (λ e, (0 <=? e.1) && (e.1 <? 256))) in Hop; [|done].
  cbn in Hop. unfold byte. lia.
Qed.

Lemma TABLE_mode_fits op name m cyc :
  TABLE_get op = Some (name, m, cyc) → mode_fits name m.
Proof.
  intros Hop. apply (TABLE_all (λ e, mode_fits e.2.1.1 e.2.1.2)) in Hop; [|done].
  by apply Is_true_true.
Qed.

(** The opcodes of SED and BRK. *)
Lemma TABLE_SED op m cyc : TABLE_get op = Some (SED, m, cyc) → op = 0xF8.
Proof.
  intros Hop. apply (TABLE_all (λ e, match e.2.1.1 with SED => e.1 =? 0xF8 | _ => true end))
    in Hop; [|done]. cbn in Hop. lia.
Qed.
Lemma TABLE_BRK op m cyc : TABLE_get op = Some (BRK, m, cyc) → op = 0.
Proof.
  intros Hop. apply (TABLE_all (λ e, match e.2.1.1 with BRK => e.1 =? 0 | _ => true end))
    in Hop; [|done]. cbn in Hop. lia.
Qed.

(** From here on the table is only used through the lemmas above. *)
#[global] Opaque TABLE_get.

(** ** One step *)

Section step.
Context {D : Type} `{IODevice D}.
Implicit Types s : cpu D.

(** Running an action, then what follows it. *)
Lemma bind_run {A B} (m : eff (cpu D) exn A) (f : A → eff (cpu D) exn B) s :
  (m ≫= f) s = match m s with Ret a s' => f a s' | Raise e s' => Raise e s' end.
Proof. done. Qed.

(** Reading the bus touches nothing but the device. *)
Definition dev_only {A} (s : cpu D) (o : outcome (cpu D) exn A) : Prop :=
  match o with Ret _ s' | Raise _ s' => s' = set_dev (cpu_dev s') s end.

Lemma dev_only_mem_get s a : dev_only s (mem_get a s).
Proof. unfold mem_get. destruct (py_index _ a); by destruct s. Qed.

Lemma dev_only_rd s a : dev_only s (rd a s).
Proof.
  unfold rd. rewrite bind_run. cbn. destruct (in_io a s); [|apply dev_only_mem_get].
  rewrite bind_run. unfold on_dev. by destruct (io_read a (cpu_dev s)).
Qed.

Lemma dev_only_fetch s : dev_only s (fetch s).
Proof.
  unfold fetch. rewrite bind_run. cbn. rewrite bind_run. cbn. rewrite bind_run. cbn.
  destruct ((cpu_pc s <? cpu_io_lo s) || (cpu_io_hi s <=? cpu_pc s));
    [apply dev_only_mem_get|apply dev_only_rd].
Qed.

(** What the exceptions of [step] mean. *)
Definition explains s (e : exn) : Prop :=
  match e with
  | UnknownOpcode op pc =>
      pc = cpu_pc s ∧ (TABLE_get op = None ∨ op = 0) ∧ ∃ s1, fetch s = Ret op s1
  | NotImplementedError => cpu_d s = true ∨ ∃ s1, fetch s = Ret 0xF8 s1
  | IndexError => cpu_pc s = 0xFFFE
  | DeviceError => True
  | AssertionError _ | CpuBudgetExceeded _ _ => False
  end.

Lemma u16_pc_sub pc : word16 pc → u16 (u16 (pc + 1) - 1) = pc.
Proof.
  intros Hpc. rewrite !u16_mod, Zminus_mod_idemp_l. unfold word16 in Hpc.
  rewrite Z.mod_small; lia.
Qed.

Lemma u16_pc_top pc : word16 pc → u16 (pc + 1) = 0xFFFF → pc = 0xFFFE.
Proof.
  intros Hpc. rewrite u16_mod. unfold word16 in Hpc.
  destruct (decide (pc = 0xFFFF)) as [->|]; [done|]. rewrite Z.mod_small; lia.
Qed.

(** The state in which the operation of a decoded opcode runs. *)
Definition decoded (cyc : Z) (s s2 : cpu D) : cpu D :=
  let s3 := set_pc (u16 (cpu_pc s + 1)) s2 in
  let s4 := set_cycles (cpu_cycles s3 + cyc) s3 in
  set_instructions (cpu_instructions s4 + 1) s4.

Lemma step_run s : step s =
  match fetch s with
  | Raise e s' => Raise e s'
  | Ret op s2 =>
      match TABLE_get op with
      | None => Raise (UnknownOpcode op (cpu_pc s)) s2
      | Some (name, m, cyc) => ops name m (decoded cyc s s2)
      end
  end.
Proof.
  unfold step. rewrite bind_run. unfold gets. rewrite bind_run.
  destruct (fetch s) as [op s2|e s2]; [|done].
  destruct (TABLE_get op) as [[[name m] cyc]|]; [|reflexivity].
  unfold modify, decoded. rewrite !bind_run. reflexivity.
Qed.

Lemma step_spec s : wf s →
  match step s with Ret _ s' => wf s' | Raise e s' => wf s' ∧ explains s e end.
Proof.
  intros Hs. rewrite step_run.
  pose proof (keeps_fetch (λ e, e = DeviceError) eq_refl (λ _, True) s (conj Hs I)) as Hf.
  pose proof (dev_only_fetch s) as Hdev.
  destruct (fetch s) as [op s2|e s2] eqn:Hfetch; cbn in Hf, Hdev;
    [|destruct Hf as [-> Hs2]; done].
  destruct Hf as [Hop Hs2].
  destruct (TABLE_get op) as [[[name m] cyc]|] eqn:Hdec;
    [|split; [exact Hs2|]; cbn; eauto].
  assert (Hwf : wf (decoded cyc s s2)) by (unfold decoded; eauto with cpu).
  assert (Hk : keeps (λ s', s' = decoded cyc s s2) (explains s) (ops name m) (λ _, True)).
  { apply keeps_ops; [done| |right; by eapply TABLE_mode_fits].
    pose proof (wf_pc s Hs) as Hpc.
    split; [done|..].
    + destruct (decide (cpu_pc s = 0xFFFE)) as [?|n]; [by left|right].
      intros ? _ -> Htop. cbn in Htop. exact (n (u16_pc_top _ Hpc Htop)).
    + intros ? _ -> Hd. left. rewrite Hdev in Hd. exact Hd.
    + intros ->. apply TABLE_SED in Hdec as ->. right. eauto.
    + intros ? _ -> ->. apply TABLE_BRK in Hdec as ->. cbn. rewrite u16_pc_sub by done.
      eauto 10. }
  specialize (Hk _ (conj Hwf eq_refl)). cbn in Hk.
  destruct (ops name m _) as [u s'|e s']; destruct Hk; [assumption|split; assumption].
Qed.
End step.
