(* ===== verification/Mos6502Frame.v ===== *)
(** * The 6502 interpreter: what no instruction does, and termination of [call]

    A frame rule for every preorder on states that the primitive updates respect, used for
    the cycle counter and for the I/O window; from the cycle counter, the termination of
    [call] within its budget. *)

From S2P Require Export Mos6502Inv.

Definition final {S E A} (o : outcome S E A) : S :=
  match o with Ret _ s => s | Raise _ s => s end.

Section frame.
Context {D : Type} `{IODevice D}.
Context (R : cpu D → cpu D → Prop) `{!PreOrder R}.
Implicit Types s : cpu D.
Abbreviation M := (eff (cpu D) exn).

(** The updates forming an address is made of, then those of all instructions,
    each within [R]. *)
Class AddrRespected : Prop := {
  r_pc w s : R s (set_pc w s);
  r_dev w s : R s (set_dev w s);
  r_cycles k s : 0 ≤ k → R s (set_cycles (cpu_cycles s + k) s);
}.
Class Respected : Prop := {
  respected_addr :: AddrRespected;
  r_a w s : R s (set_a w s);
  r_x w s : R s (set_x w s);
  r_y w s : R s (set_y w s);
  r_sp w s : R s (set_sp w s);
  r_c w s : R s (set_c w s);
  r_z w s : R s (set_z w s);
  r_v w s : R s (set_v w s);
  r_n w s : R s (set_n w s);
  r_i w s : R s (set_i w s);
  r_d w s : R s (set_d w s);
  r_mem w s : R s (set_mem w s);
  r_instructions w s : R s (set_instructions w s);
}.
(** Whatever [m] does, it moves along [R]. *)
Definition stays {A} (m : M A) : Prop := ∀ s, R s (final (m s)).

Lemma stays_ret {A} (a : A) : stays (mret a).
Proof. intros s. cbn. reflexivity. Qed.

Lemma stays_bind {A B} (m : M A) (f : A → M B) :
  stays m → (∀ a, stays (f a)) → stays (m ≫= f).
Proof.
  intros Hm Hf s. specialize (Hm s). unfold mbind, eff_bind.
  destruct (m s) as [a s'|e s']; cbn in *; [|done].
  etransitivity; [done|apply Hf].
Qed.

Lemma stays_modify g : (∀ s, R s (g s)) → stays (modify g).
Proof. intros Hg s. apply Hg. Qed.
Lemma stays_gets {A} (g : cpu D → A) : stays (gets g).
Proof. intros s. cbn. reflexivity. Qed.
Lemma stays_raise {A} e : stays (raise (A:=A) e).
Proof. intros s. cbn. reflexivity. Qed.
Lemma stays_mem_get a : stays (mem_get a).
Proof. intros s. unfold mem_get. destruct (py_index _ a); cbn; reflexivity. Qed.
Context `{!AddrRespected}.

Lemma stays_on_dev {A} (f : eff D unit A) : stays (on_dev f).
Proof. intros s. unfold on_dev. destruct (f _); cbn; apply r_dev. Qed.

Ltac addr_update := intros; first [apply r_pc|apply r_dev|apply r_cycles; repeat case_match; lia].
Ltac stays_with update := repeat match goal with
  | |- stays (_ ≫= _) => apply stays_bind; [|intros ?; cbn beta zeta]
  | |- stays (mret _) => apply stays_ret
  | |- stays (modify _) => apply stays_modify; update
  | |- stays (gets _) => apply stays_gets
  | |- stays (raise _) => apply stays_raise
  | |- stays (mem_get _) => apply stays_mem_get
  | |- stays (on_dev _) => apply stays_on_dev
  | |- stays (if ?b then _ else _) => destruct b
  | |- stays (match ?b with _ => _ end) => destruct b
  end.

Lemma stays_rd a : stays (rd a).
Proof. unfold rd. stays_with addr_update. Qed.
Lemma stays_addr_of m b : stays (addr_of m b).
Proof. unfold addr_of, indexed, penalty, operand16. stays_with addr_update; apply stays_rd. Qed.
Lemma stays_operand m : stays (operand m).
Proof. unfold operand. stays_with addr_update; [apply stays_addr_of|apply stays_rd]. Qed.
Lemma stays_fetch : stays fetch.
Proof. unfold fetch. stays_with addr_update. apply stays_rd. Qed.

Context `{!Respected}.

Lemma r_p_set w s : R s (p_set w s).
Proof.
  unfold p_set.
  repeat (etransitivity; [|first [apply r_n|apply r_v|apply r_d|apply r_i|apply r_z|apply r_c]]).
  reflexivity.
Qed.
Lemma r_zn a b s : R s (set_n a (set_z b s)).
Proof. etransitivity; [apply r_z|apply r_n]. Qed.

Lemma stays_mem_set a v : stays (mem_set a v).
Proof.
  intros s. unfold mem_set. destruct (py_index _ a); cbn; [apply r_mem|reflexivity].
Qed.

Ltac update := first
  [ addr_update
  | intros; first [apply r_a|apply r_x|apply r_y|apply r_sp|apply r_c|apply r_z|apply r_v
      |apply r_n|apply r_i|apply r_d|apply r_mem|apply r_instructions|apply r_p_set|apply r_zn] ].

Lemma stays_wr a v : stays (wr a v).
Proof. unfold wr. stays_with update. apply stays_mem_set. Qed.
Lemma stays_push v : stays (push v).
Proof. unfold push. stays_with update. apply stays_mem_set. Qed.
Lemma stays_pop : stays pop.
Proof. unfold pop. stays_with update. Qed.

Lemma stays_ops name m : stays (ops name m).
Proof.
  destruct name; cbn [ops]; autounfold with mos_ops;
    unfold add_with_carry, cmp, branch, setzn; stays_with update;
    first [apply stays_rd|apply stays_wr|apply stays_push|apply stays_pop
          |apply stays_addr_of|apply stays_operand].
Qed.

Lemma stays_call_push a : stays (call_push a).
Proof. unfold call_push. stays_with update; apply stays_push. Qed.
End frame.
Arguments stays {D} R {A} m.

(** ** The cycle counter *)

Definition cycles_le {D} (s s' : cpu D) : Prop := cpu_cycles s ≤ cpu_cycles s'.
#[export] Instance cycles_le_preorder {D} : PreOrder (@cycles_le D).
Proof. split; unfold cycles_le; red; intros; lia. Qed.
#[export] Instance cycles_le_respected {D} : Respected (@cycles_le D).
Proof. repeat split; unfold cycles_le; cbn; intros; lia. Qed.

(** ** The I/O window *)

Definition same_window {D} (s s' : cpu D) : Prop :=
  cpu_io_lo s' = cpu_io_lo s ∧ cpu_io_hi s' = cpu_io_hi s.
#[export] Instance same_window_preorder {D} : PreOrder (@same_window D).
Proof. split; unfold same_window; red; intuition congruence. Qed.
#[export] Instance same_window_respected {D} : Respected (@same_window D).
Proof. repeat split. Qed.

(** ** Forming an address and reading an operand *)

(** Only the program counter, the cycle counter and the device may differ. *)
Definition same_regs {D} (s s' : cpu D) : Prop :=
  s' = set_pc (cpu_pc s') (set_cycles (cpu_cycles s') (set_dev (cpu_dev s') s)).
#[export] Instance same_regs_preorder {D} : PreOrder (@same_regs D).
Proof.
  split; unfold same_regs.
  - by intros [].
  - intros [] [] [] Hxy Hyz. cbv in Hxy, Hyz |- *.
    injection Hxy as; injection Hyz as; subst; reflexivity.
Qed.
#[export] Instance same_regs_respected {D} : AddrRespected (@same_regs D).
Proof. split; by intros ? []. Qed.

Section budget.
Context {D : Type} `{IODevice D}.
Implicit Types s : cpu D.

(** An instruction that returns has used at least its base cycles. *)
Lemma step_cycles s s' : step s = Ret tt s' → cpu_cycles s + 2 ≤ cpu_cycles s'.
Proof.
  rewrite step_run. intros Hstep.
  pose proof (stays_fetch cycles_le s) as Hle.
  destruct (fetch s) as [op s2|]; [|done]. cbn in Hle.
  destruct (TABLE_get op) as [[[name m] cyc]|] eqn:Hop; [|done].
  apply TABLE_cycles in Hop.
  pose proof (stays_ops cycles_le name m (decoded cyc s s2)) as Hops.
  rewrite Hstep in Hops. unfold cycles_le in *. cbn in *. lia.
Qed.

(** The loop ends within its fuel, however the program behaves. *)
Lemma call_loop_total fuel addr max start s :
  (0 < fuel)%nat →
  max - (cpu_cycles s - start) < 2 * Z.of_nat fuel →
  is_Some (call_loop fuel addr max start s).
Proof.
  revert s. induction fuel as [|fuel IH]; intros s Hpos Hfuel; [lia|cbn [call_loop]].
  destruct (_ =? _); [eauto|].
  destruct (step s) as [[] s'|e s'] eqn:Hstep; [|eauto].
  apply step_cycles in Hstep.
  destruct (Z.gtb_spec (cpu_cycles s' - start) max); [eauto|]. apply IH; lia.
Qed.

Lemma call_fuel_enough max : max < 2 * Z.of_nat (call_fuel max).
Proof. unfold call_fuel. Z.to_euclidean_division_equations. lia. Qed.

(** What a returning loop guarantees. *)
Lemma call_loop_ret fuel addr max start s n s' :
  call_loop fuel addr max start s = Some (Ret n s') →
  cpu_pc s' = RETURN_SENTINEL ∧ n = cpu_cycles s' - start ∧
  n ≤ Z.max (cpu_cycles s - start) max ∧ cpu_cycles s ≤ cpu_cycles s'.
Proof.
  revert s. induction fuel as [|fuel IH]; intros s; cbn [call_loop];
    (destruct (Z.eqb_spec (cpu_pc s) RETURN_SENTINEL) as [Hpc|];
     [intros [= <- <-]; repeat split; [done|lia..]|]); [done|].
  destruct (step s) as [[] s1|e s1] eqn:Hstep; [|done].
  apply step_cycles in Hstep.
  destruct (Z.gtb_spec (cpu_cycles s1 - start) max); [done|].
  intros (?&?&?&?)%IH. repeat split; try done; lia.
Qed.

(** What an exceeded budget means. *)
Lemma call_loop_budget fuel addr max start s a pc s' :
  wf s → call_loop fuel addr max start s = Some (Raise (CpuBudgetExceeded a pc) s') →
  a = addr ∧ pc = cpu_pc s' ∧ max < cpu_cycles s' - start.
Proof.
  revert s. induction fuel as [|fuel IH]; intros s Hs; cbn [call_loop];
    (destruct (_ =? _); [done|]); [done|].
  pose proof (step_spec s Hs) as Hk.
  destruct (step s) as [u s1|e s1]; [|intros [= -> ->]; by destruct Hk].
  destruct (Z.gtb_spec (cpu_cycles s1 - start) max); [|by apply IH].
  by intros [= <- <- <-].
Qed.

(** The loop keeps the type invariant. *)
Lemma call_loop_wf fuel addr max start s o :
  wf s → call_loop fuel addr max start s = Some o → wf (final o).
Proof.
  revert s. induction fuel as [|fuel IH]; intros s Hs; cbn [call_loop];
    (destruct (_ =? _); [by intros [= <-]|]); [done|].
  pose proof (step_spec s Hs) as Hk.
  destruct (step s) as [u s1|e s1]; [|intros [= <-]; by destruct Hk].
  destruct (cpu_cycles s1 - start >? max); [by intros [= <-]|]. by apply IH.
Qed.

(** More fuel changes nothing. *)
Lemma call_loop_mono fuel fuel' addr max start s o :
  call_loop fuel addr max start s = Some o → (fuel ≤ fuel')%nat →
  call_loop fuel' addr max start s = Some o.
Proof.
  revert fuel' s. induction fuel as [|fuel IH]; intros fuel' s Hrun Hle;
    destruct fuel' as [|fuel']; cbn [call_loop] in *; try lia;
    destruct (_ =? _); try done.
  destruct (step s) as [u s1|e s1]; [|done].
  destruct (cpu_cycles s1 - start >? max); [done|]. apply IH; [done|lia].
Qed.
End budget.
