(* ===== verification/Mos6502Arith.v ===== *)
(** * The 6502 interpreter: arithmetic, flags and the stack

    The binary adder against signed and unsigned arithmetic, the status byte, the stack. *)

From S2P Require Export Mos6502Frame.

(** ** Single bits of a byte *)

Lemma truthy_bit v k : 0 ≤ k → truthy (Z.land v (2 ^ k)) = Z.testbit v k.
Proof.
  intros Hk. unfold truthy. destruct (Z.testbit v k) eqn:Hb.
  - apply negb_true_iff, Z.eqb_neq. intros H0.
    apply (f_equal (λ z, Z.testbit z k)) in H0.
    by rewrite Z.land_spec, Z.pow2_bits_true, Hb, Z.bits_0 in H0.
  - apply negb_false_iff, Z.eqb_eq, Z.bits_inj'. intros i Hi.
    rewrite Z.land_spec, Z.bits_0. destruct (decide (i = k)) as [->|].
    + by rewrite Hb.
    + by rewrite Z.pow2_bits_false, andb_false_r by done.
Qed.

(** Bit 7 of a byte is its sign. *)
Lemma testbit7 v : byte v → Z.testbit v 7 = (128 <=? v).
Proof.
  intros Hv. unfold byte in Hv. rewrite Z.testbit_eqb by lia. change (2 ^ 7) with 128.
  destruct (Z.leb_spec 128 v).
  - apply Z.eqb_eq. Z.to_euclidean_division_equations. lia.
  - apply Z.eqb_neq. rewrite Z.div_small by lia. done.
Qed.

Lemma truthy_sign v : byte v → truthy (Z.land v 0x80) = (128 <=? v).
Proof. intros. change 0x80 with (2 ^ 7). by rewrite truthy_bit, testbit7. Qed.

(** A byte read as a two's complement number. *)
Definition signed8 (v : Z) : Z := if 128 <=? v then v - 256 else v.

Definition overflows (t : Z) : bool := (t <? -128) || (127 <? t).

(** The overflow expression of ADC and SBC. *)
Lemma overflow_expression a v c :
  byte a → byte v → 0 ≤ c ≤ 1 →
  truthy (Z.land (Z.land (Z.lnot (Z.lxor a v)) (Z.lxor a (u8 (a + v + c)))) 0x80)
  = overflows (signed8 a + signed8 v + c).
Proof.
  intros Ha Hv Hc. change 0x80 with (2 ^ 7).
  rewrite truthy_bit, Z.land_spec, Z.lnot_spec, !Z.lxor_spec by lia.
  rewrite !testbit7 by auto using u8_byte. rewrite u8_mod.
  unfold overflows, signed8, byte in *.
  assert (Hr : (a + v + c) mod 256 = a + v + c ∨
               (a + v + c) mod 256 = a + v + c - 256) by (Z.to_euclidean_division_equations; lia).
  assert (0 ≤ (a + v + c) mod 256 < 256) by (apply Z.mod_pos_bound; lia).
  destruct (Z.leb_spec 128 a), (Z.leb_spec 128 v),
    (Z.leb_spec 128 ((a + v + c) mod 256)); cbn; lia.
Qed.

Lemma lxor_ff v : byte v → Z.lxor v 0xFF = 255 - v.
Proof.
  intros Hv. unfold byte in Hv. change 0xFF with (Z.ones 8).
  assert (Hd : Z.land v (Z.lxor v (Z.ones 8)) = 0).
  { apply Z.bits_inj'. intros i Hi. rewrite Z.land_spec, Z.lxor_spec, Z.bits_0.
    destruct (Z.lt_ge_cases i 8).
    - rewrite Z.ones_spec_low by lia. by destruct (Z.testbit v i).
    - by rewrite (testbit_above 8 v) by lia. }
  pose proof (Z.add_nocarry_lxor _ _ Hd) as Hsum.
  rewrite <- Z.lxor_assoc, Z.lxor_nilpotent, Z.lxor_0_l in Hsum.
  change (Z.ones 8) with 255 in *. lia.
Qed.

Section arithmetic.
Context {D : Type} `{IODevice D}.
Implicit Types s : cpu D.

(** The state after the adder, its result and carry being [t]. *)
Definition added (a v : Z) (s : cpu D) : cpu D :=
  let t := a + v + bool_Z (cpu_c s) in
  let r := u8 t in
  set_a r (set_n (128 <=? r) (set_z (r =? 0)
    (set_v (overflows (signed8 a + signed8 v + bool_Z (cpu_c s))) (set_c (t >? 0xFF) s)))).

Lemma bool_Z_range b : 0 ≤ bool_Z b ≤ 1.
Proof. destruct b; cbn; lia. Qed.

Lemma add_with_carry_spec v s :
  byte (cpu_a s) → byte v → add_with_carry v s = Ret tt (added (cpu_a s) v s).
Proof.
  intros Ha Hv. unfold add_with_carry, setzn, added.
  rewrite <- overflow_expression by auto using bool_Z_range.
  rewrite <- truthy_sign by auto using u8_byte. reflexivity.
Qed.

Lemma carry_out a v c :
  byte a → byte v → 0 ≤ c ≤ 1 → u8 (a + v + c) + 256 * bool_Z (a + v + c >? 0xFF) = a + v + c.
Proof.
  intros Ha Hv Hc. unfold byte in *. rewrite u8_mod.
  destruct (Z.gtb_spec (a + v + c) 0xFF); cbn; Z.to_euclidean_division_equations; lia.
Qed.

(** Reading an operand leaves registers, flags and memory alone. *)
Lemma operand_regs m s v s1 :
  wf s → operand m s = Ret v s1 →
  (∃ pc cyc dev, s1 = set_pc pc (set_cycles cyc (set_dev dev s))) ∧ byte v.
Proof.
  intros Hs Hop. pose proof (stays_operand same_regs m s) as Hr. rewrite Hop in Hr.
  split; [by repeat eexists|].
  pose proof (keeps_operand (λ _, True) I (λ _, True) m (or_introl I) (or_introl I) s
    (conj Hs I)) as Hk.
  rewrite Hop in Hk. by destruct Hk.
Qed.

(** *** The status byte *)

Record flags := Flags { fl_n : bool; fl_v : bool; fl_d : bool; fl_i : bool; fl_z : bool;
  fl_c : bool }.
Definition flags_of s : flags :=
  Flags (cpu_n s) (cpu_v s) (cpu_d s) (cpu_i s) (cpu_z s) (cpu_c s).

Lemma p_set_get s s' : flags_of (p_set (u8 (Z.lor (p_get s) 0x10)) s') = flags_of s.
Proof. destruct s as [????? [] [] [] [] [] []]; reflexivity. Qed.

(** *** The stack *)

Lemma push_spec v s :
  byte (cpu_sp s) →
  push v s = Ret tt (set_sp (u8 (cpu_sp s - 1))
    (set_mem (<[0x100 + cpu_sp s := u8 v]> (cpu_mem s)) s)).
Proof.
  intros Hsp. unfold push. rewrite bind_run. unfold gets. rewrite bind_run. unfold mem_set.
  rewrite py_index_in by (unfold byte in Hsp; lia). reflexivity.
Qed.

Lemma pop_spec s :
  pop s = Ret (default 0 (cpu_mem s !! (0x100 + u8 (cpu_sp s + 1))))
    (set_sp (u8 (cpu_sp s + 1)) s).
Proof.
  unfold pop. rewrite bind_run. unfold gets. rewrite bind_run. unfold modify, mem_get.
  rewrite py_index_in by (pose proof (u8_byte (cpu_sp s + 1)); unfold byte in *; lia).
  reflexivity.
Qed.

Lemma u8_dec_inc sp : byte sp → u8 (u8 (sp - 1) + 1) = sp.
Proof.
  intros Hsp. rewrite !u8_mod, Zplus_mod_idemp_l. unfold byte in Hsp.
  rewrite Z.mod_small; lia.
Qed.

Lemma u16_pred_succ pc : u16 (u16 (u16 pc - 1) + 1) = u16 pc.
Proof. rewrite !u16_mod, Zplus_mod_idemp_l, Z.sub_add. by rewrite Z.mod_mod. Qed.

(** Forming the target of a JSR moves the program counter past it. *)
Lemma jsr_target s :
  match addr_of ABS false s with
  | Ret _ s' => cpu_pc s' = u16 (cpu_pc s + 2) ∧ cpu_sp s' = cpu_sp s ∧
                cpu_mem s' = cpu_mem s
  | Raise _ _ => True
  end.
Proof.
  unfold addr_of, operand16, gets, modify, mem_get. rewrite !bind_run.
  destruct (py_index _ (cpu_pc s)); [|done]. rewrite bind_run.
  by destruct (py_index _ (cpu_pc s + 1)).
Qed.

(** Split a 16-bit word into its bytes and join them again. *)
Lemma word16_split w : word16 w → Z.lor (u8 w) (u8 (w ≫ 8) ≪ 8) = w.
Proof.
  intros Hw. rewrite lor_shiftl8 by (auto using u8_byte; apply u8_byte).
  rewrite !u8_mod, Z.shiftr_div_pow2 by lia. change (2 ^ 8) with 256. unfold word16 in Hw.
  Z.to_euclidean_division_equations. lia.
Qed.
End arithmetic.
