(* ===== verification/Mos6502Run.v ===== *)
(** * The 6502 interpreter: running straight-line code held in RAM

    [run n] is [n] steps.  One lemma per instruction the benchmark stubs use gives the state
    after a step as an update of the state before it. *)

From S2P Require Export Mos6502Arith.

(** The side conditions of the lemmas on instructions, and the program counter behind one. *)
Ltac side := solve [done | lia | split; reflexivity].

Ltac pc_done := cbn;
  match goal with |- context [u16 (cpu_pc ?s + 1 + ?k)] =>
    replace (u16 (cpu_pc s + 1 + k)) with (cpu_pc s + (1 + k))
      by (rewrite u16_small; unfold word16; lia)
  end; reflexivity.

Section run.
Context {D : Type} `{IODevice D}.
Implicit Types s : cpu D.

(** [n] successful steps. *)
Fixpoint run (n : nat) s : option (cpu D) :=
  match n with
  | O => Some s
  | S n => match step s with Ret _ s' => run n s' | Raise _ _ => None end
  end.

Lemma run_app n m s s' : run n s = Some s' → run (n + m) s = run m s'.
Proof.
  revert s. induction n as [|n IH]; intros s; cbn; [by intros [= ->]|].
  destruct (step s); [apply IH|done].
Qed.

(** Address [k] is RAM holding [v]. *)
Definition ram s (k v : Z) : Prop :=
  word16 k ∧ in_io k s = false ∧ default 0 (cpu_mem s !! k) = v.

(** The bytes [bs] stand in RAM from [base] on. *)
Fixpoint code_at s (base : Z) (bs : bytes) : Prop :=
  match bs with
  | [] => True
  | b :: bs => ram s base b ∧ code_at s (base + 1) bs
  end.

Lemma mem_get_word k s : word16 k → mem_get k s = Ret (default 0 (cpu_mem s !! k)) s.
Proof. intros Hk. unfold mem_get. by rewrite py_index_in. Qed.

Lemma mem_get_ram s s' k v : ram s k v → cpu_mem s' = cpu_mem s → mem_get k s' = Ret v s'.
Proof. intros (Hk & _ & <-) Hm. by rewrite mem_get_word, Hm. Qed.

Lemma rd_ram s s' k v :
  ram s k v → cpu_mem s' = cpu_mem s → same_window s s' → rd k s' = Ret v s'.
Proof.
  intros Hr Hm [Hlo Hhi]. unfold rd. rewrite bind_run. unfold gets, in_io. rewrite Hlo, Hhi.
  destruct Hr as (Hk & Hio & Hv). unfold in_io in Hio. rewrite Hio.
  by apply (mem_get_ram s).
Qed.

Definition store (k v : Z) s : cpu D := set_mem (<[k := u8 v]> (cpu_mem s)) s.

Lemma wr_ram s k v : word16 k → in_io k s = false → wr k v s = Ret tt (store k v s).
Proof.
  intros Hk Hio. unfold wr. rewrite bind_run. unfold gets. rewrite Hio.
  unfold mem_set. by rewrite py_index_in.
Qed.

Lemma fetch_ram s v : ram s (cpu_pc s) v → fetch s = Ret v s.
Proof.
  intros Hr. unfold fetch. rewrite bind_run. unfold gets. rewrite !bind_run.
  destruct ((cpu_pc s <? cpu_io_lo s) || (cpu_io_hi s <=? cpu_pc s)).
  - by apply (mem_get_ram s).
  - by apply (rd_ram s).
Qed.

Lemma step_ram s op name m cyc :
  ram s (cpu_pc s) op → TABLE_get op = Some (name, m, cyc) →
  step s = ops name m (decoded cyc s s).
Proof. intros Hr Hop. by rewrite step_run, (fetch_ram s op Hr), Hop. Qed.

(** The state after an instruction of [len] bytes and [cyc] cycles. *)
Definition after (len cyc : Z) s : cpu D :=
  set_pc (cpu_pc s + len) (set_cycles (cpu_cycles s + cyc)
    (set_instructions (cpu_instructions s + 1) s)).

Definition zn (v : Z) s : cpu D := set_n (truthy (Z.land v 0x80)) (set_z (v =? 0) s).

(** Where the operand of an instruction of two or three bytes is. *)
Lemma pc_next s k : cpu_pc s + k < 65536 → 0 ≤ cpu_pc s → 0 ≤ k → u16 (cpu_pc s + k) = cpu_pc s + k.
Proof. intros. apply u16_small. unfold word16. lia. Qed.

Lemma addr_imm b t : addr_of IMM b t = Ret (cpu_pc t) (set_pc (u16 (cpu_pc t + 1)) t).
Proof. done. Qed.

Lemma addr_zp s t b v :
  ram s (cpu_pc t) v → cpu_mem t = cpu_mem s →
  addr_of ZP b t = Ret v (set_pc (u16 (cpu_pc t + 1)) t).
Proof.
  intros Hv Hm. unfold addr_of. rewrite bind_run. unfold gets. rewrite bind_run.
  unfold modify. by apply (mem_get_ram s).
Qed.

Lemma addr_abs s t b lo hi :
  ram s (cpu_pc t) lo → ram s (cpu_pc t + 1) hi → cpu_mem t = cpu_mem s →
  addr_of ABS b t = Ret (Z.lor lo (hi ≪ 8)) (set_pc (u16 (cpu_pc t + 2)) t).
Proof.
  intros Hlo Hhi Hm. unfold addr_of. rewrite bind_run. unfold gets. rewrite bind_run.
  unfold modify, operand16.
  rewrite bind_run, (mem_get_ram s _ _ lo Hlo) by done.
  rewrite bind_run, (mem_get_ram s _ _ hi Hhi) by done. done.
Qed.

(** The state in which the operation runs, for code that does not wrap. *)
Lemma decoded_pc cyc s :
  0 ≤ cpu_pc s → cpu_pc s + 1 < 65536 → cpu_pc (decoded cyc s s) = cpu_pc s + 1.
Proof. intros. cbn. apply pc_next; lia. Qed.

Lemma exec_LDA_imm s v :
  code_at s (cpu_pc s) [0xA9; v] → cpu_pc s + 2 < 65536 →
  step s = Ret tt (after 2 2 (set_a v (zn v s))).
Proof.
  intros (Hop & Hv & _) Hpc. pose proof (proj1 (proj1 Hop)) as H0.
  rewrite (step_ram s _ LDA IMM 2 Hop) by done.
  cbn [ops]. unfold op_LDA, operand. rewrite !bind_run, addr_imm, decoded_pc by lia.
  rewrite (rd_ram s _ _ v Hv) by side.
  unfold setzn, after, zn, modify, mret, eff_ret. rewrite !bind_run. pc_done.
Qed.

Lemma exec_LDA_zp s zp v :
  code_at s (cpu_pc s) [0xA5; zp] → cpu_pc s + 2 < 65536 → ram s zp v →
  step s = Ret tt (after 2 3 (set_a v (zn v s))).
Proof.
  intros (Hop & Hzp & _) Hpc Hv. pose proof (proj1 (proj1 Hop)) as H0.
  rewrite (step_ram s _ LDA ZP 3 Hop) by done.
  cbn [ops]. unfold op_LDA, operand.
  rewrite !bind_run, (addr_zp s _ _ zp), decoded_pc
    by first [lia | rewrite ?decoded_pc by lia; done].
  rewrite (rd_ram s _ _ v Hv) by side.
  unfold setzn, after, zn, modify, mret, eff_ret. rewrite !bind_run. pc_done.
Qed.

Lemma exec_STA_abs s lo hi :
  code_at s (cpu_pc s) [0x8D; lo; hi] → cpu_pc s + 3 < 65536 →
  byte lo → byte hi → in_io (Z.lor lo (hi ≪ 8)) s = false →
  step s = Ret tt (after 3 4 (store (Z.lor lo (hi ≪ 8)) (cpu_a s) s)).
Proof.
  intros (Hop & Hlo & Hhi & _) Hpc Blo Bhi Hio. pose proof (proj1 (proj1 Hop)) as H0.
  rewrite (step_ram s _ STA ABS 4 Hop) by done.
  cbn [ops]. unfold op_STA.
  rewrite !bind_run, (addr_abs s _ _ lo hi), decoded_pc
    by first [lia | rewrite ?decoded_pc by lia; done].
  unfold gets. rewrite bind_run, wr_ram by (auto using word16_of_bytes).
  unfold store, after. pc_done.
Qed.

Lemma exec_STA_zp s zp :
  code_at s (cpu_pc s) [0x85; zp] → cpu_pc s + 2 < 65536 → byte zp → in_io zp s = false →
  step s = Ret tt (after 2 3 (store zp (cpu_a s) s)).
Proof.
  intros (Hop & Hzp & _) Hpc Bzp Hio. pose proof (proj1 (proj1 Hop)) as H0.
  rewrite (step_ram s _ STA ZP 3 Hop) by done.
  cbn [ops]. unfold op_STA.
  rewrite !bind_run, (addr_zp s _ _ zp), decoded_pc
    by first [lia | rewrite ?decoded_pc by lia; done].
  unfold gets. rewrite bind_run, wr_ram by (auto using byte_word16).
  unfold store, after. pc_done.
Qed.

Lemma exec_DEC_abs s lo hi v :
  code_at s (cpu_pc s) [0xCE; lo; hi] → cpu_pc s + 3 < 65536 →
  ram s (Z.lor lo (hi ≪ 8)) v →
  step s = Ret tt (after 3 6 (store (Z.lor lo (hi ≪ 8)) (u8 (v - 1)) (zn (u8 (v - 1)) s))).
Proof.
  intros (Hop & Hlo & Hhi & _) Hpc Hv. pose proof (proj1 (proj1 Hop)) as H0.
  rewrite (step_ram s _ DEC ABS 6 Hop) by done.
  cbn [ops]. unfold op_DEC.
  rewrite !bind_run, (addr_abs s _ _ lo hi), decoded_pc
    by first [lia | rewrite ?decoded_pc by lia; done].
  rewrite bind_run, (rd_ram s _ _ v Hv) by side.
  unfold setzn. rewrite !bind_run. unfold modify, mret, eff_ret.
  rewrite wr_ram by apply Hv.
  unfold store, after, zn. pc_done.
Qed.

(** A branch not taken, and a backward branch taken. *)
Lemma exec_BNE_fall s off :
  code_at s (cpu_pc s) [0xD0; off] → cpu_pc s + 2 < 65536 → cpu_z s = true →
  step s = Ret tt (after 2 2 s).
Proof.
  intros (Hop & Hoff & _) Hpc Hz. pose proof (proj1 (proj1 Hop)) as H0.
  rewrite (step_ram s _ BNE REL 2 Hop) by done.
  cbn [ops]. unfold op_BNE, gets. rewrite bind_run. cbn [decoded cpu_z].
  replace (cpu_z (decoded 2 s s)) with true by done. unfold branch, gets.
  rewrite !bind_run, decoded_pc, (mem_get_ram s _ _ off Hoff) by (done || lia).
  unfold after, modify, mret, eff_ret. rewrite bind_run. pc_done.
Qed.

Lemma exec_BNE_back s off dst :
  code_at s (cpu_pc s) [0xD0; off] → cpu_pc s + 2 < 65536 → cpu_z s = false →
  128 ≤ off < 256 → dst = cpu_pc s + 2 + off - 256 → 0 ≤ dst →
  ∃ k, 3 ≤ k ≤ 4 ∧ step s = Ret tt (set_pc dst (after 2 k s)).
Proof.
  intros (Hop & Hoff & _) Hpc Hz Hneg Hdst Hdst0. pose proof (proj1 (proj1 Hop)) as H0.
  exists (2 + if page_crossed dst (cpu_pc s + 2) then 2 else 1).
  split; [case_match; lia|].
  rewrite (step_ram s _ BNE REL 2 Hop) by done.
  cbn [ops]. unfold op_BNE, gets. rewrite bind_run.
  replace (cpu_z (decoded 2 s s)) with false by done. unfold branch, gets.
  rewrite !bind_run, decoded_pc, (mem_get_ram s _ _ off Hoff) by (done || lia).
  unfold modify. rewrite bind_run.
  replace (truthy (Z.land off 128)) with true
    by (symmetry; rewrite truthy_sign by (unfold byte; lia); lia).
  cbn [negb]. rewrite !bind_run.
  replace (u16 (cpu_pc s + 1 + 1)) with (cpu_pc s + 2)
    by (rewrite u16_small by (unfold word16; lia); lia).
  replace (u16 (cpu_pc s + 2 + (off - 256))) with dst
    by (rewrite u16_small by (unfold word16; lia); lia).
  unfold after. cbn. by rewrite Z.add_assoc.
Qed.

Lemma exec_implied s op name cyc :
  ram s (cpu_pc s) op → cpu_pc s + 1 < 65536 →
  TABLE_get op = Some (name, IMP, cyc) →
  step s = ops name IMP (set_instructions (cpu_instructions s + 1)
    (set_cycles (cpu_cycles s + cyc) (set_pc (cpu_pc s + 1) s))).
Proof.
  intros Hr Hpc Hop. rewrite (step_ram _ _ _ _ _ Hr Hop). unfold decoded.
  rewrite (pc_next s 1); [done|lia|destruct Hr as [[? ?] _]; lia|lia].
Qed.

(** The cycle and instruction counters after an instruction. *)
Definition tick (cyc : Z) s : cpu D :=
  set_instructions (cpu_instructions s + 1) (set_cycles (cpu_cycles s + cyc) s).

(** The two stack bytes a call pushes. *)
Definition pushed (ret : Z) s : cpu D :=
  set_sp (u8 (u8 (cpu_sp s - 1) - 1))
    (store (0x100 + u8 (cpu_sp s - 1)) (u8 ret)
      (store (0x100 + cpu_sp s) (u8 (ret ≫ 8)) s)).

Lemma push_word ret s :
  byte (cpu_sp s) →
  (push (u8 (ret ≫ 8)) ≫= λ _, push (u8 ret)) s = Ret tt (pushed ret s).
Proof.
  intros Hsp. rewrite bind_run, push_spec by done.
  rewrite push_spec by apply u8_byte. done.
Qed.

(** The word on top of the stack. *)
Definition top_word s : Z :=
  let sp1 := u8 (cpu_sp s + 1) in
  let sp2 := u8 (sp1 + 1) in
  Z.lor (default 0 (cpu_mem s !! (0x100 + sp1))) (default 0 (cpu_mem s !! (0x100 + sp2)) ≪ 8).

Lemma exec_JSR s lo hi :
  code_at s (cpu_pc s) [0x20; lo; hi] → cpu_pc s + 3 < 65536 → byte (cpu_sp s) →
  step s = Ret tt (set_pc (Z.lor lo (hi ≪ 8)) (pushed (cpu_pc s + 2) (tick 6 s))).
Proof.
  intros (Hop & Hlo & Hhi & _) Hpc Hsp. pose proof (proj1 (proj1 Hop)) as H0.
  rewrite (step_ram s _ JSR ABS 6 Hop) by done.
  cbn [ops]. unfold op_JSR.
  rewrite bind_run, (addr_abs s _ _ lo hi)
    by first [lia | rewrite ?decoded_pc by lia; done].
  unfold gets. rewrite bind_run.
  replace (u16 (cpu_pc (set_pc (u16 (cpu_pc (decoded 6 s s) + 2)) (decoded 6 s s)) - 1))
    with (cpu_pc s + 2).
  2:{ rewrite decoded_pc by lia. cbn. rewrite !u16_small by
        (rewrite ?u16_small; unfold word16; lia). lia. }
  rewrite bind_run, push_spec by done. rewrite bind_run, push_spec by apply u8_byte.
  done.
Qed.

Lemma rts_run m s :
  op_RTS m s = Ret tt (set_pc (u16 (top_word s + 1))
    (set_sp (u8 (u8 (cpu_sp s + 1) + 1)) s)).
Proof. unfold op_RTS. by rewrite bind_run, pop_spec, bind_run, pop_spec. Qed.

Lemma exec_RTS s :
  ram s (cpu_pc s) 0x60 →
  step s = Ret tt (set_pc (u16 (top_word s + 1))
    (set_sp (u8 (u8 (cpu_sp s + 1) + 1)) (tick 6 s))).
Proof.
  intros Hop. rewrite (step_ram s _ RTS IMP 6 Hop) by done.
  cbn [ops]. by rewrite rts_run.
Qed.
End run.

(** Looking through updates of a state. *)
Section frames.
Context {D : Type} `{IODevice D}.
Implicit Types s : cpu D.

Lemma store_lookup k v s j :
  cpu_mem (store k v s) !! j = if decide (k = j) then Some (u8 v) else cpu_mem s !! j.
Proof. unfold store. cbn. by rewrite lookup_insert. Qed.

Lemma ram_store k v s j w :
  ram s j w → k ≠ j → ram (store k v s) j w.
Proof. intros (Hj & Hio & Hv) Hk. repeat split; [apply Hj..|done|]. cbn. by rewrite lookup_insert_ne. Qed.

Lemma ram_store_eq k v s :
  word16 k → in_io k s = false → ram (store k v s) k (u8 v).
Proof. intros Hk Hio. repeat split; [apply Hk..|done|]. cbn. by rewrite lookup_insert_eq. Qed.

Lemma ram_same s s' j w :
  ram s j w → cpu_mem s' = cpu_mem s → same_window s s' → ram s' j w.
Proof.
  intros (Hj & Hio & Hv) Hm [Hlo Hhi]. split; [done|]. unfold in_io. by rewrite Hlo, Hhi, Hm.
Qed.

Lemma ram_agree s s' j w :
  ram s j w → cpu_mem s' !! j = cpu_mem s !! j → same_window s s' → ram s' j w.
Proof.
  intros (Hj & Hio & Hv) Hm [Hlo Hhi]. split; [done|]. unfold in_io. by rewrite Hlo, Hhi, Hm.
Qed.

Lemma code_at_agree s s' base bs :
  code_at s base bs →
  (∀ k, base ≤ k < base + Z.of_nat (length bs) → cpu_mem s' !! k = cpu_mem s !! k) →
  same_window s s' → code_at s' base bs.
Proof.
  intros Hc Hm Hw. revert base Hc Hm. induction bs as [|b bs IH]; intros base Hc Hm; [done|].
  destruct Hc as [Hb Hc]. cbn [length] in Hm. split.
  - eapply ram_agree; [done|apply Hm; lia|done].
  - apply IH; [done|]. intros k Hk. apply Hm. lia.
Qed.

Lemma code_at_same s s' base bs :
  code_at s base bs → cpu_mem s' = cpu_mem s → same_window s s' → code_at s' base bs.
Proof.
  intros Hc Hm Hw. revert base Hc. induction bs as [|b bs IH]; intros base Hc; [done|].
  destruct Hc as [Hb Hc]. split; [by eapply ram_same|by apply IH].
Qed.

Lemma code_at_store k v s base bs :
  code_at s base bs → (k < base ∨ base + Z.of_nat (length bs) ≤ k) →
  code_at (store k v s) base bs.
Proof.
  revert base. induction bs as [|b bs IH]; intros base Hc Hk; [done|].
  destruct Hc as [Hb Hc]. cbn in Hk. split; [apply ram_store; [done|lia]|apply IH; [done|lia]].
Qed.

(** Deciding that code stands in memory. *)
Fixpoint code_check s (base : Z) (bs : bytes) : bool :=
  match bs with
  | [] => true
  | b :: bs => bool_decide (word16 base) && negb (in_io base s)
               && (default 0 (cpu_mem s !! base) =? b) && code_check s (base + 1) bs
  end.
Lemma code_at_bool s base bs : code_check s base bs = true → code_at s base bs.
Proof.
  revert base. induction bs as [|b bs IH]; intros base; cbn; [done|].
  intros [[[Hw%bool_decide_eq_true Hio%negb_true_iff]%andb_true_iff
    Hb%Z.eqb_eq]%andb_true_iff Hc]%andb_true_iff.
  split; [by repeat split; try apply Hw|by apply IH].
Qed.

(** Part of a stretch of code. *)
Lemma code_at_drop s base bs n :
  code_at s base bs → code_at s (base + Z.of_nat n) (drop n bs).
Proof.
  revert base bs. induction n as [|n IH]; intros base bs Hc.
  - by rewrite Z.add_0_r, drop_0.
  - destruct bs as [|b bs]; [done|]. destruct Hc as [_ Hc]. cbn [drop].
    replace (base + Z.of_nat (S n)) with (base + 1 + Z.of_nat n) by lia. by apply IH.
Qed.
Lemma code_at_take s base bs n : code_at s base bs → code_at s base (take n bs).
Proof.
  revert base n. induction bs as [|b bs IH]; intros base [|n] Hc; try done.
  destruct Hc as [Hb Hc]. split; [done|by apply IH].
Qed.
End frames.
Arguments code_at : simpl never.
