(* ===== verification/BenchStubs.v ===== *)
(** * The machine-code stubs of the benchmarks (tools/bench_vic_blank.py, tools/bench_fe_ops.py)

    The stub builders and decoders, and the loop stub executed by the 6502 interpreter: it
    calls its target the product of its two counts, a count of 0 standing for 256. *)

From S2P Require Export Mos6502Run.

(** ** bench_vic_blank.py *)

Definition VIC_CTRL1 : Z := 0xD011.
Definition DEN_BIT : Z := 0x10.
Definition STUB : Z := 0xC000.
Definition CNT_OUTER : Z := 0xC020.
Definition CNT_INNER : Z := 0xC021.
Definition TOD_RESULT : Z := 0xC070.

(** [bytes([...])]: a [ValueError] unless every element is in [range(256)] *)
Definition py_bytes (l : list Z) : option bytes :=
  if decide (is_bytes l) then Some l else None.

Definition build_tod_start : option bytes := py_bytes
  [0xAD; 0x0F; 0xDC; 0x29; 0x7F; 0x8D; 0x0F; 0xDC; 0xA9; 0x00; 0x8D; 0x0B; 0xDC; 0x8D; 0x0A; 0xDC;
   0x8D; 0x09; 0xDC; 0x8D; 0x08; 0xDC; 0x60].

Definition build_tod_read : option bytes :=
  let r := TOD_RESULT in
  py_bytes
  [0xAD; 0x0B; 0xDC; 0x8D; Z.land r 0xFF; Z.land (r ≫ 8) 0xFF;
   0xAD; 0x0A; 0xDC; 0x8D; Z.land (r + 1) 0xFF; (r + 1) ≫ 8;
   0xAD; 0x09; 0xDC; 0x8D; Z.land (r + 2) 0xFF; (r + 2) ≫ 8;
   0xAD; 0x08; 0xDC; 0x8D; Z.land (r + 3) 0xFF; (r + 3) ≫ 8; 0x60].

Definition bcd (b : Z) : Z := (b ≫ 4) * 10 + Z.land b 0x0F.

(** The arithmetic of [read_tod_tenths], on the four bytes it reads. *)
Definition tod_tenths (hr mn sc tn : Z) : Z :=
  let hours := bcd (Z.land hr 0x7F) mod 12 in
  ((hours * 60 + bcd mn) * 60 + bcd sc) * 10 + bcd (Z.land tn 0x0F).

Definition build_loop_stub (target outer inner : Z) : option bytes :=
  let lo := Z.land target 0xFF in
  let hi := Z.land (target ≫ 8) 0xFF in
  py_bytes
  [0xA9; outer; 0x8D; Z.land CNT_OUTER 0xFF; 0xC0;
   0xA9; inner; 0x8D; Z.land CNT_INNER 0xFF; 0xC0;
   0x20; lo; hi;
   0xCE; Z.land CNT_INNER 0xFF; 0xC0; 0xD0; 0xF8;
   0xCE; Z.land CNT_OUTER 0xFF; 0xC0; 0xD0; 0xEE;
   0x60].

(** The byte [set_blank] writes to $D011, from the byte it read. *)
Definition den_byte (cur : Z) (blanked : bool) : Z :=
  if blanked then Z.land cur (Z.lnot DEN_BIT) else Z.lor cur DEN_BIT.

(** ** bench_fe_ops.py *)

Definition RESULT_ADDR : Z := 0x03C0.
Definition JIFFY_MSB : Z := 0xA0.
Definition JIFFY_MID : Z := 0xA1.
Definition JIFFY_LSB : Z := 0xA2.

Definition build_timer_subroutine (target_addr : Z) : option bytes :=
  let lo := Z.land target_addr 0xFF in
  let hi := Z.land (target_addr ≫ 8) 0xFF in
  py_bytes
  [0x78; 0xA9; 0x00; 0x85; JIFFY_MSB; 0x85; JIFFY_MID; 0x85; JIFFY_LSB; 0x58;
   0x20; lo; hi; 0x78;
   0xA5; JIFFY_MSB; 0x8D; Z.land RESULT_ADDR 0xFF; Z.land (RESULT_ADDR ≫ 8) 0xFF;
   0xA5; JIFFY_MID; 0x8D; Z.land (RESULT_ADDR + 1) 0xFF; Z.land ((RESULT_ADDR + 1) ≫ 8) 0xFF;
   0xA5; JIFFY_LSB; 0x8D; Z.land (RESULT_ADDR + 2) 0xFF; Z.land ((RESULT_ADDR + 2) ≫ 8) 0xFF;
   0x58; 0x60].

(** The three result bytes as a jiffy count, most significant first. *)
Definition result_of (d0 d1 d2 : Z) : Z := Z.lor (Z.lor (d0 ≪ 16) (d1 ≪ 8)) d2.

(** ** Counting calls *)

Section visits.
Context {D : Type} `{IODevice D}.
Implicit Types s : cpu D.

(** How many of the next [n] steps start at [target]. *)
Fixpoint visits (target : Z) (n : nat) s : Z :=
  match n with
  | O => 0
  | S n => bool_Z (cpu_pc s =? target)
           + match step s with Ret _ s' => visits target n s' | Raise _ _ => 0 end
  end.

Lemma visits_app target n m s s' :
  run n s = Some s' → visits target (n + m) s = visits target n s + visits target m s'.
Proof.
  revert s. induction n as [|n IH]; intros s; cbn; [by intros [= ->]|].
  destruct (step s) as [u s1|]; [|done]. intros Hr. rewrite (IH _ Hr). lia.
Qed.

Lemma visits_step target s u s' : step s = Ret u s' → visits target 1 s = bool_Z (cpu_pc s =? target).
Proof. intros Hs. cbn. rewrite Hs. lia. Qed.

(** Within [c] steps [s] reaches [s'], after entering the target [k] times and the address a caller of
    the whole machine is returned to not at all. *)
Definition reaches (target c k : Z) s s' : Prop :=
  ∃ n, Z.of_nat n ≤ c ∧ run n s = Some s' ∧ visits target n s = k ∧ visits RETURN_SENTINEL n s = 0.

Context (target : Z).

Lemma reaches_refl s : reaches target 0 0 s s.
Proof. by exists O. Qed.

Lemma reaches_within c c' k s s' : reaches target c k s s' → c ≤ c' → reaches target c' k s s'.
Proof. intros (n & Hn & H') Hc. exists n. split; [lia|done]. Qed.

Lemma reaches_trans c1 c2 k1 k2 s1 s2 s3 :
  reaches target c1 k1 s1 s2 → reaches target c2 k2 s2 s3 → reaches target (c1 + c2) (k1 + k2) s1 s3.
Proof.
  intros (n & Hcn & Hn & <- & Hzn) (m & Hcm & Hm & <- & Hzm). exists (n + m)%nat.
  rewrite (run_app n m s1 s2), !(visits_app _ n m s1 s2) by done. split_and!; [lia|done|done|lia].
Qed.

Lemma reaches_step s u s' :
  step s = Ret u s' → cpu_pc s ≠ target → cpu_pc s ≠ RETURN_SENTINEL → reaches target 1 0 s s'.
Proof.
  intros Hs Hpc Hpc'. exists 1%nat. rewrite !(visits_step _ s u s') by done. cbn [run]. rewrite Hs.
  by rewrite (proj2 (Z.eqb_neq _ _) Hpc), (proj2 (Z.eqb_neq _ _) Hpc').
Qed.

Lemma reaches_step_trans c k s u s1 s2 :
  step s = Ret u s1 → cpu_pc s ≠ target → cpu_pc s ≠ RETURN_SENTINEL → reaches target c k s1 s2 →
  reaches target (1 + c) k s s2.
Proof.
  intros Hs Hpc Hpc' Hr. exact (reaches_trans 1 c 0 k s s1 s2 (reaches_step s u s1 Hs Hpc Hpc') Hr).
Qed.
End visits.

(** ** Calls push a return address, returns pop it *)

Section stack.
Context {D : Type}.
Implicit Types s : cpu D.

Lemma u8_pred_neq v : byte v → u8 (v - 1) ≠ v.
Proof. intros Hv. rewrite u8_mod. unfold byte in Hv. Z.to_euclidean_division_equations. lia. Qed.

Lemma top_word_pushed ret s :
  byte (cpu_sp s) → word16 ret → top_word (pushed ret s) = ret.
Proof.
  intros Hsp Hret. unfold top_word, pushed. cbn [cpu_sp cpu_mem set_sp].
  rewrite u8_dec_inc, u8_dec_inc by auto using u8_byte.
  rewrite !store_lookup, decide_True by done. rewrite decide_False, decide_True.
  - cbn. rewrite !(u8_small (u8 _)) by apply u8_byte. by apply word16_split.
  - done.
  - pose proof (u8_pred_neq _ Hsp). lia.
Qed.

(** The word above the pushed one stays. *)
Lemma u8_apart sp i j :
  byte sp → -3 ≤ i ≤ 3 → -3 ≤ j ≤ 3 → i ≠ j → u8 (sp + i) ≠ u8 (sp + j).
Proof.
  intros Hsp Hi Hj Hne. rewrite !u8_mod. unfold byte in Hsp.
  Z.to_euclidean_division_equations. lia.
Qed.

Lemma u8_succ2 sp : u8 (u8 (sp + 1) + 1) = u8 (sp + 2).
Proof. rewrite !u8_mod, Zplus_mod_idemp_l. f_equal. lia. Qed.
End stack.

(** ** The loop stub at work *)

(** The memory a call of the stub itself changes. *)
Definition scratch (k : Z) : Prop := k = CNT_OUTER ∨ k = CNT_INNER ∨ 0x100 ≤ k < 0x200.
Definition mem_outside {D} (P : Z → Prop) (s s' : cpu D) : Prop :=
  ∀ k, ¬ P k → cpu_mem s' !! k = cpu_mem s !! k.

(** How often a one-byte counter counts down to zero. *)
Definition reps (k : Z) : Z := if k =? 0 then 256 else k.

Lemma py_bytes_bytes l b : py_bytes l = Some b → is_bytes b.
Proof. unfold py_bytes. case_decide; [by intros [= <-]|done]. Qed.

Lemma stub_counts target outer inner code :
  build_loop_stub target outer inner = Some code → byte outer ∧ byte inner.
Proof.
  unfold build_loop_stub, py_bytes. case_decide as Hb; [intros _|done]. unfold is_bytes in Hb.
  split; [apply (Forall_lookup_1 _ _ 1%nat _ Hb)|apply (Forall_lookup_1 _ _ 6%nat _ Hb)]; done.
Qed.

Section loop.
Context {D : Type} `{IODevice D}.
Implicit Types s : cpu D.
Context (target outer inner : Z).
Context (Houter : byte outer) (Hinner : byte inner) (Htarget : word16 target).
Context (Hoff : target < STUB ∨ STUB + 24 ≤ target).

Let lo := u8 target.
Let hi := u8 (target ≫ 8).

Definition stub_code : bytes :=
  [0xA9; outer; 0x8D; 0x20; 0xC0; 0xA9; inner; 0x8D; 0x21; 0xC0; 0x20; lo; hi;
   0xCE; 0x21; 0xC0; 0xD0; 0xF8; 0xCE; 0x20; 0xC0; 0xD0; 0xEE; 0x60].

Lemma stub_code_built : build_loop_stub target outer inner = Some stub_code.
Proof.
  unfold build_loop_stub, py_bytes. rewrite decide_True; [done|].
  repeat (apply Forall_cons; split; [first [assumption|apply u8_byte|unfold byte; lia]|]).
  constructor.
Qed.

(** *** What the routine under test promises

    [Inv] is what it needs to run, which may not depend on the counters or on the stack;
    [W] are the addresses it may write, neither the stub, nor the counters, nor the return
    address of the stub; [K] bounds the steps of a call. *)
Context (Inv : cpu D → Prop) (W : Z → Prop) (sp0 K : Z).
Context (Hsp0 : byte sp0).
Context (HWstub : ∀ k, W k → k < STUB ∨ STUB + 24 ≤ k).
Context (HWcnt : ∀ k, W k → k ≠ CNT_OUTER ∧ k ≠ CNT_INNER).
Context (HWret : ∀ k, W k → k ≠ 0x100 + u8 (sp0 + 1) ∧ k ≠ 0x100 + u8 (u8 (sp0 + 1) + 1)).


Context (Inv_stable : ∀ s s', Inv s → mem_outside scratch s s' → same_window s s' → Inv s').
Context (Hcall : ∀ s, Inv s → cpu_pc s = target →
  cpu_sp s = u8 (u8 (sp0 - 1) - 1) →
  ∃ s', reaches target K 1 s s' ∧ cpu_pc s' = u16 (top_word s + 1) ∧
    cpu_sp s' = sp0 ∧ same_window s s' ∧ mem_outside W s s' ∧ Inv s').

Context (lo_io hi_io : Z).
Context (Hio : ∀ k, STUB ≤ k < STUB + 0x30 → (lo_io <=? k) && (k <? hi_io) = false).

(** *** Between two instructions of the stub *)
Record core (o i tw : Z) s : Prop := Core {
  co_code : code_at s STUB stub_code;
  co_sp : cpu_sp s = sp0;
  co_top : top_word s = tw;
  co_outer : ram s CNT_OUTER o;
  co_inner : ram s CNT_INNER i;
  co_inv : Inv s;
  co_lo : cpu_io_lo s = lo_io;
  co_hi : cpu_io_hi s = hi_io;
}.

Lemma core_same o i tw s s' :
  core o i tw s → cpu_mem s' = cpu_mem s → cpu_sp s' = cpu_sp s → same_window s s' →
  core o i tw s'.
Proof.
  intros [? ? ? ? ? ? ? ?] Hm Hs Hw. constructor.
  - by eapply code_at_same.
  - congruence.
  - unfold top_word in *. by rewrite Hm, Hs.
  - by eapply ram_same.
  - by eapply ram_same.
  - eapply Inv_stable; [done| |done]. intros k _. by rewrite Hm.
  - destruct Hw; congruence.
  - destruct Hw; congruence.
Qed.

Lemma in_io_stub k s :
  cpu_io_lo s = lo_io → cpu_io_hi s = hi_io → STUB ≤ k < STUB + 0x30 → in_io k s = false.
Proof. intros Hl Hh Hk. unfold in_io. rewrite Hl, Hh. by apply Hio. Qed.

Lemma top_word_store k v s : 0x200 ≤ k → top_word (store k v s) = top_word s.
Proof.
  intros Hk. unfold top_word, store. cbn.
  rewrite !lookup_insert_ne; [done|..];
    pose proof (u8_byte (cpu_sp s + 1)); pose proof (u8_byte (u8 (cpu_sp s + 1) + 1));
    unfold byte in *; lia.
Qed.

Lemma core_store_outer o i tw s v :
  core o i tw s → byte v → core v i tw (store CNT_OUTER v s).
Proof.
  intros [? ? ? ? ? ? ? ?] Hv. constructor; try done.
  - apply code_at_store; [done|]. right. unfold CNT_OUTER, STUB. cbn. lia.
  - by rewrite top_word_store.
  - rewrite <- (u8_small v) at 2 by done. apply ram_store_eq; [by unfold word16|].
    apply in_io_stub; try done.
  - by apply ram_store.
  - eapply Inv_stable; [done| |done]. intros k Hk. cbn. rewrite lookup_insert_ne; [done|].
    intros <-. apply Hk. by left.
Qed.

Lemma core_store_inner o i tw s v :
  core o i tw s → byte v → core o v tw (store CNT_INNER v s).
Proof.
  intros [? ? ? ? ? ? ? ?] Hv. constructor; try done.
  - apply code_at_store; [done|]. right. unfold CNT_INNER, STUB. cbn. lia.
  - by rewrite top_word_store.
  - by apply ram_store.
  - rewrite <- (u8_small v) at 2 by done. apply ram_store_eq; [by unfold word16|].
    apply in_io_stub; try done.
  - eapply Inv_stable; [done| |done]. intros k Hk. cbn. rewrite lookup_insert_ne; [done|].
    intros <-. apply Hk. right. by left.
Qed.

Lemma stub_part s k n part :
  code_at s STUB stub_code → take n (drop k stub_code) = part →
  code_at s (STUB + Z.of_nat k) part.
Proof. intros Hc <-. by apply code_at_take, code_at_drop. Qed.

(** What the stub relies on at its addresses. *)
Lemma core_agree o i tw s s' :
  core o i tw s → Inv s' → cpu_sp s' = sp0 → same_window s s' →
  (∀ k, STUB ≤ k < STUB + 24 ∨ k = CNT_OUTER ∨ k = CNT_INNER ∨
        k = 0x100 + u8 (sp0 + 1) ∨ k = 0x100 + u8 (u8 (sp0 + 1) + 1) →
        cpu_mem s' !! k = cpu_mem s !! k) →
  core o i tw s'.
Proof.
  intros [Hcode Hsp Htop Ho Hi Hinv Hl Hh] Hinv' Hsp' Hw Hm. constructor; try done.
  - eapply code_at_agree; [exact Hcode| |done]. intros k Hk. apply Hm. by left.
  - rewrite <- Htop. unfold top_word. rewrite Hsp', Hsp, !Hm; [done|tauto|tauto].
  - eapply ram_agree; [exact Ho|apply Hm; tauto|done].
  - eapply ram_agree; [exact Hi|apply Hm; tauto|done].
  - destruct Hw; congruence.
  - destruct Hw; congruence.
Qed.

(** *** The inner loop body: one call of the target *)
Lemma loop_call o i tw s :
  core o i tw s → cpu_pc s = STUB + 10 →
  ∃ s', reaches target (1 + K) 1 s s' ∧ core o i tw s' ∧ cpu_pc s' = STUB + 13.
Proof.
  intros Hs Hpc. pose proof Hs as [Hcode Hsp Htop Ho Hi Hinv Hl Hh].
  assert (Hlohi : Z.lor lo (hi ≪ 8) = target) by (by apply word16_split).
  assert (Hstep : step s = Ret tt (set_pc target (pushed (cpu_pc s + 2) (tick 6 s)))).
  { rewrite <- Hlohi. apply exec_JSR; [|rewrite Hpc; unfold STUB; lia|by rewrite Hsp].
    rewrite Hpc. by apply (stub_part s 10 3). }
  set (s1 := set_pc target _) in Hstep.
  assert (Hmem1 : mem_outside (λ k, k = 0x100 + sp0 ∨ k = 0x100 + u8 (sp0 - 1)) s s1).
  { intros k Hk. unfold s1, pushed. cbn. rewrite Hsp, !lookup_insert_ne; [done|lia|lia]. }
  pose proof (u8_byte (sp0 - 1)) as Hsp1. unfold byte in Hsp1, Hsp0.
  destruct (Hcall s1) as (s2 & Hr & Hpc2 & Hsp2 & Hw2 & Hm2 & Hinv2).
  { eapply Inv_stable; [exact Hinv| |done]. intros k Hk. apply Hmem1.
    unfold scratch in Hk. lia. }
  { done. }
  { cbn. by rewrite Hsp. }
  exists s2. split_and!.
  - eapply reaches_step_trans; [exact Hstep|rewrite Hpc; lia|rewrite Hpc; done|exact Hr].
  - eapply core_agree; [exact Hs|done|done|exact Hw2|].
    intros k Hk. rewrite Hm2, Hmem1; [done| |].
    + rewrite u8_succ2 in Hk.
      pose proof (u8_apart sp0 1 (-1) Hsp0); pose proof (u8_apart sp0 2 (-1) Hsp0).
      pose proof (u8_apart sp0 1 0 Hsp0); pose proof (u8_apart sp0 2 0 Hsp0).
      rewrite Z.add_0_r, (u8_small sp0) in * by done.
      replace (sp0 + -1) with (sp0 - 1) in * by lia.
      pose proof (u8_byte (sp0 - 1)).
      unfold STUB, CNT_OUTER, CNT_INNER, byte in *. lia.
    + intros HWk. pose proof (HWstub k HWk); pose proof (HWcnt k HWk);
        pose proof (HWret k HWk). lia.
  - rewrite Hpc2. unfold s1.
    change (top_word (set_pc target (pushed (cpu_pc s + 2) (tick 6 s))))
      with (top_word (pushed (cpu_pc s + 2) (tick 6 s))).
    rewrite top_word_pushed; [|by cbn; rewrite Hsp|rewrite Hpc; unfold STUB, word16; lia].
    rewrite Hpc. reflexivity.
Qed.

(** Counting a counter down at [STUB + k] and branching back by [back]. *)
Lemma count_down o i tw s cnt v k off :
  core o i tw s → cpu_pc s = STUB + Z.of_nat k → (k + 5 <= 24)%nat →
  take 3 (drop k stub_code) = [0xCE; Z.land cnt 0xFF; 0xC0] →
  take 2 (drop (k + 3) stub_code) = [0xD0; off] →
  (cnt = CNT_OUTER ∧ v = o ∨ cnt = CNT_INNER ∧ v = i) →
  128 ≤ off < 256 → 0 ≤ Z.of_nat k + 5 + off - 256 →
  let v' := u8 (v - 1) in
  ∃ s', reaches target 2 0 s s' ∧
    core (if decide (cnt = CNT_OUTER) then v' else o)
         (if decide (cnt = CNT_OUTER) then i else v') tw s' ∧
    cpu_pc s' = STUB + Z.of_nat k + 5 + (if v' =? 0 then 0 else off - 256).
Proof.
  intros Hs Hpc Hk Hdec Hbne Hcnt Hoffs Hback v'.
  pose proof Hs as [Hcode Hsp Htop Ho Hi Hinv Hl Hh].
  assert (Hsame : core o i tw (zn v' s)) by by eapply core_same.
  assert (Hram : ram s cnt v) by (destruct Hcnt as [[-> ->]|[-> ->]]; done).
  assert (Haddr : Z.lor (Z.land cnt 0xFF) (0xC0 ≪ 8) = cnt) by by destruct Hcnt as [[-> _]|[-> _]].
  set (s1 := after 3 6 (store cnt v' (zn v' s))).
  assert (Hstep : step s = Ret tt s1).
  { pose proof (exec_DEC_abs s (Z.land cnt 0xFF) 0xC0 v) as He. rewrite Haddr in He.
    apply He; [|rewrite Hpc; unfold STUB; lia|done].
    rewrite Hpc. by apply (stub_part s k 3). }
  assert (Hs1 : core (if decide (cnt = CNT_OUTER) then v' else o)
                     (if decide (cnt = CNT_OUTER) then i else v') tw s1).
  { eapply (core_same _ _ _ (store cnt v' (zn v' s))); [|done..].
    destruct Hcnt as [[-> _]|[-> _]]; cbn.
    - eapply core_store_outer; [done|apply u8_byte].
    - eapply core_store_inner; [done|apply u8_byte]. }
  assert (Hpc1 : cpu_pc s1 = STUB + Z.of_nat (k + 3)) by (cbn; rewrite Hpc; lia).
  assert (Hcode1 : code_at s1 (cpu_pc s1) [0xD0; off]).
  { rewrite Hpc1. apply (stub_part s1 (k + 3) 2); [by destruct Hs1|done]. }
  assert (Hz1 : cpu_z s1 = (v' =? 0)) by done.
  destruct (v' =? 0).
  - exists (after 2 2 s1). split_and!.
    + eapply (reaches_step_trans _ 1); [exact Hstep|rewrite Hpc; unfold STUB, RETURN_SENTINEL in *; lia..|].
      eapply reaches_step; [apply (exec_BNE_fall s1 off); try done|..];
        rewrite Hpc1; unfold STUB, RETURN_SENTINEL in *; lia.
    + by eapply core_same.
    + change (cpu_pc (after 2 2 s1)) with (cpu_pc s1 + 2). lia.
  - destruct (exec_BNE_back s1 off (STUB + Z.of_nat k + 5 + off - 256)) as (c & _ & Hb);
      try (done || (rewrite ?Hpc1; unfold STUB; lia)).
    eexists. split_and!.
    + eapply (reaches_step_trans _ 1); [exact Hstep|rewrite Hpc; unfold STUB, RETURN_SENTINEL in *; lia..|].
      eapply reaches_step; [exact Hb|..]; rewrite Hpc1; unfold STUB, RETURN_SENTINEL in *; lia.
    + by eapply core_same.
    + cbn. lia.
Qed.

(** The inner loop from its head, and the outer one from its head. *)
Lemma loop_inner_once o i tw s :
  core o i tw s → cpu_pc s = STUB + 10 →
  ∃ s', reaches target (K + 3) 1 s s' ∧ core o (u8 (i - 1)) tw s' ∧
    cpu_pc s' = STUB + (if u8 (i - 1) =? 0 then 18 else 10).
Proof.
  intros Hs Hpc. destruct (loop_call o i tw s Hs Hpc) as (s1 & Hr1 & Hs1 & Hpc1).
  destruct (count_down o i tw s1 CNT_INNER i 13 0xF8 Hs1 Hpc1) as (s2 & Hr2 & Hs2 & Hpc2);
    try (done || lia).
  exists s2. split_and!; [|done|].
  { eapply reaches_within; [exact (reaches_trans target _ _ 1 0 _ _ _ Hr1 Hr2)|lia]. }
  rewrite Hpc2. case_match; lia.
Qed.

Lemma reps_dec v : byte v → u8 (v - 1) ≠ 0 → reps v = 1 + reps (u8 (v - 1)).
Proof.
  intros Hv. unfold reps. destruct (Z.eqb_spec v 0) as [->|]; [done|].
  rewrite u8_small by (unfold byte in *; lia).
  intros. destruct (Z.eqb_spec (v - 1) 0); lia.
Qed.
Lemma reps_last v : byte v → u8 (v - 1) = 0 → reps v = 1.
Proof.
  intros Hv. unfold reps. destruct (Z.eqb_spec v 0) as [->|]; [done|].
  rewrite u8_small by (unfold byte in *; lia). lia.
Qed.
Lemma reps_pos v : byte v → 0 < reps v.
Proof. unfold reps, byte. case_match; lia. Qed.

Lemma loop_inner o i tw s :
  byte i → core o i tw s → cpu_pc s = STUB + 10 →
  ∃ s', reaches target (reps i * (K + 3)) (reps i) s s' ∧ core o 0 tw s' ∧ cpu_pc s' = STUB + 18.
Proof.
  intros Hi. remember (Z.to_nat (reps i)) as n eqn:Hn.
  revert i s Hi Hn. induction n as [|n IH]; intros i s Hi Hn Hs Hpc;
    pose proof (reps_pos i Hi); [lia|].
  destruct (loop_inner_once o i tw s Hs Hpc) as (s1 & Hr1 & Hs1 & Hpc1).
  destruct (Z.eqb_spec (u8 (i - 1)) 0) as [Hz|Hz].
  - rewrite (reps_last i), Z.mul_1_l by done. rewrite Hz in Hs1. by exists s1.
  - rewrite (reps_dec i) in * by done.
    destruct (IH (u8 (i - 1)) s1) as (s2 & Hr2 & Hs2 & Hpc2);
      [apply u8_byte|lia|done|done|].
    exists s2. split_and!; [|done|done].
    eapply reaches_within; [exact (reaches_trans target _ _ 1 _ _ _ _ Hr1 Hr2)|lia].
Qed.

(** One instruction pair [LDA #v; STA cnt]. *)
Lemma load_counter o i tw s cnt v k :
  core o i tw s → cpu_pc s = STUB + Z.of_nat k → (k + 5 <= 24)%nat → byte v →
  take 2 (drop k stub_code) = [0xA9; v] →
  take 3 (drop (k + 2) stub_code) = [0x8D; Z.land cnt 0xFF; 0xC0] →
  (cnt = CNT_OUTER ∨ cnt = CNT_INNER) →
  ∃ s', reaches target 2 0 s s' ∧
    core (if decide (cnt = CNT_OUTER) then v else o)
         (if decide (cnt = CNT_OUTER) then i else v) tw s' ∧
    cpu_pc s' = STUB + Z.of_nat k + 5.
Proof.
  intros Hs Hpc Hk Hv Hlda Hsta Hcnt.
  set (s1 := after 2 2 (set_a v (zn v s))).
  assert (Hstep : step s = Ret tt s1).
  { apply exec_LDA_imm; rewrite Hpc; [by apply (stub_part s k 2); [destruct Hs|]|].
    unfold STUB; lia. }
  assert (Hs1 : core o i tw s1) by by eapply core_same.
  assert (Hpc1 : cpu_pc s1 = STUB + Z.of_nat (k + 2)) by (cbn; rewrite Hpc; lia).
  assert (Haddr : Z.lor (Z.land cnt 0xFF) (0xC0 ≪ 8) = cnt) by by destruct Hcnt as [->| ->].
  assert (Hstep1 : step s1 = Ret tt (after 3 4 (store cnt v s1))).
  { pose proof (exec_STA_abs s1 (Z.land cnt 0xFF) 0xC0) as He. rewrite Haddr in He.
    apply He; [|rewrite Hpc1; unfold STUB; lia|apply u8_byte|unfold byte; lia|].
    - rewrite Hpc1. by apply (stub_part s1 (k + 2) 3); [destruct Hs1|].
    - apply in_io_stub; [by destruct Hs1..|].
      destruct Hcnt as [->| ->]; unfold STUB, CNT_OUTER, CNT_INNER; lia. }
  eexists. split_and!.
  - eapply (reaches_step_trans _ 1); [exact Hstep|rewrite Hpc; unfold STUB, RETURN_SENTINEL in *; lia..|].
    eapply reaches_step; [exact Hstep1|..]; rewrite Hpc1; unfold STUB, RETURN_SENTINEL in *; lia.
  - eapply (core_same _ _ _ (store cnt v s1)); [|done..].
    destruct Hcnt as [->| ->]; cbn; [by eapply core_store_outer|by eapply core_store_inner].
  - change (cpu_pc (after 3 4 (store cnt v s1))) with (cpu_pc s1 + 3). lia.
Qed.

(** The steps of one round of the outer loop, and of the stub. *)
Definition round_steps : Z := 4 + reps inner * (K + 3).
Definition stub_steps : Z := 3 + reps outer * round_steps.

Lemma loop_outer o i tw s :
  byte o → core o i tw s → cpu_pc s = STUB + 5 →
  ∃ s', reaches target (reps o * round_steps) (reps o * reps inner) s s' ∧ core 0 0 tw s' ∧
    cpu_pc s' = STUB + 23.
Proof.
  intros Ho. remember (Z.to_nat (reps o)) as n eqn:Hn.
  revert o i s Ho Hn. induction n as [|n IH]; intros o i s Ho Hn Hs Hpc;
    pose proof (reps_pos o Ho); [lia|].
  destruct (load_counter o i tw s CNT_INNER inner 5 Hs Hpc) as (s1 & Hr1 & Hs1 & Hpc1);
    try (done || lia).
  destruct (loop_inner o inner tw s1 Hinner Hs1) as (s2 & Hr2 & Hs2 & Hpc2); [lia|].
  destruct (count_down o 0 tw s2 CNT_OUTER o 18 0xEE Hs2 Hpc2) as (s3 & Hr3 & Hs3 & Hpc3);
    try (done || lia).
  rewrite decide_True in Hs3 by done. rewrite decide_True in Hs3 by done.
  pose proof (reaches_trans target _ _ _ _ _ _ _ Hr1
    (reaches_trans target _ _ _ _ _ _ _ Hr2 Hr3)) as Hr.
  destruct (Z.eqb_spec (u8 (o - 1)) 0) as [Hz|Hz].
  - rewrite (reps_last o) by done. rewrite Hz in Hs3. exists s3.
    split_and!; [|done|lia].
    replace (1 * reps inner) with (0 + (reps inner + 0)) by lia.
    eapply reaches_within; [exact Hr|unfold round_steps; lia].
  - rewrite (reps_dec o) in * by done.
    destruct (IH (u8 (o - 1)) 0 s3) as (s4 & Hr4 & Hs4 & Hpc4);
      [apply u8_byte|lia|done|lia|].
    exists s4. split_and!; [|done|done].
    replace ((1 + reps (u8 (o - 1))) * reps inner)
      with (0 + (reps inner + 0) + reps (u8 (o - 1)) * reps inner) by lia.
    eapply reaches_within; [exact (reaches_trans target _ _ _ _ _ _ _ Hr Hr4)|unfold round_steps; lia].
Qed.

(** The whole stub. *)
Lemma loop_stub o i tw s :
  core o i tw s → cpu_pc s = STUB →
  ∃ s', reaches target stub_steps (reps outer * reps inner) s s' ∧
    cpu_pc s' = u16 (tw + 1) ∧ cpu_sp s' = u8 (sp0 + 2) ∧ same_window s s' ∧ Inv s'.
Proof.
  intros Hs Hpc.
  destruct (load_counter o i tw s CNT_OUTER outer 0 Hs) as (s1 & Hr1 & Hs1 & Hpc1);
    try (done || lia).
  destruct (loop_outer outer i tw s1 Houter Hs1 Hpc1) as (s2 & Hr2 & Hs2 & Hpc2).
  pose proof Hs2 as [Hcode Hsp Htop _ _ _ Hl Hh].
  assert (Hrts : ram s2 (cpu_pc s2) 0x60).
  { rewrite Hpc2. exact (proj1 (stub_part s2 23 1 [0x60] Hcode eq_refl)). }
  apply exec_RTS in Hrts.
  eexists. split_and!.
  - replace (reps outer * reps inner) with (0 + (reps outer * reps inner + 0)) by lia.
    apply (reaches_within target (2 + (reps outer * round_steps + 1))); [|unfold stub_steps; lia].
    eapply reaches_trans; [exact Hr1|]. eapply reaches_trans; [exact Hr2|].
    eapply reaches_step; [exact Hrts|..]; rewrite Hpc2; unfold STUB, RETURN_SENTINEL in *; lia.
  - cbn. by rewrite Htop.
  - cbn. by rewrite Hsp, u8_succ2.
  - destruct Hs as [_ _ _ _ _ _ Hl0 Hh0]. split; cbn; congruence.
  - eapply Inv_stable; [apply Hs2|by intros k _|done].
Qed.
End loop.
