(* ===== verification/Mos6502Thms.v ===== *)
(** * The 6502 interpreter and the benchmark stubs: the properties

    Type safety of [step], termination of [call], the arithmetic of ADC, SBC and the
    compares, the stack round trips, and the number of calls the benchmark loop stub makes. *)

From S2P Require Export BenchStubs.

(** A device that is never consulted by the code below. *)
#[export] Instance no_device : IODevice unit :=
  {| io_read _ := mret 0; io_write _ _ := mret tt |}.

Module Cpu.
Section theorems.
Context {D : Type} `{IODevice D}.
Implicit Types s : cpu D.

Lemma call_push_run addr s :
  wf s → ∃ s', call_push addr s = Ret (cpu_cycles s) s' ∧ cpu_cycles s' = cpu_cycles s.
Proof.
  intros Hs. unfold call_push. rewrite bind_run, push_spec by apply Hs.
  rewrite bind_run, push_spec by apply u8_byte. unfold modify, gets. rewrite !bind_run.
  cbn. eauto.
Qed.

(** C3. [call] always comes back within its cycle budget: it returns or raises for every
    program in memory and every device, the processor stays well formed, and when it returns
    the program counter is the sentinel and the cycle count returned is what was used and at
    most the budget; when the budget is exceeded, more than [max_cycles] were used. *)
Theorem call_terminates s addr max_cycles :
  wf s → word16 addr →
  ∃ o, call addr max_cycles s = Some o ∧ wf (final o) ∧
    match o with
    | Ret n s' => cpu_pc s' = RETURN_SENTINEL ∧ n = cpu_cycles s' - cpu_cycles s ∧
                  0 ≤ n ≤ Z.max 0 max_cycles
    | Raise (CpuBudgetExceeded a pc) s' =>
        a = addr ∧ pc = cpu_pc s' ∧ max_cycles < cpu_cycles s' - cpu_cycles s
    | Raise _ _ => True
    end.
Proof.
  intros Hs Haddr. unfold call.
  pose proof (keeps_call_push (λ _, False) (λ _, True) addr Haddr s (conj Hs I)) as Hk.
  destruct (call_push_run addr s Hs) as (s1 & Hcp & Hcyc). rewrite Hcp in *.
  destruct Hk as [_ Hs1].
  destruct (call_loop_total (call_fuel max_cycles) addr max_cycles (cpu_cycles s) s1)
    as [o Ho].
  - unfold call_fuel. lia.
  - pose proof (call_fuel_enough max_cycles). lia.
  - exists o. split; [done|]. split; [by eapply call_loop_wf|].
    destruct o as [n s'|[] s']; try done.
    + apply call_loop_ret in Ho as (?&?&?&?). repeat split; try done; lia.
    + by apply call_loop_budget in Ho.
Qed.

(** C33. [step] is type safe: from a well-formed processor it leaves a well-formed one, also
    when it raises, and every exception has its documented cause: an opcode outside the table
    (or BRK) at the reported address, decimal mode, the device callback, or, not documented,
    an instruction of three bytes at $FFFE, whose operand is read past the end of memory. *)
Theorem step_type_safe s :
  wf s → match step s with Ret _ s' => wf s' | Raise e s' => wf s' ∧ explains s e end.
Proof. apply step_spec. Qed.

(** ADC adds: accumulator, operand and carry as a nine-bit sum, the overflow flag
    exactly when the signed sum leaves the range of a byte, and nothing else changes. *)
Theorem adc_correct m s v s1 :
  wf s → cpu_d s = false → operand m s = Ret v s1 →
  ∃ s', op_ADC m s = Ret tt s' ∧
    cpu_a s' + 256 * bool_Z (cpu_c s') = cpu_a s + v + bool_Z (cpu_c s) ∧ byte (cpu_a s') ∧
    cpu_v s' = overflows (signed8 (cpu_a s) + signed8 v + bool_Z (cpu_c s)) ∧
    cpu_z s' = (cpu_a s' =? 0) ∧ cpu_n s' = (128 <=? cpu_a s') ∧
    cpu_x s' = cpu_x s ∧ cpu_y s' = cpu_y s ∧ cpu_sp s' = cpu_sp s ∧
    cpu_mem s' = cpu_mem s ∧ cpu_pc s' = cpu_pc s1.
Proof.
  intros Hs Hd Hop. destruct (operand_regs m s v s1 Hs Hop) as [(pc & cyc & dev & ->) Hv].
  eexists (added (cpu_a s) v _). split.
  - unfold op_ADC, gets. rewrite bind_run, Hd, bind_run, Hop.
    rewrite add_with_carry_spec; [done|apply Hs|done].
  - unfold added. cbn.
    pose proof (carry_out _ v _ (wf_a s Hs) Hv (bool_Z_range (cpu_c s))) as Hout.
    split_and!; [exact Hout|apply u8_byte|reflexivity..].
Qed.

(** SBC subtracts: operand and borrow from the accumulator, carry clear exactly on a
    borrow, overflow exactly when the signed difference leaves the range of a byte. *)
Theorem sbc_correct m s v s1 :
  wf s → cpu_d s = false → operand m s = Ret v s1 →
  ∃ s', op_SBC m s = Ret tt s' ∧
    cpu_a s' - 256 * bool_Z (negb (cpu_c s')) =
      cpu_a s - v - bool_Z (negb (cpu_c s)) ∧ byte (cpu_a s') ∧
    cpu_v s' = overflows (signed8 (cpu_a s) - signed8 v - bool_Z (negb (cpu_c s))) ∧
    cpu_z s' = (cpu_a s' =? 0) ∧ cpu_n s' = (128 <=? cpu_a s') ∧
    cpu_x s' = cpu_x s ∧ cpu_y s' = cpu_y s ∧ cpu_sp s' = cpu_sp s ∧
    cpu_mem s' = cpu_mem s ∧ cpu_pc s' = cpu_pc s1.
Proof.
  intros Hs Hd Hop. destruct (operand_regs m s v s1 Hs Hop) as [(pc & cyc & dev & ->) Hv].
  pose proof (wf_a s Hs) as Ha. pose proof (bool_Z_range (cpu_c s)) as Hc.
  assert (Hv' : byte (255 - v)) by (unfold byte in *; lia).
  eexists (added (cpu_a s) (255 - v) _). split.
  - unfold op_SBC, gets. rewrite bind_run, Hd, bind_run, Hop, lxor_ff by done.
    by rewrite add_with_carry_spec.
  - unfold added. cbn.
    pose proof (carry_out (cpu_a s) (255 - v) (bool_Z (cpu_c s)) Ha Hv' Hc) as Hout.
    assert (Hneg : ∀ b, bool_Z (negb b) = 1 - bool_Z b) by by intros [].
    rewrite !Hneg. split_and!; try done; [lia|apply u8_byte|].
    f_equal. unfold signed8, byte in *.
    destruct (Z.leb_spec 128 (255 - v)), (Z.leb_spec 128 v); lia.
Qed.

(** The compares order unsigned bytes: carry is register at least operand, zero is
    equality, negative is bit 7 of the difference, and no register changes. *)
Theorem cmp_correct m s v s1 reg :
  wf s → byte reg → operand m s = Ret v s1 →
  ∃ s', cmp reg m s = Ret tt s' ∧
    cpu_c s' = (v <=? reg) ∧ cpu_z s' = (reg =? v) ∧
    cpu_n s' = (128 <=? (reg - v) mod 256) ∧ cpu_v s' = cpu_v s ∧
    cpu_a s' = cpu_a s ∧ cpu_x s' = cpu_x s ∧ cpu_y s' = cpu_y s ∧ cpu_sp s' = cpu_sp s ∧
    cpu_mem s' = cpu_mem s ∧ cpu_pc s' = cpu_pc s1.
Proof.
  intros Hs Hreg Hop. destruct (operand_regs m s v s1 Hs Hop) as [(pc & cyc & dev & ->) Hv].
  unfold cmp, setzn, modify. rewrite bind_run, Hop, !bind_run.
  eexists. split; [reflexivity|]. cbn.
  rewrite truthy_sign by apply u8_byte. rewrite <- u8_mod. split_and!; try done.
  - by rewrite Z.geb_leb.
  - rewrite u8_mod. unfold byte in *.
    apply eq_true_iff_eq. rewrite !Z.eqb_eq. Z.to_euclidean_division_equations. lia.
Qed.

(** RTS undoes JSR: run right after a JSR it succeeds, puts the stack pointer back and
    continues at the instruction after the call, wherever the stack wraps. *)
Theorem jsr_rts_roundtrip m m' s s1 :
  wf s → op_JSR m s = Ret tt s1 →
  ∃ s2, op_RTS m' s1 = Ret tt s2 ∧ cpu_pc s2 = u16 (cpu_pc s + 2) ∧ cpu_sp s2 = cpu_sp s ∧
    (∀ k, k < 0x100 ∨ 0x200 ≤ k → cpu_mem s2 !! k = cpu_mem s !! k).
Proof.
  intros Hs Hjsr. pose proof (wf_sp s Hs) as Hsp.
  unfold op_JSR in Hjsr. rewrite bind_run in Hjsr.
  pose proof (jsr_target s) as Ht. destruct (addr_of ABS false s) as [t s0|]; [|done].
  destruct Ht as (Hpc0 & Hsp0 & Hm0).
  assert (Hret : word16 (u16 (cpu_pc s0 - 1))) by apply u16_word16.
  unfold gets in Hjsr. rewrite !bind_run, push_spec in Hjsr by by rewrite Hsp0.
  rewrite !bind_run, push_spec in Hjsr by apply u8_byte.
  set (ret := u16 (cpu_pc s0 - 1)) in *.
  assert (Hs1 : s1 = set_pc t (pushed ret s0)) by by injection Hjsr.
  clear Hjsr. subst s1.
  assert (Htop : top_word (set_pc t (pushed ret s0)) = ret).
  { change (top_word (pushed ret s0) = ret). apply top_word_pushed; [by rewrite Hsp0|done]. }
  rewrite rts_run, Htop. eexists. split; [reflexivity|]. cbn. split_and!.
  - unfold ret. rewrite Hpc0. apply u16_pred_succ.
  - by rewrite Hsp0, !u8_dec_inc by auto using u8_byte.
  - intros k Hk. pose proof (u8_byte (cpu_sp s0 - 1)). rewrite Hsp0 in *.
    unfold byte in *. rewrite !lookup_insert_ne by lia. by rewrite Hm0.
Qed.

(** PLP undoes PHP: whatever happens to the flags in between, popping the pushed status
    byte restores all six of them and the stack pointer. *)
Theorem php_plp_roundtrip m m' s :
  wf s →
  ∃ s1, op_PHP m s = Ret tt s1 ∧
    ∀ s', cpu_mem s' = cpu_mem s1 → cpu_sp s' = cpu_sp s1 →
    ∃ s2, op_PLP m' s' = Ret tt s2 ∧ flags_of s2 = flags_of s ∧ cpu_sp s2 = cpu_sp s.
Proof.
  intros Hs. unfold op_PHP, op_PLP, gets. rewrite bind_run, push_spec by apply Hs.
  eexists. split; [done|]. intros s' Hm Hsp. rewrite bind_run, pop_spec.
  eexists. split; [reflexivity|]. rewrite Hm, Hsp. cbn. rewrite u8_dec_inc by apply Hs.
  rewrite lookup_insert_eq. cbn. rewrite p_set_get. split; [done|].
  unfold p_set. cbn. done.
Qed.
End theorems.
(** A processor about to run [ADC #1; JSR $0200], with $7F in the accumulator. *)
Definition sample : cpu unit :=
  set_a 0x7F (init (list_to_map [(0, 1); (1, 0x20); (2, 0x00); (3, 0x02)]) 0xDC00 0xE000 tt).

Lemma sample_wf : wf sample.
Proof. constructor; apply (bool_decide_unpack _); by vm_compute. Qed.

Lemma call_terminates_witness : is_Some (call 0x0000 1000 sample).
Proof.
  destruct (call_terminates sample 0x0000 1000 sample_wf) as (o & Ho & _);
    [apply (bool_decide_unpack _); by vm_compute|by exists o].
Defined.

Lemma step_type_safe_witness :
  match step sample with Ret _ s' => wf s' | Raise e s' => wf s' ∧ explains sample e end.
Proof. exact (step_type_safe sample sample_wf). Defined.

Lemma adc_correct_witness : ∃ s', op_ADC IMM sample = Ret tt s' ∧ cpu_v s' = true.
Proof.
  destruct (adc_correct IMM sample 1 (set_pc 1 sample) sample_wf eq_refl eq_refl)
    as (s' & Hs & _ & _ & Hv & _). exists s'. split; [exact Hs|exact Hv].
Defined.

Lemma sbc_correct_witness : ∃ s', op_SBC IMM sample = Ret tt s' ∧ cpu_v s' = false.
Proof.
  destruct (sbc_correct IMM sample 1 (set_pc 1 sample) sample_wf eq_refl eq_refl)
    as (s' & Hs & _ & _ & Hv & _). exists s'. split; [exact Hs|exact Hv].
Defined.

Lemma cmp_correct_witness : ∃ s', cmp 0x7F IMM sample = Ret tt s' ∧ cpu_c s' = true.
Proof.
  destruct (cmp_correct IMM sample 1 (set_pc 1 sample) 0x7F sample_wf) as (s' & Hs & Hc & _);
    [apply (bool_decide_unpack _); by vm_compute|reflexivity|].
  exists s'. split; [exact Hs|exact Hc].
Defined.

Lemma jsr_rts_roundtrip_witness :
  ∃ s2, op_RTS IMP (final (op_JSR ABS (set_pc 2 sample))) = Ret tt s2 ∧ cpu_pc s2 = 4.
Proof.
  destruct (jsr_rts_roundtrip ABS IMP (set_pc 2 sample)
    (final (op_JSR ABS (set_pc 2 sample)))) as (s2 & Hs & Hpc & _).
  - apply wf_set_pc; [apply (bool_decide_unpack _); by vm_compute|exact sample_wf].
  - by vm_compute.
  - exists s2. split; [exact Hs|exact Hpc].
Defined.

Lemma php_plp_roundtrip_witness : ∃ s1, op_PHP IMP sample = Ret tt s1.
Proof.
  destruct (php_plp_roundtrip IMP IMP sample sample_wf) as (s1 & Hs & _). by exists s1.
Defined.
End Cpu.

Module Bench.

(** What the routine a loop stub repeats promises, for a stack pointer [sp0] at the stub. *)
Record routine {D} `{IODevice D} (target sp0 K : Z) (Inv : cpu D → Prop) (W : Z → Prop) : Prop := {
  (** it writes neither the stub, nor the counters, nor the stub's own return address *)
  rt_stub : ∀ k, W k → k < STUB ∨ STUB + 24 ≤ k;
  rt_counters : ∀ k, W k → k ≠ CNT_OUTER ∧ k ≠ CNT_INNER;
  rt_stack : ∀ k, W k → k ≠ 0x100 + u8 (sp0 + 1) ∧ k ≠ 0x100 + u8 (u8 (sp0 + 1) + 1);
  (** what it needs does not depend on the counters or the stack *)
  rt_stable : ∀ s s', Inv s → mem_outside scratch s s' → same_window s s' → Inv s';
  (** it returns within [K] steps, having entered itself once and written only in [W] *)
  rt_call : ∀ s, Inv s → cpu_pc s = target → cpu_sp s = u8 (u8 (sp0 - 1) - 1) →
    ∃ s', reaches target K 1 s s' ∧ cpu_pc s' = u16 (top_word s + 1) ∧ cpu_sp s' = sp0 ∧
      same_window s s' ∧ mem_outside W s s' ∧ Inv s';
}.

(** The loop stub of the blanking benchmark calls its target [outer * inner] times, a
    count byte of 0 standing for 256, and returns to its caller with the stack popped, for
    every routine that keeps its hands off the stub, the counters and the return address, in a
    number of steps its own steps bound. *)
Theorem loop_stub_calls {D} `{IODevice D} target outer inner code K Inv W (s : cpu D) :
  build_loop_stub target outer inner = Some code →
  word16 target → target < STUB ∨ STUB + 24 ≤ target →
  byte (cpu_sp s) → routine target (cpu_sp s) K Inv W → Inv s →
  (∀ k, STUB ≤ k < STUB + 0x30 → in_io k s = false) →
  code_at s STUB code → cpu_pc s = STUB →
  ∃ s', reaches target (stub_steps outer inner K) (reps outer * reps inner) s s' ∧
    cpu_pc s' = u16 (top_word s + 1) ∧ cpu_sp s' = u8 (cpu_sp s + 2).
Proof.
  intros Hcode Ht Hoff Hsp [Hw1 Hw2 Hw3 Hst Hrt] Hinv Hio Hat Hpc.
  destruct (stub_counts target outer inner code Hcode) as [Ho Hi].
  rewrite (stub_code_built target outer inner Ho Hi) in Hcode. injection Hcode as <-.
  destruct (loop_stub target outer inner Ho Hi Ht Hoff Inv W (cpu_sp s) K Hsp Hw1 Hw2 Hw3 Hst
    Hrt (cpu_io_lo s) (cpu_io_hi s) Hio
    (default 0 (cpu_mem s !! CNT_OUTER)) (default 0 (cpu_mem s !! CNT_INNER)) (top_word s) s)
    as (s' & Hr & Hpc' & Hsp' & _); [|done|by exists s'].
  constructor; try done; (split; [done|]; split; [apply Hio; unfold STUB, CNT_OUTER,
    CNT_INNER; lia|done]).
Qed.

(** The stub of 2 by 3 calls around a bare RTS at $C100. *)
Definition demo_code : bytes := default [] (build_loop_stub 0xC100 2 3).
Definition demo_mem : gmap Z Z :=
  <[0xC100 := 0x60]> (list_to_map (zip (seqZ STUB 24) demo_code)).
Definition demo : cpu unit := set_pc STUB (init demo_mem 0xDC00 0xE000 tt).
Definition demo_inv (s : cpu unit) : Prop := ram s 0xC100 0x60.

Lemma demo_routine : routine 0xC100 0xFD 1 demo_inv (λ _, False).
Proof.
  split; try done.
  - intros s s' Hr Hm Hw. eapply ram_agree; [exact Hr|apply Hm; unfold scratch, CNT_OUTER,
      CNT_INNER; lia|done].
  - intros s Hr Hpc Hsp. unfold demo_inv in Hr. rewrite <- Hpc in Hr.
    apply exec_RTS in Hr as Hstep. eexists. split_and!.
    + exists 1%nat. rewrite !(visits_step _ s tt _ Hstep), Hpc. cbn. by rewrite Hstep.
    + done.
    + cbn. by rewrite Hsp.
    + done.
    + by intros k _.
    + unfold demo_inv. rewrite <- Hpc. by eapply ram_same.
Qed.

Lemma loop_stub_calls_witness : ∃ s', reaches 0xC100 (stub_steps 2 3 1) 6 demo s'.
Proof.
  destruct (loop_stub_calls 0xC100 2 3 demo_code 1 demo_inv (λ _, False) demo)
    as (s' & Hr & _).
  - by vm_compute.
  - unfold word16. lia.
  - right. unfold STUB. lia.
  - apply (bool_decide_unpack _). by vm_compute.
  - exact demo_routine.
  - repeat split; by vm_compute.
  - intros k Hk. unfold in_io, demo, STUB in *. cbn. lia.
  - apply code_at_bool. by vm_compute.
  - reflexivity.
  - by exists s'.
Defined.

(** The BCD form the clock chip holds a number below 100 in. *)
Definition to_bcd (x : Z) : Z := (x / 10) * 16 + x mod 10.

Lemma bcd_to_bcd x : 0 ≤ x < 100 → bcd (to_bcd x) = x.
Proof.
  intros Hx. unfold bcd, to_bcd. change 0x0F with (Z.ones 4).
  rewrite Z.land_ones, Z.shiftr_div_pow2 by lia. change (2 ^ 4) with 16.
  Z.to_euclidean_division_equations. lia.
Qed.

(** The four registers read back, whichever way the hour that begins a half day is shown. *)
Lemma tod_tenths_bcd x m s t pm junk :
  0 ≤ x ≤ 12 → 0 ≤ m < 60 → 0 ≤ s < 60 → 0 ≤ t < 10 → 0 ≤ junk < 16 →
  tod_tenths (to_bcd x + 128 * bool_Z pm) (to_bcd m) (to_bcd s) (t + 16 * junk)
  = ((x mod 12 * 60 + m) * 60 + s) * 10 + t.
Proof.
  intros Hx Hm Hs Ht Hj. unfold tod_tenths. rewrite !(bcd_to_bcd m), !(bcd_to_bcd s) by lia.
  replace (bcd (Z.land (to_bcd x + 128 * bool_Z pm) 0x7F) mod 12) with (x mod 12).
  - f_equal. change 0x0F with (Z.ones 4). rewrite Z.land_ones by lia. change (2 ^ 4) with 16.
    rewrite Z.mul_comm, Z_mod_plus_full, Z.mod_small by lia.
    unfold bcd. change 0x0F with (Z.ones 4).
    rewrite Z.land_ones, Z.shiftr_div_pow2 by lia. change (2 ^ 4) with 16.
    Z.to_euclidean_division_equations. lia.
  - assert (Hcases : x ∈ seqZ 0 13) by (apply elem_of_seqZ; lia).
    clear -Hcases. revert x Hcases. apply Forall_forall.
    destruct pm; repeat constructor.
Qed.

(** The time-of-day decoder inverts the clock chip's BCD encoding: hours 12 and 0 are the
    same half-day hour, the AM/PM flag in bit 7 is ignored, as is the high nibble of tenths. *)
Theorem tod_tenths_decodes h m s t pm junk :
  0 ≤ h < 12 → 0 ≤ m < 60 → 0 ≤ s < 60 → 0 ≤ t < 10 → 0 ≤ junk < 16 →
  tod_tenths (to_bcd (if h =? 0 then 12 else h) + 128 * bool_Z pm) (to_bcd m) (to_bcd s)
    (t + 16 * junk) = ((h * 60 + m) * 60 + s) * 10 + t.
Proof.
  intros Hh Hm Hs Ht Hj. rewrite tod_tenths_bcd by (try case_match; lia).
  assert ((if h =? 0 then 12 else h) mod 12 = h) as ->; [|done].
  case_match; [|by apply Z.mod_small]. replace h with 0 by lia. done.
Qed.

Lemma tod_tenths_decodes_witness :
  tod_tenths (to_bcd 12 + 128 * 1) (to_bcd 34) (to_bcd 56) (7 + 16 * 3) = 20967.
Proof. exact (tod_tenths_decodes 0 34 56 7 true 3 ltac:(lia) ltac:(lia) ltac:(lia) ltac:(lia) ltac:(lia)). Defined.

End Bench.
