(* ===== verification/PyHashlib.v ===== *)
(** * Hashes, as [hashlib.blake2s] and [hashlib.sha256] compute them

    The hashes of RFC 7693, unkeyed and keyed, with a digest size, and of FIPS 180-4, on 32-bit words
    held as integers; the responder's MAC1 is the one, the stamp of a run's inputs the other. *)

From S2P Require Export PyBytes.

(** ** Words of 32 bits *)

Module Words32.
Definition W32 : Z := 4294967296.
Definition add32 (x y : Z) : Z := (x + y) mod W32.
Definition ror32 (x n : Z) : Z := Z.lor (x ≫ n) (Z.land (x ≪ (32 - n)) (Z.ones 32)).
Definition word (v : list Z) (i : nat) : Z := nth i v 0.
End Words32.

(** ** BLAKE2s *)

Module Blake2s.
Import Words32.

Definition IV : list Z :=
  [0x6A09E667; 0xBB67AE85; 0x3C6EF372; 0xA54FF53A;
   0x510E527F; 0x9B05688C; 0x1F83D9AB; 0x5BE0CD19].

Definition SIGMA : list (list nat) :=
  [[0; 1; 2; 3; 4; 5; 6; 7; 8; 9; 10; 11; 12; 13; 14; 15];
   [14; 10; 4; 8; 9; 15; 13; 6; 1; 12; 0; 2; 11; 7; 5; 3];
   [11; 8; 12; 0; 5; 2; 15; 13; 10; 14; 3; 6; 7; 1; 9; 4];
   [7; 9; 3; 1; 13; 12; 11; 14; 2; 6; 5; 10; 4; 0; 15; 8];
   [9; 0; 5; 7; 2; 4; 10; 15; 14; 1; 11; 12; 6; 8; 3; 13];
   [2; 12; 6; 10; 0; 11; 8; 3; 4; 13; 7; 5; 15; 14; 1; 9];
   [12; 5; 1; 15; 14; 13; 4; 10; 0; 7; 6; 3; 9; 2; 8; 11];
   [13; 11; 7; 14; 12; 1; 3; 9; 5; 0; 15; 4; 8; 6; 2; 10];
   [6; 15; 14; 9; 11; 3; 0; 8; 12; 2; 13; 7; 1; 4; 10; 5];
   [10; 2; 8; 4; 7; 6; 1; 5; 15; 11; 9; 14; 3; 12; 13; 0]]%nat.

(** The mixing function on four words of the working vector. *)
Definition mix (v : list Z) (a b c d : nat) (x y : Z) : list Z :=
  let va := add32 (add32 (word v a) (word v b)) x in
  let vd := ror32 (Z.lxor (word v d) va) 16 in
  let vc := add32 (word v c) vd in
  let vb := ror32 (Z.lxor (word v b) vc) 12 in
  let va' := add32 (add32 va vb) y in
  let vd' := ror32 (Z.lxor vd va') 8 in
  let vc' := add32 vc vd' in
  let vb' := ror32 (Z.lxor vb vc') 7 in
  <[a := va']> (<[b := vb']> (<[c := vc']> (<[d := vd']> v))).

Definition round (m : list Z) (v : list Z) (s : list nat) : list Z :=
  let w i := word m (nth i s 0%nat) in
  let v := mix v 0 4 8 12 (w 0%nat) (w 1%nat) in
  let v := mix v 1 5 9 13 (w 2%nat) (w 3%nat) in
  let v := mix v 2 6 10 14 (w 4%nat) (w 5%nat) in
  let v := mix v 3 7 11 15 (w 6%nat) (w 7%nat) in
  let v := mix v 0 5 10 15 (w 8%nat) (w 9%nat) in
  let v := mix v 1 6 11 12 (w 10%nat) (w 11%nat) in
  let v := mix v 2 7 8 13 (w 12%nat) (w 13%nat) in
  mix v 3 4 9 14 (w 14%nat) (w 15%nat).

(** A block of 64 bytes as sixteen words. *)
Fixpoint words (n : nat) (l : bytes) : list Z :=
  match n with
  | O => []
  | S n => from_le (take 4 l) :: words n (drop 4 l)
  end.

Definition compress (h : list Z) (block : bytes) (t : Z) (last : bool) : list Z :=
  let v := h ++ IV in
  let v := <[12%nat := Z.lxor (word v 12) (t mod W32)]> v in
  let v := <[13%nat := Z.lxor (word v 13) (t / W32)]> v in
  let v := if last then <[14%nat := Z.lxor (word v 14) (Z.ones 32)]> v else v in
  let v := foldl (round (words 16 block)) v SIGMA in
  imap (λ i hi, Z.lxor hi (Z.lxor (word v i) (word v (i + 8)))) h.

Definition pad (l : bytes) : bytes := take 64 (l ++ replicate 64 0).

(** All blocks but the last are full; [t] counts the bytes hashed so far. *)
Fixpoint blocks (fuel : nat) (h : list Z) (data : bytes) (t : Z) : list Z :=
  match fuel with
  | O => h
  | S fuel =>
      if decide (length data ≤ 64)%nat
      then compress h (pad data) (t + len data) true
      else blocks fuel (compress h (take 64 data) (t + 64) false) (drop 64 data) (t + 64)
  end.

Definition digest (size : Z) (key data : bytes) : bytes :=
  let h := match IV with
    | h0 :: h => Z.lxor h0 (Z.lxor 0x01010000 (Z.lxor (len key ≪ 8) size)) :: h
    | [] => []
    end in
  let input := if decide (key = []) then data else pad key ++ data in
  take (Z.to_nat size)
    (concat ((λ w, le_bytes 4 w) <$> blocks (S (length input)) h input 0)).

(** The test vector of RFC 7693, appendix B, the empty string, and a keyed one. *)
Example digest_abc : digest 32 [] [0x61; 0x62; 0x63] =
  [0x50; 0x8C; 0x5E; 0x8C; 0x32; 0x7C; 0x14; 0xE2; 0xE1; 0xA7; 0x2B; 0xA3; 0x4E; 0xEB; 0x45;
   0x2F; 0x37; 0x45; 0x8B; 0x20; 0x9E; 0xD6; 0x3A; 0x29; 0x4D; 0x99; 0x9B; 0x4C; 0x86; 0x67;
   0x59; 0x82].
Proof. by vm_compute. Qed.

Example digest_block : digest 32 [] (replicate 64 0) =
  [174; 9; 219; 124; 213; 79; 66; 180; 144; 239; 9; 182; 188; 84; 26; 246; 136; 228; 149; 155;
   184; 197; 63; 53; 154; 111; 86; 227; 138; 180; 84; 163].
Proof. by vm_compute. Qed.
Example digest_keyed : digest 16 (seqZ 0 32) (seqZ 0 100) =
  [11; 103; 211; 63; 139; 133; 156; 49; 87; 251; 171; 217; 230; 228; 126; 208].
Proof. by vm_compute. Qed.

Lemma length_compress h b t l : length (compress h b t l) = length h.
Proof. unfold compress. by rewrite length_imap. Qed.

Lemma length_blocks fuel h data t : length (blocks fuel h data t) = length h.
Proof.
  revert h data t. induction fuel as [|fuel IH]; intros h data t; [done|]. cbn [blocks].
  case_decide; [apply length_compress|]. by rewrite IH, length_compress.
Qed.

(** The fuel, one more than the number of bytes, is always enough. *)
Lemma blocks_fuel fuel fuel' h data t :
  (length data < fuel)%nat → (length data < fuel')%nat →
  blocks fuel h data t = blocks fuel' h data t.
Proof.
  revert fuel' h data t. induction fuel as [|fuel IH]; intros [|fuel'] h data t; try lia.
  cbn [blocks]. intros. case_decide; [done|].
  apply IH; rewrite length_drop; lia.
Qed.

Lemma length_concat_le4 l : length (concat ((λ w, le_bytes 4 w) <$> l)) = (4 * length l)%nat.
Proof. induction l as [|w l IH]; [done|]. cbn in *. rewrite IH. lia. Qed.

Lemma length_digest size key data :
  0 ≤ size ≤ 32 → length (digest size key data) = Z.to_nat size.
Proof.
  intros Hs. unfold digest. rewrite length_take, length_concat_le4, length_blocks.
  cbn [length IV]. lia.
Qed.

Lemma is_bytes_digest size key data : is_bytes (digest size key data).
Proof.
  unfold digest. apply Forall_take, Forall_concat, Forall_fmap, Forall_true.
  intros w. apply is_bytes_le_bytes.
Qed.
End Blake2s.

(** From here on the digest is used through its length and its range only. *)
#[global] Opaque Blake2s.digest.

(** ** SHA-256 *)

Module Sha256.
Import Words32.

Definition shr (x n : Z) : Z := x ≫ n.

(** The first 64 primes. *)
Definition is_prime (p : Z) : bool := forallb (λ d, negb (p mod d =? 0)) (seqZ 2 (p - 2)).
Definition primes : list Z := List.filter is_prime (seqZ 2 310).

(** The largest number of [n] bits above [r] whose cube is at most [z]. *)
Fixpoint cube_root (n : nat) (r z : Z) : Z :=
  match n with
  | O => r
  | S n =>
      let r' := r + 2 ^ Z.of_nat n in
      cube_root n (if r' * r' * r' <=? z then r' else r) z
  end.

(** 32 bits behind the point of the square roots of eight primes and of the cube roots of all. *)
Definition IV : list Z := (λ p, Z.sqrt (p ≪ 64) mod W32) <$> take 8 primes.
Definition K : list Z := (λ p, cube_root 36 0 (p ≪ 96) mod W32) <$> primes.

(** The message schedule; the words are kept last first. *)
Fixpoint extend (n : nat) (w : list Z) : list Z :=
  match n with
  | O => w
  | S n =>
      let x := word w 14 in
      let y := word w 1 in
      let s0 := Z.lxor (ror32 x 7) (Z.lxor (ror32 x 18) (shr x 3)) in
      let s1 := Z.lxor (ror32 y 17) (Z.lxor (ror32 y 19) (shr y 10)) in
      extend n (add32 (add32 (word w 15) s0) (add32 (word w 6) s1) :: w)
  end.

Fixpoint words (n : nat) (l : bytes) : list Z :=
  match n with
  | O => []
  | S n => from_be (take 4 l) :: words n (drop 4 l)
  end.

Definition round (h : list Z) (kw : Z * Z) : list Z :=
  match h with
  | [a; b; c; d; e; f; g; h] =>
      let s1 := Z.lxor (ror32 e 6) (Z.lxor (ror32 e 11) (ror32 e 25)) in
      let ch := Z.lxor (Z.land e f) (Z.land (Z.lxor e (Z.ones 32)) g) in
      let t1 := add32 (add32 (add32 h s1) (add32 ch kw.1)) kw.2 in
      let s0 := Z.lxor (ror32 a 2) (Z.lxor (ror32 a 13) (ror32 a 22)) in
      let maj := Z.lxor (Z.land a b) (Z.lxor (Z.land a c) (Z.land b c)) in
      [add32 t1 (add32 s0 maj); a; b; c; add32 d t1; e; f; g]
  | _ => h
  end.

Definition compress (h : list Z) (block : bytes) : list Z :=
  zip_with add32 h (foldl round h (zip K (rev (extend 48 (rev (words 16 block)))))).

(** The bit 1, zeros, and the length in bits, to full blocks of 64 bytes. *)
Definition padded (data : bytes) : bytes :=
  data ++ [128] ++ replicate (Z.to_nat ((55 - len data) mod 64)) 0 ++ rev (le_bytes 8 (8 * len data)).

Fixpoint blocks (fuel : nat) (h : list Z) (data : bytes) : list Z :=
  match fuel with
  | O => h
  | S fuel =>
      match data with
      | [] => h
      | _ => blocks fuel (compress h (take 64 data)) (drop 64 data)
      end
  end.

Definition digest (data : bytes) : bytes :=
  concat ((λ w, rev (le_bytes 4 w)) <$> blocks (S (length data)) IV (padded data)).

(** The test vectors of FIPS 180-4. *)
Example sha256_abc : from_be (digest [0x61; 0x62; 0x63]) =
  0xba7816bf8f01cfea414140de5dae2223b00361a396177a9cb410ff61f20015ad.
Proof. by vm_compute. Qed.
Example sha256_empty : from_be (digest []) =
  0xe3b0c44298fc1c149afbf4c8996fb92427ae41e4649b934ca495991b7852b855.
Proof. by vm_compute. Qed.
Example sha256_two_blocks :
  from_be (digest (bytes_of_string "abcdbcdecdefdefgefghfghighijhijkijkljklmklmnlmnomnopnopq")) =
  0x248d6a61d20638b8e5c026930c3e6039a33ce45964ff2167f6ecedd419db06c1.
Proof. by vm_compute. Qed.

(** The padded data is made of full blocks, so the fuel is enough. *)
Lemma sha256_length_padded data : ∃ n, length (padded data) = (64 * n)%nat ∧ (n ≤ S (length data))%nat.
Proof.
  pose proof (Z.mod_pos_bound (55 - len data) 64 ltac:(lia)) as Hb.
  pose proof (Z.div_mod (55 - len data) 64 ltac:(lia)) as Hd.
  assert (Hlen : length (padded data) = (length data + 9 + Z.to_nat ((55 - len data) mod 64))%nat).
  { unfold padded. rewrite !length_app, length_replicate, length_rev, length_le_bytes. cbn [length]. lia. }
  unfold len in *. exists (Z.to_nat (- ((55 - Z.of_nat (length data)) / 64) + 1)). rewrite Hlen. lia.
Qed.

Lemma sha256_blocks_fuel n fuel fuel' h data :
  length data = (64 * n)%nat → (n ≤ fuel)%nat → (n ≤ fuel')%nat →
  blocks fuel h data = blocks fuel' h data.
Proof.
  revert fuel fuel' h data. induction n as [|n IH]; intros fuel fuel' h data Hl.
  - intros _ _. destruct data; [by destruct fuel, fuel'|done].
  - destruct fuel as [|fuel]; [lia|]. destruct fuel' as [|fuel']; [lia|]. intros ? ?.
    destruct data as [|x data]; [done|]. cbn [blocks]. apply IH; [|lia..].
    rewrite length_drop, Hl. lia.
Qed.
End Sha256.
