(* ===== verification/Responder.v ===== *)
(** * The WireGuard responder (tools/wg_responder/responder.py)

    The responder object as explicit state, with one definition per method.  BLAKE2s is
    computed; the Noise handshake, the ciphers and X25519 belong to packages the code only
    calls, and are the operations of the class [NoiseLib]. *)

From S2P Require Export PyHashlib.

(** ** Protocol constants *)

Definition CONSTRUCTION : bytes := bytes_of_string "Noise_IKpsk2_25519_ChaChaPoly_BLAKE2s".
Definition IDENTIFIER : bytes := bytes_of_string "WireGuard v1 zx2c4 Jason@zx2c4.com".
Definition LABEL_MAC1 : bytes := bytes_of_string "mac1----".

Definition MSG_TYPE_INITIATION : Z := 0x01.
Definition MSG_TYPE_RESPONSE : Z := 0x02.
Definition MSG_TYPE_TRANSPORT : Z := 0x04.
Definition NOISE_MSG1_LEN : Z := 108.
Definition NOISE_MSG2_LEN : Z := 48.

Definition T1_TOTAL : Z := 148.
Definition T1_OFF_SENDER : Z := 4.
Definition T1_OFF_NOISE : Z := 8.
Definition T1_OFF_MAC1 : Z := T1_OFF_NOISE + NOISE_MSG1_LEN.

Definition T2_TOTAL : Z := 92.
Definition T4_HDR_LEN : Z := 16.

(** ** The packages the responder calls *)

(** [N] is the state of a [NoiseConnection], [NE] the exceptions of the package. *)
Class NoiseLib (N NE : Type) := {
  (** [from_name], [set_prologue], [set_psks], the two key pairs, [set_as_responder] and
      [start_handshake] *)
  noise_start (name prologue psk static_priv remote_pub : bytes) : res NE N;
  noise_read_message : bytes → eff N NE bytes;
  noise_write_message : bytes → eff N NE bytes;
  noise_encrypt : bytes → eff N NE bytes;
  noise_decrypt : bytes → eff N NE bytes;
  (** whether the exception is a [ValueError] *)
  noise_value_error : NE → bool;
  (** the public key of a 32-byte private key *)
  x25519_public : bytes → bytes;
}.

(** The exceptions the responder raises, one constructor per [raise]. *)
Inductive rexn (NE : Type) : Type :=
| BadStaticPriv
| BadPeerPub
| BadLength (n : Z)
| BadType (b : Z)
| BadReserved
| Mac1Mismatch (expected actual : bytes)
| BadPayload (n : Z)
| TimestampReplayError (peer timestamp greatest : bytes)
| NotComplete
| TransportTooShort (n : Z)
| NotTransport (b : Z)
| AssertionFailed (n : Z)
| StructError
| IndexFailed
| NoiseError (e : NE).
Arguments BadStaticPriv {NE}.
Arguments BadPeerPub {NE}.
Arguments BadLength {NE}.
Arguments BadType {NE}.
Arguments BadReserved {NE}.
Arguments Mac1Mismatch {NE}.
Arguments BadPayload {NE}.
Arguments TimestampReplayError {NE}.
Arguments NotComplete {NE}.
Arguments TransportTooShort {NE}.
Arguments NotTransport {NE}.
Arguments AssertionFailed {NE}.
Arguments StructError {NE}.
Arguments IndexFailed {NE}.
Arguments NoiseError {NE}.

Definition is_value_error {N NE} `{NoiseLib N NE} (e : rexn NE) : bool :=
  match e with
  | NotComplete | AssertionFailed _ | StructError | IndexFailed => false
  | NoiseError e => noise_value_error e
  | _ => true
  end.

(** ** MAC helpers *)

Definition blake2s (data : bytes) : bytes := Blake2s.digest 32 [] data.
Definition mac1_key (static_pubkey : bytes) : bytes := blake2s (LABEL_MAC1 ++ static_pubkey).
Definition compute_mac1 (msg_bytes key : bytes) : bytes := Blake2s.digest 16 key msg_bytes.

(** ** The responder object *)

Record responder (N : Type) : Type := Responder {
  r_static_priv : bytes;
  r_peer_static_pub : bytes;
  r_psk : bytes;
  r_static_pub : bytes;
  r_mac1_key_for_t1 : bytes;
  r_mac1_key_for_t2 : bytes;
  r_noise : option N;
  r_c64_sender_idx : option Z;
  r_my_sender_idx : Z;
  r_send_counter : Z;
  r_greatest_timestamp : gmap bytes bytes;
  r_last_timestamp : option bytes;
  r_handshake_complete : bool;
}.
Arguments Responder {N}.
Arguments r_static_priv {N}.
Arguments r_peer_static_pub {N}.
Arguments r_psk {N}.
Arguments r_static_pub {N}.
Arguments r_mac1_key_for_t1 {N}.
Arguments r_mac1_key_for_t2 {N}.
Arguments r_noise {N}.
Arguments r_c64_sender_idx {N}.
Arguments r_my_sender_idx {N}.
Arguments r_send_counter {N}.
Arguments r_greatest_timestamp {N}.
Arguments r_last_timestamp {N}.
Arguments r_handshake_complete {N}.

Section responder.
Context {N NE : Type} `{NoiseLib N NE}.
Abbreviation R := (eff (responder N) (rexn NE)).

(** [__init__]; [rnd] is the result of [os.urandom(4)]. *)
Definition new_responder (static_priv peer_static_pub : bytes) (psk : option bytes)
    (rnd : bytes) : res (rexn NE) (responder N) :=
  if negb (len static_priv =? 32) then Err BadStaticPriv
  else if negb (len peer_static_pub =? 32) then Err BadPeerPub
  else
    let static_pub := x25519_public static_priv in
    Ok {| r_static_priv := static_priv; r_peer_static_pub := peer_static_pub;
          r_psk := default (replicate 32 0) psk; r_static_pub := static_pub;
          r_mac1_key_for_t1 := mac1_key static_pub;
          r_mac1_key_for_t2 := mac1_key peer_static_pub;
          r_noise := None; r_c64_sender_idx := None; r_my_sender_idx := from_le rnd;
          r_send_counter := 0; r_greatest_timestamp := ∅; r_last_timestamp := None;
          r_handshake_complete := false |}.

(** The assignments that replace the session. *)
Definition commit (noise : N) (sender_idx : Z) (timestamp : bytes) (r : responder N) :
    responder N :=
  {| r_static_priv := r_static_priv r; r_peer_static_pub := r_peer_static_pub r;
     r_psk := r_psk r; r_static_pub := r_static_pub r;
     r_mac1_key_for_t1 := r_mac1_key_for_t1 r; r_mac1_key_for_t2 := r_mac1_key_for_t2 r;
     r_noise := Some noise; r_c64_sender_idx := Some sender_idx;
     r_my_sender_idx := r_my_sender_idx r; r_send_counter := 0;
     r_greatest_timestamp := <[r_peer_static_pub r := timestamp]> (r_greatest_timestamp r);
     r_last_timestamp := Some timestamp; r_handshake_complete := true |}.

Definition set_noise (noise : option N) (r : responder N) : responder N :=
  {| r_static_priv := r_static_priv r; r_peer_static_pub := r_peer_static_pub r;
     r_psk := r_psk r; r_static_pub := r_static_pub r;
     r_mac1_key_for_t1 := r_mac1_key_for_t1 r; r_mac1_key_for_t2 := r_mac1_key_for_t2 r;
     r_noise := noise; r_c64_sender_idx := r_c64_sender_idx r;
     r_my_sender_idx := r_my_sender_idx r; r_send_counter := r_send_counter r;
     r_greatest_timestamp := r_greatest_timestamp r; r_last_timestamp := r_last_timestamp r;
     r_handshake_complete := r_handshake_complete r |}.

Definition set_send_counter (c : Z) (r : responder N) : responder N :=
  {| r_static_priv := r_static_priv r; r_peer_static_pub := r_peer_static_pub r;
     r_psk := r_psk r; r_static_pub := r_static_pub r;
     r_mac1_key_for_t1 := r_mac1_key_for_t1 r; r_mac1_key_for_t2 := r_mac1_key_for_t2 r;
     r_noise := r_noise r; r_c64_sender_idx := r_c64_sender_idx r;
     r_my_sender_idx := r_my_sender_idx r; r_send_counter := c;
     r_greatest_timestamp := r_greatest_timestamp r; r_last_timestamp := r_last_timestamp r;
     r_handshake_complete := r_handshake_complete r |}.

(** [packet[i]] and [struct.pack] inside a method. *)
Definition at_index (packet : bytes) (i : Z) : R Z :=
  match item packet i with Some b => mret b | None => raise IndexFailed end.
Definition pack (n : nat) (z : Z) : R bytes :=
  match to_le n z with Some l => mret l | None => raise StructError end.

(** A call of the package on a connection that only this method holds. *)
Definition on_local {A} (noise : N) (m : eff N NE A) : R (A * N) := λ r,
  match m noise with
  | Ret a noise' => Ret (a, noise') r
  | Raise e _ => Raise (NoiseError e) r
  end.

(** A call of the package on the connection of the session. *)
Definition on_session {A} (noise : N) (m : eff N NE A) : R A := λ r,
  match m noise with
  | Ret a noise' => Ret a (set_noise (Some noise') r)
  | Raise e noise' => Raise (NoiseError e) (set_noise (Some noise') r)
  end.

Definition build_type2 (noise_msg2 : bytes) : R bytes :=
  my ← gets r_my_sender_idx; c64 ← gets r_c64_sender_idx;
  my_le ← pack 4 my;
  c64_le ← pack 4 (default 0 c64);
  let hdr := [MSG_TYPE_RESPONSE; 0; 0; 0] ++ my_le ++ c64_le in
  let body_up_to_mac1 := hdr ++ noise_msg2 in
  key ← gets r_mac1_key_for_t2;
  let mac1 := compute_mac1 body_up_to_mac1 key in
  let mac2 := replicate 16 0 in
  let pkt := body_up_to_mac1 ++ mac1 ++ mac2 in
  if len pkt =? T2_TOTAL then mret pkt else raise (AssertionFailed (len pkt)).

(** What [handle_initiation] checks before it touches the Noise package. *)
Definition check_initiation (packet : bytes) : R unit :=
  if negb (len packet =? T1_TOTAL) then raise (BadLength (len packet)) else
  b0 ← at_index packet 0;
  if negb (b0 =? MSG_TYPE_INITIATION) then raise (BadType b0) else
  if negb (bool_decide (slice 1 4 packet = [0; 0; 0])) then raise BadReserved else
  let body_up_to_mac1 := slice 0 T1_OFF_MAC1 packet in
  key ← gets r_mac1_key_for_t1;
  let expected_mac1 := compute_mac1 body_up_to_mac1 key in
  let actual_mac1 := slice T1_OFF_MAC1 (T1_OFF_MAC1 + 16) packet in
  if negb (bool_decide (expected_mac1 = actual_mac1))
  then raise (Mac1Mismatch expected_mac1 actual_mac1) else mret tt.

(** The greatest-seen rule. *)
Definition check_timestamp (timestamp : bytes) : R unit :=
  peer ← gets r_peer_static_pub;
  greatest ← gets (λ r, r_greatest_timestamp r !! peer);
  match greatest with
  | Some g => if from_be timestamp <=? from_be g
              then raise (TimestampReplayError peer timestamp g) else mret tt
  | None => mret tt
  end.

Definition handle_initiation (packet : bytes) : R bytes :=
  check_initiation packet;;
  let sender_idx := from_le (slice T1_OFF_SENDER (T1_OFF_SENDER + 4) packet) in
  let noise_payload := slice T1_OFF_NOISE T1_OFF_MAC1 packet in
  psk ← gets r_psk; priv ← gets r_static_priv; peer ← gets r_peer_static_pub;
  noise ← (match noise_start CONSTRUCTION IDENTIFIER psk priv peer with
           | Ok n => mret n | Err e => raise (NoiseError e) end);
  '(timestamp, noise) ← on_local noise (noise_read_message noise_payload);
  if negb (len timestamp =? 12) then raise (BadPayload (len timestamp)) else
  check_timestamp timestamp;;
  '(noise_msg2, noise) ← on_local noise (noise_write_message []);
  modify (commit noise sender_idx timestamp);;
  build_type2 noise_msg2.

Definition greatest_timestamp (peer_static_pub : option bytes) (r : responder N) :
    option bytes :=
  r_greatest_timestamp r !! default (r_peer_static_pub r) peer_static_pub.

(** [if not self.handshake_complete or self._noise is None: raise RuntimeError] *)
Definition session : R N :=
  done ← gets r_handshake_complete; noise ← gets r_noise;
  match noise with
  | Some noise => if done : bool then mret noise else raise NotComplete
  | None => raise NotComplete
  end.

Definition decrypt_transport (packet : bytes) : R bytes :=
  noise ← session;
  if len packet <? T4_HDR_LEN + 16 then raise (TransportTooShort (len packet)) else
  b0 ← at_index packet 0;
  if negb (b0 =? MSG_TYPE_TRANSPORT) then raise (NotTransport b0) else
  on_session noise (noise_decrypt (from T4_HDR_LEN packet)).

Definition encrypt_transport (plaintext : bytes) : R bytes :=
  noise ← session;
  ciphertext ← on_session noise (noise_encrypt plaintext);
  c64 ← gets r_c64_sender_idx;
  counter ← gets r_send_counter;
  modify (set_send_counter (counter + 1));;
  idx_le ← pack 4 (default 0 c64);
  counter_le ← pack 8 counter;
  mret (([MSG_TYPE_TRANSPORT; 0; 0; 0] ++ idx_le ++ counter_le) ++ ciphertext).
End responder.
