(* ===== verification/ResponderInv.v ===== *)
(** * The WireGuard responder: invariant and behaviour of each method

    What the Noise package promises, the session invariant, and one lemma per method that
    says what it does on every path. *)

From S2P Require Export Responder.

(** The documented behaviour of the Noise package the session relies on: the responder's
    handshake message for an empty payload is 48 bytes, a fresh transport cipher starts at
    nonce 0, every successful encryption uses the next nonce, and neither a failed encryption
    nor a decryption moves the sending nonce. *)
Class NoiseLaws (N NE : Type) `{NoiseLib N NE} (send_nonce : N → Z) : Prop := {
  law_fresh name prologue psk priv pub n0 p ts n1 msg n2 :
    noise_start name prologue psk priv pub = Ok n0 →
    noise_read_message p n0 = Ret ts n1 → noise_write_message [] n1 = Ret msg n2 →
    len msg = NOISE_MSG2_LEN ∧ send_nonce n2 = 0;
  law_encrypt p n c n' : noise_encrypt p n = Ret c n' → send_nonce n' = send_nonce n + 1;
  law_encrypt_fails p n e n' : noise_encrypt p n = Raise e n' → send_nonce n' = send_nonce n;
  law_decrypt p n :
    send_nonce (match noise_decrypt p n with Ret _ n' | Raise _ n' => n' end) = send_nonce n;
}.

Section responder_inv.
Context {N NE : Type} `{Lib : NoiseLib N NE}.
Implicit Types r : responder N.

(** ** Accepting an initiation *)

Definition valid_initiation (packet : bytes) r : Prop :=
  len packet = T1_TOTAL ∧ item packet 0 = Some MSG_TYPE_INITIATION ∧
  slice 1 4 packet = [0; 0; 0] ∧
  slice T1_OFF_MAC1 (T1_OFF_MAC1 + 16) packet
    = compute_mac1 (slice 0 T1_OFF_MAC1 packet) (r_mac1_key_for_t1 r).

Definition fresh_timestamp (ts : bytes) r : Prop :=
  ∀ g, r_greatest_timestamp r !! r_peer_static_pub r = Some g → from_be g < from_be ts.

Lemma at_index_run packet i r :
  0 ≤ i < len packet → ∃ b, item packet i = Some b ∧ at_index (NE:=NE) packet i r = Ret b r.
Proof.
  intros Hi. destruct (item_is_Some packet i Hi) as [b Hb].
  exists b. split; [done|]. unfold at_index. by rewrite Hb.
Qed.

Lemma check_initiation_spec packet r :
  match check_initiation packet r with
  | Ret _ r' => r' = r ∧ valid_initiation packet r
  | Raise e r' => r' = r ∧ is_value_error e = true ∧ ¬ valid_initiation packet r
  end.
Proof.
  unfold check_initiation, valid_initiation.
  destruct (Z.eqb_spec (len packet) T1_TOTAL) as [Hlen|]; cbn [negb]; [|split_and!; tauto].
  destruct (at_index_run packet 0 r) as (b & Hb & Hat); [rewrite Hlen; unfold T1_TOTAL; lia|].
  rewrite run_bind, Hat.
  destruct (Z.eqb_spec b MSG_TYPE_INITIATION) as [->|]; cbn [negb];
    [|split_and!; [done..|]; rewrite Hb; intros (_&[=]&_); done].
  case_bool_decide as Hres; cbn [negb]; [|split_and!; tauto].
  rewrite run_bind. unfold gets.
  case_bool_decide as Hmac; cbn [negb]; [split_and!; done|].
  split_and!; [done..|]. intros (_&_&_&Hm). by apply Hmac.
Qed.

Lemma check_timestamp_spec ts r :
  match check_timestamp ts r with
  | Ret _ r' => r' = r ∧ fresh_timestamp ts r
  | Raise e r' => r' = r ∧ is_value_error e = true ∧
      ∃ g, r_greatest_timestamp r !! r_peer_static_pub r = Some g ∧
           e = TimestampReplayError (r_peer_static_pub r) ts g ∧ from_be ts ≤ from_be g
  end.
Proof.
  unfold check_timestamp, fresh_timestamp, gets. rewrite !run_bind.
  destruct (r_greatest_timestamp r !! r_peer_static_pub r) as [g|]; [|done].
  destruct (Z.leb_spec (from_be ts) (from_be g)); [split_and!; [done..|by exists g]|].
  split; [done|]. by intros ? [= <-].
Qed.

(** An accepted initiation, up to the message that is built from it. *)
Record accepts (packet : bytes) r (noise : N) (ts msg2 : bytes) : Prop := Accepts {
  ac_valid : valid_initiation packet r;
  ac_len : len ts = 12;
  ac_fresh : fresh_timestamp ts r;
  ac_noise : ∃ n0 n1,
    noise_start CONSTRUCTION IDENTIFIER (r_psk r) (r_static_priv r) (r_peer_static_pub r)
      = Ok n0 ∧
    noise_read_message (slice T1_OFF_NOISE T1_OFF_MAC1 packet) n0 = Ret ts n1 ∧
    noise_write_message [] n1 = Ret msg2 noise;
}.

Definition sender_of (packet : bytes) : Z := from_le (slice 4 8 packet).

(** A rejection is one of the [ValueError]s of the method or an exception of the package. *)
Definition rejection (e : rexn NE) : Prop :=
  is_value_error e = true ∨ ∃ ne, e = NoiseError ne.

Lemma handle_initiation_cases packet r :
  (∃ e, handle_initiation packet r = Raise e r ∧ rejection e) ∨
  (∃ noise ts msg2, accepts packet r noise ts msg2 ∧
     handle_initiation packet r
     = build_type2 msg2 (commit noise (sender_of packet) ts r)).
Proof.
  unfold handle_initiation, rejection. rewrite run_bind.
  pose proof (check_initiation_spec packet r) as Hc.
  destruct (check_initiation packet r) as [u r'|e r']; [|destruct Hc as (-> & ? & _); eauto].
  destruct Hc as [-> Hvalid]. unfold gets. rewrite !run_bind.
  destruct (noise_start _ _ _ _ _) as [n0|ne] eqn:Hstart; [|left; eauto].
  cbn [mret eff_ret]. rewrite run_bind. unfold on_local.
  destruct (noise_read_message _ n0) as [ts n1|ne n1] eqn:Hread; [|left; eauto].
  destruct (Z.eqb_spec (len ts) 12) as [Hts|]; cbn [negb]; [|left; eauto].
  rewrite run_bind. pose proof (check_timestamp_spec ts r) as Ht.
  destruct (check_timestamp ts r) as [u' r'|e r']; [|destruct Ht as (-> & ? & _); eauto].
  destruct Ht as [-> Hfresh]. rewrite run_bind.
  destruct (noise_write_message [] n1) as [msg2 n2|ne n2] eqn:Hwrite; [|left; eauto].
  right. exists n2, ts, msg2. split; [constructor; eauto|]. done.
Qed.

(** What meets the conditions is accepted. *)
Lemma handle_initiation_accepts packet r noise ts msg2 :
  accepts packet r noise ts msg2 →
  handle_initiation packet r = build_type2 msg2 (commit noise (sender_of packet) ts r).
Proof.
  intros [Hv Hlen Hf (n0 & n1 & Hs & Hr & Hw)]. unfold handle_initiation. rewrite run_bind.
  pose proof (check_initiation_spec packet r) as Hc.
  destruct (check_initiation packet r) as [u r'|e r']; [destruct Hc as [-> _]|by destruct Hc as (_ & _ & [])].
  unfold gets. rewrite !run_bind, Hs. cbn [mret eff_ret]. rewrite run_bind. unfold on_local. rewrite Hr, Hlen.
  cbn [negb Z.eqb Pos.eqb]. rewrite run_bind. pose proof (check_timestamp_spec ts r) as Ht.
  destruct (check_timestamp ts r) as [u' r'|e r']; [destruct Ht as [-> _]|].
  - by rewrite run_bind, Hw.
  - destruct Ht as (_ & _ & g & Hg & _ & Hle). specialize (Hf g Hg). lia.
Qed.

(** ** The session invariant *)

Context (send_nonce : N → Z).

Record session_inv r : Prop := SessionInv {
  si_my : 0 ≤ r_my_sender_idx r < 2 ^ 32;
  si_c64 : ∀ i, r_c64_sender_idx r = Some i → 0 ≤ i < 2 ^ 32;
  si_complete : r_handshake_complete r = bool_decide (is_Some (r_noise r));
  si_nonce : ∀ n, r_noise r = Some n → r_send_counter r = send_nonce n;
  si_counter : 0 ≤ r_send_counter r;
  si_last : r_greatest_timestamp r !! r_peer_static_pub r = r_last_timestamp r;
}.

Lemma new_responder_inv priv pub psk rnd r :
  is_bytes rnd → length rnd = 4%nat → new_responder priv pub psk rnd = Ok r → session_inv r.
Proof.
  unfold new_responder. intros Hrnd Hlen. repeat case_match; [done..|]. intros [= <-].
  constructor; try done; cbn.
  - pose proof (from_le_bound rnd Hrnd) as Hb. unfold len in Hb. rewrite Hlen in Hb. done.
Qed.

Lemma sender_of_range packet :
  is_bytes packet → len packet = T1_TOTAL → 0 ≤ sender_of packet < 2 ^ 32.
Proof.
  intros Hb Hlen. unfold sender_of.
  pose proof (from_le_bound (slice 4 8 packet) (is_bytes_slice _ _ _ Hb)) as Hr.
  rewrite len_slice in Hr by (rewrite ?Hlen; unfold T1_TOTAL; lia). exact Hr.
Qed.

Context `{Laws : !NoiseLaws N NE send_nonce}.

Lemma commit_inv packet r noise ts msg2 :
  session_inv r → is_bytes packet → accepts packet r noise ts msg2 →
  session_inv (commit noise (sender_of packet) ts r) ∧ len msg2 = NOISE_MSG2_LEN.
Proof.
  intros [] Hb [[Hlen _] _ _ (n0 & n1 & Hs & Hr & Hw)].
  destruct (law_fresh _ _ _ _ _ _ _ _ _ _ _ Hs Hr Hw) as [Hmsg Hnonce].
  split; [|exact Hmsg]. constructor; cbn; try done.
  - intros i [= <-]. by apply sender_of_range.
  - by intros n [= <-].
  - by rewrite lookup_insert_eq.
Qed.

(** The 92 bytes of a response. *)
Definition type2 (r : responder N) (my c64 : bytes) (msg2 : bytes) : bytes :=
  let body := ([MSG_TYPE_RESPONSE; 0; 0; 0] ++ my ++ c64) ++ msg2 in
  body ++ compute_mac1 body (r_mac1_key_for_t2 r) ++ replicate 16 0.

Lemma pack_run n z r l : to_le n z = Some l → pack (NE:=NE) n z r = Ret l r.
Proof. intros Hl. unfold pack. by rewrite Hl. Qed.

Lemma to_le_4 z : 0 ≤ z < 2 ^ 32 → to_le 4 z = Some (le_bytes 4 z).
Proof. intros Hz. unfold to_le. by rewrite decide_True. Qed.

Lemma build_type2_run r msg2 :
  session_inv r → len msg2 = NOISE_MSG2_LEN →
  build_type2 (NE:=NE) msg2 r
  = Ret (type2 r (le_bytes 4 (r_my_sender_idx r))
      (le_bytes 4 (default 0 (r_c64_sender_idx r))) msg2) r.
Proof.
  intros [Hmy Hc64 _ _ _ _] Hmsg. unfold build_type2, gets. rewrite !run_bind.
  rewrite (pack_run 4 _ _ _ (to_le_4 _ Hmy)), run_bind.
  rewrite (pack_run 4 _ _ (le_bytes 4 (default 0 (r_c64_sender_idx r))));
    [|apply to_le_4; destruct (r_c64_sender_idx r); [by apply Hc64|done]].
  rewrite run_bind. fold (type2 r (le_bytes 4 (r_my_sender_idx r))
    (le_bytes 4 (default 0 (r_c64_sender_idx r))) msg2).
  match goal with |- (if ?b then _ else _) _ = _ => replace b with true; [done|] end.
  symmetry. apply Z.eqb_eq. unfold type2. rewrite !len_app, Hmsg.
  unfold compute_mac1, len. rewrite Blake2s.length_digest, length_replicate by lia.
  rewrite !length_le_bytes. done.
Qed.

(** ** Transport packets *)

Lemma session_run r :
  match session (NE:=NE) r with
  | Ret n r' => r' = r ∧ r_noise r = Some n ∧ r_handshake_complete r = true
  | Raise e r' => r' = r ∧ e = NotComplete ∧
      (r_noise r = None ∨ r_handshake_complete r = false)
  end.
Proof.
  unfold session, gets. rewrite !run_bind.
  destruct (r_noise r) as [n|], (r_handshake_complete r); cbn; auto.
Qed.

Lemma set_noise_inv r n :
  session_inv r → is_Some (r_noise r) → send_nonce n = r_send_counter r →
  session_inv (set_noise (Some n) r).
Proof.
  intros [] Hs Hn. constructor; cbn; try done.
  - rewrite si_complete0. by apply bool_decide_eq_true_2.
  - by intros ? [= <-].
Qed.

Lemma decrypt_inv packet r :
  session_inv r →
  match decrypt_transport packet r with Ret _ r' | Raise _ r' => session_inv r' end.
Proof.
  intros Hr. unfold decrypt_transport. rewrite run_bind.
  pose proof (session_run r) as Hs. destruct (session r) as [n r'|e r'];
    [|by destruct Hs as (-> & _)]. destruct Hs as (-> & Hn & _).
  destruct (len packet <? T4_HDR_LEN + 16); [exact Hr|]. rewrite run_bind. unfold at_index.
  destruct (item packet 0) as [b|]; [|exact Hr]. cbn [mret eff_ret].
  destruct (negb (b =? MSG_TYPE_TRANSPORT)); [exact Hr|].
  unfold on_session. pose proof (law_decrypt (from T4_HDR_LEN packet) n) as Hd.
  destruct (noise_decrypt _ n); cbn in Hd;
    (apply set_noise_inv; [done|by rewrite Hn|]; rewrite Hd; symmetry; by apply Hr).
Qed.

(** The header of a transport packet. *)
Definition type4_header (idx counter : Z) : bytes :=
  [MSG_TYPE_TRANSPORT; 0; 0; 0] ++ le_bytes 4 idx ++ le_bytes 8 counter.

Lemma counter_inv r n :
  session_inv r → is_Some (r_noise r) → send_nonce n = r_send_counter r + 1 →
  session_inv (set_send_counter (r_send_counter r + 1) (set_noise (Some n) r)).
Proof.
  intros [] Hs Hn. constructor; cbn; try done; [|by intros ? [= <-]|lia].
  rewrite si_complete0. by apply bool_decide_eq_true_2.
Qed.

Lemma encrypt_spec plaintext r :
  session_inv r →
  match encrypt_transport plaintext r with
  | Ret pkt r' => session_inv r' ∧ ∃ n n' ct,
      r_noise r = Some n ∧ noise_encrypt plaintext n = Ret ct n' ∧
      r' = set_send_counter (r_send_counter r + 1) (set_noise (Some n') r) ∧
      pkt = type4_header (default 0 (r_c64_sender_idx r)) (send_nonce n) ++ ct ∧
      send_nonce n < 2 ^ 64
  | Raise e r' => session_inv r' ∧ (e = NotComplete ∨ e = StructError ∨ ∃ ne, e = NoiseError ne)
  end.
Proof.
  intros Hr. unfold encrypt_transport. rewrite run_bind.
  pose proof (session_run r) as Hs. destruct (session r) as [n r'|e r'];
    [|destruct Hs as (-> & -> & _); auto]. destruct Hs as (-> & Hn & _).
  rewrite run_bind. unfold on_session.
  pose proof (si_nonce r Hr n Hn) as Hnonce.
  destruct (noise_encrypt plaintext n) as [ct n'|ne n'] eqn:He.
  2:{ apply law_encrypt_fails in He. split; [|eauto].
      apply set_noise_inv; [done|by rewrite Hn|congruence]. }
  pose proof (law_encrypt _ _ _ _ He) as Hn'.
  unfold gets, modify. rewrite !run_bind. cbn.
  assert (Hinv : session_inv (set_send_counter (r_send_counter r + 1) (set_noise (Some n') r)))
    by (apply counter_inv; [done|by rewrite Hn|lia]).
  rewrite (pack_run 4 _ _ (le_bytes 4 (default 0 (r_c64_sender_idx r))));
    [|apply to_le_4; pose proof (si_c64 r Hr);
      destruct (r_c64_sender_idx r); [by eauto|done]].
  rewrite run_bind. unfold pack, to_le.
  pose proof (si_counter r Hr). change (256 ^ Z.of_nat 8) with (2 ^ 64).
  case_decide as Hc; [|split; [done|auto]]. split; [done|].
  exists n, n', ct. rewrite <- Hnonce. split_and!; try done. lia.
Qed.

(** The fields of a response and of a transport packet, read back. *)
Lemma type2_parts r my c64 msg2 :
  length my = 4%nat → length c64 = 4%nat → len msg2 = NOISE_MSG2_LEN →
  let p := type2 r my c64 msg2 in
  len p = T2_TOTAL ∧ slice 0 4 p = [2; 0; 0; 0] ∧ slice 4 8 p = my ∧ slice 8 12 p = c64 ∧
  slice 60 76 p = compute_mac1 (slice 0 60 p) (r_mac1_key_for_t2 r) ∧
  slice 76 92 p = replicate 16 0.
Proof.
  intros Hmy Hc64 Hmsg p. unfold p, type2, len, NOISE_MSG2_LEN in *.
  set (body := ([MSG_TYPE_RESPONSE; 0; 0; 0] ++ my ++ c64) ++ msg2).
  assert (Hbody : length body = 60%nat).
  { unfold body. rewrite !length_app, Hmy, Hc64. cbn. lia. }
  set (mac := compute_mac1 body _).
  assert (Hmac : length mac = 16%nat) by (unfold mac, compute_mac1; by rewrite Blake2s.length_digest by lia).
  do 4 (destruct my as [|? my]; [done|]); destruct my; [|done].
  do 4 (destruct c64 as [|? c64]; [done|]); destruct c64; [|done].
  assert (H60 : take 60 (body ++ mac ++ replicate 16 0) = body) by by rewrite take_app_length'.
  unfold slice. cbn [Z.to_nat Z.sub Z.opp Z.add Z.pos_sub Pos.pred_double].
  split_and!; try done.
  - rewrite !length_app, Hbody, Hmac. done.
  - change (Z.to_nat (76 - 60)) with 16%nat. change (Z.to_nat (60 - 0)) with 60%nat.
    cbn [Z.to_nat]. rewrite drop_0, H60. change (Pos.to_nat 60) with 60%nat.
    rewrite drop_app_length' by done. by rewrite take_app_length'.
  - transitivity (take 16 (drop 16 (drop 60 (body ++ mac ++ replicate 16 0))));
      [by rewrite drop_drop|]. by rewrite drop_app_length', drop_app_length' by done.
Qed.

Lemma type4_parts idx counter ct :
  0 ≤ idx < 2 ^ 32 → 0 ≤ counter < 2 ^ 64 →
  let p := type4_header idx counter ++ ct in
  slice 0 4 p = [4; 0; 0; 0] ∧ from_le (slice 8 16 p) = counter ∧
  from_le (slice 4 8 p) = idx ∧ from 16 p = ct.
Proof.
  intros Hidx Hc p.
  assert (H1 : slice 8 16 p = le_bytes 8 counter) by done.
  assert (H2 : slice 4 8 p = le_bytes 4 idx) by done.
  rewrite H1, H2, !from_le_bytes. split_and!; [done|by apply Z.mod_small..|done].
Qed.

(** ** Every method keeps the invariant *)

Lemma handle_initiation_spec packet r :
  session_inv r → is_bytes packet →
  match handle_initiation packet r with
  | Ret resp r' => ∃ noise ts msg2, accepts packet r noise ts msg2 ∧
      r' = commit noise (sender_of packet) ts r ∧ session_inv r' ∧
      len msg2 = NOISE_MSG2_LEN ∧
      resp = type2 r' (le_bytes 4 (r_my_sender_idx r)) (le_bytes 4 (sender_of packet)) msg2
  | Raise e r' => r' = r ∧ rejection e
  end.
Proof.
  intros Hr Hb. destruct (handle_initiation_cases packet r)
    as [(e & -> & Hrej)|(noise & ts & msg2 & Hac & ->)]; [done|].
  destruct (commit_inv packet r noise ts msg2 Hr Hb Hac) as [Hinv Hlen].
  rewrite build_type2_run by done. cbn. by exists noise, ts, msg2.
Qed.
End responder_inv.
