(* ===== verification/ResponderThms.v ===== *)
(** * The WireGuard responder: the properties

    Rejected initiations change nothing, accepted ones advance the greatest timestamp and are
    answered in the wire format, transport counters are the cipher's nonces, and the thread
    interleaving of the server that breaks this. *)

From S2P Require Export ResponderInv.

(** ** Calls in sequence *)

Section calls.
Context {N NE : Type} `{Lib : NoiseLib N NE} (send_nonce : N → Z).
Context `{Laws : !NoiseLaws N NE send_nonce}.
Implicit Types r : responder N.

(** The public methods, as a client calls them. *)
Inductive request := Initiation (packet : bytes) | Decrypt (packet : bytes)
| Encrypt (plaintext : bytes).

Definition perform (q : request) r : outcome (responder N) (rexn NE) bytes :=
  match q with
  | Initiation packet => handle_initiation packet r
  | Decrypt packet => decrypt_transport packet r
  | Encrypt plaintext => encrypt_transport plaintext r
  end.

Definition well_typed (q : request) : Prop :=
  match q with Initiation l | Decrypt l | Encrypt l => is_bytes l end.

Definition state_after {A} (o : outcome (responder N) (rexn NE) A) : responder N :=
  match o with Ret _ r | Raise _ r => r end.

(** The timestamps of the initiations accepted on the way, in order. *)
Fixpoint accepted (qs : list request) r : list bytes :=
  match qs with
  | [] => []
  | q :: qs =>
      let o := perform q r in
      match q, o with
      | Initiation _, Ret _ r' => option_list (r_last_timestamp r') ++ accepted qs r'
      | _, _ => accepted qs (state_after o)
      end
  end.

Definition greatest_of r : option bytes := r_greatest_timestamp r !! r_peer_static_pub r.

Lemma perform_inv q r : session_inv send_nonce r → well_typed q → session_inv send_nonce (state_after (perform q r)).
Proof.
  intros Hr Hq. destruct q as [p|p|p]; cbn [perform].
  - pose proof (handle_initiation_spec send_nonce p r Hr Hq) as Hs.
    destruct (handle_initiation p r) as [? r'|? r']; cbn.
    + by destruct Hs as (? & ? & ? & _ & _ & ? & _).
    + by destruct Hs as [-> _].
  - pose proof (decrypt_inv send_nonce p r Hr) as Hs. by destruct (decrypt_transport p r).
  - pose proof (encrypt_spec send_nonce p r Hr) as Hs.
    destruct (encrypt_transport p r); by destruct Hs.
Qed.

(** What only an accepted initiation changes. *)
Definition identity r : _ :=
  (r_handshake_complete r, r_greatest_timestamp r, r_peer_static_pub r, r_mac1_key_for_t1 r,
   r_c64_sender_idx r, r_last_timestamp r).

Lemma decrypt_identity p r :
  identity (state_after (decrypt_transport (NE:=NE) p r)) = identity r.
Proof.
  unfold decrypt_transport. rewrite run_bind. pose proof (session_run (NE:=NE) r) as Hs.
  destruct (session r) as [n r'|e r']; [|by destruct Hs as (-> & _)].
  destruct Hs as (-> & _). destruct (len p <? _); [done|]. rewrite run_bind. unfold at_index.
  destruct (item p 0) as [b|]; [|done]. cbn [mret eff_ret]. destruct (negb _); [done|].
  unfold on_session. by destruct (noise_decrypt _ n).
Qed.
Lemma encrypt_identity p r :
  identity (state_after (encrypt_transport (NE:=NE) p r)) = identity r.
Proof.
  unfold encrypt_transport. rewrite run_bind. pose proof (session_run (NE:=NE) r) as Hs.
  destruct (session r) as [n r'|e r']; [|by destruct Hs as (-> & _)].
  destruct Hs as (-> & _). rewrite run_bind. unfold on_session.
  destruct (noise_encrypt p n) as [ct n'|]; [|done]. unfold gets, modify.
  rewrite !run_bind. unfold pack. destruct (to_le 4 _); [|done]. cbn [mret eff_ret].
  rewrite run_bind. by destruct (to_le 8 _).
Qed.
Lemma identity_greatest r r' : identity r = identity r' → greatest_of r = greatest_of r'.
Proof. unfold identity, greatest_of. intros [= _ Hg Hp _ _ _]. by rewrite Hg, Hp. Qed.

Definition earlier (a b : bytes) : Prop := from_be a < from_be b.

Lemma accepted_sorted qs r :
  session_inv send_nonce r → Forall well_typed qs →
  StronglySorted earlier (option_list (greatest_of r) ++ accepted qs r).
Proof.
  intros Hr Hqs. revert r Hr. induction Hqs as [|q qs Hq Hqs IH]; intros r Hr; cbn [accepted].
  { destruct (greatest_of r); cbn; repeat constructor. }
  pose proof (perform_inv q r Hr Hq) as Hr'. destruct q as [p|p|p]; cbn [perform] in *.
  - pose proof (handle_initiation_spec send_nonce p r Hr Hq) as Hs.
    destruct (handle_initiation p r) as [resp r'|e r']; cbn [state_after] in *.
    2:{ destruct Hs as [-> _]. by apply IH. }
    destruct Hs as (noise & ts & msg2 & Hac & Hcommit & _). specialize (IH _ Hr').
    assert (Hg : greatest_of r' = Some ts).
    { rewrite Hcommit. unfold greatest_of. cbn. by rewrite lookup_insert_eq. }
    assert (Hl : r_last_timestamp r' = Some ts) by by rewrite Hcommit.
    rewrite Hg in IH. rewrite Hl. cbn in IH |- *.
    destruct (greatest_of r) as [g|] eqn:Hgr; cbn; [|done].
    pose proof (ac_fresh _ _ _ _ _ Hac g Hgr) as Hlt.
    constructor; [done|]. apply StronglySorted_inv in IH as [_ Hall].
    constructor; [done|]. eapply Forall_impl; [exact Hall|]. unfold earlier. intros; lia.
  - specialize (IH _ Hr'). by rewrite (identity_greatest _ _ (decrypt_identity p r)) in IH.
  - specialize (IH _ Hr'). by rewrite (identity_greatest _ _ (encrypt_identity p r)) in IH.
Qed.
End calls.

(** ** A rekey while a message is being sent

    The server runs [encrypt_transport] in one thread, under its lock, and
    [handle_initiation] in another, without it.  Their statements that touch the shared
    responder, one step each; connections are objects of a heap, [r_noise] holding a
    reference. *)

Section threads.
Context {N NE : Type} `{Lib : NoiseLib N NE} (send_nonce : N → Z).

Record world := World { w_resp : responder nat; w_heap : gmap nat N }.

(** Where [encrypt_transport] is. *)
Inductive sender :=
| S_call                                        (* about to run self._noise.encrypt *)
| S_index (ct : bytes)                          (* receiver_idx = ... *)
| S_counter (ct : bytes) (idx : Z)              (* counter = self._send_counter *)
| S_increment (ct : bytes) (idx counter : Z)    (* self._send_counter += 1 *)
| S_done (ct : bytes) (idx counter : Z).

Definition sender_step (plaintext : bytes) (p : sender) (w : world) : option (sender * world) :=
  match p with
  | S_call =>
      l ← r_noise (w_resp w); n ← w_heap w !! l;
      match noise_encrypt plaintext n with
      | Ret ct n' => Some (S_index ct, World (w_resp w) (<[l := n']> (w_heap w)))
      | Raise _ _ => None
      end
  | S_index ct => Some (S_counter ct (default 0 (r_c64_sender_idx (w_resp w))), w)
  | S_counter ct idx => Some (S_increment ct idx (r_send_counter (w_resp w)), w)
  | S_increment ct idx c =>
      let r := w_resp w in
      Some (S_done ct idx c, World (set_send_counter (r_send_counter r + 1) r) (w_heap w))
  | S_done _ _ _ => None
  end.

(** Where [handle_initiation] is, among the assignments of its commit. *)
Inductive rekey := K_noise | K_rest | K_counter | K_done.

Definition rekey_step (l : nat) (idx : Z) (ts : bytes) (p : rekey) (w : world) :
    option (rekey * world) :=
  let r := w_resp w in
  match p with
  | K_noise => Some (K_rest, World (set_noise (Some l) r) (w_heap w))
  | K_rest => Some (K_counter,
      World (set_send_counter (r_send_counter r) (commit l idx ts r)) (w_heap w))
  | K_counter => Some (K_done, World (set_send_counter 0 r) (w_heap w))
  | K_done => None
  end.

(** Running a schedule: [true] is a step of the sender. *)
Fixpoint schedule (plaintext : bytes) (l : nat) (idx : Z) (ts : bytes) (sch : list bool)
    (c : sender * rekey * world) : option (sender * rekey * world) :=
  match sch with
  | [] => Some c
  | b :: sch =>
      let '(p, k, w) := c in
      c' ← (if b : bool
            then '(p', w') ← sender_step plaintext p w; Some (p', k, w')
            else '(k', w') ← rekey_step l idx ts k w; Some (p, k', w'));
      schedule plaintext l idx ts sch c'
  end.

(** The session's counter is the nonce of the session's cipher. *)
Definition in_step (w : world) : Prop :=
  ∃ l n, r_noise (w_resp w) = Some l ∧ w_heap w !! l = Some n ∧
         r_send_counter (w_resp w) = send_nonce n.

Definition finished (c : sender * rekey * world) : Prop :=
  match c with (S_done _ _ _, K_done, _) => True | _ => False end.
End threads.
Arguments World {N} _ _.

Module WgResponder.
Section theorems.
Context {N NE : Type} `{Lib : NoiseLib N NE} (send_nonce : N → Z).
Context `{Laws : !NoiseLaws N NE send_nonce}.
Implicit Types r : responder N.

(** C10. A rejected initiation leaves the responder exactly as it was: the live session, its
    counters and the greatest timestamp; and what is raised is one of the method's
    [ValueError]s or whatever exception the Noise package raised. *)
Theorem rejected_initiation_is_noop packet r e r' :
  session_inv send_nonce r → is_bytes packet →
  handle_initiation packet r = Raise e r' → r' = r ∧ rejection e.
Proof.
  intros Hr Hb Hh. pose proof (handle_initiation_spec send_nonce packet r Hr Hb) as Hs.
  by rewrite Hh in Hs.
Qed.

(** C9. An accepted initiation was well formed and authenticated by its MAC1, and is answered
    by a 92-byte response in the wire format: type 2, our index, the initiator's index copied
    from its packet, the Noise message, a MAC1 under the initiator's key and an empty MAC2. *)
Theorem accepted_initiation_response packet r resp r' :
  session_inv send_nonce r → is_bytes packet →
  handle_initiation packet r = Ret resp r' →
  valid_initiation packet r ∧ session_inv send_nonce r' ∧
  len resp = T2_TOTAL ∧ slice 0 4 resp = [2; 0; 0; 0] ∧
  from_le (slice 4 8 resp) = r_my_sender_idx r ∧ slice 8 12 resp = slice 4 8 packet ∧
  slice 60 76 resp = compute_mac1 (slice 0 60 resp) (r_mac1_key_for_t2 r) ∧
  slice 76 92 resp = replicate 16 0.
Proof.
  intros Hr Hb Hh. pose proof (handle_initiation_spec send_nonce packet r Hr Hb) as Hs.
  rewrite Hh in Hs. destruct Hs as (noise & ts & msg2 & Hac & -> & Hinv & Hlen & ->).
  pose proof (ac_valid _ _ _ _ _ Hac) as Hv. pose proof Hv as [Hl _].
  split; [done|]. split; [done|].
  assert (Hsender : le_bytes 4 (sender_of packet) = slice 4 8 packet).
  { unfold sender_of. rewrite <- (le_bytes_from_le (slice 4 8 packet)) at 2
      by by apply is_bytes_slice.
    f_equal. pose proof (len_slice 4 8 packet) as Hls. rewrite Hl in Hls.
    unfold T1_TOTAL, len in Hls. lia. }
  pose proof (type2_parts (commit noise (sender_of packet) ts r)
    (le_bytes 4 (r_my_sender_idx r)) (le_bytes 4 (sender_of packet)) msg2
    (length_le_bytes _ _) (length_le_bytes _ _) Hlen) as (?&?&Hmy&Hc64&?&?).
  split; [done|]. split; [done|].
  split; [rewrite Hmy, from_le_bytes; apply Z.mod_small; exact (si_my _ _ Hr)|].
  split; [by rewrite Hc64, Hsender|done].
Qed.

(** C11. Over any sequence of calls, packets and plaintexts being arbitrary bytes, the
    timestamps of the accepted initiations, as 96-bit big-endian numbers, strictly increase,
    starting above the greatest one already accepted. *)
Theorem accepted_timestamps_increase (qs : list request) r :
  session_inv send_nonce r → Forall well_typed qs →
  StronglySorted earlier (option_list (greatest_of r) ++ accepted qs r).
Proof. apply accepted_sorted. done. Qed.

(** C12. Over any sequence of calls, returning or raising, the send counter stays the nonce
    of the session's cipher, so that the counter in the header of every transport packet is
    the nonce its body was encrypted with, and the packet is addressed to the peer's index. *)
Theorem transport_counter_is_nonce (qs : list request) r plaintext pkt r' :
  session_inv send_nonce r → Forall well_typed qs →
  encrypt_transport plaintext (foldl (λ r q, state_after (perform q r)) r qs) = Ret pkt r' →
  session_inv send_nonce r' ∧
  ∃ n n' ct, r_noise (foldl (λ r q, state_after (perform q r)) r qs) = Some n ∧
    noise_encrypt plaintext n = Ret ct n' ∧
    slice 0 4 pkt = [4; 0; 0; 0] ∧ from_le (slice 8 16 pkt) = send_nonce n ∧
    Some (from_le (slice 4 8 pkt)) = Some (default 0 (r_c64_sender_idx r')) ∧
    from 16 pkt = ct.
Proof.
  intros Hr Hqs Henc.
  assert (Hr1 : session_inv send_nonce (foldl (λ r q, state_after (perform q r)) r qs)).
  { clear Henc. revert r Hr. induction Hqs as [|q qs Hq Hqs IH]; intros r Hr; [done|].
    cbn. apply IH. by apply perform_inv. }
  set (r1 := foldl _ r qs) in *.
  pose proof (encrypt_spec send_nonce plaintext r1 Hr1) as Hs. rewrite Henc in Hs.
  destruct Hs as (Hinv & n & n' & ct & Hn & He & Hr' & -> & Hbound).
  split; [done|]. exists n, n', ct.
  assert (Hidx : 0 ≤ default 0 (r_c64_sender_idx r1) < 2 ^ 32).
  { pose proof (si_c64 _ _ Hr1). destruct (r_c64_sender_idx r1); [by eauto|done]. }
  pose proof (si_counter _ _ Hr1). rewrite (si_nonce _ _ Hr1 n Hn) in *.
  destruct (type4_parts (default 0 (r_c64_sender_idx r1)) (send_nonce n) ct)
    as (H1 & H2 & H3 & H4); [done|lia|].
  rewrite H1, H2, H3, H4, Hr'. by split_and!.
Qed.

(** The lock of the server does not protect the counter: there is an interleaving of a
    send with a rekey, each statement atomic, that ends with both finished and the counter of
    the new session one ahead of its cipher's nonce. *)
Theorem rekey_race_desynchronises (n n1 : N) ct n' plaintext idx ts (r : responder nat) :
  noise_encrypt plaintext n = Ret ct n' → send_nonce n1 = 0 → r_noise r = Some 0%nat →
  let w := World r (<[0%nat := n]> (<[1%nat := n1]> ∅)) in
  ∃ sch c, schedule plaintext 1 idx ts sch (S_call, K_noise, w) = Some c ∧ finished c ∧
    ¬ in_step send_nonce c.2 ∧
    ∃ l n2, r_noise (w_resp c.2) = Some l ∧ w_heap c.2 !! l = Some n2 ∧
      r_send_counter (w_resp c.2) = send_nonce n2 + 1.
Proof.
  intros He Hn1 Hr w.
  exists [true; true; false; false; false; true; true]. eexists. split; [|split].
  - cbn -[lookup insert]. rewrite Hr. cbn -[lookup insert].
    rewrite lookup_insert_eq. cbn -[lookup insert]. rewrite He. reflexivity.
  - done.
  - cbn. split.
    + intros (l & n2 & [= <-] & Hl & Hc). cbn in *.
      rewrite lookup_insert_ne, lookup_insert_ne, lookup_insert_eq in Hl by done.
      injection Hl as <-. lia.
    + exists 1%nat, n1. split_and!; [done| |cbn; lia].
      by rewrite lookup_insert_ne, lookup_insert_ne, lookup_insert_eq by done.
Qed.

(** Run one after the other, in either order, as a lock around both would have it, the
    send and the rekey end with counter and nonce in step. *)
Theorem serial_rekey_in_step (n n1 : N) plaintext idx ts (r : responder nat) sch c :
  send_nonce n1 = 0 → r_noise r = Some 0%nat → r_send_counter r = send_nonce n →
  let w := World r (<[0%nat := n]> (<[1%nat := n1]> ∅)) in
  sch = replicate 4 true ++ replicate 3 false ∨ sch = replicate 3 false ++ replicate 4 true →
  schedule plaintext 1 idx ts sch (S_call, K_noise, w) = Some c →
  finished c ∧ in_step send_nonce c.2.
Proof.
  intros Hn1 Hr Hc w [-> | ->]; cbn -[lookup insert]; rewrite ?Hr; cbn -[lookup insert];
    rewrite ?lookup_insert_ne, lookup_insert_eq by done; cbn -[lookup insert].
  - destruct (noise_encrypt plaintext n) as [ct n'|] eqn:He; [|done]. cbn. intros [= <-].
    split; [done|]. exists 1%nat, n1. split_and!; [done| |done].
    cbn. by rewrite lookup_insert_ne, lookup_insert_ne, lookup_insert_eq by done.
  - destruct (noise_encrypt plaintext n1) as [ct n'|] eqn:He; [|done]. cbn. intros [= <-].
    split; [done|]. exists 1%nat, n'. apply law_encrypt in He.
    split_and!; [done|cbn; by rewrite lookup_insert_eq|cbn; lia].
Qed.
End theorems.

(** *** A concrete package: the payload in clear, a counter as cipher *)

#[local] Instance toy_noise : NoiseLib Z unit := {|
  noise_start _ _ _ _ _ := Ok 0;
  noise_read_message p := λ n, Ret (take 12 p) n;
  noise_write_message p := λ n, Ret (replicate 48 0) n;
  noise_encrypt p := λ n, Ret (p ++ replicate 16 0) (n + 1);
  noise_decrypt p := λ n, Ret p n;
  noise_value_error _ := false;
  x25519_public k := k;
|}.
#[local] Instance toy_laws : NoiseLaws Z unit id.
Proof.
  split; cbn; try done.
  - intros _ _ _ _ _ n0 p ts n1 msg n2 [= <-] [= <- <-] [= <- <-]. done.
  - by intros p n c n' [= <- <-].
Qed.

Definition toy_responder : responder Z :=
  Responder (replicate 32 1) (replicate 32 2) (replicate 32 0) (replicate 32 1)
    (mac1_key (replicate 32 1)) (mac1_key (replicate 32 2)) None None (from_le [1; 2; 3; 4])
    0 ∅ None false.
Definition toy_packet (ts : bytes) : bytes :=
  let body := [1; 0; 0; 0] ++ [9; 0; 0; 0] ++ ts ++ replicate 96 0 in
  body ++ compute_mac1 body (mac1_key (replicate 32 1)) ++ replicate 16 0.
Definition ts_at (n : Z) : bytes := replicate 11 0 ++ [n].

Lemma toy_packet_bytes n : byte n → is_bytes (toy_packet (ts_at n)).
Proof.
  intros Hn. unfold toy_packet, ts_at, compute_mac1.
  repeat (apply is_bytes_app; split); first
    [ apply Blake2s.is_bytes_digest | apply (bool_decide_unpack _); by vm_compute
    | by apply Forall_singleton ].
Qed.

Lemma toy_inv : session_inv id toy_responder.
Proof. constructor; cbn; try done. Qed.

Lemma rejected_initiation_is_noop_witness :
  state_after (handle_initiation (replicate 148 7) toy_responder) = toy_responder.
Proof.
  destruct (handle_initiation (replicate 148 7) toy_responder) as [a r'|e r'] eqn:Hh.
  - exfalso. by vm_compute in Hh.
  - refine (proj1 (rejected_initiation_is_noop id _ _ _ _ toy_inv _ Hh)).
    apply (bool_decide_unpack _). by vm_compute.
Defined.

Lemma accepted_initiation_response_witness :
  ∃ resp r', handle_initiation (toy_packet (ts_at 5)) toy_responder = Ret resp r' ∧
    slice 8 12 resp = [9; 0; 0; 0].
Proof.
  destruct (handle_initiation (toy_packet (ts_at 5)) toy_responder) as [resp r'|e r'] eqn:Hh.
  - assert (Hb : is_bytes (toy_packet (ts_at 5))) by (apply (bool_decide_unpack _); by vm_compute).
    destruct (accepted_initiation_response id _ _ _ _ toy_inv Hb Hh) as (_&_&_&_&_&Hs&_).
    exists resp, r'. split; [reflexivity|]. rewrite Hs. reflexivity.
  - exfalso. by vm_compute in Hh.
Defined.

(** The second and the fourth initiation are replays. *)
Definition toy_requests : list request :=
  (λ n, Initiation (toy_packet (ts_at n))) <$> [5; 5; 7; 6; 8].

Lemma toy_requests_typed : Forall well_typed toy_requests.
Proof.
  unfold toy_requests. apply Forall_fmap.
  repeat (apply Forall_cons; split; [apply toy_packet_bytes; unfold byte; lia|]). constructor.
Qed.

Lemma accepted_timestamps_increase_witness :
  accepted toy_requests toy_responder = ts_at <$> [5; 7; 8] ∧
  StronglySorted earlier
    (option_list (greatest_of toy_responder) ++ accepted toy_requests toy_responder).
Proof.
  split; [by vm_compute|].
  exact (accepted_timestamps_increase id toy_requests toy_responder toy_inv toy_requests_typed).
Defined.

Definition toy_calls : list request := [Initiation (toy_packet (ts_at 5)); Encrypt [1]].

Lemma transport_counter_is_nonce_witness :
  ∃ pkt r', encrypt_transport [65]
      (foldl (λ r q, state_after (perform q r)) toy_responder toy_calls) = Ret pkt r' ∧
    from_le (slice 8 16 pkt) = 1.
Proof.
  assert (Hqs : Forall well_typed toy_calls).
  { apply Forall_cons. split; [apply toy_packet_bytes; unfold byte; lia|].
    apply Forall_singleton, Forall_singleton. unfold byte. lia. }
  destruct (encrypt_transport [65]
    (foldl (λ r q, state_after (perform q r)) toy_responder toy_calls)) as [pkt r'|e r'] eqn:Hh.
  - exists pkt, r'. split; [reflexivity|].
    destruct (transport_counter_is_nonce id _ _ _ _ _ toy_inv Hqs Hh)
      as (_ & n & n' & ct & Hn & _ & _ & Hc & _).
    rewrite Hc. vm_compute in Hn. by injection Hn as <-.
  - exfalso. by vm_compute in Hh.
Defined.

(** The responder of the thread model, its session in heap object 0. *)
Definition toy_shared : responder nat :=
  Responder [] [] [] [] [] [] (Some 0%nat) (Some 9) 1 3 ∅ None true.

Lemma rekey_race_desynchronises_witness :
  ∃ sch c, schedule [65] 1 9 (ts_at 7) sch
      (S_call, K_noise, World toy_shared (<[0%nat := 3]> (<[1%nat := 0]> ∅))) = Some c ∧
    ¬ in_step id c.2.
Proof.
  destruct (rekey_race_desynchronises (Lib:=toy_noise) id 3 0 ([65] ++ replicate 16 0) 4 [65] 9 (ts_at 7)
    toy_shared eq_refl eq_refl eq_refl) as (sch & c & Hs & _ & Hn & _).
  by exists sch, c.
Defined.

Lemma serial_rekey_in_step_witness :
  ∃ c, schedule [65] 1 9 (ts_at 7) (replicate 4 true ++ replicate 3 false)
      (S_call, K_noise, World toy_shared (<[0%nat := 3]> (<[1%nat := 0]> ∅))) = Some c ∧
    in_step id c.2.
Proof.
  eexists. split; [by vm_compute|].
  refine (proj2 (serial_rekey_in_step id 3 0 [65] 9 (ts_at 7) toy_shared
    (replicate 4 true ++ replicate 3 false) _ eq_refl eq_refl eq_refl (or_introl eq_refl) _)).
  by vm_compute.
Defined.
End WgResponder.
