(* ===== verification/Server.v ===== *)
(** * The patient responder server (tools/wg_responder/server.py)

    The session object, the receive loop as a function of the datagrams it is given, the
    typed-line loop, and the text codecs between them.  What goes out is a list of events:
    datagrams sent and lines printed on standard output; the diagnostics on standard error
    are not modelled, except the one-line packet summary. *)

From S2P Require Export ResponderThms PyStr.

(** ** Text *)

Section petscii.
(** The harness's [char_to_petscii], [None] where it raises [ValueError] or [KeyError]. *)
Context (char_to_petscii : Z → option Z).

(** A code the [bytearray] refuses is a [ValueError] too. *)
Definition ascii_to_petscii (text : list Z) : bytes :=
  (λ ch, match char_to_petscii ch with
         | Some b => if decide (byte b) then b else 46
         | None => 46
         end) <$> text.
End petscii.

Definition petscii_to_ascii (data : bytes) : list Z :=
  (λ b, if (0x20 <=? b) && (b <=? 0x5E) then b
        else if (0xC1 <=? b) && (b <=? 0xDA) then b - 0x80
        else if (b =? 0x0D) || (b =? 0x0A) then 0x20
        else 0x2E) <$> data.

Definition strip_tunnel_headers (plaintext : bytes) : bytes :=
  if (28 <=? len plaintext) && (byte_at plaintext 0 ≫ 4 =? 4) && (byte_at plaintext 9 =? 17)
  then
    let total_len := from_be (slice 2 4 plaintext) in
    if total_len =? len plaintext then from 28 plaintext else plaintext
  else plaintext.

(** The trailing whitespace [str.rstrip()] removes. *)
Definition is_space (c : Z) : bool :=
  ((9 <=? c) && (c <=? 13)) || ((28 <=? c) && (c <=? 32)) || (c =? 133) || (c =? 160).
Definition decode_type (data : bytes) : string :=
  match data with
  | [] => "empty"
  | t :: _ =>
      let n := "len=" +:+ dec (len data) in
      let u32 a := hex_pad false 8 (from_le (slice a (a + 4) data)) in
      if t =? MSG_TYPE_INITIATION then
        if 8 <=? len data
        then "Type1/initiation sender_idx=0x" +:+ u32 4 +:+ " " +:+ n
        else "Type1/initiation " +:+ n
      else if t =? MSG_TYPE_RESPONSE then
        if 12 <=? len data
        then "Type2/response sender_idx=0x" +:+ u32 4 +:+ " receiver_idx=0x" +:+ u32 8
             +:+ " " +:+ n
        else "Type2/response " +:+ n
      else if t =? MSG_TYPE_TRANSPORT then
        if 16 <=? len data
        then "Type4/transport receiver_idx=0x" +:+ u32 4 +:+ " counter="
             +:+ dec (from_le (slice 8 16 data)) +:+ " " +:+ n
        else "Type4/transport " +:+ n
      else "unknown type=0x" +:+ hex_pad false 2 t +:+ " " +:+ n
  end.

(** ** The session *)

Definition address : Type := string * Z.

Inductive server_state := WAIT_TYPE1 | ACTIVE.
#[export] Instance server_state_eq_dec : EqDecision server_state.
Proof. solve_decision. Defined.

(** The [_Session] object and the local variables of [run_server]. *)
Record server (N : Type) : Type := Server {
  s_responder : responder N;
  s_peer_addr : option address;
  s_active : bool;
  s_sent : Z;
  s_state : server_state;
  s_loop_peer : option address;
}.
Arguments Server {N}.
Arguments s_responder {N}.
Arguments s_peer_addr {N}.
Arguments s_active {N}.
Arguments s_sent {N}.
Arguments s_state {N}.
Arguments s_loop_peer {N}.

Definition new_server {N} (r : responder N) : server N :=
  Server r None false 0 WAIT_TYPE1 None.

Inductive event :=
| Datagram (packet : bytes) (to : address)
| Truncated (was : Z)
| AboveMtu (n : Z)
| NoSession
| SendFailed
| SessionUp (peer : address)
| Received (text : list Z)
| Typed (line : list Z).

Inductive sexn (NE : Type) :=
| Responding (e : rexn NE)
| SocketError.
Arguments Responding {NE}.
Arguments SocketError {NE}.

Section server.
Context {N NE : Type} `{Lib : NoiseLib N NE}.
Context (char_to_petscii : Z → option Z).
(** The caps the server imports, and whether a [sendto] succeeds. *)
Context (C64_RECV_MTU C64_TUNNEL_MTU : Z).
Context (sendto : bytes → address → bool).

Definition set_responder (r : responder N) (s : server N) : server N :=
  Server r (s_peer_addr s) (s_active s) (s_sent s) (s_state s) (s_loop_peer s).
Definition count_sent (s : server N) : server N :=
  Server (s_responder s) (s_peer_addr s) (s_active s) (s_sent s + 1) (s_state s) (s_loop_peer s).

(** The payload a line is sent as, and what is said about its length. *)
Definition chat_payload (text : list Z) : bytes * list event :=
  let payload := ascii_to_petscii char_to_petscii text in
  if C64_RECV_MTU <? len payload
  then (slice 0 C64_RECV_MTU payload, [Truncated (len payload)])
  else (payload, if C64_TUNNEL_MTU <? len payload then [AboveMtu (len payload)] else []).

Definition send_text (text : list Z) (s : server N) : bool * list event * server N :=
  let '(payload, notes) := chat_payload text in
  match s_peer_addr s with
  | Some peer =>
      if s_active s then
        match encrypt_transport payload (s_responder s) with
        | Ret pkt r =>
            if sendto pkt peer
            then (true, notes ++ [Datagram pkt peer], count_sent (set_responder r s))
            else (false, notes ++ [SendFailed], set_responder r s)
        | Raise _ r => (false, notes ++ [SendFailed], set_responder r s)
        end
      else (false, notes ++ [NoSession], s)
  | None => (false, notes ++ [NoSession], s)
  end.

(** One line of [_stdin_loop]; [None] when it ends the process. *)
Definition stdin_line (line : list Z) (s : server N) : option (list event * server N) :=
  let line := rstrip (λ c, c =? 10) line in
  if bool_decide (line = bytes_of_string "/quit") || bool_decide (line = bytes_of_string "/q")
  then None
  else if bool_decide (line = []) then Some ([], s)
  else
    let '(ok, evs, s) := send_text line s in
    Some (evs ++ (if ok : bool then [Typed line] else []), s).

(** One round of the loop of [run_server], for a datagram it received; an exception that
    leaves the loop ends the server. *)
Definition handle_datagram (interactive : bool) (data : bytes) (addr : address) :
    eff (server N) (sexn NE) (list event) := λ s,
  match data with
  | [] => Ret [] s
  | pkt_type :: _ =>
      if pkt_type =? MSG_TYPE_INITIATION then
        match handle_initiation data (s_responder s) with
        | Raise e r =>
            if is_value_error e then Ret [] (set_responder r s)
            else Raise (Responding e) (set_responder r s)
        | Ret response r =>
            if sendto response addr
            then Ret ([Datagram response addr]
                      ++ (if interactive then [SessionUp addr] else []))
                     (Server r (Some addr) true (s_sent s) ACTIVE (Some addr))
            else Raise SocketError
                     (Server r (s_peer_addr s) (s_active s) (s_sent s) (s_state s) (Some addr))
        end
      else if pkt_type =? MSG_TYPE_TRANSPORT then
        if decide (s_state s = ACTIVE) then
          match decrypt_transport data (s_responder s) with
          | Ret plaintext r =>
              let text := rstrip is_space
                (petscii_to_ascii (strip_tunnel_headers plaintext)) in
              Ret (if interactive && negb (bool_decide (text = [])) then [Received text] else [])
                (set_responder r s)
          | Raise _ r => Ret [] (set_responder r s)
          end
        else Ret [] s
      else Ret [] s
  end.

(** The two threads, one whole handler at a time: a datagram arrives or a line is typed. *)
Inductive input := Arrives (data : bytes) (from : address) | Types (line : list Z).

Fixpoint serve (interactive : bool) (inputs : list input) (s : server N) :
    outcome (server N) (sexn NE) (list event) :=
  match inputs with
  | [] => Ret [] s
  | Arrives data addr :: inputs =>
      match handle_datagram interactive data addr s with
      | Ret evs s' =>
          match serve interactive inputs s' with
          | Ret evs' s'' => Ret (evs ++ evs') s''
          | Raise e s'' => Raise e s''
          end
      | Raise e s' => Raise e s'
      end
  | Types line :: inputs =>
      match stdin_line line s with
      | None => Ret [] s
      | Some (evs, s') =>
          match serve interactive inputs s' with
          | Ret evs' s'' => Ret (evs ++ evs') s''
          | Raise e s'' => Raise e s''
          end
      end
  end.
End server.
