(* ===== verification/ServerThms.v ===== *)
(** * The patient responder server: the properties

    The state machine of the receive loop, whom it sends to, what ends it, and the text
    codecs. *)

From S2P Require Export Server.

Section server_inv.
Context {N NE : Type} `{Lib : NoiseLib N NE} (send_nonce : N → Z).
Context `{Laws : !NoiseLaws N NE send_nonce}.
Context (char_to_petscii : Z → option Z) (C64_RECV_MTU C64_TUNNEL_MTU : Z).
Context (sendto : bytes → address → bool).
Implicit Types s : server N.

Abbreviation handle := (handle_datagram sendto).
Abbreviation serve := (serve char_to_petscii C64_RECV_MTU C64_TUNNEL_MTU sendto).
Abbreviation say := (send_text char_to_petscii C64_RECV_MTU C64_TUNNEL_MTU sendto).
Abbreviation type_line := (stdin_line char_to_petscii C64_RECV_MTU C64_TUNNEL_MTU sendto).

(** The two state variables, the flag of the session and the responder agree. *)
Record server_inv s : Prop := ServerInv {
  sv_session : session_inv send_nonce (s_responder s);
  sv_state : s_state s = ACTIVE ↔ s_active s = true;
  sv_complete : s_active s = r_handshake_complete (s_responder s);
  sv_peer : s_active s = true → is_Some (s_peer_addr s);
  sv_loop : s_loop_peer s = s_peer_addr s;
}.

Lemma new_server_inv r :
  session_inv send_nonce r → r_handshake_complete r = false → server_inv (new_server r).
Proof. intros Hr Hc. by constructor; cbn. Qed.

Definition sends (evs : list event) (P : bytes → address → Prop) : Prop :=
  ∀ pkt to, Datagram pkt to ∈ evs → P pkt to.

Lemma sends_nil P : sends [] P.
Proof. intros pkt to Hin. by apply elem_of_nil in Hin. Qed.
Lemma sends_app evs evs' P : sends (evs ++ evs') P ↔ sends evs P ∧ sends evs' P.
Proof.
  unfold sends. setoid_rewrite elem_of_app. split; [by split; auto|].
  intros [H1 H2] pkt to [Hin|Hin]; auto.
Qed.
Lemma sends_other e P : (∀ pkt to, e ≠ Datagram pkt to) → sends [e] P.
Proof. intros He pkt to Hin. apply list_elem_of_singleton in Hin. by destruct (He pkt to). Qed.
Lemma sends_datagram pkt to P : P pkt to → sends [Datagram pkt to] P.
Proof. intros HP pkt' to' Hin. by apply list_elem_of_singleton in Hin as [= -> ->]. Qed.

(** What happens to the responder outside an accepted initiation. *)
Lemma set_responder_inv s r :
  server_inv s → session_inv send_nonce r → identity r = identity (s_responder s) →
  server_inv (set_responder r s).
Proof. intros [] Hr Hid. constructor; cbn; try done. injection Hid; congruence. Qed.

Definition key_of (r : responder N) : bytes := r_mac1_key_for_t1 r.

(** A datagram: the loop survives unless the socket fails or the Noise package raises
    something that is not a [ValueError]; it answers a valid initiation only, its sender, and
    with a response. *)
Lemma handle_datagram_spec interactive data addr s :
  server_inv s → is_bytes data →
  match handle interactive data addr s with
  | Ret evs s' => server_inv s' ∧ key_of (s_responder s') = key_of (s_responder s) ∧
      sends evs (λ pkt to, to = addr ∧ valid_initiation data (s_responder s) ∧
                           len pkt = T2_TOTAL ∧ s_peer_addr s' = Some to) ∧
      (s_peer_addr s' = s_peer_addr s ∨
       s_peer_addr s' = Some addr ∧ valid_initiation data (s_responder s))
  | Raise e s' => e = SocketError ∨
      ∃ ne, e = Responding (NoiseError ne) ∧ noise_value_error ne = false
  end.
Proof.
  intros Hs Hb. pose proof (sv_session s Hs) as Hr.
  assert (Hstay : server_inv s ∧ key_of (s_responder s) = key_of (s_responder s) ∧
    sends [] (λ pkt to, to = addr ∧ valid_initiation data (s_responder s) ∧
                         len pkt = T2_TOTAL ∧ s_peer_addr s = Some to) ∧
    (s_peer_addr s = s_peer_addr s ∨
     s_peer_addr s = Some addr ∧ valid_initiation data (s_responder s))).
  { split_and!; [done|done|apply sends_nil|by left]. }
  unfold handle_datagram. destruct data as [|b data'] eqn:Hdata; [exact Hstay|].
  rewrite <- Hdata in *. clear Hdata data'. destruct (b =? MSG_TYPE_INITIATION).
  - pose proof (handle_initiation_spec send_nonce data (s_responder s) Hr Hb) as Hh.
    destruct (handle_initiation data (s_responder s)) as [resp r'|e r'].
    + destruct Hh as (noise & ts & msg2 & Hac & -> & Hinv & Hlen & ->).
      destruct (sendto _ addr); [|by left].
      assert (Hl : len (type2 (commit noise (sender_of data) ts (s_responder s))
        (le_bytes 4 (r_my_sender_idx (s_responder s))) (le_bytes 4 (sender_of data)) msg2)
        = T2_TOTAL) by (apply type2_parts; auto using length_le_bytes).
      split_and!.
      * constructor; done.
      * done.
      * apply sends_app. split; [apply sends_datagram|destruct interactive;
          [by apply sends_other|apply sends_nil]].
        destruct Hac. by split_and!.
      * right. split; [done|]. by destruct Hac.
    + destruct Hh as [-> Hrej]. destruct (is_value_error e) eqn:He.
      * destruct s; exact Hstay.
      * right. destruct Hrej as [?|(ne & ->)]; [congruence|]. by exists ne.
  - destruct (b =? MSG_TYPE_TRANSPORT); [|exact Hstay].
    case_decide; [|exact Hstay].
    pose proof (decrypt_inv send_nonce data (s_responder s) Hr) as Hd.
    pose proof (decrypt_identity data (s_responder s)) as Hid.
    destruct (decrypt_transport data (s_responder s)) as [p r'|e r']; cbn in Hid;
      (split_and!; [by apply set_responder_inv|by injection Hid| |by left]).
    + destruct (_ && _); [by apply sends_other|apply sends_nil].
    + apply sends_nil.
Qed.

Lemma send_text_spec text s :
  server_inv s →
  let '(ok, evs, s') := say text s in
  server_inv s' ∧ key_of (s_responder s') = key_of (s_responder s) ∧
  s_peer_addr s' = s_peer_addr s ∧
  sends evs (λ pkt to, s_peer_addr s = Some to ∧ s_active s = true ∧
    (∃ n n' ct, r_noise (s_responder s) = Some n ∧
      noise_encrypt (chat_payload char_to_petscii C64_RECV_MTU C64_TUNNEL_MTU text).1 n
        = Ret ct n' ∧
      pkt = type4_header (default 0 (r_c64_sender_idx (s_responder s))) (send_nonce n) ++ ct)) ∧
  (ok = true → s_active s = true ∧ s_sent s' = s_sent s + 1 ∧
     ∃ pkt to, Datagram pkt to ∈ evs).
Proof.
  intros Hs. pose proof (sv_session s Hs) as Hr. unfold send_text.
  set (P := λ (pkt : bytes) (to : address), _ ∧ _).
  destruct (chat_payload _ _ _ text) as [payload notes] eqn:Hp.
  assert (Hnotes : sends notes P).
  { unfold chat_payload in Hp. repeat case_match; simplify_eq;
      first [apply sends_nil|by apply sends_other]. }
  assert (Hno : sends (notes ++ [NoSession]) P).
  { apply sends_app. split; [done|by apply sends_other]. }
  destruct (s_peer_addr s) as [peer|] eqn:Hpeer; [|by split_and!].
  destruct (s_active s) eqn:Hact; [|by split_and!].
  pose proof (encrypt_spec send_nonce payload (s_responder s) Hr) as He.
  pose proof (encrypt_identity payload (s_responder s)) as Hid.
  assert (Hfail : sends (notes ++ [SendFailed]) P).
  { apply sends_app. split; [done|by apply sends_other]. }
  destruct (encrypt_transport payload (s_responder s)) as [pkt r'|e r']; cbn in Hid.
  2:{ destruct He as [Hinv _]. split_and!; try done; [by apply set_responder_inv|by injection Hid]. }
  destruct He as (Hinv & n & n' & ct & Hn & Henc & _ & Hpkt & _).
  destruct (sendto pkt peer).
  - split_and!.
    + pose proof (set_responder_inv s r' Hs Hinv Hid) as []. by constructor.
    + by injection Hid.
    + done.
    + apply sends_app. split; [done|]. apply sends_datagram. split_and!; [done|done|].
      by exists n, n', ct.
    + intros _. split_and!; [done|done|]. exists pkt, peer.
      apply elem_of_app. right. by apply list_elem_of_singleton.
  - split_and!; try done; [by apply set_responder_inv|by injection Hid].
Qed.
(** ** Any sequence of inputs *)

Definition typed_input (i : input) : Prop :=
  match i with Arrives data _ => is_bytes data | Types _ => True end.

(** An address that proved knowledge of our key: the peer, or the sender of an initiation
    with a valid MAC1. *)
Definition authentic (inputs : list input) s (to : address) : Prop :=
  s_peer_addr s = Some to ∨
  ∃ data, Arrives data to ∈ inputs ∧ valid_initiation data (s_responder s).

Lemma valid_initiation_key data r r' :
  key_of r = key_of r' → valid_initiation data r → valid_initiation data r'.
Proof. unfold valid_initiation, key_of. by intros <-. Qed.

Lemma authentic_weaken i inputs s s' to :
  key_of (s_responder s') = key_of (s_responder s) →
  (s_peer_addr s' = s_peer_addr s ∨
   ∃ data addr, i = Arrives data addr ∧ s_peer_addr s' = Some addr ∧
     valid_initiation data (s_responder s)) →
  authentic inputs s' to → authentic (i :: inputs) s to.
Proof.
  intros Hkey Hpeer [Hto|(data & Hin & Hv)].
  - destruct Hpeer as [Heq|(data & addr & -> & Haddr & Hv)].
    + left. congruence.
    + right. exists data. replace to with addr by congruence. split; [by left|done].
  - right. exists data. split; [by right|]. by apply (valid_initiation_key _ _ _ Hkey).
Qed.

Lemma serve_spec interactive inputs s :
  server_inv s → Forall typed_input inputs →
  match serve interactive inputs s with
  | Ret evs s' => server_inv s' ∧ sends evs (λ _ to, authentic inputs s to)
  | Raise e _ => e = SocketError ∨
      ∃ ne, e = Responding (NoiseError ne) ∧ noise_value_error ne = false
  end.
Proof.
  intros Hs Hin. revert s Hs. induction Hin as [|i inputs Hi Hin IH]; intros s Hs;
    [by split; [|apply sends_nil]|].
  assert (Hstep : ∀ evs s',
    server_inv s' → key_of (s_responder s') = key_of (s_responder s) →
    (s_peer_addr s' = s_peer_addr s ∨ ∃ data addr, i = Arrives data addr ∧
       s_peer_addr s' = Some addr ∧ valid_initiation data (s_responder s)) →
    sends evs (λ _ to, authentic (i :: inputs) s to) →
    match (match serve interactive inputs s' with
           | Ret evs' s'' => Ret (evs ++ evs') s'' | Raise e s'' => Raise e s'' end)
    with
    | Ret evs s' => server_inv s' ∧ sends evs (λ _ to, authentic (i :: inputs) s to)
    | Raise e _ => e = SocketError ∨
        ∃ ne, e = Responding (NoiseError ne) ∧ noise_value_error ne = false
    end).
  { intros evs s' Hs' Hkey Hpeer Hevs. specialize (IH s' Hs').
    destruct (serve interactive inputs s') as [evs' s''|e s'']; [|done].
    destruct IH as [Hs'' Hevs']. split; [done|]. apply sends_app. split; [done|].
    intros pkt to Hto. by eapply authentic_weaken, (Hevs' pkt to). }
  destruct i as [data addr|line]; cbn [Server.serve].
  - pose proof (handle_datagram_spec interactive data addr s Hs Hi) as Hh.
    destruct (handle interactive data addr s) as [evs s'|e s']; [|done].
    destruct Hh as (Hs' & Hkey & Hevs & Hpeer). apply Hstep; [done|done| |].
    + destruct Hpeer as [?|[? ?]]; [by left|right]. by exists data, addr.
    + intros pkt to (-> & Hv & _)%Hevs. right. exists data. split; [by left|done].
  - destruct (type_line line s) as [[evs s']|] eqn:Hl; [|by split; [|apply sends_nil]].
    unfold stdin_line in Hl. destruct (_ || _); [done|]. case_bool_decide.
    { injection Hl as <- <-. apply Hstep; [done|done|by left|apply sends_nil]. }
    pose proof (send_text_spec (rstrip (λ c, c =? 10) line) s Hs) as Hsend.
    destruct (say _ s) as [[ok evs0] s0]. injection Hl as <- <-.
    destruct Hsend as (Hs' & Hkey & Hpeer & Hevs & _). apply Hstep; [done|done|by left|].
    apply sends_app. split; [|destruct ok; [by apply sends_other|apply sends_nil]].
    intros pkt to (Hto & _)%Hevs. by left.
Qed.

(** What holds of every datagram that a handler sends holds of all. *)
Lemma serve_sends P interactive inputs s evs s' :
  (∀ data addr s evs s', server_inv s → is_bytes data → handle interactive data addr s = Ret evs s' → sends evs P) →
  (∀ text s ok evs s', server_inv s → say text s = (ok, evs, s') → sends evs P) →
  server_inv s → Forall typed_input inputs → serve interactive inputs s = Ret evs s' → sends evs P.
Proof.
  intros Hhandle Hsay Hs Hin. revert s evs Hs. induction Hin as [|i inputs Hi Hin IH]; intros s evs Hs Hrun.
  { injection Hrun as <- _. apply sends_nil. }
  destruct i as [data addr|line]; cbn [Server.serve] in Hrun.
  - pose proof (handle_datagram_spec interactive data addr s Hs Hi) as Hh.
    destruct (handle interactive data addr s) as [evs1 s1|] eqn:Hd; [|done]. destruct Hh as (Hs1 & _).
    destruct (serve interactive inputs s1) as [evs2 s2|] eqn:Hr; [|done]. injection Hrun as <- <-.
    apply sends_app. split; [exact (Hhandle _ _ _ _ _ Hs Hi Hd)|exact (IH _ _ Hs1 Hr)].
  - destruct (type_line line s) as [[evs1 s1]|] eqn:Hl; [|by injection Hrun as <- _; apply sends_nil].
    destruct (serve interactive inputs s1) as [evs2 s2|] eqn:Hr; [|done]. injection Hrun as <- <-.
    unfold stdin_line in Hl. destruct (_ || _); [done|]. case_bool_decide.
    { injection Hl as <- <-. exact (IH _ _ Hs Hr). }
    pose proof (send_text_spec (rstrip (λ c, c =? 10) line) s Hs) as Hsend.
    destruct (say _ s) as [[ok evs0] s0] eqn:Hs0. injection Hl as <- <-. destruct Hsend as (Hs1 & _).
    rewrite !sends_app. split_and!; [exact (Hsay _ _ _ _ _ Hs Hs0)| |exact (IH _ _ Hs1 Hr)].
    destruct ok; [by apply sends_other|apply sends_nil].
Qed.

(** A payload is cut to the ceiling. *)
Lemma chat_payload_len text :
  0 ≤ C64_RECV_MTU → len (chat_payload char_to_petscii C64_RECV_MTU C64_TUNNEL_MTU text).1 ≤ C64_RECV_MTU.
Proof.
  intros Hmtu. unfold chat_payload. case_match eqn:Hc; cbn [fst]; [|lia].
  unfold slice, len. rewrite length_take. lia.
Qed.

(** Nothing is larger than a packet of a line cut to the limit, or a response. *)
Lemma serve_sizes interactive inputs s evs s' (n : Z) :
  (∀ p c (m m' : N), noise_encrypt p m = Ret c m' → len c = len p + 16) →
  0 ≤ C64_RECV_MTU → C64_RECV_MTU + 32 ≤ n → T2_TOTAL ≤ n →
  server_inv s → Forall typed_input inputs → serve interactive inputs s = Ret evs s' →
  sends evs (λ pkt _, len pkt ≤ n).
Proof.
  intros Htag Hmtu Hn H2. apply serve_sends.
  - intros data addr s0 evs0 s0' Hs0 Hb Hd. pose proof (handle_datagram_spec interactive data addr s0 Hs0 Hb) as Hh.
    rewrite Hd in Hh. destruct Hh as (_ & _ & Hevs & _). intros pkt to Hin. destruct (Hevs pkt to Hin) as (_ & _ & -> & _). done.
  - intros text s0 ok evs0 s0' Hs0 Hsay. pose proof (send_text_spec text s0 Hs0) as Hspec. rewrite Hsay in Hspec.
    destruct Hspec as (_ & _ & _ & Hevs & _). intros pkt to Hin.
    destruct (Hevs pkt to Hin) as (_ & _ & m & m' & ct & _ & Henc & ->). rewrite len_app, (Htag _ _ _ _ Henc).
    change (len (type4_header _ _)) with 16.
    pose proof (chat_payload_len text Hmtu). lia.
Qed.
End server_inv.

Lemma len_ascii_to_petscii f text : len (ascii_to_petscii f text) = len text.
Proof. unfold len, ascii_to_petscii. by rewrite length_fmap. Qed.

Lemma is_bytes_ascii_to_petscii f text : is_bytes (ascii_to_petscii f text).
Proof.
  apply Forall_fmap, Forall_true. intros ch. cbn.
  repeat case_match; (done || (unfold byte; lia)).
Qed.

(** The head of a concatenation. *)
Lemma byte_at_app h l i : (i < length h)%nat → byte_at (h ++ l) i = byte_at h i.
Proof. intros Hi. unfold byte_at. by rewrite lookup_app_l. Qed.
Lemma slice_app_l {A} a b (h l : list A) : 0 ≤ a → b ≤ len h → slice a b (h ++ l) = slice a b h.
Proof.
  intros Ha Hb. unfold slice, len in *. rewrite !take_drop_commute.
  destruct (decide (b ≤ a)).
  - replace (Z.to_nat (b - a)) with 0%nat by lia. rewrite Nat.add_0_r.
    rewrite !drop_ge; [done|rewrite length_take; lia..].
  - rewrite take_app_le; [done|lia].
Qed.

Module WgServer.
Section theorems.
Context {N NE : Type} `{Lib : NoiseLib N NE} (send_nonce : N → Z).
Context `{Laws : !NoiseLaws N NE send_nonce}.
Context (char_to_petscii : Z → option Z) (C64_RECV_MTU C64_TUNNEL_MTU : Z).
Context (sendto : bytes → address → bool).

Abbreviation run := (serve char_to_petscii C64_RECV_MTU C64_TUNNEL_MTU sendto).

(** C27. Whatever datagrams arrive and whatever is typed in between, the server sends only to
    addresses from which an initiation with a valid MAC1 arrived, and its state machine stays
    consistent: ACTIVE exactly when the session is marked active, exactly when the responder
    has completed a handshake, and then with a peer address. *)
Theorem server_sends_to_authentic_only interactive inputs r evs s' :
  session_inv send_nonce r → r_handshake_complete r = false → Forall typed_input inputs →
  run interactive inputs (new_server r) = Ret evs s' →
  server_inv send_nonce s' ∧
  ∀ pkt to, Datagram pkt to ∈ evs →
    ∃ data, Arrives data to ∈ inputs ∧ valid_initiation data r.
Proof.
  intros Hr Hc Hin Hrun.
  pose proof (serve_spec send_nonce char_to_petscii C64_RECV_MTU C64_TUNNEL_MTU sendto
    interactive inputs (new_server r) (new_server_inv send_nonce r Hr Hc) Hin) as Hs.
  rewrite Hrun in Hs. destruct Hs as [Hs' Hevs]. split; [done|].
  intros pkt to Hto. by destruct (Hevs pkt to Hto) as [?|?].
Qed.

(** The only ways the server ends are a socket that refuses to send a response and an
    exception of the Noise package that is not a [ValueError]; no sequence of datagrams and
    lines makes the code itself raise (no failed assertion, no index or packing error). *)
Theorem server_ends_only_on interactive inputs r e s' :
  session_inv send_nonce r → r_handshake_complete r = false → Forall typed_input inputs →
  run interactive inputs (new_server r) = Raise e s' →
  e = SocketError ∨ ∃ ne, e = Responding (NoiseError ne) ∧ noise_value_error ne = false.
Proof.
  intros Hr Hc Hin Hrun.
  pose proof (serve_spec send_nonce char_to_petscii C64_RECV_MTU C64_TUNNEL_MTU sendto
    interactive inputs (new_server r) (new_server_inv send_nonce r Hr Hc) Hin) as Hs.
  by rewrite Hrun in Hs.
Qed.

(** An initiation with a valid MAC1, which takes only our public key to make, ends the
    server if the Noise package rejects its payload with anything but a [ValueError]: the
    method does not turn it into one, as its description says, and the loop does not catch
    it. *)
Theorem rejected_payload_ends_server interactive data addr (s : server N) n0 ne n1 :
  valid_initiation data (s_responder s) →
  noise_start CONSTRUCTION IDENTIFIER (r_psk (s_responder s)) (r_static_priv (s_responder s))
    (r_peer_static_pub (s_responder s)) = Ok n0 →
  noise_read_message (slice T1_OFF_NOISE T1_OFF_MAC1 data) n0 = Raise ne n1 →
  noise_value_error ne = false →
  ∃ s', handle_datagram sendto interactive data addr s
        = Raise (Responding (NoiseError ne)) s'.
Proof.
  intros Hv Hstart Hread Hne.
  assert (Hh : handle_initiation data (s_responder s) = Raise (NoiseError ne) (s_responder s)).
  { unfold handle_initiation. rewrite run_bind.
    pose proof (check_initiation_spec data (s_responder s)) as Hc.
    destruct (check_initiation data (s_responder s)) as [u r'|e r'];
      [|by destruct Hc as (_ & _ & ?)].
    destruct Hc as [-> _]. unfold gets. rewrite !run_bind, Hstart. cbn [mret eff_ret].
    rewrite run_bind. unfold on_local. by rewrite Hread. }
  destruct Hv as (_ & Hb & _). unfold handle_datagram. destruct data as [|b data']; [done|].
  assert (b = MSG_TYPE_INITIATION) as ->.
  { unfold item in Hb.
    rewrite py_index_in in Hb by (rewrite len_cons; pose proof (len_nonneg data'); lia).
    by injection Hb. }
  rewrite Z.eqb_refl, Hh. cbn. rewrite Hne. by eexists.
Qed.

(** What a typed line puts on the wire: if anything is sent, it is one transport packet,
    to the peer of the active session, whose plaintext is the line in PETSCII cut to what the
    C64 can receive, all of it when it fits; the message count goes up by one exactly when
    the packet went out. *)
Theorem send_text_payload text s ok evs s' :
  server_inv send_nonce s → 0 ≤ C64_RECV_MTU →
  send_text char_to_petscii C64_RECV_MTU C64_TUNNEL_MTU sendto text s = (ok, evs, s') →
  server_inv send_nonce s' ∧
  (ok = true → s_sent s' = s_sent s + 1 ∧ ∃ pkt to, Datagram pkt to ∈ evs) ∧
  ∀ pkt to, Datagram pkt to ∈ evs →
    s_peer_addr s = Some to ∧ s_active s = true ∧
    ∃ n n' plaintext ct, r_noise (s_responder s) = Some n ∧
      noise_encrypt plaintext n = Ret ct n' ∧ from 16 pkt = ct ∧
      plaintext = slice 0 C64_RECV_MTU (ascii_to_petscii char_to_petscii text) ∧
      len plaintext = Z.min (len text) C64_RECV_MTU ∧ is_bytes plaintext.
Proof.
  intros Hs Hmtu Hsend.
  pose proof (send_text_spec send_nonce char_to_petscii C64_RECV_MTU C64_TUNNEL_MTU sendto
    text s Hs) as Hspec.
  rewrite Hsend in Hspec. destruct Hspec as (Hs' & _ & _ & Hevs & Hok).
  split; [done|]. split; [by intros (_ & ? & ?)%Hok|]. intros pkt to Hin.
  destruct (Hevs pkt to Hin) as (Hto & Hact & n & n' & ct & Hn & Henc & ->).
  split; [done|]. split; [done|]. exists n, n', (chat_payload char_to_petscii C64_RECV_MTU
    C64_TUNNEL_MTU text).1, ct.
  assert (Hp : (chat_payload char_to_petscii C64_RECV_MTU C64_TUNNEL_MTU text).1
    = slice 0 C64_RECV_MTU (ascii_to_petscii char_to_petscii text)).
  { unfold chat_payload. destruct (Z.ltb_spec C64_RECV_MTU
      (len (ascii_to_petscii char_to_petscii text))); [done|]. cbn. by rewrite slice_all. }
  split_and!; [done|done|done|done| |].
  - rewrite Hp. unfold slice, len. rewrite drop_0, length_take.
    pose proof (len_ascii_to_petscii char_to_petscii text) as Hl. unfold len in Hl. lia.
  - rewrite Hp. apply is_bytes_slice, is_bytes_ascii_to_petscii.
Qed.
End theorems.

(** Stripping undoes framing: behind a 28-byte header with IP version 4, protocol UDP
    and a consistent total length the text comes out unchanged, and anything shorter than a
    header is passed through. *)
Theorem strip_tunnel_headers_roundtrip header text :
  len header = 28 → byte_at header 0 ≫ 4 = 4 → byte_at header 9 = 17 →
  from_be (slice 2 4 header) = 28 + len text →
  strip_tunnel_headers (header ++ text) = text ∧
  (len text < 28 → strip_tunnel_headers text = text).
Proof.
  intros Hlen Hv Hp Htot. unfold len in Hlen.
  split; unfold strip_tunnel_headers.
  - rewrite !byte_at_app, Hv, Hp, slice_app_l, Htot, len_app by (unfold len; lia).
    unfold len. rewrite Hlen.
    replace (28 <=? 28 + Z.of_nat (length text)) with true by (symmetry; apply Z.leb_le; lia).
    rewrite !Z.eqb_refl. cbn [andb]. unfold from. rewrite drop_app_length'; [done|lia].
  - intros Hshort. replace (28 <=? len text) with false; [done|]. symmetry. apply Z.leb_gt. lia.
Qed.

(** What the terminal shows of a message is printable, one character per byte, and plain
    text, digits, punctuation and capitals, comes through unchanged. *)
Theorem petscii_to_ascii_printable data :
  is_bytes data →
  length (petscii_to_ascii data) = length data ∧
  Forall (λ c, 0x20 ≤ c ≤ 0x5E) (petscii_to_ascii data) ∧
  (Forall (λ c, 0x20 ≤ c ≤ 0x5E) data → petscii_to_ascii data = data).
Proof.
  intros Hb. unfold petscii_to_ascii. split_and!.
  - apply length_fmap.
  - apply Forall_fmap, Forall_true. intros b. cbn.
    destruct (Z.leb_spec 32 b), (Z.leb_spec b 94), (Z.leb_spec 193 b), (Z.leb_spec b 218);
      cbn; try lia; destruct (_ || _); lia.
  - induction 1 as [|b l Hr Hl IH]; [done|]. cbn. inversion Hb; subst.
    rewrite IH by done. replace ((32 <=? b) && (b <=? 94)) with true; [done|].
    symmetry. apply andb_true_iff. lia.
Qed.

(** *** At work, with the toy package *)

Definition toy_to_petscii (c : Z) : option Z := if c <? 256 then Some c else None.
Definition toy_sendto (pkt : bytes) (to : address) : bool := true.
Definition c64 : address := ("10.0.0.2", 51820).
Definition toy_inputs : list input :=
  [Types [72; 73]; Arrives (WgResponder.toy_packet (WgResponder.ts_at 5)) c64;
   Types [72; 0x1F600; 73]].

Lemma toy_inputs_typed : Forall typed_input toy_inputs.
Proof.
  apply Forall_cons. split; [exact I|].
  apply Forall_cons. split; [apply WgResponder.toy_packet_bytes; unfold byte; lia|].
  apply Forall_singleton. exact I.
Qed.

#[local] Existing Instances WgResponder.toy_noise WgResponder.toy_laws.

Lemma server_sends_to_authentic_only_witness :
  ∃ evs s', serve toy_to_petscii 1440 860 toy_sendto true toy_inputs
      (new_server WgResponder.toy_responder) = Ret evs s' ∧ server_inv id s'.
Proof.
  destruct (serve toy_to_petscii 1440 860 toy_sendto true toy_inputs
      (new_server WgResponder.toy_responder)) as [evs s'|e s'] eqn:Hrun.
  - exists evs, s'. split; [reflexivity|].
    exact (proj1 (server_sends_to_authentic_only id toy_to_petscii 1440 860 toy_sendto true
      toy_inputs WgResponder.toy_responder evs s' WgResponder.toy_inv eq_refl
      toy_inputs_typed Hrun)).
  - exfalso. by vm_compute in Hrun.
Defined.

Lemma server_ends_only_on_witness :
  ∃ e s', serve toy_to_petscii 1440 860 (λ _ _, false) true toy_inputs
      (new_server WgResponder.toy_responder) = Raise e s' ∧
    (e = SocketError ∨ ∃ ne : unit, e = Responding (NoiseError ne) ∧ noise_value_error ne = false).
Proof.
  destruct (serve toy_to_petscii 1440 860 (λ _ _, false) true toy_inputs
      (new_server WgResponder.toy_responder)) as [evs s'|e s'] eqn:Hrun.
  - exfalso. by vm_compute in Hrun.
  - exists e, s'. split; [reflexivity|].
    exact (server_ends_only_on id toy_to_petscii 1440 860 (λ _ _, false) true
      toy_inputs WgResponder.toy_responder e s' WgResponder.toy_inv eq_refl
      toy_inputs_typed Hrun).
Defined.

(** A package that rejects every payload, with an exception of its own. *)
Definition rejecting_noise : NoiseLib Z unit := {|
  noise_start _ _ _ _ _ := Ok 0;
  noise_read_message p := λ n, Raise tt n;
  noise_write_message p := λ n, Ret (replicate 48 0) n;
  noise_encrypt p := λ n, Ret (p ++ replicate 16 0) (n + 1);
  noise_decrypt p := λ n, Ret p n;
  noise_value_error _ := false;
  x25519_public k := k;
|}.

Lemma rejected_payload_ends_server_witness :
  ∃ s', handle_datagram (Lib:=rejecting_noise) toy_sendto true
      (WgResponder.toy_packet (WgResponder.ts_at 5)) c64 (new_server WgResponder.toy_responder)
    = Raise (Responding (NoiseError tt)) s'.
Proof.
  apply (rejected_payload_ends_server (Lib:=rejecting_noise) toy_sendto true _ c64
    (new_server WgResponder.toy_responder) 0 tt 0); [|reflexivity..].
  unfold valid_initiation. split_and!; by vm_compute.
Defined.

(** An active session, sending a line longer than the C64 receives. *)
Definition toy_session : server Z :=
  Server (commit 0 9 (WgResponder.ts_at 5) WgResponder.toy_responder) (Some c64) true 0 ACTIVE
    (Some c64).

Lemma toy_session_inv : server_inv id toy_session.
Proof.
  constructor; [|done|done|by eexists|done].
  constructor; cbn; [done|by intros i [= <-]|done|by intros n [= <-]|done|].
  by rewrite lookup_insert_eq.
Qed.

Lemma send_text_payload_witness :
  ∃ evs s', send_text toy_to_petscii 4 2 toy_sendto [65; 0x1F600; 67; 68; 69] toy_session
      = (true, evs, s') ∧ server_inv id s' ∧ s_sent s' = 1.
Proof.
  destruct (send_text toy_to_petscii 4 2 toy_sendto [65; 0x1F600; 67; 68; 69] toy_session)
    as [[ok evs] s'] eqn:Hsend.
  destruct (send_text_payload id toy_to_petscii 4 2 toy_sendto _ toy_session ok evs s'
    toy_session_inv ltac:(lia) Hsend) as (Hinv & Hok & _).
  assert (ok = true) as -> by (vm_compute in Hsend; by injection Hsend).
  exists evs, s'. split; [reflexivity|]. split; [exact Hinv|].
  exact (proj1 (Hok eq_refl)).
Defined.

Lemma strip_tunnel_headers_roundtrip_witness :
  strip_tunnel_headers (([69; 0; 0; 30] ++ replicate 5 0 ++ [17] ++ replicate 18 0) ++ [72; 73])
  = [72; 73].
Proof.
  refine (proj1 (strip_tunnel_headers_roundtrip
    ([69; 0; 0; 30] ++ replicate 5 0 ++ [17] ++ replicate 18 0) [72; 73] _ _ _ _));
    by vm_compute.
Defined.

Lemma petscii_to_ascii_printable_witness :
  petscii_to_ascii [72; 193; 13; 7] = [72; 65; 32; 46] ∧
  Forall (λ c, 0x20 ≤ c ≤ 0x5E) (petscii_to_ascii [72; 193; 13; 7]).
Proof.
  split; [reflexivity|]. refine (proj1 (proj2 (petscii_to_ascii_printable [72; 193; 13; 7] _))).
  apply (bool_decide_unpack _). by vm_compute.
Defined.
End WgServer.
