(* ===== verification/TunnelThms.v ===== *)
(** * The tunnel end to end

    The responder's server on one side, on the other any end of the tunnel that starts its handshakes and
    whose Noise package is the same: what is typed arrives there, what it sends is shown, in order,
    whatever the two directions interleave and however often the far end renews the session. *)

From S2P Require Export ServerThms.
#[local] Set Warnings "-clear-no-such-hyp".

(** The package as the end that starts a handshake uses it: the first message with its payload, and the
    connection that the answer gives. *)
Class NoiseInitiator (N : Type) := {
  noise_initiate : bytes → bytes → bytes → bytes → bytes → bytes → option (bytes * N);
  noise_finish : bytes → N → option N;
}.

(** What a transport message of the package holds at most, 65535 bytes with the tag, and what a UDP
    datagram does. *)
Definition NOISE_MAX_PLAINTEXT : Z := 65535 - 16.
Definition MAX_DATAGRAM : Z := 65507.

Definition is_key (k : bytes) : Prop := len k = 32 ∧ is_bytes k.

(** Two connections of the package that are in step: what the one encrypts the other decrypts, up to the
    size of a message and as long as the nonces of the sender last, and every message carries a tag of 16 bytes; a
    handshake between the holders of two keys of 32 bytes that know each other and share a key of 32
    bytes leaves them in step. *)
Class NoisePair (N NE : Type) `{NoiseLib N NE, NoiseInitiator N} (send_nonce : N → Z) (paired : N → N → Prop) : Prop := {
  pair_sym a b : paired a b → paired b a;
  pair_send p a b : paired a b → is_bytes p → len p ≤ NOISE_MAX_PLAINTEXT → send_nonce a < 2 ^ 64 - 1 →
    ∃ c a' b', noise_encrypt p a = Ret c a' ∧ noise_decrypt c b = Ret p b' ∧ paired a' b';
  pair_tag p n c n' : noise_encrypt p n = Ret c n' → len c = len p + 16;
  pair_handshake psk a b ts : is_key psk → is_key a → is_key b → len ts = 12 → is_bytes ts →
    ∃ msg1 i n0 n1 msg2 n f,
      noise_initiate CONSTRUCTION IDENTIFIER psk a (x25519_public b) ts = Some (msg1, i) ∧
      len msg1 = NOISE_MSG1_LEN ∧ is_bytes msg1 ∧
      noise_start CONSTRUCTION IDENTIFIER psk b (x25519_public a) = Ok n0 ∧
      noise_read_message msg1 n0 = Ret ts n1 ∧ noise_write_message [] n1 = Ret msg2 n ∧
      noise_finish msg2 i = Some f ∧ paired n f ∧ send_nonce f = 0;
}.

(** A line that is typed, a message of the far end with the header it chose, or a new session that it asks
    for from an address, with its index and a timestamp. *)
Inductive turn :=
| Says (line : list Z)
| Hears (header plaintext : bytes)
| Renews (from : address) (idx : Z) (ts : bytes).

Definition packets (evs : list event) : list (bytes * address) :=
  omap (λ e, match e with Datagram pkt to => Some (pkt, to) | _ => None end) evs.
Definition received (evs : list event) : list (list Z) :=
  omap (λ e, match e with Received text => Some text | _ => None end) evs.

Lemma packets_app evs evs' : packets (evs ++ evs') = packets evs ++ packets evs'.
Proof. apply omap_app. Qed.
Lemma received_app evs evs' : received (evs ++ evs') = received evs ++ received evs'.
Proof. apply omap_app. Qed.

(** The far end: its connection, the index it gave, and where it is. *)
Record far (N : Type) := Far { f_noise : N; f_idx : Z; f_addr : address }.
Arguments Far {N} _ _ _.
Arguments f_noise {N} _.
Arguments f_idx {N} _.
Arguments f_addr {N} _.

Section tunnel.
Context {N NE : Type} `{Lib : NoiseLib N NE, Init : NoiseInitiator N}.
Context (char_to_petscii : Z → option Z) (C64_RECV_MTU C64_TUNNEL_MTU : Z) (sendto : bytes → address → bool).
(** The keys of the two ends, and the one they share. *)
Context (priv far_priv psk : bytes).
Implicit Types s : server N.
Implicit Types f : far N.

Definition payload_of (line : list Z) : bytes :=
  (chat_payload char_to_petscii C64_RECV_MTU C64_TUNNEL_MTU (rstrip (λ c, c =? 10) line)).1.
Definition text_of (plaintext : bytes) : option (list Z) :=
  let text := rstrip is_space (petscii_to_ascii (strip_tunnel_headers plaintext)) in
  if bool_decide (text = []) then None else Some text.

(** The far end takes transport packets that come to its address for its index. *)
Definition far_hear f (p : bytes * address) : option (bytes * far N) :=
  if bool_decide (p.2 = f_addr f) && bool_decide (slice 0 4 p.1 = [4; 0; 0; 0]) && (from_le (slice 4 8 p.1) =? f_idx f)
  then match noise_decrypt (from 16 p.1) (f_noise f) with
       | Ret plaintext b => Some (plaintext, Far b (f_idx f) (f_addr f))
       | Raise _ _ => None
       end
  else None.
Fixpoint far_hears f (pkts : list (bytes * address)) : option (list bytes * far N) :=
  match pkts with
  | [] => Some ([], f)
  | pkt :: pkts =>
      '(p, f') ← far_hear f pkt;
      '(ps, f'') ← far_hears f' pkts;
      Some (p :: ps, f'')
  end.

(** The packet it asks for a session with, and what it makes of the answer. *)
Definition initiation (idx : Z) (msg1 : bytes) : bytes :=
  let body := [MSG_TYPE_INITIATION; 0; 0; 0] ++ le_bytes 4 idx ++ msg1 in
  body ++ compute_mac1 body (mac1_key (x25519_public priv)) ++ replicate 16 0.
Definition far_accept (i : N) (idx : Z) (resp : bytes) : option N :=
  if (len resp =? T2_TOTAL) && bool_decide (slice 0 4 resp = [2; 0; 0; 0]) && (from_le (slice 8 12 resp) =? idx)
     && bool_decide (slice 60 76 resp = compute_mac1 (slice 0 60 resp) (mac1_key (x25519_public far_priv)))
  then noise_finish (slice 12 60 resp) i else None.

(** One turn: what the far end gets, what the server does, and where both stand; [None] when a packet is
    refused by either or the server ends. *)
Definition take_turn (t : turn) s (fo : option (far N)) : option (list bytes * list event * server N * far N) :=
  match t with
  | Says line =>
      f ← fo;
      '(evs, s') ← stdin_line char_to_petscii C64_RECV_MTU C64_TUNNEL_MTU sendto line s;
      '(got, f') ← far_hears f (packets evs);
      Some (got, evs, s', f')
  | Hears header plaintext =>
      f ← fo;
      match noise_encrypt plaintext (f_noise f) with
      | Raise _ _ => None
      | Ret ct b =>
          match handle_datagram sendto true (header ++ ct) (f_addr f) s with
          | Raise _ _ => None
          | Ret evs s' =>
              '(got, f') ← far_hears (Far b (f_idx f) (f_addr f)) (packets evs);
              Some (got, evs, s', f')
          end
      end
  | Renews from idx ts =>
      '(msg1, i) ← noise_initiate CONSTRUCTION IDENTIFIER psk far_priv (x25519_public priv) ts;
      match handle_datagram sendto true (initiation idx msg1) from s with
      | Raise _ _ => None
      | Ret evs s' =>
          match packets evs with
          | [(resp, to)] =>
              if bool_decide (to = from)
              then b ← far_accept i idx resp; Some ([], evs, s', Far b idx from) else None
          | _ => None
          end
      end
  end.

Fixpoint tunnel (turns : list turn) s (fo : option (far N)) :
    option (list bytes * list event * server N * option (far N)) :=
  match turns with
  | [] => Some ([], [], s, fo)
  | t :: turns =>
      '(got, evs, s', f) ← take_turn t s fo;
      '(gots, evss, s'', fo') ← tunnel turns s' (Some f);
      Some (got ++ gots, evs ++ evss, s'', fo')
  end.

(** What the script says in either direction. *)
Definition said_by (t : turn) : option bytes := match t with Says line => Some (payload_of line) | _ => None end.
Definition heard_by (t : turn) : option (list Z) := match t with Hears _ p => text_of p | _ => None end.

(** A line that is neither empty nor a command, a header of a transport packet and a message that fits a datagram
    with it, a timestamp later than [g]; and a script of them, in which the far end asks for a session
    before it is used. *)
Definition later (g : option bytes) (ts : bytes) : Prop := ∀ t, g = Some t → from_be t < from_be ts.
Definition turn_ok (g : option bytes) (up : bool) (t : turn) : Prop :=
  match t with
  | Says line =>
      let line := rstrip (λ c, c =? 10) line in
      up = true ∧ line ≠ [] ∧ line ≠ bytes_of_string "/quit" ∧ line ≠ bytes_of_string "/q"
  | Hears header p =>
      up = true ∧ len header = 16 ∧ item header 0 = Some MSG_TYPE_TRANSPORT ∧
      is_bytes p ∧ len header + len p + 16 ≤ MAX_DATAGRAM
  | Renews _ idx ts => 0 ≤ idx < 2 ^ 32 ∧ len ts = 12 ∧ is_bytes ts ∧ later g ts
  end.
Definition stamp_after (g : option bytes) (t : turn) : option bytes :=
  match t with Renews _ _ ts => Some ts | _ => g end.
Fixpoint script (g : option bytes) (up : bool) (turns : list turn) : Prop :=
  match turns with
  | [] => True
  | t :: turns => turn_ok g up t ∧ script (stamp_after g t) true turns
  end.
End tunnel.

(** ** Both ends in step *)

Section standing.
Context {N NE : Type} `{Lib : NoiseLib N NE, Init : NoiseInitiator N} (send_nonce : N → Z) (paired : N → N → Prop).
Context (priv far_priv psk : bytes).
Implicit Types s : server N.
Implicit Types f : far N.
Implicit Types r : responder N.

(** The responder has the keys of the two ends. *)
Record keyed r : Prop := Keyed {
  ky_priv : r_static_priv r = priv;
  ky_peer : r_peer_static_pub r = x25519_public far_priv;
  ky_psk : r_psk r = psk;
  ky_t1 : r_mac1_key_for_t1 r = mac1_key (x25519_public priv);
  ky_t2 : r_mac1_key_for_t2 r = mac1_key (x25519_public far_priv);
}.

(** What no operation of the responder changes. *)
Definition keys_of r : bytes * bytes * bytes * bytes * bytes :=
  (r_static_priv r, r_peer_static_pub r, r_psk r, r_mac1_key_for_t1 r, r_mac1_key_for_t2 r).
Lemma keyed_same r r' : keys_of r' = keys_of r → keyed r → keyed r'.
Proof. intros [= H1 H2 H3 H4 H5] []. constructor; congruence. Qed.

(** The session is up, with this far end in step. *)
Record linked s f : Prop := Linked {
  lk_active : s_active s = true;
  lk_state : s_state s = ACTIVE;
  lk_peer : s_peer_addr s = Some (f_addr f);
  lk_idx : r_c64_sender_idx (s_responder s) = Some (f_idx f);
  lk_range : 0 ≤ f_idx f < 2 ^ 32;
  lk_noise : ∃ a, r_noise (s_responder s) = Some a ∧ paired a (f_noise f);
}.

Record standing s (fo : option (far N)) : Prop := Standing {
  st_inv : session_inv send_nonce (s_responder s);
  st_keyed : keyed (s_responder s);
  st_linked : ∀ f, fo = Some f → linked s f;
}.

(** The nonces used up so far. *)
Definition used s (fo : option (far N)) : Z :=
  Z.max (r_send_counter (s_responder s)) (from_option (λ f, send_nonce (f_noise f)) 0 fo).

(** A new server stands, waiting for the far end. *)
Lemma standing_new psko rnd r :
  new_responder priv (x25519_public far_priv) psko rnd = Ok r → psk = default (replicate 32 0) psko →
  is_bytes rnd → length rnd = 4%nat → standing (new_server r) None ∧ r_last_timestamp r = None ∧ used (new_server r) None = 0.
Proof.
  intros Hr -> Hb Hl. pose proof (new_responder_inv send_nonce _ _ _ _ _ Hb Hl Hr) as Hinv.
  unfold new_responder in Hr. repeat case_match; [done..|]. injection Hr as <-.
  split_and!; [constructor; done|done|done].
Qed.
End standing.

Section in_order.
Context {N NE : Type} `{Lib : NoiseLib N NE, Init : NoiseInitiator N} (send_nonce : N → Z) (paired : N → N → Prop).
Context `{Laws : !NoiseLaws N NE send_nonce, Pair : !NoisePair N NE send_nonce paired}.
Context (char_to_petscii : Z → option Z) (C64_RECV_MTU C64_TUNNEL_MTU : Z) (sendto : bytes → address → bool).
Context (Hmtu : 0 ≤ C64_RECV_MTU) (Hfits : 16 + C64_RECV_MTU + 16 ≤ MAX_DATAGRAM).
Context (Hsendto : ∀ pkt to, len pkt ≤ MAX_DATAGRAM → sendto pkt to = true).
Context (priv far_priv psk : bytes) (Hpriv : is_key priv) (Hfar : is_key far_priv) (Hpsk : is_key psk).
Implicit Types s : server N.
Implicit Types f : far N.
Implicit Types r : responder N.

Abbreviation standing := (standing send_nonce paired priv far_priv psk).
Abbreviation linked := (linked paired).
Abbreviation keyed := (keyed priv far_priv psk).
Abbreviation used := (used send_nonce).
Abbreviation take_turn := (take_turn char_to_petscii C64_RECV_MTU C64_TUNNEL_MTU sendto priv far_priv psk).
Abbreviation payload_of := (payload_of char_to_petscii C64_RECV_MTU C64_TUNNEL_MTU).
Abbreviation said_by := (said_by char_to_petscii C64_RECV_MTU C64_TUNNEL_MTU).

(** What a turn comes to. *)
Definition taken (t : turn) s (fo : option (far N)) (evs : list event) (s' : server N) (f' : far N) : Prop :=
  take_turn t s fo = Some (option_list (said_by t), evs, s', f') ∧ standing s' (Some f') ∧
  received evs = option_list (heard_by t) ∧
  r_last_timestamp (s_responder s') = stamp_after (r_last_timestamp (s_responder s)) t ∧
  used s' (Some f') ≤ used s fo + 1.

Lemma standing_session s f :
  standing s (Some f) → ∃ a, r_noise (s_responder s) = Some a ∧ paired a (f_noise f) ∧
  session (NE:=NE) (s_responder s) = Ret a (s_responder s) ∧ r_send_counter (s_responder s) = send_nonce a.
Proof.
  intros [Hinv _ Hl]. destruct (Hl f eq_refl) as [_ _ _ _ _ (a & Ha & Hp)]. exists a. split_and!; [done|done| |by apply Hinv].
  unfold session, gets. rewrite !run_bind. cbn. by rewrite Ha, (si_complete _ _ Hinv), Ha.
Qed.

(** The session goes on with other nonces. *)
Lemma standing_on s f r a b sent :
  standing s (Some f) → session_inv send_nonce r → keys_of r = keys_of (s_responder s) → r_c64_sender_idx r = Some (f_idx f) →
  r_noise r = Some a → paired a b →
  standing (Server r (s_peer_addr s) (s_active s) sent (s_state s) (s_loop_peer s)) (Some (Far b (f_idx f) (f_addr f))).
Proof.
  intros [_ Hks Hl] Hr Hk Hi Ha Hp. constructor; [done|by apply (keyed_same _ _ _ (s_responder s))|]. intros f' [= <-].
  destruct (Hl f eq_refl). constructor; cbn; [done..|by exists a].
Qed.

Lemma encrypt_runs p r a ct a' idx :
  session (NE:=NE) r = Ret a r → noise_encrypt p a = Ret ct a' → r_c64_sender_idx r = Some idx → 0 ≤ idx < 2 ^ 32 →
  0 ≤ r_send_counter r < 2 ^ 64 →
  encrypt_transport p r = Ret (type4_header idx (r_send_counter r) ++ ct)
    (set_send_counter (r_send_counter r + 1) (set_noise (Some a') r)).
Proof.
  intros Hs He Hi Hidx Hc. unfold encrypt_transport. rewrite run_bind, Hs, run_bind. unfold on_session. rewrite He.
  unfold gets, modify. rewrite !run_bind. cbn. rewrite Hi.
  rewrite (pack_run 4 _ _ (le_bytes 4 idx)) by by apply to_le_4. rewrite run_bind.
  unfold pack, to_le. change (256 ^ Z.of_nat 8) with (2 ^ 64). by rewrite decide_True.
Qed.

Lemma chat_notes line payload notes :
  chat_payload char_to_petscii C64_RECV_MTU C64_TUNNEL_MTU line = (payload, notes) →
  packets notes = [] ∧ received notes = [].
Proof. unfold chat_payload. intros Hpay. repeat case_match; simplify_eq; done. Qed.

(** A payload fits a message, and its packet a datagram. *)
Lemma chat_payload_fits line payload notes :
  chat_payload char_to_petscii C64_RECV_MTU C64_TUNNEL_MTU line = (payload, notes) →
  is_bytes payload ∧ len payload ≤ C64_RECV_MTU.
Proof.
  intros Hpay. pose proof (chat_payload_len char_to_petscii C64_RECV_MTU C64_TUNNEL_MTU line Hmtu) as Hlen.
  rewrite Hpay in Hlen. split; [|done]. unfold chat_payload in Hpay.
  pose proof (is_bytes_ascii_to_petscii char_to_petscii line) as Hb.
  case_match; injection Hpay as <- _; [by apply is_bytes_slice|done].
Qed.

(** What a line becomes: its payload, accepted by the far end. *)
Lemma says_taken line s f :
  standing s (Some f) → turn_ok (r_last_timestamp (s_responder s)) true (Says line) → used s (Some f) + 1 < 2 ^ 64 →
  ∃ evs s' f', taken (Says line) s (Some f) evs s' f'.
Proof.
  intros Hst (_ & Hne & Hq & Hq') Hroom. destruct (standing_session s f Hst) as (a & Ha & Hp & Hs & Hc).
  pose proof (st_linked _ _ _ _ _ _ _ Hst f eq_refl) as Hl. pose proof (st_inv _ _ _ _ _ _ _ Hst) as Hinv.
  pose proof (si_counter _ _ Hinv) as H0. unfold TunnelThms.used in Hroom. cbn [from_option] in Hroom.
  unfold taken. cbn [TunnelThms.take_turn mbind option_bind].
  unfold stdin_line, TunnelThms.said_by, TunnelThms.payload_of.
  set (l := rstrip _ line) in *. rewrite !bool_decide_eq_false_2 by done. cbn [orb].
  unfold send_text. destruct (chat_payload _ _ _ l) as [payload notes] eqn:Hpay. cbn [fst].
  rewrite (lk_peer _ _ _ Hl), (lk_active _ _ _ Hl).
  destruct (chat_payload_fits _ _ _ Hpay) as [Hpb Hplen].
  assert (Hroom16 : len payload + 32 ≤ MAX_DATAGRAM) by lia.
  destruct (pair_send payload a (f_noise f) Hp Hpb) as (c & a' & b' & Henc & Hdec & Hp');
    [unfold NOISE_MAX_PLAINTEXT, MAX_DATAGRAM in *; lia|lia|].
  rewrite (encrypt_runs payload (s_responder s) a c a' (f_idx f)) by (done || apply Hl || lia).
  rewrite Hsendto by (rewrite len_app, (pair_tag _ _ _ _ Henc); change (len (type4_header _ _)) with 16; lia).
  set (r' := set_send_counter _ _). destruct (chat_notes _ _ _ Hpay) as [Hn1 Hn2].
  destruct (type4_parts (f_idx f) (r_send_counter (s_responder s)) c (lk_range _ _ _ Hl) ltac:(lia)) as (Ht & _ & Hi & Hf).
  eexists _, _, (Far b' (f_idx f) (f_addr f)).
  split_and!.
  - cbn [mbind option_bind]. rewrite !packets_app, Hn1. cbn [packets omap list_omap app far_hears]. unfold far_hear.
    cbn [fst snd]. rewrite (bool_decide_eq_true_2 (f_addr f = f_addr f)), (bool_decide_eq_true_2 (slice 0 4 _ = _)) by done.
    cbn [andb]. rewrite Hi, Z.eqb_refl, Hf, Hdec. reflexivity.
  - apply (standing_on s f r' a' b' (s_sent s + 1) Hst); [|done|apply Hl|done|done].
    apply counter_inv; [done|rewrite Ha; by eexists|]. rewrite (law_encrypt _ _ _ _ Henc). lia.
  - by rewrite !received_app, Hn2.
  - done.
  - pose proof (law_decrypt (send_nonce:=send_nonce) c (f_noise f)) as Hd. rewrite Hdec in Hd.
    unfold TunnelThms.used. cbn. lia.
Qed.

(** A message of the far end is shown. *)
Lemma hears_taken header p s f :
  standing s (Some f) → turn_ok (r_last_timestamp (s_responder s)) true (Hears header p) → used s (Some f) + 1 < 2 ^ 64 →
  ∃ evs s' f', taken (Hears header p) s (Some f) evs s' f'.
Proof.
  intros Hst (_ & Hlen & Htype & Hpb & Hplen) Hroom. destruct (standing_session s f Hst) as (a & Ha & Hp & Hs & Hc).
  pose proof (st_linked _ _ _ _ _ _ _ Hst f eq_refl) as Hl. pose proof (st_inv _ _ _ _ _ _ _ Hst) as Hinv.
  unfold TunnelThms.used in Hroom. cbn [from_option] in Hroom.
  destruct (pair_send p (f_noise f) a (pair_sym _ _ Hp) Hpb) as (ct & b' & a' & Henc & Hdec & Hp');
    [unfold NOISE_MAX_PLAINTEXT, MAX_DATAGRAM in *; lia|lia|].
  pose proof (pair_tag _ _ _ _ Henc) as Htag.
  destruct header as [|h header]; [done|]. injection Htype as ->.
  assert (Hrun : decrypt_transport ((MSG_TYPE_TRANSPORT :: header) ++ ct) (s_responder s)
    = Ret p (set_noise (Some a') (s_responder s))).
  { unfold decrypt_transport. rewrite run_bind, Hs. unfold len in *. rewrite length_app.
    replace (_ <? _) with false by (symmetry; apply Z.ltb_ge; unfold T4_HDR_LEN; lia).
    rewrite run_bind. cbn. unfold on_session. unfold from, T4_HDR_LEN.
    change (drop (Z.to_nat 16) (MSG_TYPE_TRANSPORT :: header ++ ct)) with (drop 16 ((MSG_TYPE_TRANSPORT :: header) ++ ct)).
    rewrite drop_app_length' by lia. by rewrite Hdec. }
  exists (option_list (Received <$> text_of p)), (set_responder (set_noise (Some a') (s_responder s)) s),
    (Far b' (f_idx f) (f_addr f)).
  unfold taken. split_and!.
  - cbn [TunnelThms.take_turn mbind option_bind]. rewrite Henc. unfold handle_datagram. cbn [app].
    change (MSG_TYPE_TRANSPORT =? MSG_TYPE_INITIATION) with false. rewrite Z.eqb_refl, decide_True by apply Hl.
    cbn [app] in Hrun. rewrite Hrun. cbn [andb]. unfold text_of. case_bool_decide; reflexivity.
  - apply (standing_on s f (set_noise (Some a') (s_responder s)) a' b' (s_sent s) Hst); [|done|apply Hl|done|by apply pair_sym].
    apply set_noise_inv; [done|rewrite Ha; by eexists|]. rewrite Hc.
    pose proof (law_decrypt (send_nonce:=send_nonce) ct a) as Hd. rewrite Hdec in Hd. congruence.
  - unfold heard_by. by destruct (text_of p).
  - done.
  - apply law_encrypt in Henc. unfold TunnelThms.used. cbn. lia.
Qed.

(** The packet that asks for a session, taken apart. *)
Lemma initiation_parts idx msg1 :
  len msg1 = NOISE_MSG1_LEN → is_bytes msg1 → 0 ≤ idx < 2 ^ 32 →
  let p := initiation priv idx msg1 in
  is_bytes p ∧ sender_of p = idx ∧ slice T1_OFF_NOISE T1_OFF_MAC1 p = msg1 ∧
  ∀ r, keyed r → valid_initiation p r.
Proof.
  intros Hlen Hb Hidx p. set (body := [MSG_TYPE_INITIATION; 0; 0; 0] ++ le_bytes 4 idx ++ msg1).
  set (mac := compute_mac1 body (mac1_key (x25519_public priv))). change p with (body ++ mac ++ replicate 16 0).
  assert (Hmac : len mac = 16) by (unfold mac, compute_mac1, len; by rewrite Blake2s.length_digest by lia).
  assert (Hbody : len body = T1_OFF_MAC1) by (unfold body; rewrite !len_app, Hlen; unfold len; by rewrite length_le_bytes).
  assert (H4 : len (le_bytes 4 idx) = 4) by (unfold len; by rewrite length_le_bytes).
  split_and!.
  - unfold body. rewrite !is_bytes_app. split_and!; [|apply is_bytes_le_bytes|done|apply Blake2s.is_bytes_digest|].
    + by apply (bool_decide_unpack _); vm_compute.
    + by apply (bool_decide_unpack _); vm_compute.
  - unfold sender_of. transitivity (from_le (le_bytes 4 idx)).
    + by f_equal.
    + rewrite from_le_bytes. by apply Z.mod_small.
  - unfold body. rewrite <- !app_assoc, (app_assoc [_; _; _; _]).
    by apply slice_mid; rewrite ?len_app, ?H4, ?Hlen.
  - intros r Hk. split_and!.
    + rewrite !len_app, Hbody, Hmac. done.
    + done.
    + done.
    + rewrite (ky_t1 _ _ _ _ Hk). transitivity mac; [by apply slice_mid; rewrite ?Hbody, ?Hmac|].
      unfold mac. f_equal. symmetry. apply (slice_mid 0 T1_OFF_MAC1 [] body); [done|by rewrite Hbody].
Qed.

(** The answer, taken apart. *)
Lemma type2_message r my c64 msg2 :
  length my = 4%nat → length c64 = 4%nat → len msg2 = NOISE_MSG2_LEN → slice 12 60 (type2 r my c64 msg2) = msg2.
Proof.
  intros Hmy Hc64 Hmsg. unfold type2. rewrite <- app_assoc. apply slice_mid.
  - rewrite !len_app. unfold len. by rewrite Hmy, Hc64.
  - by rewrite Hmsg.
Qed.

Lemma answer_accepted r (i b : N) idx msg2 :
  keyed r → 0 ≤ idx < 2 ^ 32 → len msg2 = NOISE_MSG2_LEN → noise_finish msg2 i = Some b →
  far_accept far_priv i idx (type2 r (le_bytes 4 (r_my_sender_idx r)) (le_bytes 4 idx) msg2) = Some b.
Proof.
  intros Hk Hidx Hmsg Hf.
  destruct (type2_parts r (le_bytes 4 (r_my_sender_idx r)) (le_bytes 4 idx) msg2) as (Hl & Ht & _ & Hi & Hm & _);
    [apply length_le_bytes..|done|].
  unfold far_accept. rewrite Hl, Ht, Hi, Hm, (ky_t2 _ _ _ _ Hk), from_le_bytes, Z.mod_small by done.
  rewrite !bool_decide_eq_true_2, !Z.eqb_refl by done. cbn [andb].
  by rewrite type2_message by (done || apply length_le_bytes).
Qed.

(** A new session. *)
Lemma renews_taken from idx ts s fo :
  standing s fo → turn_ok (r_last_timestamp (s_responder s)) (bool_decide (is_Some fo)) (Renews from idx ts) →
  ∃ evs s' f', taken (Renews from idx ts) s fo evs s' f'.
Proof.
  intros [Hinv Hk _] (Hidx & Hlen & Hb & Hlater).
  destruct (pair_handshake psk far_priv priv ts Hpsk Hfar Hpriv Hlen Hb)
    as (msg1 & i & n0 & n1 & msg2 & n & b & Hinit & Hlen1 & Hb1 & Hstart & Hread & Hwrite & Hfin & Hp & H0).
  destruct (initiation_parts idx msg1 Hlen1 Hb1 Hidx) as (Hpb & Hsender & Hnoise & Hvalid).
  set (pkt := initiation priv idx msg1) in *. set (r := s_responder s) in *.
  assert (Hac : accepts pkt r n ts msg2).
  { constructor; [by apply Hvalid|done| |].
    - intros g Hg. apply Hlater. by rewrite <- (si_last _ _ Hinv).
    - exists n0, n1. by rewrite (ky_psk _ _ _ _ Hk), (ky_priv _ _ _ _ Hk), (ky_peer _ _ _ _ Hk), Hnoise. }
  destruct (commit_inv send_nonce pkt r n ts msg2 Hinv Hpb Hac) as [Hinv' Hlen2].
  pose proof (handle_initiation_accepts pkt r n ts msg2 Hac) as Hrun. rewrite Hsender in Hrun, Hinv'.
  rewrite (build_type2_run send_nonce) in Hrun by done. set (r' := commit n idx ts r) in *.
  set (resp := type2 r' _ _ msg2) in Hrun.
  assert (Hk' : keyed r') by by apply (keyed_same _ _ _ r).
  assert (Hresp : len resp ≤ MAX_DATAGRAM).
  { destruct (type2_parts r' (le_bytes 4 (r_my_sender_idx r')) (le_bytes 4 idx) msg2) as (Hl & _);
      [apply length_le_bytes..|done|].
    change (len (type2 r' (le_bytes 4 (r_my_sender_idx r')) (le_bytes 4 idx) msg2) ≤ MAX_DATAGRAM). by rewrite Hl. }
  exists [Datagram resp from; SessionUp from], (Server r' (Some from) true (s_sent s) ACTIVE (Some from)), (Far b idx from).
  unfold taken. split_and!.
  - cbn [TunnelThms.take_turn mbind option_bind]. rewrite Hinit. cbn [mbind option_bind].
    assert (Hh : handle_datagram sendto true pkt from s
      = Ret [Datagram resp from; SessionUp from] (Server r' (Some from) true (s_sent s) ACTIVE (Some from))).
    { assert (Hcons : ∃ t, pkt = MSG_TYPE_INITIATION :: t) by (by eexists). destruct Hcons as [t Ht].
      clearbody pkt. subst pkt. unfold handle_datagram. rewrite Z.eqb_refl. fold r. rewrite Hrun. cbn. by rewrite Hsendto. }
    fold pkt. rewrite Hh. cbn [packets omap list_omap]. rewrite bool_decide_eq_true_2 by done.
    change resp with (type2 r' (le_bytes 4 (r_my_sender_idx r')) (le_bytes 4 idx) msg2).
    by rewrite (answer_accepted r' i b idx msg2).
  - constructor; [done|done|]. intros f [= <-]. constructor; cbn; [done..|by exists n].
  - done.
  - done.
  - unfold TunnelThms.used. cbn. rewrite H0. pose proof (si_counter _ _ Hinv). fold r. lia.
Qed.

Lemma turn_taken t s fo :
  standing s fo → turn_ok (r_last_timestamp (s_responder s)) (bool_decide (is_Some fo)) t → used s fo + 1 < 2 ^ 64 →
  ∃ evs s' f', taken t s fo evs s' f'.
Proof.
  intros Hst Hok Hroom. destruct t as [line|header p|from idx ts]; [| |by apply renews_taken].
  - destruct fo as [f|]; [by apply says_taken|by destruct Hok].
  - destruct fo as [f|]; [by apply hears_taken|by destruct Hok].
Qed.

Lemma tunnel_taken turns s fo :
  standing s fo → script (r_last_timestamp (s_responder s)) (bool_decide (is_Some fo)) turns →
  used s fo + len turns < 2 ^ 64 →
  ∃ evs s' fo', tunnel char_to_petscii C64_RECV_MTU C64_TUNNEL_MTU sendto priv far_priv psk turns s fo
    = Some (omap said_by turns, evs, s', fo') ∧ standing s' fo' ∧ received evs = omap heard_by turns.
Proof.
  revert s fo. induction turns as [|t turns IH]; intros s fo Hst Hok Hroom; [by exists [], s, fo|].
  destruct Hok as [Ht Hok]. rewrite len_cons in Hroom. pose proof (len_nonneg turns).
  destruct (turn_taken t s fo Hst Ht) as (evs & s' & f' & Hrun & Hst' & Hrec & Hlast & Hused); [lia|].
  destruct (IH s' (Some f') Hst') as (evss & s'' & fo'' & Hruns & Hst'' & Hrecs); [by rewrite Hlast|lia|].
  exists (evs ++ evss), s'', fo''. split_and!; [|done|].
  - cbn [tunnel]. rewrite Hrun. cbn [mbind option_bind]. rewrite Hruns. cbn [mbind option_bind omap list_omap].
    by destruct (said_by t).
  - rewrite received_app, Hrec, Hrecs. cbn [omap list_omap]. by destruct (heard_by t).
Qed.
End in_order.

(** *** A package whose messages carry their number *)

#[local] Instance numbered_noise : NoiseLib (Z * Z) unit := {|
  noise_start _ _ _ _ _ := Ok (0, 0);
  noise_read_message p := λ n, Ret (take 12 p) (0, 0);
  noise_write_message p := λ n, Ret (replicate 48 0) (0, 0);
  noise_encrypt p := λ n, Ret (p ++ replicate 16 n.1) (n.1 + 1, n.2);
  noise_decrypt c := λ n,
    if bool_decide (drop (length c - 16) c = replicate 16 n.2)
    then Ret (take (length c - 16) c) (n.1, n.2 + 1) else Raise tt n;
  noise_value_error _ := false;
  x25519_public k := k;
|}.
#[local] Instance numbered_initiator : NoiseInitiator (Z * Z) := {|
  noise_initiate _ _ _ _ _ ts := Some (ts ++ replicate 96 0, (0, 0));
  noise_finish _ i := Some i;
|}.
#[local] Instance numbered_laws : NoiseLaws (Z * Z) unit fst.
Proof.
  split; cbn.
  - by intros _ _ _ _ _ n0 p ts n1 msg n2 [= <-] [= <- <-] [= <- <-].
  - by intros p n c n' [= <- <-].
  - done.
  - intros c n. by case_bool_decide.
Qed.
Definition crossed (a b : Z * Z) : Prop := a.1 = b.2 ∧ a.2 = b.1.
#[local] Instance numbered_pair : NoisePair (Z * Z) unit fst crossed.
Proof.
  split; cbn -[replicate].
  - unfold crossed. intros a b []. done.
  - intros p [s r] [s' r'] [-> ->] _ _ _. cbn [fst snd]. eexists _, _, (s', r' + 1). split; [reflexivity|].
    assert (Hl : (length (p ++ replicate 16 r') - 16)%nat = length p) by (rewrite length_app; cbn; lia).
    rewrite Hl, drop_app_length, take_app_length, bool_decide_eq_true_2 by done. done.
  - intros p n c n' [= <- _]. unfold len. rewrite length_app. cbn. lia.
  - intros psk a b ts _ _ _ Hts Hb. unfold len in Hts.
    exists (ts ++ replicate 96 0), (0, 0), (0, 0), (0, 0), (replicate 48 0), (0, 0), (0, 0). split_and!; try done.
    + unfold len, NOISE_MSG1_LEN. rewrite length_app, length_replicate. lia.
    + apply is_bytes_app. split; [done|]. by apply (bool_decide_unpack _); vm_compute.
    + by rewrite take_app_length' by lia.
Qed.

Definition tunnel_responder : responder (Z * Z) :=
  match new_responder (replicate 32 1) (replicate 32 2) None [7; 0; 0; 0] with
  | Ok r => r
  | Err _ => Responder [] [] [] [] [] [] None None 0 0 ∅ None false
  end.
(** The session is renewed, from another address, between a message and a line. *)
Definition tunnel_turns : list turn :=
  [Renews ("10.0.0.2", 51820) 9 (WgResponder.ts_at 5); Says [72; 73];
   Hears ([4; 0; 0; 0] ++ replicate 12 0) [79; 75];
   Renews ("10.0.0.3", 51821) 10 (WgResponder.ts_at 6); Says [66; 89; 69; 10]].

Lemma tunnel_script : script None false tunnel_turns.
Proof.
  unfold tunnel_turns. cbn [script turn_ok stamp_after].
  split_and!; try done; try (by apply (bool_decide_unpack _); vm_compute); try (by vm_compute).
  - intros t [= <-]. by vm_compute.
Qed.

Module Tunnel.
(** C26. The tunnel carries both directions in order, across renewals.  A server whose responder has the keys of
    both ends, new or with a session in step, takes any script in which the far end asks for a session,
    from whatever address and with later timestamps, before it is used and as often as it likes, and in
    which lines are typed and messages of the far end arrive (whatever index and counter their headers carry,
    which the responder does not look at), on a network that loses no datagram: the far end accepts every
    answer to its handshakes and every packet, which come to the address it asked from and for its
    current index; the packets yield the payloads of the lines, one for each line and each cut to the
    receive ceiling, which a datagram has to hold; the server shows the texts of the messages, one for
    each message that fits a datagram and has a text; both in order; and the session is still in step
    afterwards, up to 2^64 packets.  All keys have 32 bytes. *)
Theorem tunnel_in_order {N NE} `{Lib : NoiseLib N NE, Init : NoiseInitiator N} (send_nonce : N → Z)
    (paired : N → N → Prop) `{!NoiseLaws N NE send_nonce, !NoisePair N NE send_nonce paired}
    char_to_petscii C64_RECV_MTU C64_TUNNEL_MTU sendto priv far_priv psk turns (s : server N) (fo : option (far N)) :
  0 ≤ C64_RECV_MTU → 16 + C64_RECV_MTU + 16 ≤ MAX_DATAGRAM →
  (∀ pkt to, len pkt ≤ MAX_DATAGRAM → sendto pkt to = true) → is_key priv → is_key far_priv → is_key psk →
  standing send_nonce paired priv far_priv psk s fo →
  script (r_last_timestamp (s_responder s)) (bool_decide (is_Some fo)) turns →
  used send_nonce s fo + len turns < 2 ^ 64 →
  ∃ evs s' fo',
    tunnel char_to_petscii C64_RECV_MTU C64_TUNNEL_MTU sendto priv far_priv psk turns s fo
      = Some (omap (said_by char_to_petscii C64_RECV_MTU C64_TUNNEL_MTU) turns, evs, s', fo') ∧
    standing send_nonce paired priv far_priv psk s' fo' ∧ received evs = omap heard_by turns.
Proof. intros. by apply tunnel_taken. Qed.

Lemma tunnel_in_order_witness :
  ∃ evs s' fo', tunnel (λ c, Some c) 100 100 (λ _ _, true) (replicate 32 1) (replicate 32 2) (replicate 32 0)
      tunnel_turns (new_server tunnel_responder) None
    = Some ([[72; 73]; [66; 89; 69]], evs, s', fo') ∧ received evs = [[79; 75]].
Proof.
  destruct (standing_new fst crossed (replicate 32 1) (replicate 32 2) (replicate 32 0) None [7; 0; 0; 0] tunnel_responder)
    as (Hst & Hlast & Hused); [by vm_compute|done|by apply (bool_decide_unpack _); vm_compute|done|].
  destruct (tunnel_in_order fst crossed (λ c, Some c) 100 100 (λ _ _, true) (replicate 32 1) (replicate 32 2)
    (replicate 32 0) tunnel_turns (new_server tunnel_responder) None) as (evs & s' & fo' & Ht & _ & Hr).
  - lia.
  - vm_compute. discriminate.
  - intros pkt to _. reflexivity.
  - apply (bool_decide_unpack _). vm_compute. exact I.
  - apply (bool_decide_unpack _). vm_compute. exact I.
  - apply (bool_decide_unpack _). vm_compute. exact I.
  - exact Hst.
  - change (r_last_timestamp (s_responder (new_server tunnel_responder))) with (r_last_timestamp tunnel_responder).
    rewrite Hlast. exact tunnel_script.
  - rewrite Hused. vm_compute. reflexivity.
  - exists evs, s', fo'. split; [exact Ht|exact Hr].
Defined.
End Tunnel.
