(* ===== verification/Verdict.v ===== *)
(** * Verdicts (tools/ip65_hw_checks.py, [Verdict])

    The three-state verdict and its construction rules, the values its evidence holds, and the
    formatting of addresses.  A reason is kept as a tag, one per [return] of the source, with
    the values its text interpolates. *)

From Stdlib Require Export SpecFloat.
From S2P Require Export PyStr.

(** Python values in an evidence dictionary; a [float] is a binary64, and
    [round(f, digits)] is left as it stands. *)
#[warnings="-register-all"]
Inductive pv :=
| PNone
| PBool (b : bool)
| PInt (z : Z)
| PStr (s : string)
| PBytes (l : bytes)
| PFloat (f : spec_float)
| PRound (f : spec_float) (digits : Z)
| PList (l : list pv)
| PDict (l : list (string * pv)).

Abbreviation dict := (list (string * pv)).

Definition of_opt {A} (f : A → pv) (o : option A) : pv := from_option f PNone o.

(** The tag of a reason and what its text interpolates. *)
Definition reason : Type := string * list pv.

Inductive vstatus := Passed | Failed | Inconclusive.
#[export] Instance vstatus_eq_dec : EqDecision vstatus.
Proof. solve_decision. Defined.

Definition status_name (s : vstatus) : string :=
  match s with Passed => "pass" | Failed => "fail" | Inconclusive => "inconclusive" end.

Record verdict := Verdict {
  v_ok : bool;
  v_reason : reason;
  v_evidence : dict;
  v_status : vstatus;
}.

(** The constructor with [__post_init__], the status being a string, empty when not given;
    [None] is the [ValueError] that refuses the combination. *)
Definition status_of_name (s : string) : option vstatus :=
  if bool_decide (s = "pass") then Some Passed
  else if bool_decide (s = "fail") then Some Failed
  else if bool_decide (s = "inconclusive") then Some Inconclusive
  else None.

Definition make_verdict (ok : bool) (r : reason) (ev : dict) (status : string) :
    option verdict :=
  let status := if bool_decide (status = "") then (if ok then "pass" else "fail") else status in
  st ← status_of_name status;
  if negb (bool_decide (status = "pass")) && ok then None
  else if bool_decide (status = "pass") && negb ok then None
  else Some (Verdict ok r ev st).

Definition v_inconclusive (v : verdict) : bool := bool_decide (v_status v = Inconclusive).
(** [__bool__] *)
Definition v_bool (v : verdict) : bool := v_ok v.

(** The three forms the checks construct. *)
Definition passed (r : reason) (ev : dict) : verdict := Verdict true r ev Passed.
Definition failed (r : reason) (ev : dict) : verdict := Verdict false r ev Failed.
Definition inconclusive (r : reason) (ev : dict) : verdict := Verdict false r ev Inconclusive.

Lemma make_passed r ev : make_verdict true r ev "" = Some (passed r ev).
Proof. done. Qed.
Lemma make_failed r ev : make_verdict false r ev "" = Some (failed r ev).
Proof. done. Qed.
Lemma make_inconclusive r ev : make_verdict false r ev "inconclusive" = Some (inconclusive r ev).
Proof. done. Qed.

(** What every verdict that was constructed satisfies. *)
Definition v_sound (v : verdict) : Prop := v_ok v = true ↔ v_status v = Passed.

Lemma status_of_name_name s st : status_of_name s = Some st ↔ s = status_name st.
Proof.
  unfold status_of_name. split.
  - repeat case_bool_decide; intros [= <-]; done.
  - intros ->. by destruct st.
Qed.

(** The rig addresses, as text. *)
Definition fmt_mac (mac : bytes) : string := join ":" (hex_pad false 2 <$> mac).
Definition fmt_ip (ip : bytes) : string := join "." (dec <$> ip).

Example fmt_mac_ex : fmt_mac [0; 14; 58; 100; 100; 100] = "00:0e:3a:64:64:64".
Proof. by vm_compute. Qed.
Example fmt_ip_ex : fmt_ip [10; 0; 66; 200] = "10.0.66.200".
Proof. by vm_compute. Qed.

Module Verdicts.
(** A verdict can only be constructed if it reads as ok exactly when its status is pass,
    so anything inconclusive or unknown fails closed; the status defaults to the one [ok]
    says, and any other string is refused. *)
Theorem make_verdict_spec ok r ev status :
  match make_verdict ok r ev status with
  | Some v => v_sound v ∧ v_ok v = ok ∧ v_reason v = r ∧ v_evidence v = ev ∧
              (status = "" ∨ status = status_name (v_status v))
  | None => status ≠ "" ∧ ((∀ st, status ≠ status_name st) ∨ (ok = true ↔ status ≠ "pass"))
  end.
Proof.
  destruct (decide (status = "")) as [->|He].
  { destruct ok; vm_compute; repeat split; auto; discriminate. }
  unfold make_verdict. rewrite (bool_decide_eq_false_2 (status = "")) by done.
  destruct (status_of_name status) as [st|] eqn:Hst; cbn.
  - apply status_of_name_name in Hst as ->. unfold v_sound.
    destruct st, ok; vm_compute; repeat split; auto; try discriminate;
      right; split; (done || discriminate).
  - split; [done|]. left. intros st ->. by destruct st.
Qed.
End Verdicts.
