(* ===== verification/Pcap.v ===== *)
(** * The capture decoder (tools/ip65_hw_checks.py, [parse_pcap])

    Classic pcap files, Ethernet frames with IPv4, UDP, ICMP echo and ARP, keeping the
    Ethernet header. *)

From S2P Require Export Verdict.

Definition ETHERTYPE_IPV4 : Z := 0x0800.
Definition ETHERTYPE_ARP : Z := 0x0806.
Definition IPPROTO_ICMP : Z := 1.
Definition IPPROTO_UDP : Z := 17.
Definition ICMP_ECHO_REQUEST : Z := 8.
Definition ICMP_ECHO_REPLY : Z := 0.
Definition ARP_REQUEST : Z := 1.
Definition ARP_REPLY : Z := 2.

(** ** Frames *)

Record frame := Frame {
  f_index : Z;
  f_ts : spec_float;
  f_eth_src : bytes;
  f_eth_dst : bytes;
  f_ethertype : Z;
  f_raw : bytes;
  f_ip_src : option bytes;
  f_ip_dst : option bytes;
  f_ip_proto : option Z;
  f_ip_id : option Z;
  f_frag_off : option Z;
  f_more_frags : bool;
  f_ip_payload : bytes;
  f_sport : option Z;
  f_dport : option Z;
  f_udp_payload : bytes;
  f_icmp_type : option Z;
  f_icmp_id : option Z;
  f_icmp_seq : option Z;
  f_icmp_data : bytes;
  f_arp_op : option Z;
  f_arp_sender_mac : option bytes;
  f_arp_sender_ip : option bytes;
  f_arp_target_ip : option bytes;
}.

Definition is_first_fragment (f : frame) : bool := bool_decide (f_frag_off f = Some 0).
Definition is_fragmented (f : frame) : bool :=
  f_more_frags f || truthy (default 0 (f_frag_off f)).

(** The IPv4 fields, the transport fields and the ARP fields of a frame. *)
Definition net_part : Type :=
  option bytes * option bytes * option Z * option Z * option Z * bool * bytes.
Definition transport_part : Type :=
  option Z * option Z * bytes * option Z * option Z * option Z * bytes.
Definition arp_part : Type := option Z * option bytes * option bytes * option bytes.

Definition no_net : net_part := (None, None, None, None, None, false, []).
Definition no_transport : transport_part := (None, None, [], None, None, None, []).
Definition no_arp : arp_part := (None, None, None, None).

Definition build_frame (index : Z) (ts : spec_float) (src dst : bytes) (etype : Z)
    (raw : bytes) (n : net_part) (t : transport_part) (a : arp_part) : frame :=
  let '(ip_src, ip_dst, proto, id, off, mf, payload) := n in
  let '(sport, dport, udp, ity, iid, iseq, idata) := t in
  let '(op, smac, sip, tip) := a in
  Frame index ts src dst etype raw ip_src ip_dst proto id off mf payload
    sport dport udp ity iid iseq idata op smac sip tip.

Definition decode_arp (raw : bytes) : arp_part :=
  let body := from 14 raw in
  if len body <? 28 then no_arp else
  let htype := from_be (slice 0 2 body) in
  let ptype := from_be (slice 2 4 body) in
  let hlen := byte_at body 4 in
  let plen := byte_at body 5 in
  let op := from_be (slice 6 8 body) in
  if negb ((htype =? 1) && (ptype =? ETHERTYPE_IPV4) && (hlen =? 6) && (plen =? 4))
  then no_arp
  else (Some op, Some (slice 8 14 body), Some (slice 14 18 body), Some (slice 24 28 body)).

(** The transport header of an IP payload. *)
Definition decode_transport (proto off : Z) (payload : bytes) : transport_part :=
  if (proto =? IPPROTO_UDP) && (off =? 0) && (8 <=? len payload) then
    let ulen := from_be (slice 4 6 payload) in
    (Some (from_be (slice 0 2 payload)), Some (from_be (slice 2 4 payload)),
     slice 8 (8 + Z.max 0 (ulen - 8)) payload, None, None, None, [])
  else if (proto =? IPPROTO_ICMP) && (off =? 0) && (8 <=? len payload) then
    let ty := byte_at payload 0 in
    if (ty =? ICMP_ECHO_REQUEST) || (ty =? ICMP_ECHO_REPLY)
    then (None, None, [], Some ty, Some (from_be (slice 4 6 payload)),
          Some (from_be (slice 6 8 payload)), from 8 payload)
    else (None, None, [], Some ty, None, None, [])
  else no_transport.

(** The IP header of the body of an Ethernet frame; [None] leaves the frame undecoded. *)
Definition decode_ip (body : bytes) : option (net_part * transport_part) :=
  if len body <? 20 then None else
  let ihl := Z.land (byte_at body 0) 0x0F * 4 in
  if (ihl <? 20) || (len body <? ihl) then None else
  let total := from_be (slice 2 4 body) in
  let body := if (20 <=? total) && (total <=? len body) then slice 0 total body else body in
  let flags_frag := from_be (slice 6 8 body) in
  let off := Z.land flags_frag 0x1FFF * 8 in
  let proto := byte_at body 9 in
  let payload := from ihl body in
  Some ((Some (slice 12 16 body), Some (slice 16 20 body), Some proto,
         Some (from_be (slice 4 6 body)), Some off, truthy (Z.land flags_frag 0x2000), payload),
        decode_transport proto off payload).

(** The ethertype and the body behind the header, one 802.1Q tag unwrapped. *)
Definition ethertype_body (raw : bytes) : Z * bytes :=
  let etype := from_be (slice 12 14 raw) in
  let body := from 14 raw in
  if (etype =? 0x8100) && (4 <=? len body)
  then (from_be (slice 2 4 body), from 4 body) else (etype, body).

Definition decode_frame (index : Z) (ts : spec_float) (raw : bytes) : option frame :=
  if len raw <? 14 then None else
  let dst := slice 0 6 raw in
  let src := slice 6 12 raw in
  let '(etype, body) := ethertype_body raw in
  Some (
    if etype =? ETHERTYPE_ARP
    then build_frame index ts src dst etype raw no_net no_transport (decode_arp raw)
    else if etype =? ETHERTYPE_IPV4 then
      match decode_ip body with
      | Some (n, t) => build_frame index ts src dst etype raw n t no_arp
      | None => build_frame index ts src dst etype raw no_net no_transport no_arp
      end
    else build_frame index ts src dst etype raw no_net no_transport no_arp).

(** ** Files *)

Inductive pcap_error :=
| ShortHeader (n : Z)
| BadMagic (magic : bytes)
| BadLinkType (n : Z)
| HugeRecord (idx incl : Z)
| ClippedRecord (idx incl orig : Z).

Inductive endian := Little | Big.
Definition unpack (e : endian) (l : bytes) : Z :=
  match e with Little => from_le l | Big => from_be l end.

Definition PCAP_MAGICS : list (bytes * (endian * Z)) :=
  [([0xd4; 0xc3; 0xb2; 0xa1], (Little, 1000000));
   ([0x4d; 0x3c; 0xb2; 0xa1], (Little, 1000000000));
   ([0xa1; 0xb2; 0xc3; 0xd4], (Big, 1000000));
   ([0xa1; 0xb2; 0x3c; 0x4d], (Big, 1000000000))].

(** The first value a key is bound to. *)
Definition assoc {K V} `{EqDecision K} (k : K) (l : list (K * V)) : option V :=
  snd <$> List.find (λ p, bool_decide (p.1 = k)) l.

Definition MAX_RECORD : Z := 262144.

(** Binary64 arithmetic, as CPython's [float] does it. *)
Definition float_of_Z (z : Z) : spec_float := binary_normalize 53 1024 z 0 false.
Definition fadd (x y : spec_float) : spec_float := SFadd 53 1024 x y.
Definition fsub (x y : spec_float) : spec_float := SFsub 53 1024 x y.
Definition fmul (x y : spec_float) : spec_float := SFmul 53 1024 x y.
Definition fdiv (x y : spec_float) : spec_float := SFdiv 53 1024 x y.
Definition fle (x y : spec_float) : bool := SFleb x y.
Definition flt (x y : spec_float) : bool := SFltb x y.

(** [sec + frac / ts_div] *)
Definition timestamp (ts_div sec frac : Z) : spec_float :=
  fadd (float_of_Z sec) (fdiv (float_of_Z frac) (float_of_Z ts_div)).

(** The loop over the records behind the file header; the fuel bounds their number. *)
Fixpoint parse_records (fuel : nat) (e : endian) (ts_div : Z) (strict : bool)
    (data : bytes) (idx : Z) : res pcap_error (list frame) :=
  match fuel with
  | O => Ok []
  | S fuel =>
      if len data <? 16 then Ok [] else
      let sec := unpack e (slice 0 4 data) in
      let frac := unpack e (slice 4 8 data) in
      let incl := unpack e (slice 8 12 data) in
      let orig := unpack e (slice 12 16 data) in
      let data := from 16 data in
      if MAX_RECORD <? incl then Err (HugeRecord idx incl) else
      if len data <? incl then Ok [] else
      let raw := slice 0 incl data in
      let data := from incl data in
      if (incl <? orig) && strict then Err (ClippedRecord idx incl orig) else
      frames ← parse_records fuel e ts_div strict data (idx + 1);
      Ok (option_list (decode_frame idx (timestamp ts_div sec frac) raw) ++ frames)
  end.

Definition parse_pcap (data : bytes) (strict : bool) : res pcap_error (list frame) :=
  if len data <? 24 then Err (ShortHeader (len data)) else
  let magic := slice 0 4 data in
  match assoc magic PCAP_MAGICS with
  | None => Err (BadMagic magic)
  | Some (e, ts_div) =>
      let linktype := unpack e (slice 20 24 data) in
      if negb (linktype =? 1) && strict then Err (BadLinkType linktype)
      else parse_records (S (length data)) e ts_div strict (from 24 data) 0
  end.
