(* ===== verification/PcapThms.v ===== *)
(** * The capture decoder: the properties

    What a decoded frame guarantees, and that parsing inverts writing a capture, whatever the
    byte order and however the file is cut short. *)

From S2P Require Export Pcap.

(** ** Decoded frames *)

Record frame_wf (f : frame) : Prop := FrameWf {
  fw_src : f_eth_src f = slice 6 12 (f_raw f);
  fw_dst : f_eth_dst f = slice 0 6 (f_raw f);
  fw_macs : len (f_eth_src f) = 6 ∧ len (f_eth_dst f) = 6;
  fw_bytes : is_bytes (f_raw f) ∧ is_bytes (f_ip_payload f);
  fw_ip : match f_ip_proto f, f_frag_off f with
          | Some p, Some off => byte p ∧ 0 ≤ off ≤ 65528 ∧ off mod 8 = 0
          | None, None => f_ip_payload f = [] ∧ f_more_frags f = false
          | _, _ => False
          end;
  fw_ipv4 : is_Some (f_ip_proto f) → f_ethertype f = ETHERTYPE_IPV4;
  fw_addrs : is_Some (f_ip_proto f) →
             ∃ s d, f_ip_src f = Some s ∧ f_ip_dst f = Some d ∧ len s = 4 ∧ len d = 4;
  fw_inside : ∃ l k, f_raw f = l ++ f_ip_payload f ++ k;
  fw_ports : is_Some (f_sport f) → f_ip_proto f = Some IPPROTO_UDP ∧ f_frag_off f = Some 0;
  fw_icmp : is_Some (f_icmp_type f) → f_ip_proto f = Some IPPROTO_ICMP ∧ f_frag_off f = Some 0;
}.

Lemma from_be_word l : is_bytes l → len l = 2 → word16 (from_be l).
Proof. intros Hb Hl. pose proof (from_be_bound l Hb) as Hr. rewrite Hl in Hr. exact Hr. Qed.

Lemma byte_at_byte l i : is_bytes l → byte (byte_at l i).
Proof.
  intros Hb. unfold byte_at. destruct (l !! i) as [b|] eqn:Hl; [|done].
  by apply (Forall_lookup_1 _ _ _ _ Hb Hl).
Qed.

Lemma frag_off_range w : word16 w → 0 ≤ Z.land w 0x1FFF * 8 ≤ 65528 ∧ (Z.land w 0x1FFF * 8) mod 8 = 0.
Proof.
  intros Hw. change 0x1FFF with (Z.ones 13). rewrite Z.land_ones by lia.
  pose proof (Z.mod_pos_bound w (2 ^ 13) ltac:(lia)). split; [lia|by apply Z_mod_mult].
Qed.

(** A slice or suffix of a list stands in it. *)
Lemma slice_inside {A} a b (l : list A) : ∃ p k, l = p ++ slice a b l ++ k.
Proof.
  unfold slice. exists (take (Z.to_nat a) l), (drop (Z.to_nat (b - a)) (drop (Z.to_nat a) l)).
  by rewrite !take_drop.
Qed.
Lemma from_inside {A} a (l : list A) : ∃ p k, l = p ++ from a l ++ k.
Proof. unfold from. exists (take (Z.to_nat a) l), []. by rewrite app_nil_r, take_drop. Qed.
Lemma inside_trans {A} (a b c : list A) :
  (∃ p k, c = p ++ b ++ k) → (∃ p k, b = p ++ a ++ k) → ∃ p k, c = p ++ a ++ k.
Proof. intros (p & k & ->) (q & j & ->). exists (p ++ q), (j ++ k). by rewrite <- !app_assoc. Qed.

Lemma decode_transport_spec proto off payload :
  let '(sport, dport, udp, ity, iid, iseq, idata) := decode_transport proto off payload in
  (is_Some sport → proto = IPPROTO_UDP ∧ off = 0) ∧
  (is_Some ity → proto = IPPROTO_ICMP ∧ off = 0).
Proof.
  unfold decode_transport.
  destruct (_ && _) eqn:Hu.
  { apply andb_true_iff in Hu as [[Hp%Z.eqb_eq Ho%Z.eqb_eq]%andb_true_iff _].
    split; [done|by intros [? ?]]. }
  destruct ((proto =? IPPROTO_ICMP) && _ && _) eqn:Hi; [|by split; intros [? ?]].
  apply andb_true_iff in Hi as [[Hp%Z.eqb_eq Ho%Z.eqb_eq]%andb_true_iff _].
  destruct (_ || _); (split; [by intros [? ?]|done]).
Qed.

Lemma decode_ip_spec body n t :
  is_bytes body → decode_ip body = Some (n, t) →
  let '(ip_src, ip_dst, proto, id, off, mf, payload) := n in
  (∃ s d, ip_src = Some s ∧ ip_dst = Some d ∧ len s = 4 ∧ len d = 4) ∧
  (∃ p o, proto = Some p ∧ off = Some o ∧ byte p ∧ 0 ≤ o ≤ 65528 ∧ o mod 8 = 0 ∧
     t = decode_transport p o payload) ∧
  is_bytes payload ∧ ∃ l k, body = l ++ payload ++ k.
Proof.
  intros Hb. unfold decode_ip. destruct (Z.ltb_spec (len body) 20); [done|].
  set (ihl := Z.land (byte_at body 0) 15 * 4).
  destruct (Z.ltb_spec ihl 20); cbn; [done|]. destruct (Z.ltb_spec (len body) ihl); [done|].
  set (total := from_be (slice 2 4 body)).
  set (body' := if _ && _ then _ else _). intros [= <- <-].
  assert (Hb' : is_bytes body' ∧ 20 ≤ len body' ∧ ∃ l k, body = l ++ body' ++ k).
  { unfold body'. destruct (Z.leb_spec 20 total), (Z.leb_spec total (len body)); cbn;
      try (split_and!; [done|lia|]; exists [], []; by rewrite app_nil_r).
    split_and!; [by apply is_bytes_slice|rewrite len_slice; lia|apply slice_inside]. }
  destruct Hb' as (Hbytes & Hlen & Hin). split_and!.
  - eexists _, _. split_and!; [done|done|rewrite len_slice; lia..].
  - destruct (frag_off_range (from_be (slice 6 8 body'))) as [? ?].
    { apply from_be_word; [by apply is_bytes_slice|rewrite len_slice; lia]. }
    eexists _, _. split_and!; try done; [apply byte_at_byte; done..|lia|lia].
  - by apply is_bytes_from.
  - eapply inside_trans; [exact Hin|apply from_inside].
Qed.

Lemma ethertype_body_spec raw :
  is_bytes raw → is_bytes (ethertype_body raw).2 ∧ ∃ l k, raw = l ++ (ethertype_body raw).2 ++ k.
Proof.
  intros Hb. unfold ethertype_body. destruct (_ && _); cbn; split;
    try (repeat apply is_bytes_from; done); try apply from_inside.
  eapply inside_trans; [apply (from_inside 14)|apply from_inside].
Qed.

Lemma decode_frame_wf index ts raw f :
  is_bytes raw → decode_frame index ts raw = Some f →
  frame_wf f ∧ f_index f = index ∧ f_ts f = ts ∧ f_raw f = raw.
Proof.
  intros Hb. unfold decode_frame. destruct (Z.ltb_spec (len raw) 14); [done|].
  pose proof (ethertype_body_spec raw Hb) as Hbody.
  destruct (ethertype_body raw) as [etype body]. cbn in Hbody. intros [= <-].
  assert (Hmacs : len (slice 6 12 raw) = 6 ∧ len (slice 0 6 raw) = 6)
    by (rewrite !len_slice; lia).
  assert (Hnil : ∃ l k, raw = l ++ [] ++ k) by by exists raw, []; rewrite app_nil_r.
  assert (Hplain : ∀ a, frame_wf (build_frame index ts (slice 6 12 raw) (slice 0 6 raw) etype
    raw no_net no_transport a) ∧ f_index (build_frame index ts (slice 6 12 raw) (slice 0 6 raw)
    etype raw no_net no_transport a) = index ∧ f_ts (build_frame index ts (slice 6 12 raw)
    (slice 0 6 raw) etype raw no_net no_transport a) = ts ∧ f_raw (build_frame index ts
    (slice 6 12 raw) (slice 0 6 raw) etype raw no_net no_transport a) = raw).
  { intros [[[op sm] si] ti]. split; [|done].
    constructor; cbn; try done; try (by intros [? ?]). by split; [|constructor]. }
  destruct (etype =? ETHERTYPE_ARP); [apply Hplain|].
  destruct (Z.eqb_spec etype ETHERTYPE_IPV4) as [->|]; [|exact (Hplain no_arp)].
  destruct (decode_ip body) as [[n t]|] eqn:Hip; [|exact (Hplain no_arp)].
  apply decode_ip_spec in Hip; [|apply Hbody].
  destruct n as [[[[[[src dst] proto] id] off] mf] payload].
  destruct Hip as (Haddr & (p & o & -> & -> & Hp & Ho & Hmod & ->) & Hpay & Hin).
  pose proof (decode_transport_spec p o payload) as Ht.
  destruct (decode_transport p o payload) as [[[[[[sp dp] udp] ity] iid] iseq] idata].
  destruct Ht as [Hports Hicmp].
  split; [|done]. constructor; cbn; try done.
  - eapply inside_trans; [apply Hbody|done].
  - intros [-> ->]%Hports. done.
  - intros [-> ->]%Hicmp. done.
Qed.

(** ** Files *)

Definition pack_word (e : endian) (z : Z) : bytes :=
  match e with Little => le_bytes 4 z | Big => rev (le_bytes 4 z) end.

(** A record of a capture file: time stamp, length on the wire, captured bytes. *)
Record rec := Rec { rec_sec : Z; rec_frac : Z; rec_orig : Z; rec_raw : bytes }.

Definition encode_record (e : endian) (r : rec) : bytes :=
  (pack_word e (rec_sec r) ++ pack_word e (rec_frac r) ++ pack_word e (len (rec_raw r))
    ++ pack_word e (rec_orig r)) ++ rec_raw r.

Definition word32 (z : Z) : Prop := 0 ≤ z < 2 ^ 32.

Record rec_ok (strict : bool) (r : rec) : Prop := RecOk {
  ro_sec : word32 (rec_sec r);
  ro_frac : word32 (rec_frac r);
  ro_orig : word32 (rec_orig r);
  ro_len : len (rec_raw r) ≤ MAX_RECORD;
  ro_whole : strict = true → rec_orig r ≤ len (rec_raw r);
}.

(** What a capture cut off in the middle of a record ends with. *)
Definition cut_off (e : endian) (tail : bytes) : Prop :=
  len tail < 16 ∨
  16 ≤ len tail ∧ unpack e (slice 8 12 tail) ≤ MAX_RECORD ∧
  len tail - 16 < unpack e (slice 8 12 tail).

Lemma unpack_pack e z : word32 z → unpack e (pack_word e z) = z.
Proof.
  intros Hz. destruct e; unfold unpack, pack_word, from_be; rewrite ?rev_involutive, from_le_bytes;
    by apply Z.mod_small.
Qed.

Lemma record_header e s f i o raw :
  let d := (pack_word e s ++ pack_word e f ++ pack_word e i ++ pack_word e o) ++ raw in
  len d = 16 + len raw ∧ slice 0 4 d = pack_word e s ∧ slice 4 8 d = pack_word e f ∧
  slice 8 12 d = pack_word e i ∧ slice 12 16 d = pack_word e o ∧ from 16 d = raw.
Proof. destruct e; cbv zeta; (split; [|done]); rewrite !len_app; done. Qed.

Lemma slice_app_exact {A} (l k : list A) : slice 0 (len l) (l ++ k) = l.
Proof.
  unfold slice, len. rewrite drop_0, take_app_length'; [done|lia].
Qed.
Lemma from_app_exact {A} (l k : list A) : from (len l) (l ++ k) = k.
Proof. unfold from, len. rewrite drop_app_length'; [done|lia]. Qed.

Lemma concat_records e r recs tail :
  concat (encode_record e <$> r :: recs) ++ tail
  = (pack_word e (rec_sec r) ++ pack_word e (rec_frac r) ++ pack_word e (len (rec_raw r))
     ++ pack_word e (rec_orig r)) ++ rec_raw r ++ concat (encode_record e <$> recs) ++ tail.
Proof. cbn [fmap list_fmap concat]. unfold encode_record at 1. by rewrite <- !app_assoc. Qed.

Lemma parse_records_roundtrip fuel e ts_div strict recs tail idx :
  Forall (rec_ok strict) recs → cut_off e tail → (length recs < fuel)%nat →
  parse_records fuel e ts_div strict (concat (encode_record e <$> recs) ++ tail) idx
  = Ok (concat (imap (λ i r, option_list (decode_frame (idx + Z.of_nat i)
      (timestamp ts_div (rec_sec r) (rec_frac r)) (rec_raw r))) recs)).
Proof.
  intros Hrecs Htail. revert fuel idx. induction Hrecs as [|r recs Hr Hrecs IH];
    intros [|fuel] idx Hfuel; cbn [length] in *; try lia; cbn [parse_records].
  - cbn. destruct (Z.ltb_spec (len tail) 16); [done|].
    destruct Htail as [?|(_ & Hmax & Hcut)]; [lia|].
    destruct (Z.ltb_spec MAX_RECORD (unpack e (slice 8 12 tail))); [lia|].
    rewrite len_from by lia.
    destruct (Z.ltb_spec (len tail - 16) (unpack e (slice 8 12 tail))); [done|lia].
  - rewrite concat_records.
    destruct (record_header e (rec_sec r) (rec_frac r) (len (rec_raw r)) (rec_orig r)
      (rec_raw r ++ concat (encode_record e <$> recs) ++ tail)) as (-> & -> & -> & -> & -> & ->).
    destruct Hr as [Hs Hf Ho Hl Hw].
    rewrite !unpack_pack; [|done..|unfold word32, MAX_RECORD in *; pose proof (len_nonneg (rec_raw r)); lia].
    rewrite len_app. pose proof (len_nonneg (rec_raw r)).
    pose proof (len_nonneg (concat (encode_record e <$> recs) ++ tail)).
    destruct (Z.ltb_spec (16 + (len (rec_raw r) +
      len (concat (encode_record e <$> recs) ++ tail))) 16); [lia|].
    destruct (Z.ltb_spec MAX_RECORD (len (rec_raw r))); [lia|].
    destruct (Z.ltb_spec (len (rec_raw r) + len (concat (encode_record e <$> recs) ++ tail))
      (len (rec_raw r))); [lia|].
    rewrite slice_app_exact, from_app_exact.
    replace ((len (rec_raw r) <? rec_orig r) && strict) with false.
    2:{ destruct strict; [|by rewrite andb_false_r].
        specialize (Hw eq_refl). destruct (Z.ltb_spec (len (rec_raw r)) (rec_orig r)); [lia|done]. }
    rewrite IH by lia. cbn [imap concat]. rewrite Z.add_0_r.
    cbn [mbind res_bind]. do 3 f_equal. apply imap_ext. intros i x _. cbn.
    by replace (idx + 1 + Z.of_nat i) with (idx + Z.of_nat (S i)) by lia.
Qed.

(** More fuel than there are bytes makes no difference: the loop ends by itself. *)
Lemma parse_records_fuel fuel fuel' e ts_div strict data idx :
  (length data < fuel)%nat → (length data < fuel')%nat →
  parse_records fuel e ts_div strict data idx = parse_records fuel' e ts_div strict data idx.
Proof.
  revert fuel' data idx. induction fuel as [|fuel IH]; intros [|fuel'] data idx; try lia.
  intros Hf Hf'. cbn [parse_records]. destruct (Z.ltb_spec (len data) 16); [done|].
  destruct (MAX_RECORD <? _); [done|]. destruct (_ <? _); [done|]. destruct (_ && _); [done|].
  rewrite (IH fuel'); [done|..]; unfold from, len in *; rewrite !length_drop; lia.
Qed.

Lemma occurs_from {A} `{EqDecision A} (pat hay : list A) a : occurs pat (from a hay) → occurs pat hay.
Proof. intros Ho. destruct (from_inside a hay) as (p & k & ->). by apply occurs_app. Qed.
Lemma occurs_refl {A} (l : list A) : occurs l l.
Proof. exists 0. split; [done|]. exists [], []. by rewrite app_nil_r. Qed.

Lemma parse_records_wf fuel e ts_div strict data idx frames :
  is_bytes data → parse_records fuel e ts_div strict data idx = Ok frames →
  Forall (λ f, frame_wf f ∧ occurs (f_raw f) data ∧ idx ≤ f_index f) frames ∧
  StronglySorted (λ f g, f_index f < f_index g) frames.
Proof.
  revert data idx frames. induction fuel as [|fuel IH]; intros data idx frames Hb;
    cbn [parse_records]; [intros [= <-]; by repeat constructor|].
  destruct (len data <? 16); [intros [= <-]; by repeat constructor|].
  destruct (MAX_RECORD <? _); [done|].
  destruct (_ <? _); [intros [= <-]; by repeat constructor|]. destruct (_ && _); [done|].
  set (incl := unpack e (slice 8 12 data)). set (raw := slice 0 incl (from 16 data)).
  set (ts := timestamp _ _ _). intros Hp.
  destruct (parse_records fuel _ _ _ _ (idx + 1)) as [rest|] eqn:Hrest; [|done].
  injection Hp as <-.
  apply IH in Hrest as [Hall Hsort]; [|by repeat apply is_bytes_from].
  assert (Hall' : Forall (λ f, frame_wf f ∧ occurs (f_raw f) data ∧ idx < f_index f) rest).
  { eapply Forall_impl; [exact Hall|]. cbn. intros f (Hf & Ho & Hi).
    split_and!; [done|by do 2 apply occurs_from in Ho|lia]. }
  destruct (decode_frame idx ts raw) as [f|] eqn:Hf; cbn.
  - apply decode_frame_wf in Hf as (Hwf & Hidx & _ & Hraw);
      [|by apply is_bytes_slice, is_bytes_from].
    split; constructor; try done.
    + split_and!; [done| |lia]. rewrite Hraw. unfold raw.
      eapply occurs_from, occurs_slice, occurs_refl.
    + eapply Forall_impl; [exact Hall'|]. cbn. intuition lia.
    + eapply Forall_impl; [exact Hall'|]. cbn. intuition lia.
  - split; [|done]. eapply Forall_impl; [exact Hall'|]. cbn. intuition lia.
Qed.

Module Captures.
(** C18. Parsing inverts writing: for each of the four magic numbers, a capture of any records,
    followed by any incomplete record, parses to the decoded frames of exactly those records,
    in order, numbered and time-stamped; in strict mode provided none was clipped. *)
Theorem parse_pcap_roundtrip magic e ts_div header strict recs tail :
  assoc magic PCAP_MAGICS = Some (e, ts_div) → len header = 16 →
  Forall (rec_ok strict) recs → cut_off e tail →
  parse_pcap (magic ++ header ++ pack_word e 1 ++ concat (encode_record e <$> recs) ++ tail)
    strict
  = Ok (concat (imap (λ i r, option_list (decode_frame (Z.of_nat i)
      (timestamp ts_div (rec_sec r) (rec_frac r)) (rec_raw r))) recs)).
Proof.
  intros Hmagic Hheader Hrecs Htail.
  assert (Hm : len magic = 4).
  { unfold assoc, PCAP_MAGICS in Hmagic. cbn [List.find fst snd] in Hmagic.
    repeat (case_bool_decide; [by subst|]). done. }
  assert (Hone : len (pack_word e 1) = 4) by by destruct e.
  set (body := concat (encode_record e <$> recs) ++ tail).
  unfold parse_pcap. rewrite !len_app, Hm, Hheader, Hone. pose proof (len_nonneg body).
  destruct (Z.ltb_spec (4 + (16 + (4 + len body))) 24); [lia|].
  replace (slice 0 4 (magic ++ _)) with magic by (rewrite <- Hm; by rewrite slice_app_exact).
  rewrite Hmagic.
  assert (Hlink : slice 20 24 (magic ++ header ++ pack_word e 1 ++ body) = pack_word e 1).
  { unfold slice. change (Z.to_nat (24 - 20)) with 4%nat. change (Z.to_nat 20) with (4 + 16)%nat.
    rewrite <- drop_drop, drop_app_length', drop_app_length' by (unfold len in *; lia).
    by rewrite take_app_length' by (unfold len in *; lia). }
  rewrite Hlink, unpack_pack by done. cbn [Z.eqb negb andb Pos.eqb].
  assert (Hfrom : from 24 (magic ++ header ++ pack_word e 1 ++ body) = body).
  { unfold from. change (Z.to_nat 24) with (4 + (16 + 4))%nat.
    rewrite <- !drop_drop, !drop_app_length' by (unfold len in *; lia). done. }
  rewrite Hfrom. unfold body. rewrite parse_records_roundtrip; [done|done|done|].
  assert (Hrl : (length recs ≤ length (concat (encode_record e <$> recs)))%nat).
  { clear. induction recs as [|r recs IH]; [done|]. cbn [fmap list_fmap concat length].
    rewrite length_app. enough (16 ≤ length (encode_record e r))%nat by lia.
    destruct e; cbn; lia. }
  rewrite !length_app. lia.
Qed.

(** Every frame of a parsed capture is well formed: its addresses are the first twelve
    bytes of the captured record, its IP payload is a contiguous part of it, fragment offsets
    are multiples of 8 below 64 KiB, ports and ICMP fields appear on first fragments of their
    protocols only; nothing is invented, every record stands in the file, and the frame
    numbers increase. *)
Theorem parse_pcap_frames_wf data strict frames :
  is_bytes data → parse_pcap data strict = Ok frames →
  Forall (λ f, frame_wf f ∧ occurs (f_raw f) data) frames ∧
  StronglySorted (λ f g, f_index f < f_index g) frames.
Proof.
  intros Hb. unfold parse_pcap. destruct (_ <? 24); [done|].
  destruct (assoc _ _) as [[e ts_div]|]; [|done]. destruct (_ && _); [done|]. intros Hp.
  apply parse_records_wf in Hp as [Hall Hsort]; [|by apply is_bytes_from]. split; [|done].
  eapply Forall_impl; [exact Hall|]. cbn. intros f (Hf & Ho & _). split; [done|].
  by apply occurs_from in Ho.
Qed.

(** A capture of one ARP frame and the start of a second record. *)
Definition demo_arp : bytes :=
  replicate 6 255 ++ [0; 14; 58; 100; 100; 100] ++ [8; 6] ++ [0; 1; 8; 0; 6; 4; 0; 1]
  ++ [0; 14; 58; 100; 100; 100] ++ [10; 0; 66; 200] ++ replicate 6 0 ++ [10; 0; 66; 1].
Definition demo_rec : rec := Rec 1700000000 250000 42 demo_arp.
Definition demo_file : bytes :=
  [0xd4; 0xc3; 0xb2; 0xa1] ++ replicate 16 0 ++ pack_word Little 1
  ++ concat (encode_record Little <$> [demo_rec]) ++ [1; 2; 3].

Definition arp_ops (o : res pcap_error (list frame)) : list (option Z) :=
  match o with Ok l => f_arp_op <$> l | Err _ => [] end.

Lemma parse_pcap_roundtrip_witness : arp_ops (parse_pcap demo_file true) = [Some 1].
Proof.
  unfold demo_file. rewrite (parse_pcap_roundtrip [0xd4; 0xc3; 0xb2; 0xa1] Little 1000000 (replicate 16 0) true
    [demo_rec] [1; 2; 3]).
  - by vm_compute.
  - reflexivity.
  - reflexivity.
  - apply Forall_singleton. constructor; unfold word32; cbn; (lia || done).
  - left. by vm_compute.
Defined.

Lemma parse_pcap_frames_wf_witness :
  ∃ frames, parse_pcap demo_file true = Ok frames ∧
    Forall (λ f, frame_wf f ∧ occurs (f_raw f) demo_file) frames.
Proof.
  destruct (parse_pcap demo_file true) as [frames|e] eqn:Hp.
  - exists frames. split; [reflexivity|].
    refine (proj1 (parse_pcap_frames_wf demo_file true frames _ Hp)).
    apply (bool_decide_unpack _). by vm_compute.
  - exfalso. by vm_compute in Hp.
Defined.
End Captures.
