(* ===== verification/Reassembly.v ===== *)
(** * IP reassembly (tools/ip65_hw_checks.py, [reassemble])

    The grouping of frames into datagrams, and its specification: one datagram per key, in
    first-frame order, made of exactly the frames of that key. *)

From S2P Require Export PcapThms.

(** ** The code *)

Inductive gkey :=
| Whole (index : Z)
| Frag (src dst : bytes) (proto : Z) (id : option Z).
#[export] Instance gkey_eq_dec : EqDecision gkey.
Proof. solve_decision. Defined.

Record group := Group {
  g_pieces : list (Z * bytes);
  g_srcs : list bytes;
  g_idx : list Z;
  g_last_seen : bool;
  g_sport : option Z;
  g_dport : option Z;
  g_ip_src : bytes;
  g_ip_dst : bytes;
  g_proto : Z;
}.

Record datagram := Datagram {
  d_key : gkey;
  d_data : bytes;
  d_frame_indices : list Z;
  d_eth_srcs : list bytes;
  d_ip_src : bytes;
  d_ip_dst : bytes;
  d_ip_proto : Z;
  d_complete : bool;
  d_sport : option Z;
  d_dport : option Z;
}.

Definition d_udp_payload (d : datagram) : bytes :=
  if negb (d_ip_proto d =? IPPROTO_UDP) || (len (d_data d) <? 8) then [] else
  let ulen := from_be (slice 4 6 (d_data d)) in
  if 8 <=? ulen then slice 8 (8 + Z.max 0 (ulen - 8)) (d_data d) else from 8 (d_data d).

Definition key_of_frame (f : frame) (proto : Z) : gkey :=
  if is_fragmented f
  then Frag (default [] (f_ip_src f)) (default [] (f_ip_dst f)) proto (f_ip_id f)
  else Whole (f_index f).

Definition new_group (f : frame) (proto : Z) : group :=
  Group [] [] [] false None None (default [] (f_ip_src f)) (default [] (f_ip_dst f)) proto.

Definition add_piece (g : group) (f : frame) : group :=
  Group (g_pieces g ++ [(default 0 (f_frag_off f), f_ip_payload f)])
    (if decide (f_eth_src f ∈ g_srcs g) then g_srcs g else g_srcs g ++ [f_eth_src f])
    (g_idx g ++ [f_index f])
    (g_last_seen g || negb (f_more_frags f))
    (if is_first_fragment f then f_sport f else g_sport g)
    (if is_first_fragment f then f_dport f else g_dport g)
    (g_ip_src g) (g_ip_dst g) (g_proto g).

(** [groups] and [order] together: the groups in order of insertion. *)
Fixpoint update_group {K G} `{EqDecision K} (k : K) (new : G) (add : G → G)
    (groups : list (K * G)) : list (K * G) :=
  match groups with
  | [] => [(k, add new)]
  | (k', g) :: groups =>
      if decide (k' = k) then (k', add g) :: groups
      else (k', g) :: update_group k new add groups
  end.

Definition ip_frame (f : frame) : option Z :=
  if f_ethertype f =? ETHERTYPE_IPV4 then f_ip_proto f else None.

Definition group_frame (groups : list (gkey * group)) (f : frame) : list (gkey * group) :=
  match ip_frame f with
  | None => groups
  | Some proto =>
      update_group (key_of_frame f proto) (new_group f proto) (λ g, add_piece g f) groups
  end.

(** [sorted(pieces, key=offset)], which keeps the order of equal offsets. *)
Fixpoint insert_piece (x : Z * bytes) (l : list (Z * bytes)) : list (Z * bytes) :=
  match l with
  | [] => [x]
  | y :: l => if x.1 <=? y.1 then x :: y :: l else y :: insert_piece x l
  end.
Definition sort_pieces (l : list (Z * bytes)) : list (Z * bytes) := foldr insert_piece [] l.

(** [buf[off:off + len(payload)] = payload], after filling up to [off] with zeros. *)
Definition place (buf : bytes) (off : Z) (payload : bytes) : bytes :=
  let buf := buf ++ replicate (Z.to_nat (off - len buf)) 0 in
  slice 0 off buf ++ payload ++ from (off + len payload) buf.

Definition join_piece (st : bytes * bool) (p : Z * bytes) : bytes * bool :=
  let '(buf, complete) := st in
  let '(off, payload) := p in
  if negb (off =? len buf) then (place buf off payload, false) else (buf ++ payload, complete).

Definition finish_group (kg : gkey * group) : datagram :=
  let '(k, g) := kg in
  let '(data, complete) := foldl join_piece ([], g_last_seen g) (sort_pieces (g_pieces g)) in
  Datagram k data (g_idx g) (g_srcs g) (g_ip_src g) (g_ip_dst g) (g_proto g) complete
    (g_sport g) (g_dport g).

Definition reassemble (frames : list frame) : list datagram :=
  finish_group <$> foldl group_frame [] frames.

(** ** Grouping, in general *)

(** The distinct elements of a list, in order of first appearance. *)
Definition firsts {K} `{EqDecision K} (l : list K) : list K :=
  foldl (λ acc k, if decide (k ∈ acc) then acc else acc ++ [k]) [] l.

Section grouping.
Context {X K G : Type} `{EqDecision K}.
Context (key : X → K) (new : X → G) (add : G → X → G).

Definition group_step (groups : list (K * G)) (x : X) : list (K * G) :=
  update_group (key x) (new x) (λ g, add g x) groups.

(** What the elements of one key amount to. *)
Definition group_all (xs : list X) : option G :=
  match xs with
  | [] => None
  | x :: _ => Some (foldl add (new x) xs)
  end.

Definition with_key (k : K) (xs : list X) : list X := filter (λ x, key x = k) xs.

Lemma firsts_snoc (l : list K) k :
  firsts (l ++ [k]) = if decide (k ∈ firsts l) then firsts l else firsts l ++ [k].
Proof. unfold firsts. by rewrite foldl_app. Qed.

Lemma elem_of_firsts (l : list K) k : k ∈ firsts l ↔ k ∈ l.
Proof.
  induction l as [|k' l IH] using rev_ind; [done|]. rewrite firsts_snoc, elem_of_app, <- IH.
  case_decide; rewrite ?elem_of_app, ?list_elem_of_singleton; [|done].
  split; [by left|]. by intros [?| ->].
Qed.

Lemma NoDup_firsts (l : list K) : NoDup (firsts l).
Proof.
  induction l as [|k l IH] using rev_ind; [constructor|]. rewrite firsts_snoc.
  case_decide; [done|]. apply NoDup_app. split_and!; [done| |by apply NoDup_singleton].
  intros k' Hk' ->%list_elem_of_singleton. done.
Qed.

Lemma with_key_snoc k xs x :
  with_key k (xs ++ [x]) = if decide (key x = k) then with_key k xs ++ [x] else with_key k xs.
Proof.
  unfold with_key. rewrite filter_app, filter_cons, filter_nil.
  case_decide; [done|]. by rewrite app_nil_r.
Qed.

Lemma with_key_cons k x xs :
  with_key k (x :: xs) = if decide (key x = k) then x :: with_key k xs else with_key k xs.
Proof. unfold with_key. by rewrite filter_cons. Qed.

Lemma with_key_nil k xs : k ∉ (key <$> xs) → with_key k xs = [].
Proof.
  intros Hk. unfold with_key.
  induction xs as [|x xs IH]; [done|]. rewrite filter_cons_False.
  - apply IH. intros Hin. apply Hk. by right.
  - intros <-. apply Hk. by left.
Qed.

(** The association list of a family of groups, updated at one key. *)
Lemma update_family k g0 (h : G → G) (ks : list K) (fam : K → G) :
  NoDup ks →
  update_group k g0 h ((λ k', (k', fam k')) <$> ks)
  = (λ k', (k', if decide (k' = k) then h (if decide (k ∈ ks) then fam k' else g0) else fam k'))
    <$> (if decide (k ∈ ks) then ks else ks ++ [k]).
Proof.
  induction 1 as [|k' ks Hk' Hnd IH]; cbn.
  - rewrite decide_False by apply not_elem_of_nil. cbn. by rewrite decide_True.
  - destruct (decide (k' = k)) as [->|Hne].
    + rewrite decide_True by by left. cbn. rewrite !decide_True by (done || by left). f_equal.
      apply list_fmap_ext. intros i x Hx. rewrite decide_False; [done|]. intros ->.
      by apply Hk', list_elem_of_lookup; exists i.
    + rewrite IH. destruct (decide (k ∈ ks)) as [Hin|Hin].
      * rewrite decide_True by by right. cbn. rewrite decide_False by done. f_equal.
        apply list_fmap_ext. intros i x _. by rewrite (decide_True _ _ (P := k ∈ k' :: ks)) by by right.
      * rewrite decide_False by (rewrite not_elem_of_cons; split; congruence). cbn.
        rewrite decide_False by done. f_equal.
        apply list_fmap_ext. intros i x _.
        by rewrite (decide_False _ _ (P := k ∈ k' :: ks)) by (rewrite not_elem_of_cons; split; congruence).
Qed.

Context `{Inhabited G}.

Definition family (xs : list X) (k : K) : G :=
  default inhabitant (group_all (with_key k xs)).

Lemma family_snoc xs x k :
  family (xs ++ [x]) k
  = if decide (k = key x)
    then add (if decide (k ∈ firsts (key <$> xs)) then family xs k else new x) x
    else family xs k.
Proof.
  unfold family. rewrite with_key_snoc. destruct (decide (k = key x)) as [->|Hk];
    [rewrite decide_True by done|by rewrite decide_False].
  case_decide as Hin; rewrite elem_of_firsts in Hin.
  - destruct (with_key (key x) xs) as [|y ys] eqn:Hw.
    + exfalso. apply list_elem_of_fmap in Hin as (y & Hy & Hin).
      assert (Hyw : y ∈ with_key (key x) xs) by (apply list_elem_of_filter; done).
      rewrite Hw in Hyw. by apply elem_of_nil in Hyw.
    + cbn. by rewrite foldl_app.
  - by rewrite with_key_nil.
Qed.

(** Folding the elements into their groups, one after the other, groups them by key. *)
Lemma group_fold xs :
  foldl group_step [] xs = (λ k, (k, family xs k)) <$> firsts (key <$> xs).
Proof.
  induction xs as [|x xs IH] using rev_ind; [done|].
  rewrite foldl_app, fmap_app. cbn. rewrite IH, firsts_snoc. unfold group_step.
  rewrite update_family by apply NoDup_firsts.
  apply list_fmap_ext. intros i k Hk. f_equal. rewrite family_snoc.
  destruct (decide (k = key x)) as [->|]; done.
Qed.
End grouping.
