(* ===== verification/ReassemblyThms.v ===== *)
(** * IP reassembly: the properties

    The code's single pass groups by key; a datagram sent whole comes back as itself, and one
    sent in fragments comes back whole, in whatever order they were captured. *)

From S2P Require Export Reassembly.

#[export] Instance group_inhabited : Inhabited group :=
  populate (Group [] [] [] false None None [] [] 0).

(** The frames that take part, each with its protocol. *)
Definition ip_frames (frames : list frame) : list (frame * Z) :=
  omap (λ f, (λ p, (f, p)) <$> ip_frame f) frames.
Lemma ip_frames_cons f frames :
  ip_frames (f :: frames)
  = match ip_frame f with Some p => (f, p) :: ip_frames frames | None => ip_frames frames end.
Proof. unfold ip_frames. cbn. by destruct (ip_frame f). Qed.
Definition ip_key (fp : frame * Z) : gkey := key_of_frame fp.1 fp.2.
Definition ip_new (fp : frame * Z) : group := new_group fp.1 fp.2.
Definition ip_add (g : group) (fp : frame * Z) : group := add_piece g fp.1.

Lemma group_frames_fold frames groups :
  foldl group_frame groups frames = foldl (group_step ip_key ip_new ip_add) groups (ip_frames frames).
Proof.
  revert groups. induction frames as [|f frames IH]; intros groups; [done|]. cbn.
  unfold group_frame at 2. rewrite IH. destruct (ip_frame f); [|done]. done.
Qed.

(** The datagram made of the frames of one key. *)
Definition datagram_of (k : gkey) (frames : list frame) : datagram :=
  finish_group (k, family ip_key ip_new ip_add (ip_frames frames) k).

Lemma reassemble_groups frames :
  reassemble frames = (λ k, datagram_of k frames) <$> firsts (ip_key <$> ip_frames frames).
Proof.
  unfold reassemble. rewrite group_frames_fold, (group_fold ip_key ip_new ip_add).
  by rewrite <- list_fmap_compose.
Qed.

(** ** What the frames of one key amount to *)

Definition piece (f : frame) : Z * bytes := (default 0 (f_frag_off f), f_ip_payload f).

Definition frames_of (k : gkey) (frames : list frame) : list frame :=
  fst <$> with_key ip_key k (ip_frames frames).

Lemma fold_pieces fs g :
  let g' := foldl ip_add g fs in
  g_pieces g' = g_pieces g ++ (piece ∘ fst <$> fs) ∧
  g_idx g' = g_idx g ++ (f_index ∘ fst <$> fs) ∧
  g_last_seen g' = g_last_seen g || existsb (λ fp, negb (f_more_frags fp.1)) fs ∧
  g_proto g' = g_proto g ∧ g_ip_src g' = g_ip_src g ∧ g_ip_dst g' = g_ip_dst g.
Proof.
  revert g. induction fs as [|[f p] fs IH]; intros g; cbn.
  - by rewrite !app_nil_r, orb_false_r.
  - destruct (IH (ip_add g (f, p))) as (-> & -> & -> & -> & -> & ->). cbn.
    by rewrite <- !app_assoc, orb_assoc.
Qed.

Lemma elem_of_frames_of k frames f :
  f ∈ frames_of k frames ↔ f ∈ frames ∧ ∃ p, ip_frame f = Some p ∧ key_of_frame f p = k.
Proof.
  unfold frames_of, with_key, ip_frames. rewrite list_elem_of_fmap.
  setoid_rewrite list_elem_of_filter. setoid_rewrite list_elem_of_omap. split.
  - intros ([f' p] & -> & Hk & f'' & Hin & Hf). cbn in *.
    destruct (ip_frame f'') eqn:Hp; [|done]. injection Hf as -> ->. eauto.
  - intros (Hin & p & Hp & Hk). exists (f, p). split_and!; [done|done|].
    exists f. by rewrite Hp.
Qed.

(** The data of a datagram is the join of its pieces by offset, and its frames are those of
    its key. *)
Lemma datagram_of_spec k frames :
  frames_of k frames ≠ [] →
  let d := datagram_of k frames in
  d_key d = k ∧ d_frame_indices d = f_index <$> frames_of k frames ∧
  (d_data d, d_complete d) = foldl join_piece
    ([], existsb (λ f, negb (f_more_frags f)) (frames_of k frames))
    (sort_pieces (piece <$> frames_of k frames)).
Proof.
  unfold frames_of, datagram_of, family, group_all.
  destruct (with_key ip_key k (ip_frames frames)) as [|fp fps] eqn:Hw; [done|]. intros _.
  cbn [default from_option id]. rewrite <- Hw in *. clear Hw.
  set (fs := with_key _ k _). destruct (fold_pieces fs (ip_new fp)) as (Hp & Hi & Hl & _).
  unfold finish_group. rewrite Hp, Hi, Hl. cbn [ip_new new_group g_pieces g_idx g_last_seen app orb].
  rewrite !list_fmap_compose.
  replace (existsb (λ f, negb (f_more_frags f)) (fst <$> fs))
    with (existsb (λ fp, negb (f_more_frags fp.1)) fs)
    by (clear; induction fs as [|x fs IH]; [done|]; cbn; by rewrite IH).
  destruct (foldl join_piece _ _) as [data complete]. done.
Qed.

Lemma frames_of_first k frames :
  k ∈ firsts (ip_key <$> ip_frames frames) ↔ frames_of k frames ≠ [].
Proof.
  rewrite elem_of_firsts, list_elem_of_fmap. split.
  - intros (fp & -> & Hin) Hn. unfold frames_of in Hn. apply fmap_nil_inv in Hn.
    assert (Hw : fp ∈ with_key ip_key (ip_key fp) (ip_frames frames))
      by (by apply list_elem_of_filter).
    rewrite Hn in Hw. by apply elem_of_nil in Hw.
  - unfold frames_of. destruct (with_key _ k _) as [|fp fps] eqn:Hw; [done|]. intros _.
    assert (Hin : fp ∈ with_key ip_key k (ip_frames frames)) by (rewrite Hw; by left).
    apply list_elem_of_filter in Hin as [<- Hin]. eauto.
Qed.

(** ** Sorting and joining pieces *)

Lemma insert_piece_perm x l : insert_piece x l ≡ₚ x :: l.
Proof.
  induction l as [|y l IH]; cbn; [done|]. case_match; [done|].
  rewrite IH. apply Permutation_swap.
Qed.
Lemma sort_pieces_perm l : sort_pieces l ≡ₚ l.
Proof. induction l as [|x l IH]; [done|]. cbn. by rewrite insert_piece_perm, IH. Qed.

Definition offset_le (x y : Z * bytes) : Prop := x.1 ≤ y.1.

Lemma insert_piece_sorted x l :
  StronglySorted offset_le l → StronglySorted offset_le (insert_piece x l).
Proof.
  induction 1 as [|y l Hs IH Hall]; cbn; [by repeat constructor|].
  destruct (Z.leb_spec x.1 y.1).
  - constructor; [by constructor|]. constructor; [done|].
    eapply Forall_impl; [exact Hall|]. unfold offset_le. intros; lia.
  - constructor; [done|]. rewrite insert_piece_perm. constructor; [unfold offset_le; lia|done].
Qed.
Lemma sort_pieces_sorted l : StronglySorted offset_le (sort_pieces l).
Proof. induction l as [|x l IH]; cbn; [constructor|]. by apply insert_piece_sorted. Qed.

(** Pieces that cut a payload up, in order, none of them empty. *)
Inductive tiles : Z → list (Z * bytes) → bytes → Prop :=
| tiles_nil off : tiles off [] []
| tiles_cons off x ps data :
    x ≠ [] → tiles (off + len x) ps data → tiles off ((off, x) :: ps) (x ++ data).

Lemma tiles_offsets off ps data :
  tiles off ps data → Forall (λ p, off ≤ p.1) ps ∧ StronglySorted (λ x y, x.1 < y.1) ps.
Proof.
  induction 1 as [|off x ps data Hx Ht [Hall Hs]]; [by repeat constructor|].
  assert (0 < len x) by (destruct x; [done|]; rewrite len_cons; pose proof (len_nonneg x); lia).
  split.
  - constructor; [cbn; lia|]. eapply Forall_impl; [exact Hall|]. cbn. lia.
  - constructor; [done|]. eapply Forall_impl; [exact Hall|]. cbn. lia.
Qed.

(** A strictly increasing list is the only sorting of its elements. *)
Lemma sorted_unique l k :
  StronglySorted (λ x y : Z * bytes, x.1 < y.1) l → StronglySorted offset_le k → k ≡ₚ l → k = l.
Proof.
  revert k. induction l as [|x l IH]; intros k Hl Hk Hp.
  { by apply Permutation_nil_r in Hp. }
  destruct k as [|y k]; [by apply Permutation_nil_l in Hp|].
  apply StronglySorted_inv in Hl as [Hl Hx]. apply StronglySorted_inv in Hk as [Hk Hy].
  assert (y = x) as ->.
  { assert (Hyin : y ∈ x :: l) by (rewrite <- Hp; by left).
    assert (Hxin : x ∈ y :: k) by (rewrite Hp; by left).
    apply elem_of_cons in Hyin as [?|Hyin]; [done|].
    apply elem_of_cons in Hxin as [?|Hxin]; [done|].
    rewrite Forall_forall in Hx, Hy. specialize (Hx y Hyin). specialize (Hy x Hxin).
    unfold offset_le in Hy. lia. }
  f_equal. apply IH; [done..|]. by apply Permutation_cons_inv in Hp.
Qed.

Lemma join_tiles buf off ps data c :
  tiles off ps data → off = len buf → foldl join_piece (buf, c) ps = (buf ++ data, c).
Proof.
  intros Ht. revert buf. induction Ht as [|off x ps data Hx Ht IH]; intros buf Hoff; cbn.
  - by rewrite app_nil_r.
  - subst off. rewrite Z.eqb_refl. cbn. rewrite IH by by rewrite len_app.
    by rewrite <- app_assoc.
Qed.

Lemma sort_tiles l ps data : l ≡ₚ ps → tiles 0 ps data → sort_pieces l = ps.
Proof.
  intros Hp Ht. apply sorted_unique; [by eapply tiles_offsets|apply sort_pieces_sorted|].
  by rewrite sort_pieces_perm.
Qed.

(** ** Datagrams that were sent whole *)

Lemma frames_of_sublist k frames : frames_of k frames `sublist_of` frames.
Proof.
  induction frames as [|f frames IH]; [done|]. unfold frames_of in *.
  rewrite ip_frames_cons. destruct (ip_frame f) as [p|]; [|by constructor].
  rewrite with_key_cons. case_decide; cbn; by constructor.
Qed.

Lemma frames_of_whole frames f p :
  NoDup (f_index <$> frames) → f ∈ frames → ip_frame f = Some p → is_fragmented f = false →
  frames_of (Whole (f_index f)) frames = [f].
Proof.
  intros Hnd Hin Hp Hf.
  assert (Hfin : f ∈ frames_of (Whole (f_index f)) frames).
  { apply elem_of_frames_of. split; [done|]. exists p. split; [done|].
    unfold key_of_frame. by rewrite Hf. }
  assert (Hidx : ∀ g, g ∈ frames_of (Whole (f_index f)) frames → f_index g = f_index f).
  { intros g (_ & q & _ & Hk)%elem_of_frames_of. unfold key_of_frame in Hk.
    destruct (is_fragmented g); [done|]. by injection Hk. }
  assert (Hnd' : NoDup (f_index <$> frames_of (Whole (f_index f)) frames)).
  { eapply sublist_NoDup; [exact Hnd|]. apply fmap_sublist, frames_of_sublist. }
  destruct (frames_of _ frames) as [|g [|h l]]; [by apply elem_of_nil in Hfin| |].
  - apply list_elem_of_singleton in Hfin. by subst.
  - exfalso. cbn in Hnd'. apply NoDup_cons in Hnd' as [Hg _]. apply Hg.
    rewrite (Hidx g), (Hidx h); [by left|right; by left|by left].
Qed.

Lemma reassemble_whole frames f p :
  NoDup (f_index <$> frames) → f ∈ frames → ip_frame f = Some p → is_fragmented f = false →
  0 ≤ default 0 (f_frag_off f) →
  ∃ d, d ∈ reassemble frames ∧ d_data d = f_ip_payload f ∧ d_complete d = true ∧
    d_frame_indices d = [f_index f].
Proof.
  intros Hnd Hin Hp Hf Hoff. pose proof (frames_of_whole frames f p Hnd Hin Hp Hf) as Hw.
  exists (datagram_of (Whole (f_index f)) frames).
  destruct (datagram_of_spec (Whole (f_index f)) frames) as (Hkey & Hidx & Hdata);
    [by rewrite Hw|]. rewrite Hw in *.
  assert (Hfr : f_more_frags f = false ∧ default 0 (f_frag_off f) = 0).
  { unfold is_fragmented in Hf. apply orb_false_iff in Hf as [? Ht]. split; [done|].
    unfold truthy in Ht. apply negb_false_iff in Ht. lia. }
  destruct Hfr as [Hmf Hz]. cbn in Hdata. rewrite Hmf, Hz in Hdata. cbn in Hdata.
  injection Hdata as Hd Hc. split_and!; [|done|done|done].
  rewrite reassemble_groups. apply (list_elem_of_fmap_2 (λ k, datagram_of k frames)).
  apply frames_of_first. by rewrite Hw.
Qed.

Module Reassemblies.
(** Reassembly is grouping by key: one datagram for each key of an IPv4 frame, in order
    of first appearance and none twice, whose frames are exactly those with the key, in
    capture order, and whose data is the join of their payloads sorted by offset. *)
Theorem reassemble_spec frames :
  NoDup (d_key <$> reassemble frames) ∧
  (d_key <$> reassemble frames) = firsts (ip_key <$> ip_frames frames) ∧
  Forall (λ d,
    d_frame_indices d = f_index <$> frames_of (d_key d) frames ∧
    (d_data d, d_complete d) = foldl join_piece
      ([], existsb (λ f, negb (f_more_frags f)) (frames_of (d_key d) frames))
      (sort_pieces (piece <$> frames_of (d_key d) frames))) (reassemble frames).
Proof.
  assert (Hkeys : (d_key <$> reassemble frames) = firsts (ip_key <$> ip_frames frames)).
  { rewrite reassemble_groups, <- list_fmap_compose. rewrite <- (list_fmap_id (firsts _)) at 2.
    apply list_fmap_ext. intros i k Hk. cbn.
    apply (datagram_of_spec k frames). by eapply frames_of_first, list_elem_of_lookup_2. }
  rewrite Hkeys. split_and!; [apply NoDup_firsts|done|].
  rewrite reassemble_groups. apply Forall_fmap, Forall_forall. intros k Hk%frames_of_first.
  destruct (datagram_of_spec k frames Hk) as (Hkey & Hidx & Hdata).
  unfold compose. by rewrite Hkey.
Qed.

(** C19. A datagram sent in fragments comes back whole: when the captured fragments of one
    (source, destination, protocol, identification) cut a payload up, in any order and among
    any other traffic, there is exactly one datagram for them, it holds the payload, and it
    is complete if the last fragment is among them. *)
Theorem reassemble_fragments frames k ps data :
  (piece <$> frames_of k frames) ≡ₚ ps → ps ≠ [] → tiles 0 ps data →
  ∃ d, d ∈ reassemble frames ∧ d_key d = k ∧ d_data d = data ∧
    d_complete d = existsb (λ f, negb (f_more_frags f)) (frames_of k frames) ∧
    (∀ d', d' ∈ reassemble frames → d_key d' = k → d' = d).
Proof.
  intros Hperm Hne Ht.
  assert (Hk : frames_of k frames ≠ []).
  { intros Hn. rewrite Hn in Hperm. apply Permutation_nil_l in Hperm. done. }
  destruct (datagram_of_spec k frames Hk) as (Hkey & _ & Hdata).
  rewrite (sort_tiles _ _ _ Hperm Ht), (join_tiles [] 0 _ _ _ Ht eq_refl) in Hdata.
  injection Hdata as Hd Hc. exists (datagram_of k frames). split_and!; [|done|done|done|].
  - rewrite reassemble_groups.
    apply (list_elem_of_fmap_2 (λ k, datagram_of k frames)). by apply frames_of_first.
  - intros d' Hin Hk'. rewrite reassemble_groups in Hin.
    apply list_elem_of_fmap in Hin as (k' & -> & Hin%frames_of_first).
    destruct (datagram_of_spec k' frames Hin) as (Hkey' & _). by rewrite <- Hkey', Hk'.
Qed.

(** A datagram of five bytes in two fragments, the second captured first, and another
    station's datagram between them. *)
Definition fragment (index off : Z) (more : bool) (payload : bytes) : frame :=
  build_frame index (S754_zero false) (replicate 6 2) (replicate 6 1) ETHERTYPE_IPV4 []
    (Some [10; 0; 66; 200], Some [10; 0; 66; 1], Some IPPROTO_UDP, Some 0x1234, Some off, more,
     payload) no_transport no_arp.
Definition demo_frames : list frame :=
  [fragment 0 8 false [9; 10]; fragment 1 0 false [42]; fragment 2 0 true (seqZ 1 8)].
Definition demo_key : gkey := Frag [10; 0; 66; 200] [10; 0; 66; 1] IPPROTO_UDP (Some 0x1234).

Lemma reassemble_fragments_witness :
  ∃ d, d ∈ reassemble demo_frames ∧ d_key d = demo_key ∧ d_data d = seqZ 1 10 ∧
    d_complete d = true.
Proof.
  destruct (reassemble_fragments demo_frames demo_key [(0, seqZ 1 8); (8, [9; 10])] (seqZ 1 10))
    as (d & Hin & Hk & Hd & Hc & _).
  - cbn. apply Permutation_swap.
  - done.
  - change (seqZ 1 10) with (seqZ 1 8 ++ [9; 10] ++ []). repeat constructor; done.
  - exists d. by rewrite Hc.
Defined.
End Reassemblies.
