(* ===== verification/LeakSearch.v ===== *)
(** * The plaintext leak search (tools/ip65_hw_checks.py)

    The encodings a plaintext is looked for in, the longest-run search, the search over
    datagrams, padding and other frames, and the verdict built on it. *)

From S2P Require Export ReassemblyThms.

Definition PARTIAL_RUN_MIN : Z := 8.

(** ** Encodings *)

Definition petscii_form (needle : bytes) : bytes :=
  (λ b, if (0x61 <=? b) && (b <=? 0x7A) then b - 0x20 else b) <$> needle.

(** [bytes(...)] of values that stay below 256. *)
Definition petscii_shifted_form (needle : bytes) : bytes :=
  (λ b, if (0x41 <=? b) && (b <=? 0x5A) then b + 0x80 else b) <$> petscii_form needle.

(** ** The longest run *)

(** The binary search for the longest match starting at [start]. *)
Fixpoint bisect (fuel : nat) (hay needle : bytes) (start lo hi found : Z) : Z :=
  match fuel with
  | O => found
  | S fuel =>
      if lo <=? hi then
        let mid := (lo + hi) / 2 in
        if py_in (slice start (start + mid) needle) hay
        then bisect fuel hay needle start (mid + 1) hi mid
        else bisect fuel hay needle start lo (mid - 1) found
      else found
  end.

Fixpoint scan_starts (starts : list Z) (hay needle : bytes) (best best_at : Z) : Z * Z :=
  match starts with
  | [] => (best, best_at)
  | start :: starts =>
      let n := len needle in
      if n - start <=? best then (best, best_at) else
      let found := bisect (S (length needle)) hay needle start (best + 1) (n - start) 0 in
      if best <? found then scan_starts starts hay needle found start
      else scan_starts starts hay needle best best_at
  end.

Definition longest_run (hay needle : bytes) : Z * Z :=
  scan_starts (seqZ 0 (len needle)) hay needle 0 (-1).

(** ** The search in one text *)

Definition forms (needle : bytes) : list (string * bytes) :=
  [("exact", needle); ("petscii", petscii_form needle);
   ("petscii-shifted", petscii_shifted_form needle); ("reversed", rev needle)].

Definition hit : Type := string * Z * Z.

Definition add_hit (form : string) (pat : bytes) (st : list hit * list Z) (at_ : Z) :
    list hit * list Z :=
  let '(out, seen) := st in
  if decide (at_ ∈ seen) then st else (out ++ [(form, at_, len pat)], at_ :: seen).

Definition search_form (hay needle : bytes) (st : list hit * list Z) (fp : string * bytes) :
    list hit * list Z :=
  let '(form, pat) := fp in
  if negb (bool_decide (form = "exact")) && bool_decide (pat = needle) then st
  else foldl (add_hit form pat) st (matches pat hay).

Definition search_forms (hay needle : bytes) : list hit :=
  (foldl (search_form hay needle) ([], []) (forms needle)).1.

(** ** The search in a capture *)

Record finding := Finding {
  fi_form : string;
  fi_where : string;
  fi_datagram : Z;
  fi_frames : list Z;
  fi_offset : Z;
  fi_length : Z;
  fi_eth_src : string;
  fi_label : string;
}.

Abbreviation needles_t := (list (string * bytes)).

(** The findings for one needle in one datagram, number [di]. *)
Definition find_in_datagram (partial_min : Z) (di : Z) (dg : datagram) (ln : string * bytes) :
    list finding :=
  let '(label, needle) := ln in
  let src := from_option fmt_mac "??" (head (d_eth_srcs dg)) in
  let hay := d_data dg in
  if bool_decide (needle = []) then [] else
  let hits := search_forms hay needle in
  let full := (λ '(form, at_, n),
    Finding form "datagram" di (d_frame_indices dg) at_ n src label) <$> hits in
  if negb (bool_decide (hits = [])) then full else
  let '(run, at_) := longest_run hay needle in
  if (partial_min <=? run) && (run <? len needle)
  then [Finding "partial" "datagram" di (d_frame_indices dg)
          (default (-1) (py_find (slice at_ (at_ + run) needle) hay 0)) run src label]
  else [].

(** What is searched of a raw frame: the padding behind an IPv4 datagram, or all of another
    frame, with its offset and the form it is reported as. *)
Definition frame_text (f : frame) : option (bytes * Z * string) :=
  let body := from 14 (f_raw f) in
  match (if f_ethertype f =? ETHERTYPE_IPV4 then f_ip_proto f else None) with
  | Some _ =>
      if len body <? 4 then None else
      let total := from_be (slice 2 4 body) in
      let hay := from total body in
      if bool_decide (hay = []) then None else Some (hay, 14 + total, "pad")
  | None => if bool_decide (body = []) then None else Some (body, 14, "nonip")
  end.

Definition find_in_frame (needles : needles_t) (f : frame) : list finding :=
  match frame_text f with
  | None => []
  | Some (hay, base, form) =>
      mjoin ((λ '(label, needle),
        if bool_decide (needle = []) then [] else
        (λ '(_, at_, n),
           Finding form "frame" (-1) [f_index f] (base + at_) n (fmt_mac (f_eth_src f)) label)
        <$> search_forms hay needle) <$> needles)
  end.

Definition find_plaintext (datagrams : list datagram) (frames : list frame)
    (needles : needles_t) (partial_min : Z) : list finding :=
  mjoin (imap (λ di dg, mjoin (find_in_datagram partial_min (Z.of_nat di) dg <$> needles))
    datagrams)
  ++ mjoin (find_in_frame needles <$> frames).

(** ** The verdict *)

Definition sent_by (mac : bytes) (d : datagram) : bool := bool_decide (mac ∈ d_eth_srcs d).

Definition is_type4 (port : option Z) (d : datagram) : bool :=
  match port with
  | None => true
  | Some p => bool_decide (d_dport d = Some p) || bool_decide (d_sport d = Some p)
  end && bool_decide (slice 0 1 (d_udp_payload d) = [4]).

Definition data_bytes (ds : list datagram) : Z :=
  Z.of_nat (sum_list_with (λ d, length (d_data d)) ds).

Definition finding_pv (f : finding) : pv :=
  PDict [("form", PStr (fi_form f)); ("where", PStr (fi_where f));
         ("datagram", PInt (fi_datagram f)); ("frames", PList (PInt <$> fi_frames f));
         ("offset", PInt (fi_offset f)); ("length", PInt (fi_length f));
         ("eth_src", PStr (fi_eth_src f)); ("label", PStr (fi_label f))].

Definition check_plaintext_absent (frames : list frame) (needles : needles_t)
    (c64_mac : option bytes) (min_c64_datagrams : Z) (require_type4_port : option Z)
    (partial_min : Z) : verdict :=
  if bool_decide (needles = []) || negb (existsb (λ ln, negb (bool_decide (ln.2 = []))) needles)
  then failed ("nothing to search for", [])
         [("needles", PList (PStr <$> sort_strings (fst <$> needles)))]
  else if bool_decide (frames = [])
  then inconclusive ("empty capture", []) [("frames", PInt 0); ("datagrams", PInt 0)]
  else
  let dgs := reassemble frames in
  if bool_decide (dgs = [])
  then inconclusive ("no datagrams", [PInt (len frames)])
         [("frames", PInt (len frames)); ("datagrams", PInt 0)]
  else
  let c64_dgs := match c64_mac with
                 | None => []
                 | Some want => List.filter (sent_by want) dgs
                 end in
  let c64_bytes := data_bytes c64_dgs in
  let type4 := List.filter (is_type4 require_type4_port) c64_dgs in
  let findings := find_plaintext dgs frames needles partial_min in
  let ev :=
    [("c64_datagrams", PInt (len c64_dgs)); ("c64_bytes", PInt c64_bytes);
     ("c64_type4_datagrams", PInt (len type4));
     ("c64_mac", of_opt (PStr ∘ fmt_mac) c64_mac);
     ("frames", PInt (len frames)); ("datagrams", PInt (len dgs));
     ("bytes_all_sources", PInt (data_bytes dgs));
     ("needles", PDict ((λ ln, (ln.1, PInt (len ln.2))) <$> needles));
     ("findings", PList (finding_pv <$> findings))] in
  match findings with
  | first :: _ => failed ("plaintext on the wire", [finding_pv first]) ev
  | [] =>
      match c64_mac with
      | None => inconclusive ("no C64 MAC supplied", []) ev
      | Some mac =>
          if len c64_dgs <? min_c64_datagrams
          then inconclusive ("too few datagrams from the C64",
                 [PInt (len c64_dgs); PStr (fmt_mac mac); PInt min_c64_datagrams]) ev
          else if bool_decide (is_Some require_type4_port) && bool_decide (type4 = [])
          then inconclusive ("no Type-4 from the C64",
                 [PInt (len c64_dgs); of_opt PInt require_type4_port]) ev
          else passed ("no plaintext",
                 [PInt c64_bytes; PInt (len c64_dgs); PInt (len type4);
                  PInt (data_bytes dgs); PInt (len frames)]) ev
      end
  end.
