(* ===== verification/LeakThms.v ===== *)
(** * The plaintext leak search: the properties

    The longest-run search is exact, a clean verdict means that no encoding of any plaintext
    stands in anything that was searched, and what escapes the search. *)

From S2P Require Export LeakSearch.

(** ** The longest run *)

Section longest_run.
Context (hay needle : bytes).

Definition run_at (start l : Z) : Prop := occurs (slice start (start + l) needle) hay.

Lemma run_shorter start l l' :
  0 ≤ start → 0 ≤ l' ≤ l → run_at start l → run_at start l'.
Proof.
  intros Hs Hl Ho. eapply occurs_sub; [exact Ho|].
  rewrite <- (slice_app start (start + l') (start + l)) by lia.
  exists 0. split; [done|]. exists [], (slice (start + l') (start + l) needle). done.
Qed.

(** Between the bounds the search keeps: [found] is a run (or 0), every longer run is at most
    [hi], and everything below [lo] is a run or not better than what was asked for. *)
Lemma bisect_spec fuel start lo hi found lo0 :
  0 ≤ start → hi - lo < Z.of_nat fuel ∧ lo ≤ hi + 1 → 0 < lo0 ≤ lo →
  (found = 0 ∧ lo = lo0 ∨ found = lo - 1 ∧ lo0 ≤ found ∧ run_at start found) →
  (∀ l, hi < l → start + l ≤ len needle → ¬ run_at start l) →
  start + hi ≤ len needle →
  let r := bisect fuel hay needle start lo hi found in
  (r = 0 ∨ lo0 ≤ r ∧ run_at start r ∧ start + r ≤ len needle) ∧
  (∀ l, lo0 ≤ l → r < l → start + l ≤ len needle → ¬ run_at start l).
Proof.
  intros Hs. revert lo hi found.
  induction fuel as [|fuel IH]; intros lo hi found Hf Hlo Hfound Hhi Hlen; cbn [bisect].
  - split; [|intros l ? ? ?; apply Hhi; destruct Hfound as [[-> ->]|(-> & ? & ?)]; lia].
    destruct Hfound as [[-> ->]|(-> & ? & ?)]; [by left|right]. split_and!; [lia|done|lia].
  - destruct (Z.leb_spec lo hi) as [Hle|].
    2:{ split; [|intros l ? ? ?; apply Hhi; destruct Hfound as [[-> ->]|(-> & ? & ?)]; lia].
        destruct Hfound as [[-> ->]|(-> & ? & ?)]; [by left|right]. split_and!; [lia|done|lia]. }
    set (mid := (lo + hi) / 2).
    assert (Hmid : lo ≤ mid ≤ hi)
      by (unfold mid; clear -Hle; Z.to_euclidean_division_equations; lia).
    destruct (py_in _ hay) eqn:Hin.
    + apply py_in_spec in Hin. apply IH; [lia|lia| |done|done]. right. split_and!; [lia|lia|done].
    + assert (Hn : ¬ run_at start mid) by (intros ?%py_in_spec; congruence).
      apply IH; [lia|lia|done| |lia]. intros l Hl Hb Hr.
      apply Hn. eapply run_shorter; [done| |exact Hr]. lia.
Qed.

Lemma scan_starts_spec s best best_at :
  0 ≤ s ≤ len needle → 0 ≤ best →
  (best = 0 ∧ best_at = -1 ∨
   0 < best ∧ 0 ≤ best_at ∧ best_at + best ≤ len needle ∧ run_at best_at best) →
  (∀ i l, 0 ≤ i < s → best < l → i + l ≤ len needle → ¬ run_at i l) →
  let '(r, at_) := scan_starts (seqZ s (len needle - s)) hay needle best best_at in
  (r = 0 ∧ at_ = -1 ∨ 0 < r ∧ 0 ≤ at_ ∧ at_ + r ≤ len needle ∧ run_at at_ r) ∧
  (∀ i l, 0 ≤ i → r < l → i + l ≤ len needle → ¬ run_at i l).
Proof.
  remember (Z.to_nat (len needle - s)) as n eqn:Hn. revert s best best_at Hn.
  induction n as [|n IH]; intros s best best_at Hn Hs Hb Hbest Hbound.
  - rewrite seqZ_nil by lia. cbn. split; [done|]. intros i l Hi Hl Hlen.
    apply Hbound; lia.
  - rewrite seqZ_cons by lia. cbn [scan_starts].
    replace (Z.pred (len needle - s)) with (len needle - Z.succ s) by lia.
    destruct (Z.leb_spec (len needle - s) best).
    { split; [done|]. intros i l Hi Hl Hlen. apply Hbound; lia. }
    destruct (bisect_spec (S (length needle)) s (best + 1) (len needle - s) 0 (best + 1))
      as [Hr Hmax]; [lia|unfold len in *; lia|lia|by left|intros; lia|lia|].
    set (r := bisect _ _ _ _ _ _ _) in *. destruct (Z.ltb_spec best r).
    + apply IH; [lia|lia|lia| |].
      * right. destruct Hr as [?|(_ & Hr & ?)]; [lia|]. split_and!; [lia|lia|lia|done].
      * intros i l Hi Hl Hlen. destruct (decide (i = s)) as [->|].
        -- apply Hmax; lia.
        -- apply Hbound; lia.
    + apply IH; [lia|lia|done|done|]. intros i l Hi Hl Hlen.
      destruct (decide (i = s)) as [->|]; [apply Hmax; lia|apply Hbound; lia].
Qed.

Lemma longest_run_spec :
  let '(r, at_) := longest_run hay needle in
  (r = 0 ∧ at_ = -1 ∨ 0 < r ∧ 0 ≤ at_ ∧ at_ + r ≤ len needle ∧ run_at at_ r) ∧
  (∀ i l, 0 ≤ i → r < l → i + l ≤ len needle → ¬ run_at i l).
Proof.
  unfold longest_run. pose proof (scan_starts_spec 0 0 (-1)) as Hs. rewrite Z.sub_0_r in Hs.
  pose proof (len_nonneg needle). apply Hs; [lia|lia|by left|intros; lia].
Qed.
End longest_run.

(** ** The forms *)

Lemma add_hits_spec form pat ats st :
  let st' := foldl (add_hit form pat) st ats in
  (∀ h, h ∈ st.1 → h ∈ st'.1) ∧ (∀ a, a ∈ st.2 → a ∈ st'.2) ∧
  (∀ h, h ∈ st'.1 → h ∈ st.1 ∨ ∃ a, a ∈ ats ∧ h = (form, a, len pat)) ∧
  (∀ a, a ∈ ats → a ∈ st'.2) ∧
  (∀ a, a ∈ st'.2 → a ∈ st.2 ∨ ∃ fo n, (fo, a, n) ∈ st'.1).
Proof.
  revert st. induction ats as [|a ats IH]; intros [out seen]; cbn [foldl fst snd].
  - split_and!; auto. intros a Ha. by apply elem_of_nil in Ha.
  - destruct (IH (add_hit form pat (out, seen) a)) as (H1 & H2 & H3 & H4 & H5).
    unfold add_hit in *. destruct (decide (a ∈ seen)) as [Hin|Hin]; cbn [fst snd] in *.
    + split_and!; [done|done| | |done].
      * intros h [?|(a' & ? & ?)]%H3; [by left|right]. exists a'. split; [by right|done].
      * intros a' [->|?]%elem_of_cons; auto.
    + split_and!.
      * intros h Hh. apply H1, elem_of_app. by left.
      * intros a' Ha'. apply H2. by right.
      * intros h [Hh|(a' & ? & ?)]%H3.
        -- apply elem_of_app in Hh as [?| ->%list_elem_of_singleton]; [by left|right].
           exists a. split; [by left|done].
        -- right. exists a'. split; [by right|done].
      * intros a' [->|?]%elem_of_cons; [apply H2; by left|auto].
      * intros a' [Ha'|?]%H5; [|by right]. apply elem_of_cons in Ha' as [->|?]; [|by left].
        right. eexists _, _. apply H1, elem_of_app. right. by apply list_elem_of_singleton.
Qed.

Lemma search_form_spec hay needle st fp :
  let st' := search_form hay needle st fp in
  (∀ h, h ∈ st.1 → h ∈ st'.1) ∧ (∀ a, a ∈ st.2 → a ∈ st'.2) ∧
  (∀ h, h ∈ st'.1 → h ∈ st.1 ∨
     ∃ a, stands_at fp.2 hay a ∧ h = (fp.1, a, len fp.2)) ∧
  (fp.1 = "exact" ∨ fp.2 ≠ needle → ∀ a, stands_at fp.2 hay a → a ∈ st'.2) ∧
  (∀ a, a ∈ st'.2 → a ∈ st.2 ∨ ∃ fo n, (fo, a, n) ∈ st'.1).
Proof.
  destruct fp as [form pat]. unfold search_form. cbn [fst snd].
  destruct (negb _ && _) eqn:Hskip.
  - apply andb_true_iff in Hskip as [He%negb_true_iff%bool_decide_eq_false
      Hp%bool_decide_eq_true]. split_and!; auto. intros [?|?]; done.
  - destruct (add_hits_spec form pat (matches pat hay) st) as (H1 & H2 & H3 & H4 & H5).
    split_and!; auto.
    + intros h [?|(a & Ha%elem_of_matches & ->)]%H3; [by left|right; eauto].
    + intros _ a Ha. apply H4. by apply elem_of_matches.
Qed.

Lemma search_forms_hit hay needle form at_ n :
  (form, at_, n) ∈ search_forms hay needle →
  ∃ pat, (form, pat) ∈ forms needle ∧ n = len pat ∧ stands_at pat hay at_.
Proof.
  unfold search_forms. generalize (forms needle). intros fs.
  assert (Hgen : ∀ st, (form, at_, n) ∈ (foldl (search_form hay needle) st fs).1 →
    (form, at_, n) ∈ st.1 ∨
    ∃ pat, (form, pat) ∈ fs ∧ n = len pat ∧ stands_at pat hay at_).
  { induction fs as [|fp fs IH]; intros st; cbn [foldl]; [auto|].
    intros [Hin|(pat & ? & ?)]%IH.
    - destruct (search_form_spec hay needle st fp) as (_ & _ & H3 & _).
      apply H3 in Hin as [?|(a & Ha & [= -> -> ->])]; [by left|right].
      exists fp.2. rewrite <- surjective_pairing. split_and!; [by left|done|done].
    - right. exists pat. split; [by right|done]. }
  intros [Hn|?]%Hgen; [by apply elem_of_nil in Hn|done].
Qed.

(** No hit means that no form stands anywhere. *)
Lemma search_forms_nil hay needle form pat :
  search_forms hay needle = [] → (form, pat) ∈ forms needle → ¬ occurs pat hay.
Proof.
  intros Hnil Hform.
  (* a pattern equal to the needle is searched as the exact form *)
  assert (Hsearched : ∃ form', (form', pat) ∈ forms needle ∧ (form' = "exact" ∨ pat ≠ needle)).
  { destruct (decide (pat = needle)) as [->|Hne]; [|by exists form; auto].
    exists "exact". split; [by left|by left]. }
  clear form Hform. destruct Hsearched as (form & Hform & Hs). intros [a Ha].
  unfold search_forms in Hnil.
  assert (Hgen : ∀ fs st, (∀ b, b ∈ st.2 → ∃ fo n, (fo, b, n) ∈ st.1) →
    ((form, pat) ∈ fs ∨ a ∈ st.2) →
    ∃ fo n, (fo, a, n) ∈ (foldl (search_form hay needle) st fs).1).
  { induction fs as [|fp fs IH]; intros st Hinv Hor; cbn [foldl].
    - destruct Hor as [Hn|Hin]; [by apply elem_of_nil in Hn|auto].
    - destruct (search_form_spec hay needle st fp) as (H1 & H2 & _ & H4 & H5). apply IH.
      + intros b [Hb|?]%H5; [|done]. destruct (Hinv b Hb) as (fo & n & Hin). eauto.
      + destruct Hor as [Hin|Hin]; [|right; auto].
        apply elem_of_cons in Hin as [<-|Hin]; [right; by apply H4|by left]. }
  destruct (Hgen (forms needle) ([], [])) as (fo & n & Hin); [|by left|].
  - intros b Hb. by apply elem_of_nil in Hb.
  - rewrite Hnil in Hin. by apply elem_of_nil in Hin.
Qed.

(** ** The search in a capture *)

Lemma mjoin_nil {A} (l : list (list A)) x : mjoin l = [] → x ∈ l → x = [].
Proof.
  induction l as [|y l IH]; intros Hj Hin; [by apply elem_of_nil in Hin|].
  cbn in Hj. apply app_eq_nil in Hj as [-> Hj].
  apply elem_of_cons in Hin as [->|Hin]; [done|by apply IH].
Qed.

Lemma elem_of_imap {A B} (f : nat → A → B) l x : x ∈ l → ∃ i, f i x ∈ imap f l.
Proof.
  intros [i Hi]%list_elem_of_lookup_1. exists i. apply list_elem_of_lookup. exists i.
  by rewrite list_lookup_imap, Hi.
Qed.

Lemma slice_whole {A} (l : list A) : slice 0 (0 + len l) l = l.
Proof. by apply slice_all. Qed.

(** Nothing found in a datagram: no form stands in it, nor a run as long as asked for. *)
Lemma find_in_datagram_nil pm di d label needle :
  needle ≠ [] → find_in_datagram pm di d (label, needle) = [] →
  search_forms (d_data d) needle = [] ∧
  ∀ i l, 0 ≤ i → 0 < l → pm ≤ l → i + l ≤ len needle →
    ¬ occurs (slice i (i + l) needle) (d_data d).
Proof.
  intros Hne. unfold find_in_datagram. rewrite bool_decide_eq_false_2 by done.
  case_bool_decide as Hhits; cbn [negb]; [|by intros ?%fmap_nil_inv].
  pose proof (longest_run_spec (d_data d) needle) as Hrun.
  destruct (longest_run (d_data d) needle) as [r at_]. destruct Hrun as [Hr Hmax].
  destruct (_ && _) eqn:Hpart; [done|]. intros _. split; [done|].
  assert (Hlen : r < len needle).
  { destruct (decide (r < len needle)) as [|Hge]; [done|]. exfalso.
    assert (Hpos : 0 < len needle)
      by (destruct needle; [done|]; rewrite len_cons; pose proof (len_nonneg needle); lia).
    destruct Hr as [[? ?]|(? & ? & ? & Ho)]; [lia|].
    assert (at_ = 0 ∧ r = len needle) as [-> ->] by lia. unfold run_at in Ho.
    rewrite slice_whole in Ho. by apply (search_forms_nil _ _ "exact" needle Hhits (list_elem_of_here _ _)). }
  intros i l Hi Hl Hpm Hil. apply Hmax; [done| |done].
  apply andb_false_iff in Hpart as [?%Z.leb_gt|?%Z.ltb_ge]; lia.
Qed.

Lemma find_plaintext_nil dgs frames needles pm label needle :
  find_plaintext dgs frames needles pm = [] → (label, needle) ∈ needles → needle ≠ [] →
  (∀ d, d ∈ dgs → search_forms (d_data d) needle = [] ∧
     ∀ i l, 0 ≤ i → 0 < l → pm ≤ l → i + l ≤ len needle →
       ¬ occurs (slice i (i + l) needle) (d_data d)) ∧
  (∀ f hay base form, f ∈ frames → frame_text f = Some (hay, base, form) →
     search_forms hay needle = []).
Proof.
  unfold find_plaintext. intros [Hd Hf]%app_eq_nil Hln Hne. split.
  - intros d Hin. destruct (elem_of_imap (λ di dg, mjoin (find_in_datagram pm (Z.of_nat di) dg
      <$> needles)) dgs d Hin) as [di Hdi].
    pose proof (mjoin_nil _ _ Hd Hdi) as Hnil.
    apply (find_in_datagram_nil pm (Z.of_nat di) d label needle Hne).
    eapply mjoin_nil; [exact Hnil|].
    by apply (list_elem_of_fmap_2 (find_in_datagram pm (Z.of_nat di) d)).
  - intros f hay base form Hin Htext.
    assert (Hnil : find_in_frame needles f = []).
    { eapply mjoin_nil; [exact Hf|]. by apply list_elem_of_fmap_2. }
    unfold find_in_frame in Hnil. rewrite Htext in Hnil.
    set (g := λ _ : string * bytes, _) in Hnil.
    assert (Hg : g (label, needle) = []).
    { eapply mjoin_nil; [exact Hnil|]. by apply list_elem_of_fmap_2. }
    unfold g in Hg. rewrite bool_decide_eq_false_2 in Hg by done. by apply fmap_nil_inv in Hg.
Qed.

(** ** The verdict *)

Lemma check_plaintext_absent_pass frames needles mac minc port pm :
  v_ok (check_plaintext_absent frames needles mac minc port pm) = true →
  find_plaintext (reassemble frames) frames needles pm = [] ∧
  ∃ m, mac = Some m ∧ minc ≤ len (List.filter (sent_by m) (reassemble frames)) ∧
    (∀ p, port = Some p →
       List.filter (is_type4 (Some p)) (List.filter (sent_by m) (reassemble frames)) ≠ []).
Proof.
  unfold check_plaintext_absent. destruct (_ || _); [done|]. case_bool_decide; [done|].
  case_bool_decide; [done|]. destruct (find_plaintext _ _ _ _) as [|first rest]; [|done].
  destruct mac as [m|]; [|done].
  destruct (Z.ltb_spec (len (List.filter (sent_by m) (reassemble frames))) minc); [done|].
  destruct (_ && _) eqn:Ht; [done|]. intros _. split; [done|]. exists m.
  split_and!; [done|lia|]. intros p -> Hnil. rewrite Hnil in Ht. done.
Qed.

Lemma occurs_not_nil (pat : bytes) : pat ≠ [] → ¬ occurs pat [].
Proof.
  intros Hne [i Hi]. pose proof (stands_at_bound _ _ _ Hi) as Hb.
  destruct pat; [done|]. unfold len in Hb. cbn [length] in Hb. lia.
Qed.

(** No form of a plaintext is empty. *)
Lemma forms_not_nil needle form pat : needle ≠ [] → (form, pat) ∈ forms needle → pat ≠ [].
Proof.
  intros Hne Hin Hnil. apply Hne, nil_length_inv. rewrite Hnil in Hin. unfold forms in Hin.
  rewrite !elem_of_cons, elem_of_nil in Hin.
  destruct Hin as [[= _ <-]|[[= _ Hl]|[[= _ Hl]|[[= _ Hl]|[]]]]]; [done|..];
    apply (f_equal length) in Hl; cbn [length] in Hl;
    unfold petscii_shifted_form, petscii_form in Hl;
    by rewrite ?length_rev, ?length_fmap in Hl.
Qed.

(** What the text taken from a frame covers: the padding behind a datagram, all of another. *)
Lemma frame_text_absent f pat :
  pat ≠ [] → (∀ hay base where_, frame_text f = Some (hay, base, where_) → ¬ occurs pat hay) →
  let body := from 14 (f_raw f) in
  match ip_frame f with
  | Some _ => 4 ≤ len body → ¬ occurs pat (from (from_be (slice 2 4 body)) body)
  | None => ¬ occurs pat body
  end.
Proof.
  intros Hpat Habs body. unfold frame_text in Habs. fold body in Habs. unfold ip_frame.
  destruct (if _ =? _ then _ else _).
  - intros Hlen. rewrite (proj2 (Z.ltb_ge _ _)) in Habs by lia.
    case_bool_decide as Hnil; [rewrite Hnil; by apply occurs_not_nil|]. by eapply Habs.
  - case_bool_decide as Hnil; [rewrite Hnil; by apply occurs_not_nil|]. by eapply Habs.
Qed.

Module Leaks.
(** C34. The longest-run search is exact: what it returns is a substring of the plaintext that
    occurs in the text, at the offset returned, and no longer substring occurs; 0 and -1 mean
    that not even one byte does.  Bisecting over the length is sound because a prefix of a
    run is a run. *)
Theorem longest_run_exact hay needle :
  let '(r, at_) := longest_run hay needle in
  (r = 0 ∧ at_ = -1 ∨
   0 < r ∧ 0 ≤ at_ ∧ at_ + r ≤ len needle ∧ occurs (slice at_ (at_ + r) needle) hay) ∧
  (∀ i l, 0 ≤ i → r < l → i + l ≤ len needle → ¬ occurs (slice i (i + l) needle) hay).
Proof. apply longest_run_spec. Qed.

(** The search for whole plaintexts is sound and complete: every hit is an encoding of the
    plaintext standing at the reported offset, with its length, and if there is none then no
    encoding, as it is, in either PETSCII case or reversed, occurs at all. *)
Theorem search_forms_correct hay needle :
  (∀ form at_ n, (form, at_, n) ∈ search_forms hay needle →
     ∃ pat, (form, pat) ∈ forms needle ∧ n = len pat ∧ stands_at pat hay at_) ∧
  (search_forms hay needle = [] ↔ ∀ form pat, (form, pat) ∈ forms needle → ¬ occurs pat hay).
Proof.
  split; [apply search_forms_hit|]. split.
  - intros Hnil form pat. by apply search_forms_nil.
  - intros Hno. destruct (search_forms hay needle) as [|[[form at_] n] l] eqn:Hs; [done|].
    destruct (search_forms_hit hay needle form at_ n) as (pat & Hin & _ & Hat);
      [rewrite Hs; by left|]. destruct (Hno form pat Hin). by exists at_.
Qed.

(** C1. A passing leak verdict means absence: for a capture with distinct frame numbers, no
    encoding of any named plaintext occurs in any reassembled datagram, in the payload of any
    unfragmented IPv4 frame, in the padding behind one, or anywhere in another frame; nor
    does any part of it as long as the partial limit occur in a datagram; and the C64 did
    send at least the required number of datagrams, through the tunnel when a port was given. *)
Theorem pass_means_absent frames needles mac minc port pm label needle :
  NoDup (f_index <$> frames) → Forall frame_wf frames →
  v_ok (check_plaintext_absent frames needles mac minc port pm) = true →
  (label, needle) ∈ needles → needle ≠ [] →
  (∀ form pat, (form, pat) ∈ forms needle →
    (∀ d, d ∈ reassemble frames → ¬ occurs pat (d_data d)) ∧
    (∀ f, f ∈ frames → is_Some (ip_frame f) → is_fragmented f = false →
       ¬ occurs pat (f_ip_payload f)) ∧
    (∀ f, f ∈ frames → let body := from 14 (f_raw f) in
       match ip_frame f with
       | Some _ => 4 ≤ len body → ¬ occurs pat (from (from_be (slice 2 4 body)) body)
       | None => ¬ occurs pat body
       end)) ∧
  (∀ d i l, d ∈ reassemble frames → 0 ≤ i → 0 < l → pm ≤ l → i + l ≤ len needle →
     ¬ occurs (slice i (i + l) needle) (d_data d)) ∧
  ∃ m, mac = Some m ∧ minc ≤ len (List.filter (sent_by m) (reassemble frames)) ∧
    (∀ p, port = Some p →
       List.filter (is_type4 (Some p)) (List.filter (sent_by m) (reassemble frames)) ≠ []).
Proof.
  intros Hnd Hwf Hok Hln Hne.
  apply check_plaintext_absent_pass in Hok as [Hnil Hmac].
  destruct (find_plaintext_nil _ _ _ _ _ _ Hnil Hln Hne) as [Hdgs Hframes].
  split_and!; [|by intros d i l Hd; apply (Hdgs d Hd)|done].
  intros form pat Hform.
  assert (Hd : ∀ d, d ∈ reassemble frames → ¬ occurs pat (d_data d)).
  { intros d Hd. by apply (search_forms_nil _ needle form), Hform; apply Hdgs. }
  split_and!; [done| |].
  - intros f Hin [p Hp] Hfrag. rewrite Forall_forall in Hwf. destruct (Hwf f Hin) as [_ _ _ _ Hip _ _ _ _ _].
    destruct (reassemble_whole frames f p Hnd Hin Hp Hfrag) as (d & Hdin & <- & _); [|by apply Hd].
    destruct (f_ip_proto f), (f_frag_off f); cbn; try done; lia.
  - intros f Hin. apply (frame_text_absent f pat); [by eapply forms_not_nil|].
    intros hay base where_ Ht. apply (search_forms_nil _ needle form); [|done].
    by eapply Hframes.
Qed.

(** *** Frames on the wire *)

Definition c64_mac : bytes := [0; 14; 58; 100; 100; 100].
Definition host_mac : bytes := [160; 206; 200; 221; 244; 249].

(** An Ethernet frame from the C64 with an IPv4 packet, of identification $1234. *)
Definition wire_frame (flags_off : Z) (payload : bytes) : bytes :=
  host_mac ++ c64_mac ++ [8; 0]
  ++ [0x45; 0] ++ rev (le_bytes 2 (20 + len payload)) ++ [0x12; 0x34]
  ++ rev (le_bytes 2 flags_off) ++ [64; 17; 0; 0] ++ [10; 0; 66; 200] ++ [10; 0; 66; 1]
  ++ payload.

Definition frames_on_wire (raws : list bytes) : list frame :=
  omap id (imap (λ i raw, decode_frame (Z.of_nat i) (S754_zero false) raw) raws).

(** The header of a UDP datagram of [n] payload bytes to port 51820. *)
Definition udp_header (n : Z) : bytes := [0xCA; 0x6C; 0xCA; 0x6C] ++ rev (le_bytes 2 (8 + n)) ++ [0; 0].

Definition secret : bytes := bytes_of_string "TOP SECRET TEXT!".
Definition sealed : bytes := [4; 0; 0; 0] ++ seqZ 100 12.

(** Two datagrams, each in two fragments, with the identification ip65 gives every packet. *)
Definition fused : list bytes :=
  [wire_frame 0x2000 (udp_header 24 ++ secret); wire_frame 3 (seqZ 200 8);
   wire_frame 0x2000 (udp_header 24 ++ sealed); wire_frame 3 (seqZ 220 8)].

(** What escapes: two fragmented datagrams with the same identification, which is what
    ip65 puts on every packet, are fused into one, the later fragments overwriting the
    earlier; a plaintext that stood in full in one captured frame is then found nowhere and
    the verdict passes. *)
Theorem fused_fragments_hide_plaintext :
  let frames := frames_on_wire fused in
  v_ok (check_plaintext_absent frames [("payload", secret)] (Some c64_mac) 1 (Some 51820)
    PARTIAL_RUN_MIN) = true ∧
  length frames = 4%nat ∧ Forall (λ f, f_eth_src f = c64_mac) frames ∧
  ∃ f, f ∈ frames ∧ occurs secret (f_ip_payload f).
Proof.
  split_and!; [by vm_compute|by vm_compute|apply (bool_decide_unpack _); by vm_compute|].
  assert (Hex : Exists (λ f, py_in secret (f_ip_payload f) = true) (frames_on_wire fused))
    by (apply (bool_decide_unpack _); by vm_compute).
  apply Exists_exists in Hex as (f & Hin & Ho%py_in_spec). by exists f.
Qed.

(** A clean capture: a sealed datagram from the C64, and one of the host. *)
Definition clean : list bytes :=
  [wire_frame 0 (udp_header 16 ++ sealed); Captures.demo_arp].

Lemma clean_wf : Forall frame_wf (frames_on_wire clean).
Proof.
  apply Forall_forall. intros f Hf. unfold frames_on_wire in Hf.
  apply list_elem_of_omap in Hf as (o & Ho & Hid). cbn in Hid. subst o.
  apply list_elem_of_lookup in Ho as [i Hi].
  rewrite list_lookup_imap in Hi. destruct (clean !! i) as [raw|] eqn:Hraw; [|done].
  injection Hi as Hi. eapply decode_frame_wf; [|exact Hi].
  assert (Hall : Forall is_bytes clean) by (apply (bool_decide_unpack _); by vm_compute).
  by apply (Forall_lookup_1 _ _ _ _ Hall Hraw).
Qed.

Lemma pass_means_absent_witness :
  Forall (λ d, ¬ occurs (rev secret) (d_data d)) (reassemble (frames_on_wire clean)).
Proof.
  apply Forall_forall.
  destruct (pass_means_absent (frames_on_wire clean) [("payload", secret)] (Some c64_mac) 1
    (Some 51820) PARTIAL_RUN_MIN "payload" secret) as (Habs & _).
  - apply (bool_decide_unpack _). by vm_compute.
  - exact clean_wf.
  - by vm_compute.
  - by left.
  - done.
  - refine (proj1 (Habs "reversed" (rev secret) _)). right. right. right. by left.
Defined.
End Leaks.
