(* ===== verification/WireChecks.v ===== *)
(** * Checks of one run (tools/ip65_hw_checks.py)

    Who sent the captured frames, whether the handshake and the transport completed, whether a
    lease was issued: the verdict functions on frames and on bytes read back from the C64. *)

From S2P Require Export Pcap.

Definition IP65_DEFAULT_CFG_IP : bytes := [192; 168; 1; 64].
Definition IP65_DEFAULT_CFG_NETMASK : bytes := [255; 255; 255; 0].
Definition IP65_DEFAULT_CFG_GATEWAY : bytes := [192; 168; 1; 1].
Definition IP65_DEFAULT_CFG_MAC : bytes := [0x00; 0x80; 0x10; 0x00; 0x51; 0x00].

Definition WG_STATE_IDLE : Z := 0.
Definition WG_STATE_HS_SENT : Z := 1.
Definition WG_STATE_ACTIVE : Z := 2.

(** ** Who sent it *)

Record source_split := SourceSplit {
  ss_c64 : list frame;
  ss_host : list frame;
  ss_other : list frame;
}.

Definition add_source (c64_mac host_mac : bytes) (s : source_split) (f : frame) :
    source_split :=
  if bool_decide (f_eth_src f = c64_mac)
  then SourceSplit (ss_c64 s ++ [f]) (ss_host s) (ss_other s)
  else if bool_decide (f_eth_src f = host_mac)
  then SourceSplit (ss_c64 s) (ss_host s ++ [f]) (ss_other s)
  else SourceSplit (ss_c64 s) (ss_host s) (ss_other s ++ [f]).

Definition split_by_source (frames : list frame) (c64_mac host_mac : bytes) : source_split :=
  foldl (add_source c64_mac host_mac) (SourceSplit [] [] []) frames.

Definition on_port (port : Z) (f : frame) : bool :=
  bool_decide (f_dport f = Some port) || bool_decide (f_sport f = Some port).

Definition source_macs (frames : list frame) : list string :=
  sort_unique ((fmt_mac ∘ f_eth_src) <$> frames).

Definition check_c64_originated (frames : list frame) (c64_mac host_mac : bytes)
    (min_frames : Z) (udp_port : option Z) : verdict :=
  if bool_decide (c64_mac = host_mac) then failed ("same address", []) [] else
  let s := split_by_source frames c64_mac host_mac in
  let other_macs := PList (PStr <$> source_macs (ss_other s)) in
  let ev :=
    [("c64_mac", PStr (fmt_mac c64_mac)); ("host_mac", PStr (fmt_mac host_mac));
     ("from_c64", PInt (len (ss_c64 s))); ("from_host", PInt (len (ss_host s)));
     ("from_other", PInt (len (ss_other s))); ("other_macs", other_macs)] in
  if negb (bool_decide (ss_other s = []))
  then failed ("unexpected MACs", [PInt (len (ss_other s)); other_macs]) ev else
  match udp_port with
  | Some port =>
      let matching := List.filter (on_port port) (ss_c64 s) in
      let ev := ev ++ [("from_c64_on_port", PInt (len matching))] in
      if len matching <? min_frames
      then failed ("too few frames on the port",
             [PInt (len matching); PInt port; PInt min_frames; PInt (len (ss_host s))]) ev
      else passed ("frames on the port", [PInt (len matching); PInt port]) ev
  | None =>
      if len (ss_c64 s) <? min_frames
      then failed ("too few frames",
             [PInt (len (ss_c64 s)); PInt min_frames; PInt (len (ss_host s))]) ev
      else passed ("frames from the C64", [PInt (len (ss_c64 s)); PInt (len (ss_host s))]) ev
  end.

Definition check_mac_on_wire (frames : list frame) (mac host_mac : bytes) (min_frames : Z) :
    verdict :=
  let ev := [("c64_mac", PStr (fmt_mac mac)); ("host_mac", PStr (fmt_mac host_mac))] in
  if negb (len mac =? 6) then failed ("MAC length", [PInt (len mac)]) ev else
  if bool_decide (mac = replicate 6 0) then failed ("never programmed", []) ev else
  if bool_decide (mac = replicate 6 0xff) then failed ("broadcast", []) ev else
  if truthy (Z.land (byte_at mac 0) 0x01)
  then failed ("multicast bit", [PStr (fmt_mac mac)]) ev else
  if bool_decide (mac = IP65_DEFAULT_CFG_MAC)
  then failed ("build-time default", [PStr (fmt_mac mac)]) ev else
  if bool_decide (mac = host_mac) then failed ("equals the Mac's", []) ev else
  let seen := List.filter (λ f, bool_decide (f_eth_src f = mac)) frames in
  let sources := PList (PStr <$> source_macs frames) in
  let ev := ev ++ [("frames_with_that_source", PInt (len seen)); ("sources_seen", sources)] in
  if len seen <? min_frames
  then failed ("too few frames with that source",
         [PStr (fmt_mac mac); PInt (len seen); PInt min_frames; sources]) ev
  else passed ("frames on the cable", [PInt (len seen); PStr (fmt_mac mac)]) ev.

(** ** The handshake *)

Definition state_text (z : Z) : string :=
  if z =? WG_STATE_IDLE then "IDLE"
  else if z =? WG_STATE_HS_SENT then "HS_SENT" else "unknown(" +:+ dec z +:+ ")".

Definition check_handshake_complete (c64_wg_state : option Z) (responder_complete : bool)
    (frames : option (list frame)) (c64_mac : option bytes) : verdict :=
  let ev :=
    [("c64_wg_state", of_opt PInt c64_wg_state);
     ("responder_complete", PBool responder_complete);
     ("active_value", PInt WG_STATE_ACTIVE)] in
  match c64_wg_state with
  | None => failed ("wg_state never read", []) ev
  | Some state =>
      if negb responder_complete then failed ("responder incomplete", []) ev else
      if negb (state =? WG_STATE_ACTIVE)
      then failed ("C64 not ACTIVE", [PStr (state_text state); PInt state; PInt WG_STATE_ACTIVE]) ev
      else
      let done_ := passed ("ACTIVE on both ends", []) in
      match frames, c64_mac with
      | Some frames, Some mac =>
          let from_c64 := List.filter (λ f, bool_decide (f_eth_src f = mac)) frames in
          let ev := ev ++ [("frames_from_c64", PInt (len from_c64))] in
          if bool_decide (from_c64 = []) then failed ("no frame from the C64", []) ev
          else done_ ev
      | _, _ => done_ ev
      end
  end.

(** ** The transport *)

(** [sum(a == b for a, b in zip(r, expected))] *)
Definition bytes_in_common (r expected : bytes) : Z :=
  Z.of_nat (length (List.filter (λ p, bool_decide (p.1 = p.2)) (zip r expected))).

(** [max(l, key=key)]: the first of the elements with the greatest key. *)
Definition max_by (key : bytes → Z) (x : bytes) (l : list bytes) : bytes :=
  foldl (λ best y, if key best <? key y then y else best) x l.

Definition check_transport_c64_to_mac (received : list bytes) (expected : bytes) : verdict :=
  let ev := [("expected_len", PInt (len expected)); ("received_count", PInt (len received));
             ("received_lens", PList ((PInt ∘ len) <$> received))] in
  if bool_decide (expected = []) then failed ("no expected payload", []) ev else
  match received with
  | [] => failed ("decrypted nothing", []) ev
  | first :: rest =>
      match list_find (λ got, got = expected) received with
      | Some (i, _) =>
          passed ("decrypted the staged payload",
            [PInt (len expected); PInt (Z.of_nat i); PInt (len received)])
            (ev ++ [("match_index", PInt (Z.of_nat i))])
      | None =>
          let best := max_by (λ r, bytes_in_common r expected) first rest in
          let same := bytes_in_common best expected in
          failed ("no payload equals the staged one",
            [PInt (len received); PInt (len best); PInt same; PInt (len expected)])
            (ev ++ [("closest_len", PInt (len best)); ("closest_matching_bytes", PInt same);
                    ("closest_prefix", PStr (hex_bytes (slice 0 32 best)));
                    ("expected_prefix", PStr (hex_bytes (slice 0 32 expected)))])
      end
  end.

(** [c64_len] is the length word the C64 recorded, not negative. *)
Definition check_transport_mac_to_c64 (c64_plaintext : option bytes) (c64_len : option N)
    (expected : bytes) : verdict :=
  let ev := [("expected_len", PInt (len expected)); ("c64_len", of_opt (PInt ∘ Z.of_N) c64_len);
             ("c64_prefix", PStr (hex_bytes (slice 0 32 (default [] c64_plaintext))));
             ("expected_prefix", PStr (hex_bytes (slice 0 32 expected)))] in
  if bool_decide (expected = []) then failed ("no expected reply", []) ev else
  match c64_plaintext, c64_len with
  | Some plaintext, Some n =>
      let n := Z.of_N n in
      if negb (n =? len expected)
      then failed ("recorded length", [PInt n; PInt (len expected)]) ev else
      let got := slice 0 n plaintext in
      if negb (bool_decide (got = expected)) then
        let same := bytes_in_common got expected in
        failed ("bytes differ", [PInt n; PInt same; PInt (len expected)])
          (ev ++ [("matching_bytes", PInt same)])
      else passed ("decrypted the staged reply", [PInt (len expected)]) ev
  | _, _ => failed ("receive buffer never read", []) ev
  end.

(** ** The lease *)

Definition subnet_want (subnet : string) : list string := take 3 (split_on "." subnet).
Definition off_subnet (octets : bytes) (subnet : option string) : bool :=
  match subnet with
  | Some s => negb (bool_decide ((dec <$> take 3 octets) = subnet_want s))
  | None => false
  end.
Definition not_pinned (text : string) (expect_ip : option string) : bool :=
  match expect_ip with
  | Some want => negb (bool_decide (text = want))
  | None => false
  end.

Definition check_dhcp_lease (cfg_ip : option bytes) (subnet host_ip expect_ip : option string) :
    verdict :=
  let shown := match cfg_ip with Some (b :: l) => PStr (fmt_ip (b :: l)) | _ => PNone end in
  let ev := [("cfg_ip", shown); ("subnet", of_opt PStr subnet); ("host_ip", of_opt PStr host_ip)] in
  match cfg_ip with
  | None => failed ("cfg_ip never read", []) ev
  | Some octets =>
      if negb (len octets =? 4) then failed ("cfg_ip length", [PInt (len octets)]) ev else
      let text := fmt_ip octets in
      if bool_decide (octets = [0; 0; 0; 0]) then failed ("no lease", []) ev else
      if bool_decide (octets = IP65_DEFAULT_CFG_IP)
      then failed ("build-time default", [PStr text]) ev else
      if byte_at octets 0 =? 127 then failed ("loopback", [PStr text]) ev else
      if 224 <=? byte_at octets 0 then failed ("multicast or reserved", [PStr text]) ev else
      if bool_decide (octets = [255; 255; 255; 255]) then failed ("broadcast", []) ev else
      if (byte_at octets 0 =? 169) && (byte_at octets 1 =? 254)
      then failed ("link-local", [PStr text]) ev else
      if bool_decide (host_ip = Some text) then failed ("the host's address", [PStr text]) ev else
      if off_subnet octets subnet
      then failed ("not on the rig subnet",
             [PStr text; PList (PStr <$> from_option subnet_want [] subnet)]) ev
      else if not_pinned text expect_ip
      then failed ("not the pinned address", [PStr text; of_opt PStr expect_ip]) ev
      else passed ("lease held", [PStr text]) ev
  end.

(** [still_default] and its companions: what one field adds to the lists. *)
Record config_audit := ConfigAudit {
  ca_ev : dict;
  ca_default : list string;
  ca_unread : list string;
  ca_ambiguous : list string;
}.

Definition audit_field (a : config_audit) (field : string * option bytes * bytes * bool) :
    config_audit :=
  let '(name, got, default, decisive) := field in
  match got with
  | None => ConfigAudit (ca_ev a ++ [(name, PNone)]) (ca_default a) (ca_unread a ++ [name])
              (ca_ambiguous a)
  | Some got =>
      let ev := ca_ev a ++ [(name, PStr (if len got =? 6 then fmt_mac got else fmt_ip got))] in
      if negb (bool_decide (got = default))
      then ConfigAudit ev (ca_default a) (ca_unread a) (ca_ambiguous a)
      else if decisive
      then ConfigAudit ev (ca_default a ++ [name]) (ca_unread a) (ca_ambiguous a)
      else ConfigAudit ev (ca_default a) (ca_unread a) (ca_ambiguous a ++ [name])
  end.

Definition check_ip65_config_written (cfg_ip cfg_netmask cfg_gateway cfg_mac : option bytes) :
    verdict :=
  let a := foldl audit_field (ConfigAudit [] [] [] [])
    [("cfg_ip", cfg_ip, IP65_DEFAULT_CFG_IP, true);
     ("cfg_netmask", cfg_netmask, IP65_DEFAULT_CFG_NETMASK, false);
     ("cfg_gateway", cfg_gateway, IP65_DEFAULT_CFG_GATEWAY, true);
     ("cfg_mac", cfg_mac, IP65_DEFAULT_CFG_MAC, true)] in
  let ev := ca_ev a ++ [("still_default", PList (PStr <$> ca_default a));
                        ("default_but_not_decisive", PList (PStr <$> ca_ambiguous a))] in
  if negb (bool_decide (ca_unread a = []))
  then failed ("never read", [PList (PStr <$> ca_unread a)]) ev
  else if negb (bool_decide (ca_default a = []))
  then failed ("build-time constants", [PList (PStr <$> ca_default a)]) ev
  else passed ("written at run time", [PList (PStr <$> ca_ambiguous a)]) ev.
