(* ===== verification/WireThms.v ===== *)
(** * Checks of one run: the properties

    Each check passes exactly when what its name claims holds of the frames and of the bytes
    read back. *)

From S2P Require Export WireChecks PcapThms.
#[local] Set Warnings "-clear-no-such-hyp".

(** ** Early returns *)

(** A guard that returns a failure is passed exactly when it does not hold. *)
Lemma guard_ok (g : bool) r ev k :
  v_ok (if g then failed r ev else k) = true ↔ g = false ∧ v_ok k = true.
Proof. destruct g; cbn; intuition discriminate. Qed.

Lemma and_True_r (P : Prop) : P ∧ True ↔ P.
Proof. tauto. Qed.

Lemma passed_ok r ev : v_ok (passed r ev) = true ↔ True.
Proof. done. Qed.

(** Normalises the guards of a check to propositions. *)
Ltac guards :=
  cbv zeta; rewrite ?guard_ok, ?passed_ok, ?and_True_r;
  rewrite ?negb_false_iff, ?bool_decide_eq_false, ?bool_decide_eq_true, ?Z.ltb_ge, ?Z.leb_gt,
    ?Z.eqb_eq, ?Z.eqb_neq.

(** ** Sources *)

Definition from_mac (mac : bytes) (f : frame) : bool := bool_decide (f_eth_src f = mac).

Lemma split_by_source_spec frames c64 host :
  split_by_source frames c64 host =
  SourceSplit (List.filter (from_mac c64) frames)
    (List.filter (λ f, negb (from_mac c64 f) && from_mac host f) frames)
    (List.filter (λ f, negb (from_mac c64 f) && negb (from_mac host f)) frames).
Proof.
  unfold split_by_source. induction frames as [|f frames IH] using rev_ind; [done|].
  rewrite foldl_app, IH, !List.filter_app. cbn. unfold add_source, from_mac.
  repeat case_bool_decide; cbn; by rewrite ?app_nil_r.
Qed.

Lemma filter_nil_iff {A} (f : A → bool) l : List.filter f l = [] ↔ ∀ x, x ∈ l → f x = false.
Proof.
  induction l as [|x l IH]; cbn.
  - split; [|done]. intros _ x Hx. by apply elem_of_nil in Hx.
  - destruct (f x) eqn:Hx.
    + split; [done|]. intros Hall. by rewrite (Hall x (list_elem_of_here _ _)) in Hx.
    + rewrite IH. split.
      * intros Hall y [->|Hy]%elem_of_cons; [done|by apply Hall].
      * intros Hall y Hy. apply Hall. by right.
Qed.

Lemma filter_true {A} (l : list A) : List.filter (λ _, true) l = l.
Proof. induction l as [|x l IH]; [done|]. cbn. by rewrite IH. Qed.

Lemma two_stations frames c64 host :
  ss_other (split_by_source frames c64 host) = [] ↔
  ∀ f, f ∈ frames → f_eth_src f = c64 ∨ f_eth_src f = host.
Proof.
  rewrite split_by_source_spec. cbn. rewrite filter_nil_iff. unfold from_mac.
  setoid_rewrite andb_false_iff. setoid_rewrite negb_false_iff.
  by setoid_rewrite bool_decide_eq_true.
Qed.

(** ** Addresses as text *)

Lemma fmt_ip_split l : l ≠ [] → split_on "." (fmt_ip l) = dec <$> l.
Proof.
  intros Hl. apply (split_join "."); [by destruct l|].
  apply Forall_fmap, Forall_true. intros z. apply dec_without; [done|].
  cbn. intros [H _]. revert H. by apply (bool_decide_unpack _).
Qed.

Lemma fmt_ip_eq octets l : len octets = 4 → fmt_ip octets = fmt_ip l ↔ octets = l.
Proof.
  intros Hlen. split; [|by intros ->]. intros Heq%(f_equal (split_on ".")).
  assert (octets ≠ []) by by intros ->. rewrite fmt_ip_split in Heq by done.
  destruct l as [|z l].
  - apply (f_equal length) in Heq. unfold len in Hlen. rewrite length_fmap in Heq. cbn in Heq. lia.
  - rewrite fmt_ip_split in Heq by done. by apply (inj (fmap dec)) in Heq.
Qed.

Lemma off_subnet_fmt octets s :
  len octets = 4 → off_subnet octets (fmt_ip <$> s) = false ↔ ∀ l, s = Some l → take 3 octets = take 3 l.
Proof.
  intros Hlen. destruct s as [s|]; cbn; [|naive_solver].
  rewrite negb_false_iff, bool_decide_eq_true. unfold subnet_want.
  transitivity (take 3 octets = take 3 s); [|naive_solver].
  destruct s as [|z s].
  - change (take 3 (split_on "." (fmt_ip []))) with [""].
    unfold len in Hlen.
    split; intros Heq%(f_equal length); rewrite ?length_fmap, !length_take in Heq;
      cbn [length] in Heq; lia.
  - rewrite fmt_ip_split, <- fmap_take by done. split; [|by intros ->].
    intros Heq. by apply (inj (fmap dec)) in Heq.
Qed.

Lemma not_pinned_fmt octets e :
  len octets = 4 → not_pinned (fmt_ip octets) (fmt_ip <$> e) = false ↔ ∀ l, e = Some l → octets = l.
Proof.
  intros Hlen. destruct e as [e|]; cbn; [|naive_solver].
  rewrite negb_false_iff, bool_decide_eq_true, fmt_ip_eq by done. naive_solver.
Qed.

Lemma host_fmt octets h : len octets = 4 → fmt_ip <$> h = Some (fmt_ip octets) ↔ h = Some octets.
Proof.
  intros Hlen. destruct h as [h|]; cbn; [|naive_solver]. split; [|by intros [= ->]].
  intros [= Heq]. symmetry in Heq. by apply fmt_ip_eq in Heq as <-.
Qed.

Lemma odd_bit z : truthy (Z.land z 0x01) = false ↔ z mod 2 = 0.
Proof.
  unfold truthy. rewrite negb_false_iff, Z.eqb_eq. change 0x01 with (Z.ones 1).
  by rewrite Z.land_ones.
Qed.

Module Wire.
(** The source checks pass exactly on a capture of the two stations alone that holds
    enough frames the C64 itself sent: the Mac's own traffic, and a third station's, never
    count.  The MAC check also wants an address a station can have, not the Mac's and not the
    build-time one. *)
Theorem source_checks_exact frames c64 host min_frames port :
  (v_ok (check_c64_originated frames c64 host min_frames port) = true ↔
   c64 ≠ host ∧
   (∀ f, f ∈ frames → f_eth_src f = c64 ∨ f_eth_src f = host) ∧
   min_frames ≤ len (List.filter (λ f, from_mac c64 f && from_option (λ p, on_port p f) true port)
                       frames)) ∧
  (v_ok (check_mac_on_wire frames c64 host min_frames) = true ↔
   len c64 = 6 ∧ c64 ≠ replicate 6 0 ∧ byte_at c64 0 mod 2 = 0 ∧
   c64 ≠ IP65_DEFAULT_CFG_MAC ∧ c64 ≠ host ∧
   min_frames ≤ len (List.filter (from_mac c64) frames)).
Proof.
  split.
  - unfold check_c64_originated. guards. rewrite two_stations, split_by_source_spec. cbn [ss_c64 ss_host].
    assert (Hboth : ∀ g, List.filter (λ f, from_mac c64 f && g f) frames
                         = List.filter g (List.filter (from_mac c64) frames)).
    { intros g. induction frames as [|f frames IH]; [done|]. cbn.
      destruct (from_mac c64 f); cbn; [|done]. by rewrite IH. }
    rewrite Hboth. destruct port as [port|]; guards; cbn [from_option].
    + done.
    + by rewrite filter_true.
  - unfold check_mac_on_wire. guards. rewrite odd_bit.
    assert (Hff : c64 = replicate 6 0xff → byte_at c64 0 mod 2 ≠ 0) by (by intros ->).
    unfold from_mac. naive_solver.
Qed.

(** C40. The handshake and transport checks pass exactly when both ends agree: the C64's own
    state byte is ACTIVE and the responder completed; a payload the responder decrypted equals
    the staged one; the C64's recorded length and its buffer up to that length equal the
    staged reply.  Nothing passes on a value that was never read. *)
Theorem tunnel_checks_exact state responder frames mac received plaintext n expected :
  (v_ok (check_handshake_complete state responder frames mac) = true ↔
   state = Some WG_STATE_ACTIVE ∧ responder = true ∧
   ∀ fs m, frames = Some fs → mac = Some m → ∃ f, f ∈ fs ∧ f_eth_src f = m) ∧
  (v_ok (check_transport_c64_to_mac received expected) = true ↔
   expected ≠ [] ∧ expected ∈ received) ∧
  (v_ok (check_transport_mac_to_c64 plaintext n expected) = true ↔
   expected ≠ [] ∧ n = Some (N.of_nat (length expected)) ∧
   ∃ rest, plaintext = Some (expected ++ rest)).
Proof.
  split_and!.
  - unfold check_handshake_complete. destruct state as [state|]; [|cbn; naive_solver]. guards.
    transitivity (state = WG_STATE_ACTIVE ∧ responder = true ∧
      ∀ fs m, frames = Some fs → mac = Some m → ∃ f, f ∈ fs ∧ f_eth_src f = m); [|naive_solver].
    destruct frames as [fs|], mac as [m|]; guards; cbn [v_ok passed]; try naive_solver.
    rewrite filter_nil_iff.
    assert ((∃ f, f ∈ fs ∧ f_eth_src f = m) ↔ ¬ ∀ x, x ∈ fs → bool_decide (f_eth_src x = m) = false).
    { rewrite <- filter_nil_iff. split.
      - intros (f & Hf & Hm) Hnil. rewrite filter_nil_iff in Hnil.
        specialize (Hnil f Hf). by apply bool_decide_eq_false in Hnil.
      - intros Hne. destruct (List.filter _ fs) as [|f l] eqn:Hl; [done|].
        assert (Hin : In f (f :: l)) by by left. rewrite <- Hl in Hin.
        apply filter_In in Hin as [Hin Hm]. apply list_elem_of_In in Hin.
        apply bool_decide_eq_true in Hm. eauto. }
    naive_solver.
  - unfold check_transport_c64_to_mac. guards. destruct received as [|first rest].
    { cbn. split; [naive_solver|]. by intros [_ ?%elem_of_nil]. }
    destruct (list_find _ _) as [[i x]|] eqn:Hf.
    + apply list_find_Some in Hf as (Hi & -> & _). cbn. apply list_elem_of_lookup_2 in Hi.
      naive_solver.
    + apply list_find_None in Hf. rewrite Forall_forall in Hf. cbn [v_ok failed]. naive_solver.
  - unfold check_transport_mac_to_c64. guards.
    destruct plaintext as [pt|], n as [n|].
    2, 3, 4: cbn [v_ok failed]; split; [by intros [_ ?]|by intros (_ & ? & ? & ?)].
    guards.
    split.
    + intros (He & Hn & Hs). split_and!; [done|f_equal; unfold len in Hn; lia|].
      exists (from (len expected) pt). f_equal. rewrite <- Hs at 1. rewrite Hn.
      unfold slice, from. cbn. rewrite Z.sub_0_r. by rewrite take_drop.
    + intros (He & [= ->] & rest & [= ->]). split_and!; [done|unfold len; lia|].
      rewrite nat_N_Z. by apply slice_app_exact.
Qed.

(** The lease check passes exactly on four bytes that are a unicast address somebody
    assigned, not the build-time default and not link-local, that is not the host's, lies on
    the rig's subnet and is the pinned one where these are given.  The addresses are compared
    as text, and that comparison is exact. *)
Theorem lease_check_exact cfg_ip subnet host expect :
  v_ok (check_dhcp_lease cfg_ip (fmt_ip <$> subnet) (fmt_ip <$> host) (fmt_ip <$> expect)) = true ↔
  ∃ octets, cfg_ip = Some octets ∧ len octets = 4 ∧
    octets ≠ [0; 0; 0; 0] ∧ octets ≠ IP65_DEFAULT_CFG_IP ∧
    byte_at octets 0 ≠ 127 ∧ byte_at octets 0 < 224 ∧
    ¬ (byte_at octets 0 = 169 ∧ byte_at octets 1 = 254) ∧
    host ≠ Some octets ∧
    (∀ s, subnet = Some s → take 3 octets = take 3 s) ∧
    (∀ e, expect = Some e → octets = e).
Proof.
  destruct cfg_ip as [octets|]; cbn [check_dhcp_lease]; [|cbn; naive_solver].
  unfold check_dhcp_lease. guards.
  transitivity (len octets = 4 ∧
    octets ≠ [0; 0; 0; 0] ∧ octets ≠ IP65_DEFAULT_CFG_IP ∧
    byte_at octets 0 ≠ 127 ∧ byte_at octets 0 < 224 ∧
    ¬ (byte_at octets 0 = 169 ∧ byte_at octets 1 = 254) ∧
    host ≠ Some octets ∧
    (∀ s, subnet = Some s → take 3 octets = take 3 s) ∧
    (∀ e, expect = Some e → octets = e)); [|naive_solver].
  destruct (decide (len octets = 4)) as [Hlen|]; [|naive_solver].
  rewrite host_fmt, off_subnet_fmt, not_pinned_fmt by done.
  assert (octets = [255; 255; 255; 255] → ¬ byte_at octets 0 < 224) by (intros ->; cbn; lia).
  rewrite andb_false_iff, !Z.eqb_neq.
  assert (byte_at octets 0 ≠ 169 ∨ byte_at octets 1 ≠ 254 ↔
          ¬ (byte_at octets 0 = 169 ∧ byte_at octets 1 = 254)) by lia.
  naive_solver.
Qed.
End Wire.
