(* ===== verification/EchoArp.v ===== *)
(** * Echo pairing and ARP (tools/ip65_hw_checks.py)

    ICMP echo replies are paired with requests by identifier and sequence number; the ARP
    exchange of the two stations is looked for. *)

From S2P Require Export Pcap.

(** ** Echo *)

Abbreviation echo_key := (Z * Z)%type.

Record echo_pair := EchoPair {
  ep_key : echo_key;
  ep_request_frame : Z;
  ep_reply_frame : Z;
  ep_rtt_ms : spec_float;
  ep_payload_matches : bool;
}.

Record echo_audit := EchoAudit {
  ea_pairs : list echo_pair;
  ea_unanswered : list echo_key;
  ea_unmatched_replies : list echo_key;
}.

(** The loop's variables: [requests] in insertion order, [audit.pairs],
    [audit.unmatched_replies] and [replied]. *)
Record echo_state := EchoState {
  es_requests : list (echo_key * frame);
  es_pairs : list echo_pair;
  es_unmatched : list echo_key;
  es_replied : list echo_key;
}.

Definition key_of (f : frame) : option (Z * echo_key) :=
  ty ← f_icmp_type f; id ← f_icmp_id f; seq ← f_icmp_seq f; Some (ty, (id, seq)).

(** [mac is not None and bytes(f.eth_src) != bytes(mac)] *)
Definition not_from (mac : option bytes) (f : frame) : bool :=
  match mac with Some m => negb (bool_decide (f_eth_src f = m)) | None => false end.

Definition rtt_ms (req f : frame) : spec_float :=
  fmul (fsub (f_ts f) (f_ts req)) (float_of_Z 1000).

Definition echo_step (c64_mac host_mac : option bytes) (s : echo_state) (f : frame) :
    echo_state :=
  match key_of f with
  | None => s
  | Some (ty, key) =>
      if ty =? ICMP_ECHO_REQUEST then
        if not_from c64_mac f then s
        else match assoc key (es_requests s) with
             | Some _ => s
             | None => EchoState (es_requests s ++ [(key, f)]) (es_pairs s) (es_unmatched s)
                         (es_replied s)
             end
      else if ty =? ICMP_ECHO_REPLY then
        let unmatched := EchoState (es_requests s) (es_pairs s) (es_unmatched s ++ [key])
                           (es_replied s) in
        match assoc key (es_requests s) with
        | None => unmatched
        | Some req =>
            if bool_decide (key ∈ es_replied s) then unmatched
            else if not_from host_mac f then unmatched
            else EchoState (es_requests s)
                   (es_pairs s ++ [EchoPair key (f_index req) (f_index f) (rtt_ms req f)
                                     (bool_decide (f_icmp_data f = f_icmp_data req))])
                   (es_unmatched s) (es_replied s ++ [key])
        end
      else s
  end.

Definition pair_echoes (frames : list frame) (c64_mac host_mac : option bytes) : echo_audit :=
  let s := foldl (echo_step c64_mac host_mac) (EchoState [] [] [] []) frames in
  EchoAudit (es_pairs s)
    (List.filter (λ k, negb (bool_decide (k ∈ es_replied s))) (fst <$> es_requests s))
    (es_unmatched s).

Definition key_pv (k : echo_key) : pv := PList [PInt k.1; PInt k.2].

Definition check_echo_replies_matched (frames : list frame) (c64_mac host_mac : bytes)
    (min_pairs : Z) : verdict :=
  let audit := pair_echoes frames (Some c64_mac) (Some host_mac) in
  let replies := len (List.filter (λ f, bool_decide (f_icmp_type f = Some ICMP_ECHO_REPLY)) frames) in
  let ev :=
    [("pairs", PInt (len (ea_pairs audit)));
     ("keys", PList ((key_pv ∘ ep_key) <$> ea_pairs audit));
     ("unanswered", PList (key_pv <$> ea_unanswered audit));
     ("unmatched_replies", PList (key_pv <$> ea_unmatched_replies audit));
     ("rtt_ms", PList ((λ p, PRound (ep_rtt_ms p) 2) <$> ea_pairs audit));
     ("reply_frames_total", PInt replies)] in
  if negb (bool_decide (ea_unmatched_replies audit = []))
  then failed ("unmatched replies",
         [PInt (len (ea_unmatched_replies audit));
          PList (key_pv <$> slice 0 5 (ea_unmatched_replies audit))]) ev
  else if len (ea_pairs audit) <? min_pairs
  then failed ("too few pairs",
         [PInt (len (ea_pairs audit)); PInt min_pairs; PInt replies;
          PInt (len (ea_unanswered audit))]) ev
  else
  let bad := ep_key <$> List.filter (λ p, negb (ep_payload_matches p)) (ea_pairs audit) in
  if negb (bool_decide (bad = []))
  then failed ("replies do not echo the request", [PList (key_pv <$> bad)]) ev
  else passed ("replies paired", [PInt (len (ea_pairs audit))]) ev.

(** ** ARP *)

(** [None] is the [ValueError] of a part that is not a number or not a byte. *)
Definition ip4_bytes (a : string) : option bytes :=
  mapM (λ x, z ← parse_int 10 x; if decide (byte z) then Some z else None) (split_on "." a).

Definition check_arp_exchange (frames : list frame) (c64_mac host_mac : bytes)
    (c64_ip host_ip : string) : option verdict :=
  let arps := List.filter (λ f, (f_ethertype f =? ETHERTYPE_ARP)
                                && truthy (default 0 (f_arp_op f))) frames in
  want_c64 ← ip4_bytes c64_ip;
  want_host ← ip4_bytes host_ip;
  let host_asked := List.filter (λ f,
    bool_decide (f_arp_op f = Some ARP_REQUEST) && bool_decide (f_eth_src f = host_mac)
    && bool_decide (default [] (f_arp_target_ip f) = want_c64)) arps in
  let c64_answered := List.filter (λ f,
    bool_decide (f_arp_op f = Some ARP_REPLY) && bool_decide (f_eth_src f = c64_mac)
    && bool_decide (default [] (f_arp_sender_ip f) = want_c64)) arps in
  let c64_asked := List.filter (λ f,
    bool_decide (f_arp_op f = Some ARP_REQUEST) && bool_decide (f_eth_src f = c64_mac)
    && bool_decide (default [] (f_arp_target_ip f) = want_host)) arps in
  let ev := [("arp_frames", PInt (len arps)); ("host_requests_for_c64", PInt (len host_asked));
             ("c64_replies_for_itself", PInt (len c64_answered));
             ("c64_requests_for_host", PInt (len c64_asked))] in
  let diagnosed d := ev ++ [("diagnosis", PStr d)] in
  Some (
    if bool_decide (arps = [])
    then failed ("no ARP frames", []) (diagnosed "no-arp-frames")
    else if bool_decide (c64_answered = []) && bool_decide (c64_asked = [])
    then failed ("none from the C64",
           [PInt (len arps); PStr (fmt_mac c64_mac); PStr c64_ip; PStr host_ip])
           (diagnosed "no-arp-from-the-c64")
    else passed ("ARP resolved", [PInt (len c64_answered); PInt (len c64_asked)])
           (diagnosed "ok")).
