(* ===== verification/EchoThms.v ===== *)
(** * Echo pairing and ARP: the properties

    A pair is the first request of its key and a later reply to it, each key is paired at most
    once, and every reply is in a pair or reported; what a passing ARP check shows. *)

From S2P Require Export EchoArp WireThms.
#[local] Set Warnings "-clear-no-such-hyp".

(** ** Association lists *)

Lemma find_app {A} (f : A → bool) l k :
  List.find f (l ++ k) = match List.find f l with Some x => Some x | None => List.find f k end.
Proof. induction l as [|x l IH]; [done|]. cbn. by destruct (f x). Qed.

Lemma assoc_snoc {K V} `{EqDecision K} (k k' : K) (v : V) l :
  assoc k (l ++ [(k', v)]) =
  match assoc k l with
  | Some x => Some x
  | None => if decide (k' = k) then Some v else None
  end.
Proof.
  unfold assoc. rewrite find_app. destruct (List.find _ l); [done|]. cbn.
  by case_bool_decide; case_decide.
Qed.

Lemma assoc_None {K V} `{EqDecision K} (k : K) (l : list (K * V)) :
  assoc k l = None ↔ k ∉ (fst <$> l).
Proof.
  induction l as [|[k' v] l IH]; [split; [intros _ H; by apply elem_of_nil in H|done]|].
  unfold assoc in *. cbn. case_bool_decide as Hk; cbn.
  - split; [done|]. intros Hn. destruct Hn. subst. by left.
  - rewrite IH, not_elem_of_cons. naive_solver.
Qed.

(** ** Requests, replies and pairs *)

Section pairing.
Context (c64 host : option bytes).

Definition echo_request (k : echo_key) (f : frame) : Prop :=
  key_of f = Some (ICMP_ECHO_REQUEST, k) ∧ not_from c64 f = false.
Definition echo_reply (k : echo_key) (f : frame) : Prop :=
  key_of f = Some (ICMP_ECHO_REPLY, k).
Definition is_reply (f : frame) : bool :=
  match key_of f with Some (ty, _) => ty =? ICMP_ECHO_REPLY | None => false end.

#[local] Instance echo_request_dec k f : Decision (echo_request k f).
Proof. unfold echo_request. apply _. Defined.

(** The key is answered: a reply from the right station, behind a request of that key. *)
Definition answered (frames : list frame) (k : echo_key) : Prop :=
  ∃ l1 rep l2, frames = l1 ++ rep :: l2 ∧ echo_reply k rep ∧ not_from host rep = false ∧
               ∃ req, req ∈ l1 ∧ echo_request k req.

(** The pair's frames: the first request of the key and a reply behind it. *)
Definition pair_of (frames : list frame) (p : echo_pair) : Prop :=
  ∃ l1 req l2 rep l3,
    frames = l1 ++ req :: l2 ++ rep :: l3 ∧
    echo_request (ep_key p) req ∧ (∀ f, f ∈ l1 → ¬ echo_request (ep_key p) f) ∧
    echo_reply (ep_key p) rep ∧ not_from host rep = false ∧
    ep_request_frame p = f_index req ∧ ep_reply_frame p = f_index rep ∧
    ep_rtt_ms p = rtt_ms req rep ∧
    (ep_payload_matches p = true ↔ f_icmp_data rep = f_icmp_data req).

Definition find_request (k : echo_key) (frames : list frame) : option frame :=
  List.find (λ f, bool_decide (echo_request k f)) frames.

Record echo_inv (pre : list frame) (s : echo_state) : Prop := EchoInv {
  ei_requests : ∀ k, assoc k (es_requests s) = find_request k pre;
  ei_nodup : NoDup (fst <$> es_requests s);
  ei_replied : es_replied s = ep_key <$> es_pairs s;
  ei_once : NoDup (es_replied s);
  ei_pairs : ∀ p, p ∈ es_pairs s → pair_of pre p;
  ei_count : (length (es_pairs s) + length (es_unmatched s) = length (List.filter is_reply pre))%nat;
  ei_answered : ∀ k, k ∈ es_replied s ↔ answered pre k;
}.

Lemma find_request_Some k pre req :
  find_request k pre = Some req →
  ∃ l1 l2, pre = l1 ++ req :: l2 ∧ echo_request k req ∧ ∀ f, f ∈ l1 → ¬ echo_request k f.
Proof.
  unfold find_request. induction pre as [|f pre IH]; [done|]. cbn. case_bool_decide as Hf.
  - intros [= ->]. exists [], pre. split_and!; [done|done|]. by intros f ?%elem_of_nil.
  - intros (l1 & l2 & -> & Hreq & Hl1)%IH. exists (f :: l1), l2. split_and!; [done|done|].
    intros g [->|Hg]%elem_of_cons; [done|by apply Hl1].
Qed.

Lemma find_request_None k pre : find_request k pre = None ↔ ∀ f, f ∈ pre → ¬ echo_request k f.
Proof.
  unfold find_request. induction pre as [|f pre IH]; cbn.
  - split; [|done]. by intros _ f ?%elem_of_nil.
  - case_bool_decide as Hf.
    + split; [done|]. intros Hall. by destruct (Hall f (list_elem_of_here _ _)).
    + rewrite IH. split; intros Hall g.
      * intros [->|Hg]%elem_of_cons; [done|by apply Hall].
      * intros Hg. apply Hall. by right.
Qed.

Lemma find_request_snoc k pre f :
  find_request k (pre ++ [f]) =
  match find_request k pre with
  | Some r => Some r
  | None => if decide (echo_request k f) then Some f else None
  end.
Proof.
  unfold find_request. rewrite find_app. destruct (List.find _ pre); [done|]. cbn.
  by case_bool_decide; case_decide.
Qed.

Lemma reply_not_request key f : echo_reply key f → ∀ k, ¬ echo_request k f.
Proof. unfold echo_reply, echo_request. intros -> k [[=] _]. Qed.

Lemma reply_is_reply key f : echo_reply key f → is_reply f = true.
Proof. unfold echo_reply, is_reply. by intros ->. Qed.

(** What one more frame answers. *)
Lemma answered_snoc pre f k :
  answered (pre ++ [f]) k ↔
  answered pre k ∨ echo_reply k f ∧ not_from host f = false ∧ find_request k pre ≠ None.
Proof.
  unfold answered. split.
  - intros (l1 & rep & l2 & Heq & Hrep & Hh & req & Hin & Hreq).
    destruct l2 as [|x l2 _] using rev_ind.
    + apply app_inj_tail in Heq as [-> ->]. right. split_and!; [done|done|].
      intros Hn. rewrite find_request_None in Hn. by destruct (Hn req).
    + left. rewrite app_comm_cons, app_assoc in Heq. apply app_inj_tail in Heq as [-> _].
      exists l1, rep, l2. eauto 10.
  - intros [(l1 & rep & l2 & -> & ?)|(Hrep & Hh & Hf)].
    + exists l1, rep, (l2 ++ [f]). by rewrite <- app_assoc.
    + exists pre, f, []. split_and!; [done|done|done|].
      destruct (find_request k pre) as [req|] eqn:Hreq; [|done].
      apply find_request_Some in Hreq as (l1 & l2 & -> & ? & _).
      exists req. split; [|done]. apply elem_of_app. right. by left.
Qed.

Lemma pair_of_snoc pre f p : pair_of pre p → pair_of (pre ++ [f]) p.
Proof.
  intros (l1 & req & l2 & rep & l3 & -> & H). exists l1, req, l2, rep, (l3 ++ [f]).
  split; [|done]. by rewrite <- app_assoc; cbn; rewrite <- app_assoc.
Qed.

(** A frame that neither asks nor answers leaves the invariant alone. *)
Lemma echo_inv_other pre s f :
  echo_inv pre s → is_reply f = false → (∀ k, find_request k (pre ++ [f]) = find_request k pre) →
  echo_inv (pre ++ [f]) s.
Proof.
  intros [] Hr Hq. constructor; auto.
  - intros k. by rewrite Hq.
  - intros p Hp. by apply pair_of_snoc, ei_pairs0.
  - rewrite List.filter_app. cbn. rewrite Hr. cbn. by rewrite app_nil_r.
  - intros k. rewrite answered_snoc, ei_answered0. split; [by left|].
    intros [?|(Hrep & _)]; [done|]. revert Hr. unfold is_reply. by rewrite Hrep.
Qed.

Lemma no_request_snoc pre f :
  (∀ k, ¬ echo_request k f) → ∀ k, find_request k (pre ++ [f]) = find_request k pre.
Proof.
  intros Hn k. rewrite find_request_snoc, decide_False by apply Hn.
  by destruct (find_request k pre).
Qed.

(** A reply that matches nothing new is counted among the unmatched. *)
Lemma echo_inv_unmatched pre s f key :
  echo_inv pre s → echo_reply key f →
  (not_from host f = false → find_request key pre ≠ None → key ∈ es_replied s) →
  echo_inv (pre ++ [f])
    (EchoState (es_requests s) (es_pairs s) (es_unmatched s ++ [key]) (es_replied s)).
Proof.
  intros [] Hr Hd.
  pose proof (reply_not_request _ _ Hr) as Hq.
  constructor; cbn [es_requests es_pairs es_unmatched es_replied]; auto.
  - intros k. rewrite no_request_snoc by exact Hq. apply ei_requests0.
  - intros p Hp. by apply pair_of_snoc, ei_pairs0.
  - rewrite List.filter_app, !length_app. cbn.
    rewrite (reply_is_reply _ _ Hr). cbn. lia.
  - intros k. rewrite answered_snoc, <- ei_answered0. split; [by left|].
    intros [?|(Hrep & ? & ?)]; [done|]. unfold echo_reply in *.
    assert (k = key) as -> by congruence. auto.
Qed.

Lemma echo_inv_pair pre s f key req :
  echo_inv pre s → echo_reply key f → find_request key pre = Some req →
  key ∉ es_replied s → not_from host f = false →
  echo_inv (pre ++ [f])
    (EchoState (es_requests s)
       (es_pairs s ++ [EchoPair key (f_index req) (f_index f) (rtt_ms req f)
                         (bool_decide (f_icmp_data f = f_icmp_data req))])
       (es_unmatched s) (es_replied s ++ [key])).
Proof.
  intros [] Hr Hreq Hnew Hh.
  pose proof (reply_not_request _ _ Hr) as Hq.
  constructor; cbn [es_requests es_pairs es_unmatched es_replied]; auto.
  - intros k. rewrite no_request_snoc by exact Hq. apply ei_requests0.
  - by rewrite fmap_app, ei_replied0.
  - apply NoDup_app. split_and!; [done| |by apply NoDup_singleton].
    intros k Hk ->%list_elem_of_singleton. done.
  - intros p [Hp| ->%list_elem_of_singleton]%elem_of_app; [by apply pair_of_snoc, ei_pairs0|].
    apply find_request_Some in Hreq as (l1 & l2 & -> & Hreq & Hfirst).
    exists l1, req, l2, f, []. cbn. rewrite <- app_assoc. cbn.
    split_and!; [done..|]. by rewrite bool_decide_eq_true.
  - rewrite List.filter_app, !length_app. cbn.
    rewrite (reply_is_reply _ _ Hr). cbn. lia.
  - intros k. rewrite answered_snoc, elem_of_app, ei_answered0, list_elem_of_singleton.
    unfold echo_reply in *. split; intros [?|Hk]; [by left| |by left|].
    + subst k. right. split_and!; [done|done|by rewrite Hreq].
    + right. destruct Hk. congruence.
Qed.

Lemma echo_inv_request pre s f key :
  echo_inv pre s → echo_request key f → assoc key (es_requests s) = None →
  echo_inv (pre ++ [f])
    (EchoState (es_requests s ++ [(key, f)]) (es_pairs s) (es_unmatched s) (es_replied s)).
Proof.
  intros [] Hf Hnew. pose proof Hf as [Hkey _].
  assert (Hr : is_reply f = false) by (unfold is_reply; by rewrite Hkey).
  constructor; cbn [es_requests es_pairs es_unmatched es_replied]; auto.
  - intros k. rewrite assoc_snoc, find_request_snoc, <- ei_requests0.
    destruct (assoc k (es_requests s)); [done|]. destruct (decide (key = k)) as [->|Hne].
    + by rewrite decide_True.
    + rewrite decide_False; [done|]. intros [Hk _]. congruence.
  - rewrite fmap_app. apply NoDup_app. split_and!; [done| |by apply NoDup_singleton].
    cbn. intros k Hk ->%list_elem_of_singleton. by apply assoc_None in Hnew.
  - intros p Hp. by apply pair_of_snoc, ei_pairs0.
  - rewrite List.filter_app. cbn. rewrite Hr. cbn. by rewrite app_nil_r.
  - intros k. rewrite answered_snoc, ei_answered0. split; [by left|].
    intros [?|(Hrep & _)]; [done|]. by destruct (reply_not_request _ _ Hrep key).
Qed.

Lemma echo_step_inv pre s f : echo_inv pre s → echo_inv (pre ++ [f]) (echo_step c64 host s f).
Proof.
  intros Hs. unfold echo_step. destruct (key_of f) as [[ty key]|] eqn:Hk.
  2:{ apply echo_inv_other; [done|unfold is_reply; by rewrite Hk|].
      apply no_request_snoc. intros k [Hk' _]. congruence. }
  destruct (Z.eqb_spec ty ICMP_ECHO_REQUEST) as [->|Hnq].
  - assert (Hr : is_reply f = false) by (unfold is_reply; by rewrite Hk).
    destruct (not_from c64 f) eqn:Hn.
    { apply echo_inv_other; [done|done|]. apply no_request_snoc. intros k [_ ?]. congruence. }
    destruct (assoc key (es_requests s)) as [r|] eqn:Ha.
    + apply echo_inv_other; [done|done|]. intros k. rewrite find_request_snoc.
      destruct (find_request k pre) as [|] eqn:Hf; [done|]. rewrite decide_False; [done|].
      intros [Hk' _]. assert (k = key) as -> by congruence.
      rewrite (ei_requests _ _ Hs) in Ha. congruence.
    + by apply echo_inv_request.
  - destruct (Z.eqb_spec ty ICMP_ECHO_REPLY) as [->|Hnr].
    + destruct (assoc key (es_requests s)) as [req|] eqn:Ha;
        rewrite (ei_requests _ _ Hs) in Ha.
      * case_bool_decide; [by apply echo_inv_unmatched|].
        destruct (not_from host f) eqn:Hh; [apply echo_inv_unmatched; [done|done|congruence]|].
        by apply echo_inv_pair.
      * apply echo_inv_unmatched; [done|done|congruence].
    + apply echo_inv_other; [done|unfold is_reply; rewrite Hk; by apply Z.eqb_neq|].
      apply no_request_snoc. intros k [Hk' _]. congruence.
Qed.

Lemma echo_inv_all frames :
  echo_inv frames (foldl (echo_step c64 host) (EchoState [] [] [] []) frames).
Proof.
  induction frames as [|f frames IH] using rev_ind.
  - constructor; cbn; try done.
    + constructor.
    + constructor.
    + by intros p ?%elem_of_nil.
    + intros k. split; [by intros ?%elem_of_nil|]. by intros ([] & ? & ? & ? & _).
  - rewrite foldl_app. cbn. by apply echo_step_inv.
Qed.
End pairing.

(** ** Addresses *)

Lemma parse_dec_byte z : byte z → parse_int 10 (dec z) = Some z.
Proof.
  intros Hz.
  assert (Hall : forallb (λ z, bool_decide (parse_int 10 (dec z) = Some z)) (seqZ 0 256) = true)
    by by vm_compute.
  rewrite forallb_forall in Hall. specialize (Hall z).
  rewrite <- list_elem_of_In, elem_of_seqZ in Hall. apply Hall in Hz. by apply bool_decide_eq_true in Hz.
Qed.

Lemma ip4_bytes_fmt a : a ≠ [] → is_bytes a → ip4_bytes (fmt_ip a) = Some a.
Proof.
  intros Hn Ha. unfold ip4_bytes. rewrite fmt_ip_split by done. clear Hn.
  induction Ha as [|z a Hz Ha IH]; [done|]. cbn. rewrite parse_dec_byte by done. cbn.
  rewrite decide_True by done. cbn. cbn in IH. by rewrite IH.
Qed.

Lemma fmap_nil_iff {A B} (f : A → B) l : f <$> l = [] ↔ l = [].
Proof. by destruct l. Qed.

Lemma ip4_bytes_nonempty a l : ip4_bytes a = Some l → l ≠ [].
Proof.
  unfold ip4_bytes, split_on. intros Hm%length_mapM ->. rewrite length_fmap in Hm.
  destruct (chars a) as [|c cs]; cbn in Hm; [done|]. case_decide; [done|].
  by destruct (split_chars "." cs).
Qed.

Lemma default_some {A} (o : option (list A)) l : l ≠ [] → default [] o = l ↔ o = Some l.
Proof. intros Hl. destruct o; cbn; [naive_solver|]. split; [congruence|done]. Qed.

Lemma existsb_filter {A} (f : A → bool) l : List.filter f l ≠ [] ↔ ∃ x, x ∈ l ∧ f x = true.
Proof.
  rewrite filter_nil_iff. induction l as [|x l IH].
  - split; [|by intros (? & ?%elem_of_nil & _)]. intros Hn. destruct Hn. by intros x ?%elem_of_nil.
  - destruct (f x) eqn:Hx.
    + split; [|intros _ Hall; specialize (Hall x (list_elem_of_here _ _)); congruence].
      intros _. exists x. split; [by left|done].
    + transitivity (∃ y, y ∈ l ∧ f y = true).
      * rewrite <- IH. split; intros Hn Hall; apply Hn.
        -- intros y [->|Hy]%elem_of_cons; [done|by apply Hall].
        -- intros y Hy. apply Hall. by right.
      * split; intros (y & Hy & Hf); exists y; (split; [|done]); [by right|].
        apply elem_of_cons in Hy as [->|]; [congruence|done].
Qed.

(** What the C64 itself said: an answer for its own address, or a question for the Mac's. *)
Definition c64_arp (c64 c64_ip host_ip : bytes) (f : frame) : Prop :=
  f_ethertype f = ETHERTYPE_ARP ∧ f_eth_src f = c64 ∧
  (f_arp_op f = Some ARP_REPLY ∧ f_arp_sender_ip f = Some c64_ip ∨
   f_arp_op f = Some ARP_REQUEST ∧ f_arp_target_ip f = Some host_ip).

Module Echo.
(** C36. Echo pairing is exact: a pair joins the first request of its key, from the C64, and a
    later reply of that key from the Mac, with its payload compared; a key is paired once,
    and exactly when such a reply was captured; every captured reply is in a pair or reported
    as unmatched; and the unanswered keys are the requested ones without a pair. *)
Theorem pair_echoes_exact frames c64 host :
  let a := pair_echoes frames c64 host in
  let keys := ep_key <$> ea_pairs a in
  NoDup keys ∧
  (∀ p, p ∈ ea_pairs a → pair_of c64 host frames p) ∧
  (∀ k, k ∈ keys ↔ answered c64 host frames k) ∧
  (length (ea_pairs a) + length (ea_unmatched_replies a))%nat
    = length (List.filter is_reply frames) ∧
  NoDup (ea_unanswered a) ∧
  ∀ k, k ∈ ea_unanswered a ↔
       (∃ req, req ∈ frames ∧ echo_request c64 k req) ∧ ¬ answered c64 host frames k.
Proof.
  destruct (echo_inv_all c64 host frames) as [Hreq Hnd Hrep Honce Hp Hc Ha].
  unfold pair_echoes. cbn [ea_pairs ea_unmatched_replies ea_unanswered].
  set (s := foldl _ _ _) in *. rewrite <- Hrep. split_and!; [done|done|done|lia| |].
  - apply NoDup_ListNoDup, List.NoDup_filter, NoDup_ListNoDup, Hnd.
  - intros k. rewrite list_elem_of_In, filter_In, <- list_elem_of_In, negb_true_iff,
      bool_decide_eq_false, Ha.
    apply and_iff_compat_r.
    transitivity (assoc k (es_requests s) ≠ None).
    + rewrite assoc_None. destruct (decide (k ∈ fst <$> es_requests s)); naive_solver.
    + rewrite Hreq, find_request_None. split.
      * intros Hn. destruct (find_request c64 k frames) as [req|] eqn:Hf.
        -- apply find_request_Some in Hf as (l1 & l2 & -> & ? & _). exists req.
           split; [|done]. apply elem_of_app. right. by left.
        -- by rewrite find_request_None in Hf.
      * intros (req & Hin & Hr) Hall. by destruct (Hall req).
Qed.

(** The echo check passes exactly when every captured echo reply is in a pair, enough of
    them are, and each one echoes its request's data.  The ARP check raises exactly on an
    address that does not parse, and passes exactly when the C64 answered for its own address
    or asked for the Mac's: a C64 whose question nobody answered passes. *)
Theorem echo_arp_checks_exact frames c64 host min_pairs c64_ip host_ip :
  (let pairs := ea_pairs (pair_echoes frames (Some c64) (Some host)) in
   let replies := List.filter is_reply frames in
   v_ok (check_echo_replies_matched frames c64 host min_pairs) = true ↔
   length pairs = length replies ∧ min_pairs ≤ len replies ∧
   ∀ p, p ∈ pairs → ep_payload_matches p = true) ∧
  match ip4_bytes c64_ip, ip4_bytes host_ip with
  | Some c, Some h => ∃ v, check_arp_exchange frames c64 host c64_ip host_ip = Some v ∧
                           (v_ok v = true ↔ ∃ f, f ∈ frames ∧ c64_arp c64 c h f)
  | _, _ => check_arp_exchange frames c64 host c64_ip host_ip = None
  end.
Proof.
  split.
  - cbv zeta. unfold check_echo_replies_matched. guards.
    destruct (echo_inv_all (Some c64) (Some host) frames) as [_ _ _ _ _ Hc _].
    unfold pair_echoes. cbn [ea_pairs ea_unmatched_replies ea_unanswered].
    set (s := foldl _ _ _) in *. rewrite <- length_zero_iff_nil.
    transitivity (length (es_unmatched s) = 0%nat ∧ min_pairs ≤ len (es_pairs s) ∧
      ∀ p, p ∈ es_pairs s → ep_payload_matches p = true).
    + assert (Hbad : ep_key <$> List.filter (λ p, negb (ep_payload_matches p)) (es_pairs s) = [] ↔
                     ∀ p, p ∈ es_pairs s → ep_payload_matches p = true).
      { rewrite fmap_nil_iff, filter_nil_iff. by setoid_rewrite negb_false_iff. }
      naive_solver.
    + unfold len. split; intros (? & ? & ?); split_and!; (done || lia).
  - unfold check_arp_exchange.
    destruct (ip4_bytes c64_ip) as [c|] eqn:Hc; [|done].
    destruct (ip4_bytes host_ip) as [h|] eqn:Hh; [|done].
    apply ip4_bytes_nonempty in Hc, Hh. eexists; split; [reflexivity|].
    match goal with |- context [List.filter ?g frames] => set (arps := List.filter g frames) end.
    assert (Harp : ∀ f, f ∈ arps ↔ f ∈ frames ∧ f_ethertype f = ETHERTYPE_ARP ∧
                                   truthy (default 0 (f_arp_op f)) = true).
    { intros f. unfold arps. by rewrite list_elem_of_In, filter_In, <- list_elem_of_In,
        andb_true_iff, Z.eqb_eq. }
    guards. rewrite andb_false_iff, !bool_decide_eq_false, !existsb_filter.
    setoid_rewrite andb_true_iff. setoid_rewrite andb_true_iff.
    setoid_rewrite bool_decide_eq_true. setoid_rewrite Harp.
    setoid_rewrite default_some; [|done..]. unfold c64_arp. split.
    + intros (_ & [(f & (Hin & He & _) & [Ho Hs] & Hi)|(f & (Hin & He & _) & [Ho Hs] & Hi)]);
        exists f; naive_solver.
    + intros (f & Hin & He & Hs & Hf).
      assert (Ht : truthy (default 0 (f_arp_op f)) = true) by by destruct Hf as [[-> _]|[-> _]].
      split; [|naive_solver]. intros Hn. assert (Hf' : f ∈ arps) by by apply Harp.
      rewrite Hn in Hf'. by apply elem_of_nil in Hf'.
Qed.
End Echo.
