(* ===== verification/NetDiag.v ===== *)
(** * Diagnostics of one run (tools/ip65_hw_checks.py)

    The last-error byte and its table, the drop counters, whether a capture belongs to the run,
    the chip identification and the bench control, the addresses of the diagnostic bytes. *)

From S2P Require Export Pcap.

(** ** The error table *)

Definition NET_ERRORS : list (Z * (string * string)) :=
  [(0x00, ("NET_ERR_NONE", "no error"));
   (0x01, ("NET_ERR_TIMEBASE_STOPPED",
     "the CIA1 TOD was never started, so every bounded wait is unbounded"));
   (0x41, ("NET_ERR_IP65_INIT",
     "ip65_init failed: the cartridge was not found or eth_init refused. "
     +:+ "OUR LOADER DROPPED THE CARTRIDGE -- not a network problem"));
   (0x42, ("NET_ERR_IP65_DHCP",
     "dhcp_init failed: no lease. The C64 is alive and the DHCP SERVER "
     +:+ "is not answering -- the opposite conclusion from $41, and the two "
     +:+ "look identical on the screen"));
   (0x46, ("NET_ERR_IP65_UDP_LISTEN", "udp_add_listener failed"));
   (0x48, ("NET_ERR_IP65_WAIT_TIMEOUT", "the ARP/wait budget was exhausted"));
   (0x49, ("NET_ERR_IP65_UDP_UNBIND", "udp_remove_listener failed"))].

Definition NET_ERRORS_RESERVED : list (Z * string) :=
  [(0x47, "NET_ERR_IP65_UDP_SEND is RESERVED and never emitted; the adapter "
          +:+ "defines and exports it only so the number stays allocated")].

Definition NET_ERRORS_FOREIGN : list (Z * string) :=
  [(0x43, "NET_ERR_IP65_DNS"); (0x44, "NET_ERR_IP65_CONNECT"); (0x45, "NET_ERR_IP65_SEND")].

(** [d[k] = v] on a dict in insertion order. *)
Fixpoint dict_set {V} (k : string) (v : V) (l : list (string * V)) : list (string * V) :=
  match l with
  | [] => [(k, v)]
  | (k', v') :: l => if decide (k' = k) then (k, v) :: l else (k', v') :: dict_set k v l
  end.

(** One line of the assembler source: the equate on it, if there is one. *)
Definition equate (line : string) : option (string * Z) :=
  let line := default "" (head (split_on ";" line)) in
  if negb (contains "=" line) || negb (contains "NET_ERR_" line) then None else
  let '(name, _, val) := partition "=" line in
  let name := strip name in
  let val := strip val in
  if negb (startswith "NET_ERR_" name) || negb (startswith "$" val) then None else
  v ← parse_int 16 (str (from 1 (chars val)));
  Some (name, v).

Definition add_equate (found : list (string * Z)) (line : string) : list (string * Z) :=
  match equate line with Some (name, v) => dict_set name v found | None => found end.

Definition equates (source : string) : list (string * Z) :=
  foldl add_equate [] (splitlines source).

Definition known_errors : list (string * Z) :=
  dict_set "NET_ERR_IP65_UDP_SEND" 0x47
    (omap (λ e, if truthy e.1 then Some (e.2.1, e.1) else None) NET_ERRORS).

Definition ints_pv (l : list (string * Z)) : pv := PDict ((λ p, (p.1, PInt p.2)) <$> l).

Definition net_error_table (net_s_source : option string) : verdict :=
  match net_s_source with
  | None => failed ("no source supplied", []) []
  | Some source =>
      let found := equates source in
      let ev := [("in_source", ints_pv found); ("in_table", ints_pv known_errors)] in
      if bool_decide (found = []) then failed ("no equates found", []) ev else
      let drift := List.filter (λ p, negb (bool_decide (assoc p.1 known_errors = Some p.2))) found in
      let drift_pv := PDict ((λ p, (p.1, PList [of_opt PInt (assoc p.1 known_errors); PInt p.2]))
                               <$> drift) in
      let ev := ev ++ [("drift", drift_pv)] in
      if negb (bool_decide (drift = [])) then failed ("codes have moved", [drift_pv]) ev
      else passed ("equates agree", [PInt (len found)]) ev
  end.

(** [f"${value:02X}"] *)
Definition dollar (n : nat) (z : Z) : string := "$" +:+ hex_pad true n z.

Definition decode_net_last_error (value : option Z) : verdict :=
  let ev := [("value", of_opt PInt value); ("hex", of_opt (PStr ∘ dollar 2) value)] in
  match value with
  | None => failed ("never read", []) ev
  | Some v =>
      match assoc v NET_ERRORS_RESERVED with
      | Some text =>
          let name := PStr "NET_ERR_IP65_UDP_SEND" in
          failed ("reserved", [PStr (dollar 2 v); name; PStr text]) (ev ++ [("name", name)])
      | None =>
      match assoc v NET_ERRORS_FOREIGN with
      | Some name =>
          failed ("foreign", [PStr (dollar 2 v); PStr name]) (ev ++ [("name", PStr name)])
      | None =>
      match assoc v NET_ERRORS with
      | None => failed ("not in the registry", [PStr (dollar 2 v)]) ev
      | Some (name, meaning) =>
          let ev := ev ++ [("name", PStr name); ("meaning", PStr meaning)] in
          if v =? 0 then passed ("no error", []) ev
          else failed ("error", [PStr (dollar 2 v); PStr name; PStr meaning]) ev
      end end end
  end.

(** ** The counters *)

Definition unproven_note (send_attempts : Z) : string :=
  "nothing in this run proves the drop counter can move, so its zero "
  +:+ "is not evidence: ip65_recv_dropped is incremented only by "
  +:+ "net_udp_recv_cb's disarm branch, which runs only while "
  +:+ "net_arp_pump holds ip65_send_pump set, and send_attempts == "
  +:+ dec send_attempts +:+ " says the pump did not fire on the last send".

Definition check_net_counters (recv_dropped send_attempts expect_sends : option Z) : verdict :=
  let ev proven :=
    [("ip65_recv_dropped", of_opt PInt recv_dropped);
     ("ip65_send_attempts", of_opt PInt send_attempts);
     ("sends_this_run", of_opt PInt expect_sends); ("drop_counter_proven", PBool proven);
     ("send_attempts_is_per_send", PBool true)] in
  match recv_dropped, send_attempts with
  | Some dropped, Some attempts =>
      if from_option (λ n, 1 <=? n) false expect_sends && (attempts <? 1)
      then failed ("no send happened", [of_opt PInt expect_sends]) (ev false) else
      let proven := 1 <? attempts in
      if truthy dropped then failed ("dropped", [PInt dropped]) (ev proven)
      else if proven then passed ("no drops, proven", [PInt attempts]) (ev proven)
      else passed ("no drops, not proven", [PInt attempts])
             (ev proven ++ [("unproven_note", PStr (unproven_note attempts))])
  | _, _ => failed ("not read", []) (ev false)
  end.

(** ** The capture bracket *)

(** [min(l)] and [max(l)] of floats: the first of the extreme ones. *)
Definition fmin (x : spec_float) (l : list spec_float) : spec_float :=
  foldl (λ m y, if flt y m then y else m) x l.
Definition fmax (x : spec_float) (l : list spec_float) : spec_float :=
  foldl (λ m y, if flt m y then y else m) x l.

Definition check_capture_bracket (frames : list frame) (started_at ended_at : spec_float)
    (path : option string) (min_inside : Z) (slack_s : spec_float) : verdict :=
  let ev := [("path", of_opt PStr path); ("frames", PInt (len frames));
             ("started_at", PFloat started_at); ("ended_at", PFloat ended_at);
             ("slack_s", PFloat slack_s)] in
  let diagnosed (ev : dict) d := ev ++ [("diagnosis", PStr d)] in
  if flt ended_at started_at
  then failed ("end precedes start", []) (diagnosed ev "inverted-window") else
  match frames with
  | [] => failed ("empty capture", []) (diagnosed ev "empty")
  | first :: rest =>
      let lo := fsub started_at slack_s in
      let hi := fadd ended_at slack_s in
      let stamps := f_ts <$> frames in
      let inside := List.filter (λ t, fle lo t && fle t hi) stamps in
      let before := List.filter (λ t, flt t lo) stamps in
      let after := List.filter (λ t, flt hi t) stamps in
      let newest := fmax (f_ts first) (f_ts <$> rest) in
      let ev := ev ++ [("inside", PInt (len inside)); ("before", PInt (len before));
                       ("after", PInt (len after));
                       ("first_ts", PFloat (fmin (f_ts first) (f_ts <$> rest)));
                       ("last_ts", PFloat newest)] in
      if bool_decide (length inside = 0%nat)
      then failed ("every frame outside", [PInt (len frames); PFloat (fsub started_at newest)])
             (diagnosed ev "no-frame-inside-the-window")
      else match before with
      | b :: bs =>
          failed ("frames predate the run",
            [PInt (len before); PInt (len frames); PFloat (fsub started_at (fmin b bs))])
            (diagnosed ev "capture-started-before-the-run")
      | [] =>
          if len inside <? min_inside
          then failed ("too few frames inside", [PInt (len inside); PInt min_inside])
                 (diagnosed ev "too-few-frames-inside")
          else passed ("all frames inside", [PInt (len frames); PInt (len inside)])
                 (diagnosed ev "ok")
      end
  end.

(** ** The chip and the bench *)

Definition CS8900A_PRODUCT_ID : Z := 0x630E.
Definition HOST_PATH_DE00_WORD : Z := 0x0A0A.

Definition check_cs8900a_identified (product_id : option Z) : verdict :=
  let ev := [("product_id", of_opt PInt product_id); ("expected", PStr (dollar 4 CS8900A_PRODUCT_ID))] in
  let diagnosed (ev : dict) d := ev ++ [("diagnosis", PStr d)] in
  match product_id with
  | None => inconclusive ("product ID not read", []) (diagnosed ev "not-read")
  | Some id =>
      let read := PStr (dollar 4 id) in
      let ev := ev ++ [("read", read)] in
      if id =? HOST_PATH_DE00_WORD
      then failed ("host-side read", [read]) (diagnosed ev "read-from-the-host-side")
      else if id =? 0
      then inconclusive ("zeros", []) (diagnosed ev "unidentified-zeros")
      else if negb (id =? CS8900A_PRODUCT_ID)
      then failed ("wrong chip", [read; PStr (dollar 4 CS8900A_PRODUCT_ID)]) (diagnosed ev "wrong-chip")
      else passed ("identified", [read]) (diagnosed ev "ok")
  end.

Definition BENCH_CONTROL_CAVEAT : string :=
  "this control links c64rrnet.lib (cs8900a only) while our blob links "
  +:+ "ip65_c64.lib's COMBO wrapper (rr-net.o eth64.o c64combo.o, self-modifying "
  +:+ "init_adaptor/eth_rx/eth_tx in .data) -- it proves the BENCH, not our "
  +:+ "driver path, and a fault in the combo glue passes here and fails there".

Definition check_bench_health (ping_ok : option bool) (replies : Z) (rtt : list spec_float)
    (max_rtt : spec_float) (product_id : option Z) (control : string) : verdict :=
  let ev := [("control", PStr control); ("ping_ok", of_opt PBool ping_ok); ("replies", PInt replies);
             ("rtt_ms", PList (PFloat <$> rtt)); ("caveat", PStr BENCH_CONTROL_CAVEAT)] in
  match ping_ok with
  | None => failed ("control not run", [PStr control]) ev
  | Some ok =>
      if negb ok
      then failed ("control failed", [PStr control; PInt replies; PStr BENCH_CONTROL_CAVEAT]) ev else
      if replies <? 1 then failed ("no replies", [PStr control; PInt replies]) ev else
      let slow := List.filter (λ r, flt max_rtt r) rtt in
      if negb (bool_decide (length slow = 0%nat))
      then failed ("slow", [PStr control; PInt (len slow); PFloat max_rtt;
                            PList (PFloat <$> slice 0 5 slow)]) ev else
      let chip := check_cs8900a_identified product_id in
      let ev := ev ++ [("chip", PDict (v_evidence chip));
                       ("chip_status", PStr (status_name (v_status chip)));
                       ("chip_identified", PBool (v_ok chip))] in
      match product_id with
      | Some _ =>
          if negb (v_ok chip)
          then Verdict false ("chip not identified",
                 [PStr control; PStr (v_reason chip).1; PList (v_reason chip).2]) ev (v_status chip)
          else passed ("control passed", [PStr control; PInt replies; PList (PFloat <$> rtt)]) ev
      | None =>
          passed ("control passed", [PStr control; PInt replies; PList (PFloat <$> rtt)])
            (ev ++ [("caveat_chip", PStr ("the CS8900a was not asked to identify itself, so a "
               +:+ "cartridge fault and a driver fault are still indistinguishable here"))])
      end
  end.

(** ** Symbols *)

Definition DIAG_SYMBOLS : list string := ["net_last_error"; "ip65_send_attempts"; "ip65_recv_dropped"].

Definition add_symbol (labels : list (string * Z)) (found : list (string * Z)) (n : string) :
    list (string * Z) :=
  match assoc n labels with Some a => dict_set n a found | None => found end.

Definition resolve_symbols (labels : list (string * Z)) (names : list string) : verdict :=
  let ev := [("requested", PList (PStr <$> names))] in
  if bool_decide (names = []) then failed ("no symbols requested", []) ev else
  let missing := List.filter (λ n, bool_decide (assoc n labels = None)) names in
  let found := foldl (add_symbol labels) [] names in
  let shown := PDict ((λ p, (p.1, PStr (dollar 4 p.2))) <$> found) in
  let ev := ev ++ [("found", shown); ("missing", PList (PStr <$> missing))] in
  if negb (bool_decide (missing = [])) then failed ("not exported", [PList (PStr <$> missing)]) ev
  else passed ("resolved", [PInt (len found); shown]) ev.
