(* ===== verification/NetDiagThms.v ===== *)
(** * Diagnostics of one run: the properties *)

From S2P Require Export NetDiag EchoThms.
#[local] Set Warnings "-clear-no-such-hyp".

(** The binary64 values the examples use. *)
Definition seconds (z : Z) : spec_float := float_of_Z z.

(** A frame of which only the timestamp matters. *)
Definition stamped (z : Z) : frame :=
  build_frame 0 (seconds z) [] [] 0 [] no_net no_transport no_arp.

Lemma decode_registered v :
  v_ok (decode_net_last_error (Some v)) = true ↔ v = 0.
Proof.
  unfold decode_net_last_error. split; [|by intros ->].
  destruct (assoc v NET_ERRORS_RESERVED); [done|].
  destruct (assoc v NET_ERRORS_FOREIGN); [done|].
  destruct (assoc v NET_ERRORS) as [[name meaning]|]; [|done].
  by destruct (Z.eqb_spec v 0).
Qed.

Lemma chip_ok id : v_ok (check_cs8900a_identified (Some id)) = true ↔ id = CS8900A_PRODUCT_ID.
Proof.
  unfold check_cs8900a_identified. split; [|by intros ->]. cbv zeta.
  destruct (id =? HOST_PATH_DE00_WORD); [done|]. destruct (id =? 0); [done|].
  by destruct (Z.eqb_spec id CS8900A_PRODUCT_ID).
Qed.

Lemma length_filter_zero {A} (f : A → bool) l :
  length (List.filter f l) = 0%nat ↔ ∀ x, x ∈ l → f x = false.
Proof. by rewrite length_zero_iff_nil, filter_nil_iff. Qed.

Module Diagnostics.
(** The diagnostics pass exactly on what they name: the error byte only on $00; the
    counters when nothing was dropped and a send that was made shows, the drop counter being
    called proven exactly when the last send was retried; the bench control with an answer,
    no slow round trip and, if the chip was asked, its own product ID; the symbols when every
    one requested is exported. *)
Theorem diagnostics_exact value dropped attempts sends ping replies rtt max_rtt id control labels names :
  (v_ok (decode_net_last_error value) = true ↔ value = Some 0) ∧
  (v_ok (check_net_counters dropped attempts sends) = true ↔
   dropped = Some 0 ∧ ∃ n, attempts = Some n ∧ ∀ m, sends = Some m → 1 ≤ m → 1 ≤ n) ∧
  (assoc "drop_counter_proven" (v_evidence (check_net_counters (Some 0) attempts sends))
     = Some (PBool true) ↔ ∃ n, attempts = Some n ∧ 1 < n) ∧
  (v_ok (check_bench_health ping replies rtt max_rtt id control) = true ↔
   ping = Some true ∧ 1 ≤ replies ∧ (∀ r, r ∈ rtt → flt max_rtt r = false) ∧
   ∀ i, id = Some i → i = CS8900A_PRODUCT_ID) ∧
  (v_ok (resolve_symbols labels names) = true ↔
   names ≠ [] ∧ ∀ n, n ∈ names → assoc n labels ≠ None).
Proof.
  split_and!.
  - destruct value as [v|]; [|done]. rewrite decode_registered. naive_solver.
  - unfold check_net_counters. destruct dropped as [d|], attempts as [n|]; cbn -[Z.leb Z.ltb];
      try (split; [done|by intros (? & ? & ? & _)]).
    guards. rewrite andb_false_iff, Z.ltb_ge.
    assert (Hs : from_option (λ m, 1 <=? m) false sends = false ∨ 1 ≤ n ↔
                 ∀ m, sends = Some m → 1 ≤ m → 1 ≤ n).
    { destruct sends as [m|]; cbn; [|naive_solver]. rewrite Z.leb_gt.
      destruct (decide (1 ≤ m)); naive_solver lia. }
    rewrite Hs. destruct (1 <? n); guards; unfold truthy; rewrite negb_false_iff, Z.eqb_eq;
      naive_solver.
  - unfold check_net_counters. destruct attempts as [n|]; [|by split; [|intros (? & ? & _)]].
    destruct (Z.ltb_spec 1 n) as [Hn|Hn]; cbn [truthy].
    + split; [eauto|]. intros _. rewrite andb_false_intro2 by (apply Z.ltb_ge; lia). done.
    + split; [|intros (? & [= ->] & ?); lia]. by destruct (_ && _).
  - unfold check_bench_health. destruct ping as [ok|]; [|cbn; naive_solver]. guards.
    rewrite length_filter_zero. destruct id as [i|].
    + transitivity (ok = true ∧ 1 ≤ replies ∧ (∀ r, r ∈ rtt → flt max_rtt r = false) ∧
                    v_ok (check_cs8900a_identified (Some i)) = true).
      * destruct (v_ok (check_cs8900a_identified (Some i))); cbn; naive_solver.
      * rewrite chip_ok. naive_solver.
    + guards. naive_solver.
  - unfold resolve_symbols. guards. rewrite filter_nil_iff.
    setoid_rewrite bool_decide_eq_false. done.
Qed.

(** The capture bracket passes exactly when the window is not inverted, no frame is older
    than the window, and enough frames, at least one, lie inside.  Frames after the window do
    not fail it, although the verdict then says that every frame lies inside. *)
Theorem capture_bracket_exact :
  (∀ frames started ended path min_inside slack,
     let lo := fsub started slack in
     let hi := fadd ended slack in
     let inside := List.filter (λ f, fle lo (f_ts f) && fle (f_ts f) hi) frames in
     v_ok (check_capture_bracket frames started ended path min_inside slack) = true ↔
     flt ended started = false ∧ inside ≠ [] ∧ min_inside ≤ len inside ∧
     ∀ f, f ∈ frames → flt (f_ts f) lo = false) ∧
  let v := check_capture_bracket [stamped 100; stamped 900] (seconds 99) (seconds 110) None 1
             (seconds 2) in
  v_ok v = true ∧ v_reason v = ("all frames inside", [PInt 2; PInt 1]) ∧
  assoc "after" (v_evidence v) = Some (PInt 1).
Proof.
  split; [|by vm_compute].
  intros frames started ended path min_inside slack. cbv zeta.
  unfold check_capture_bracket. guards. destruct frames as [|first rest]; [cbn; naive_solver|].
  set (frames := first :: rest).
  assert (Hmap : ∀ g, List.filter g (f_ts <$> frames) = f_ts <$> List.filter (λ f, g (f_ts f)) frames).
  { intros g. clearbody frames. clear first rest. induction frames as [|f fs IH]; [done|]. cbn. rewrite IH.
    by destruct (g (f_ts f)). }
  guards. rewrite !Hmap. unfold len. rewrite length_fmap.
  set (inside := List.filter (λ f, _ && _) frames).
  assert (Hb : ∀ (l : list frame), l ≠ [] ↔ length l ≠ 0%nat) by by intros [].
  rewrite (Hb inside). rewrite <- filter_nil_iff.
  destruct (f_ts <$> List.filter _ frames) as [|b bs] eqn:Hbefore.
  - apply fmap_nil_iff in Hbefore. rewrite Hbefore. guards. naive_solver.
  - split; [by intros (_ & _ & ?)|]. intros (_ & _ & _ & Hn). rewrite Hn in Hbefore. done.
Qed.
End Diagnostics.
