(* ===== verification/DeviceSession.v ===== *)
(** * Sessions on the shared device (tools/device_session.py)

    Access under the harness lock, restoring and resetting the device, and turning a failed
    restore into a failed run.  The harness package is the class [Harness]: what its calls do
    to the outside world is not known, only that each of them returns or raises.  Every call
    is recorded in a log with its result; logging and printing are left out. *)

From S2P Require Export PyStr.

(** ** Exceptions *)

Inductive exit_code :=
| NoCode
| Code (z : Z)
| Text (s : string).
#[export] Instance exit_code_eq_dec : EqDecision exit_code.
Proof. solve_decision. Defined.

(** What a call can raise: the timeout of the lock, any other [Exception], an interrupt and
    [SystemExit], which are no [Exception]. *)
Inductive exn :=
| LockTimeout
| Error (what : string)
| Interrupt
| SystemExit (code : exit_code).
#[export] Instance exn_eq_dec : EqDecision exn.
Proof. solve_decision. Defined.

Definition is_exception (e : exn) : bool :=
  match e with LockTimeout | Error _ => true | Interrupt | SystemExit _ => false end.

(** ** The harness *)

Inductive call :=
| ImportLock
| Acquire (timeout : Z)
| Release
| NewClient
| ImportHelpers
| WriteMem (addr : Z) (data : bytes)
| ReadMem (addr n : Z)
| ResetMachine
| GetTurbo
| SetTurbo (mhz : Z)
| SetReu (on : bool)
(* the calls of the UCI probe *)
| TryAcquire (timeout : Z)
| NewTransport
| GetUci
| EnableUci
| ProbeUci
| GetIp
| Connect (ip : string) (port : Z)
| SocketWrite (id : Z) (data : bytes)
| SocketRead (id max_len : Z)
| SocketClose (id : Z).

(** What a call returns. *)
Definition answer (c : call) : Type :=
  match c with
  | ReadMem _ _ => bytes
  | GetTurbo => option Z
  | TryAcquire _ | GetUci => bool
  | ProbeUci | Connect _ _ | SocketWrite _ _ => Z
  | GetIp => string
  | SocketRead _ _ => bytes
  | _ => unit
  end.

(** What the calls do, and [time.sleep], which can only be interrupted. *)
Class Harness (D : Type) := {
  harness_do : ∀ c : call, eff D exn (answer c);
  os_sleep : Z → D → bool * D;
}.

(** A call and what came of it. *)
Inductive reply :=
| Done
| Data (l : bytes)
| Clock (mhz : option Z)
| Flag (b : bool)
| Number (z : Z)
| Name (s : string).
Inductive event :=
| Returned (c : call) (r : reply)
| Raised (c : call) (e : exn)
| Slept (ms : Z).

Definition reply_of (c : call) : answer c → reply :=
  match c with
  | ReadMem _ _ => Data
  | GetTurbo => Clock
  | TryAcquire _ | GetUci => Flag
  | ProbeUci | Connect _ _ | SocketWrite _ _ => Number
  | GetIp => Name
  | SocketRead _ _ => Data
  | _ => λ _, Done
  end.

(** The outside world, the log, and [_teardown_failures]. *)
Record session (D : Type) := Session {
  s_world : D;
  s_log : list event;
  s_failures : list string;
}.
Arguments Session {D} s_world s_log s_failures.
Arguments s_world {D} s.
Arguments s_log {D} s.
Arguments s_failures {D} s.

Section device.
Context {D : Type} `{!Harness D}.

Abbreviation M := (eff (session D) exn).

Definition perform (c : call) : M (answer c) := λ s,
  match harness_do c (s_world s) with
  | Ret a w => Ret a (Session w (s_log s ++ [Returned c (reply_of c a)]) (s_failures s))
  | Raise e w => Raise e (Session w (s_log s ++ [Raised c e]) (s_failures s))
  end.

Definition sleep (ms : Z) : M unit := λ s,
  let '(interrupted, w) := os_sleep ms (s_world s) in
  let s' := Session w (s_log s ++ [Slept ms]) (s_failures s) in
  if interrupted then Raise Interrupt s' else Ret tt s'.

(** [try: m  except Exception: h], [try: m  finally: f] *)
Definition catch {A} (m : M A) (h : exn → M A) : M A := λ s,
  match m s with
  | Ret a s' => Ret a s'
  | Raise e s' => if is_exception e then h e s' else Raise e s'
  end.
Definition try_finally {A B} (m : M A) (f : M B) : M (A * B) := λ s,
  match m s with
  | Ret a s' => match f s' with Ret b s'' => Ret (a, b) s'' | Raise e s'' => Raise e s'' end
  | Raise e s' => match f s' with Ret _ s'' => Raise e s'' | Raise e' s'' => Raise e' s'' end
  end.

Definition RESTORE_LOCK_TIMEOUT_S : Z := 30.

(** A client, in the sense of [Ultimate64Client]; the calls on it are the calls of the
    harness. *)
Inductive client := Client.

(** [with locked_client(...) as client: body].  The handlers that yield [None] run the body
    outside of their [try]. *)
Definition locked_client {A} (timeout : Z) (body : option client → M A) : M A :=
  ready ← catch (perform ImportLock;; mret true) (λ _, mret false);
  if negb ready then body None else
  got ← catch (perform (Acquire timeout);; mret true) (λ _, mret false);
  if negb got then body None else
  made ← catch (perform NewClient;; mret true)
           (λ _, catch (perform Release) (λ _, mret tt);; mret false);
  if negb made then body None else
  r ← try_finally (body (Some Client)) (catch (perform Release) (λ _, mret tt));
  mret r.1.

Definition restore_idle (idle_mhz : Z) : M bool :=
  catch
    (perform ImportHelpers;;
     locked_client RESTORE_LOCK_TIMEOUT_S (λ client,
       match client with
       | None => mret false
       | Some _ =>
           cur ← perform GetTurbo;
           if decide (cur = Some idle_mhz) then mret true
           else (perform (SetTurbo idle_mhz);; mret true)
       end))
    (λ _, mret false).

(** ** The reset *)

Inductive reset_status := Verified | Unverified | ResetFailed.
#[export] Instance reset_status_eq_dec : EqDecision reset_status.
Proof. solve_decision. Defined.

Definition RESET_SENTINEL_ADDR : Z := 0x03FF.
Definition RESET_SENTINEL_VALUE : Z := 0xA5.

(** [client.read_mem(addr, 1)[0]] *)
Definition read_byte (addr : Z) : M Z :=
  l ← perform (ReadMem addr 1);
  match l with b :: _ => mret b | [] => raise (Error "IndexError") end.

Definition place_sentinel : M bool :=
  catch
    (perform (WriteMem RESET_SENTINEL_ADDR [RESET_SENTINEL_VALUE]);;
     got ← read_byte RESET_SENTINEL_ADDR;
     mret (got =? RESET_SENTINEL_VALUE))
    (λ _, mret false).

Definition reset_and_verify (settle_ms : Z) : M reset_status :=
  sentinel_placed ← place_sentinel;
  issued ← catch (perform ResetMachine;; mret true) (λ _, mret false);
  if negb issued then mret ResetFailed else
  sleep settle_ms;;
  if negb sentinel_placed then mret Unverified else
  after ← catch (b ← read_byte RESET_SENTINEL_ADDR; mret (Some b)) (λ _, mret None);
  mret (match after with
        | None => Unverified
        | Some b => if b =? RESET_SENTINEL_VALUE then ResetFailed else Verified
        end).

(** ** Teardown *)

Record teardown_mode := TeardownMode { tm_idle_mhz : Z; tm_reu_off : bool; tm_reset : bool }.

Record teardown_result := TeardownResult {
  td_turbo : option Z;
  td_reu : bool;
  td_reset : option reset_status;
  td_mode : teardown_mode;
}.

(** The clock's restore: [st["turbo"]]. *)
Definition restore_clock (idle_mhz : Z) : M (option Z) :=
  cur ← catch (perform GetTurbo) (λ _, mret None);
  catch
    (if decide (cur = Some idle_mhz) then perform GetTurbo
     else (perform (SetTurbo idle_mhz);; sleep 1000;; perform GetTurbo))
    (λ _, mret None).

Definition detach_reu : M bool :=
  catch (perform (SetReu false);; mret true) (λ _, mret false).

Definition restore_settings (mode : teardown_mode) : M (option Z * bool) :=
  available ← catch (perform ImportHelpers;; mret true) (λ _, mret false);
  if negb available then mret (None, false) else
  turbo ← restore_clock (tm_idle_mhz mode);
  reu ← (if tm_reu_off mode then detach_reu else mret false);
  mret (turbo, reu).

Definition final_reset (mode : teardown_mode) : M (option reset_status) :=
  if tm_reset mode then (st ← reset_and_verify 2000; mret (Some st)) else mret None.

Definition teardown_body (mode : teardown_mode) : M teardown_result :=
  r ← try_finally (restore_settings mode) (final_reset mode);
  mret (TeardownResult r.1.1 r.1.2 r.2 mode).

Definition nothing_done (mode : teardown_mode) : teardown_result :=
  TeardownResult None false None mode.

Definition teardown_device (held : option client) (mode : teardown_mode) : M teardown_result :=
  match held with
  | Some _ => teardown_body mode
  | None =>
      catch
        (locked_client RESTORE_LOCK_TIMEOUT_S (λ c,
           match c with
           | None => mret (nothing_done mode)
           | Some _ => teardown_body mode
           end))
        (λ _, mret (nothing_done mode))
  end.

(** ** Judging a teardown *)

Definition turbo_text (t : option Z) : string := from_option dec "None" t.
Definition reset_text (r : option reset_status) : string :=
  match r with
  | None => "not issued"
  | Some Verified => "verified"
  | Some Unverified => "unverified"
  | Some ResetFailed => "failed"
  end.

(** The result has a mode and all keys; the reasons are joined with a semicolon. *)
Definition teardown_failure (st : teardown_result) : option string :=
  let mode := td_mode st in
  let why :=
    (if decide (td_turbo st = Some (tm_idle_mhz mode)) then []
     else ["clock reads " +:+ turbo_text (td_turbo st) +:+ ", wanted " +:+ dec (tm_idle_mhz mode)
           +:+ " MHz"])
    ++ (if tm_reu_off mode && negb (td_reu st) then ["REU detach not confirmed"] else [])
    ++ (if tm_reset mode && negb (bool_decide (td_reset st = Some Verified))
        then ["reset " +:+ reset_text (td_reset st)] else []) in
  match why with [] => None | _ => Some (join "; " why) end.

Definition check_teardown (st : teardown_result) : M (option string) := λ s,
  match teardown_failure st with
  | None => Ret None s
  | Some why => Ret (Some why) (Session (s_world s) (s_log s) (s_failures s ++ [why]))
  end.

Definition teardown_failure_count : M nat := λ s, Ret (length (s_failures s)) s.
Definition teardown_failures_since (n : nat) : M (list string) := λ s, Ret (drop n (s_failures s)) s.

Definition not_a_failure (rc : exit_code) : bool :=
  bool_decide (rc = Code 0) || bool_decide (rc = NoCode) || bool_decide (rc = Code 77).

Definition exit_code_after_teardown (rc : exit_code) (failures : list string) : exit_code :=
  if negb (bool_decide (failures = [])) && not_a_failure rc then Code 1 else rc.

Definition fails_on_bad_teardown (fn : M exit_code) : M exit_code :=
  n ← teardown_failure_count;
  rc ← (λ s, match fn s with
             | Raise (SystemExit code) s' =>
                 let new := drop n (s_failures s') in
                 if negb (bool_decide (new = [])) && not_a_failure code
                 then Raise (SystemExit (exit_code_after_teardown code new)) s'
                 else Raise (SystemExit code) s'
             | o => o
             end);
  failures ← teardown_failures_since n;
  mret (exit_code_after_teardown rc failures).
End device.
