(* ===== verification/SessionThms.v ===== *)
(** * Sessions on the shared device: the properties

    Whatever the harness does, the device is only touched under the lock and the lock is given
    back, a teardown never raises an [Exception] and always issues its reset, its status says
    what the log shows, and a run that exits as a pass has left the device restored. *)

From S2P Require Export DeviceSession.
#[local] Set Warnings "-clear-no-such-hyp".

Section logic.
Context {D : Type} `{!Harness D}.
Abbreviation M := (eff (session D) exn).

(** What a computation adds to the log, when it returns and when it raises.  The recorded
    failures stay as they are. *)
Definition logs {A} (m : M A) (Q : A → list event → Prop) (X : exn → list event → Prop) : Prop :=
  ∀ s, match m s with
       | Ret a s' => ∃ tr, s_log s' = s_log s ++ tr ∧ s_failures s' = s_failures s ∧ Q a tr
       | Raise e s' => ∃ tr, s_log s' = s_log s ++ tr ∧ s_failures s' = s_failures s ∧ X e tr
       end.

Lemma logs_ret {A} (a : A) Q X : Q a [] → logs (mret a) Q X.
Proof. intros H s. exists []. by rewrite app_nil_r. Qed.

Lemma logs_raise {A} e Q X : X e [] → logs (raise (A:=A) e) Q X.
Proof. intros H s. exists []. by rewrite app_nil_r. Qed.

Lemma logs_perform (c : call) Q X :
  (∀ a, Q a [Returned c (reply_of c a)]) → (∀ e, X e [Raised c e]) → logs (perform c) Q X.
Proof.
  intros HQ HX s. unfold perform. destruct (harness_do c (s_world s)); eexists; eauto.
Qed.

Lemma logs_sleep ms Q X : Q tt [Slept ms] → X Interrupt [Slept ms] → logs (sleep ms) Q X.
Proof.
  intros HQ HX s. unfold sleep. destruct (os_sleep ms (s_world s)) as [[] w]; eexists; eauto.
Qed.

Lemma logs_bind {A B} (m : M A) (f : A → M B) Q X :
  logs m (λ a tr, logs (f a) (λ b tr', Q b (tr ++ tr')) (λ e tr', X e (tr ++ tr'))) X →
  logs (m ≫= f) Q X.
Proof.
  intros Hm s. specialize (Hm s). rewrite run_bind. destruct (m s) as [a s'|e s'].
  - destruct Hm as (tr & Hl & Hf & Hm). specialize (Hm s').
    destruct (f a s') as [b s''|e s''];
      destruct Hm as (tr' & Hl' & Hf' & Hm); exists (tr ++ tr');
      by rewrite Hl', Hl, Hf', Hf, app_assoc.
  - done.
Qed.

Lemma logs_conseq {A} (m : M A) Q X Q' X' :
  logs m Q' X' → (∀ a tr, Q' a tr → Q a tr) → (∀ e tr, X' e tr → X e tr) → logs m Q X.
Proof.
  intros Hm HQ HX s. specialize (Hm s). destruct (m s);
    destruct Hm as (tr & ? & ? & ?); exists tr; eauto.
Qed.

Lemma logs_catch {A} (m : M A) (h : exn → M A) Q X :
  logs m Q (λ e tr, if is_exception e
                    then logs (h e) (λ a tr', Q a (tr ++ tr')) (λ e tr', X e (tr ++ tr'))
                    else X e tr) →
  logs (catch m h) Q X.
Proof.
  intros Hm s. specialize (Hm s). unfold catch. destruct (m s) as [a s'|e s']; [done|].
  destruct Hm as (tr & Hl & Hf & Hm). destruct (is_exception e).
  - specialize (Hm s'). destruct (h e s') as [b s''|e' s''];
      destruct Hm as (tr' & Hl' & Hf' & Hm); exists (tr ++ tr');
      by rewrite Hl', Hl, Hf', Hf, app_assoc.
  - by exists tr.
Qed.

Lemma logs_finally {A B} (m : M A) (f : M B) Q X :
  logs m (λ a tr, logs f (λ b tr', Q (a, b) (tr ++ tr')) (λ e tr', X e (tr ++ tr')))
         (λ e tr, logs f (λ _ tr', X e (tr ++ tr')) (λ e tr', X e (tr ++ tr'))) →
  logs (try_finally m f) Q X.
Proof.
  intros Hm s. specialize (Hm s). unfold try_finally. destruct (m s) as [a s'|e s'];
    destruct Hm as (tr & Hl & Hf & Hm); specialize (Hm s');
    destruct (f s') as [b s''|e' s'']; destruct Hm as (tr' & Hl' & Hf' & Hm); exists (tr ++ tr');
    by rewrite Hl', Hl, Hf', Hf, app_assoc.
Qed.
End logic.

(** One step of the weakest precondition; [perform] leaves the results to [intros]. *)
Ltac log_step :=
  lazymatch goal with
  | |- logs ?m _ _ =>
      lazymatch m with
      | mret _ => apply logs_ret
      | raise _ => apply logs_raise
      | perform ?c => refine (logs_perform c _ _ _ _); intros ?; cbn [app reply_of]
      | sleep _ => apply logs_sleep; cbn [app]
      | _ ≫= _ => apply logs_bind
      | catch _ _ => apply logs_catch
      | try_finally _ _ => apply logs_finally
      | if ?b then _ else _ => destruct b eqn:?
      | match ?b with _ => _ end => destruct b eqn:?
      end
  | |- if is_exception ?e then _ else _ => destruct (is_exception e) eqn:?
  end.
Ltac log_tidy := cbn [negb app fst snd]; cbv beta iota zeta.
Tactic Notation "log_steps" := log_tidy; repeat (log_step; log_tidy).

(** ** The lock *)

(** What an event needs of the lock and leaves of it; [None] is a breach: the device touched,
    a client made or the lock released without holding it, or taken twice. *)
Definition lock_step (held : bool) (ev : event) : option bool :=
  let step (c : call) (ok : bool) : option bool :=
    match c with
    | ImportLock | ImportHelpers => Some held
    | Acquire _ | TryAcquire _ => if held then None else Some ok
    | Release => if held then Some false else None
    | _ => if held then Some held else None
    end in
  match ev with
  | Returned (TryAcquire _) r => if held then None else Some (match r with Flag b => b | _ => false end)
  | Returned c _ => step c true
  | Raised c _ => step c false
  | Slept _ => Some held
  end.

Definition lock_run (held : bool) (tr : list event) : option bool :=
  foldl (λ h ev, h' ← h; lock_step h' ev) (Some held) tr.

Lemma lock_run_app held tr tr' :
  lock_run held (tr ++ tr') = h ← lock_run held tr; lock_run h tr'.
Proof.
  unfold lock_run. rewrite foldl_app. destruct (foldl _ (Some held) tr); [done|]. cbn.
  by induction tr'.
Qed.

(** A stretch of the log that neither takes nor gives back the lock. *)
Definition inside (tr : list event) : Prop := lock_run true tr = Some true.

Lemma inside_nil : inside [].
Proof. done. Qed.
Lemma inside_app tr tr' : inside tr → inside tr' → inside (tr ++ tr').
Proof. unfold inside. intros H H'. by rewrite lock_run_app, H. Qed.
Lemma inside_cons ev tr : lock_step true ev = Some true → inside tr → inside (ev :: tr).
Proof. intros H H'. by apply (inside_app [ev]). Qed.

Section session_facts.
Context {D : Type} `{!Harness D}.
Abbreviation M := (eff (session D) exn).

(** A computation on the client: it stays inside the lock, and what it raises is what the
    predicate allows. *)
Definition client_code {A} (m : M A) (X : exn → Prop) : Prop :=
  logs m (λ _ tr, inside tr) (λ e tr, inside tr ∧ X e).

(** The log of code that takes the lock itself: no breach, and the lock is held at the end
    only if something that is no [Exception] interrupted the making of the client. *)
Definition balanced (tr : list event) : Prop :=
  ∃ h, lock_run false tr = Some h ∧
       (h = true → ∃ e, last tr = Some (Raised NewClient e) ∧ is_exception e = false).

Lemma locked_client_balanced {A} timeout (body : option client → M A) (X : exn → Prop) :
  logs (body None) (λ _ tr, tr = []) (λ e tr, tr = [] ∧ X e) →
  client_code (body (Some Client)) X →
  (∀ e, is_exception e = false → X e) →
  logs (locked_client timeout body) (λ _ tr, balanced tr) (λ e tr, balanced tr ∧ X e).
Proof.
  intros Hnone Hbody HX. unfold locked_client.
  assert (Hb : ∀ tr, lock_run false tr = Some false → balanced tr)
    by (intros tr Htr; exists false; by split).
  assert (Hend : ∀ tr ev, inside tr → lock_step true ev = Some false →
    balanced (Returned ImportLock Done :: Returned (Acquire timeout) Done :: Returned NewClient Done
                :: tr ++ [ev])).
  { intros tr ev Htr Hev. apply Hb.
    change (lock_run true (tr ++ [ev]) = Some false). rewrite lock_run_app. unfold inside in Htr.
    by rewrite Htr. }
  log_steps; try (by split; [apply Hb|apply HX]);
    lazymatch goal with
    | |- logs (body None) _ _ =>
        eapply logs_conseq; [exact Hnone|intros _ tr ->; by apply Hb|];
        intros e' tr [-> He]; split; [by apply Hb|done]
    | |- logs _ _ _ => idtac
    | |- balanced _ ∧ _ =>
        split; [|by apply HX]; exists true; split; [done|]; intros _; eexists; by split
    end.
  eapply logs_conseq; [exact Hbody|..].
  - intros a' tr Htr. log_steps; rewrite ?app_nil_r; auto.
  - intros e tr [Htr He]. log_steps; rewrite ?app_nil_r; auto.
Qed.

(** *** The reset *)

Definition is_reset (ev : event) : bool :=
  match ev with Returned ResetMachine _ | Raised ResetMachine _ => true | _ => false end.
Definition resets (tr : list event) : nat := length (List.filter is_reset tr).

Lemma resets_app tr tr' : resets (tr ++ tr') = (resets tr + resets tr')%nat.
Proof. unfold resets. by rewrite List.filter_app, length_app. Qed.

Definition sentinel_write : event :=
  Returned (WriteMem RESET_SENTINEL_ADDR [RESET_SENTINEL_VALUE]) Done.
Definition sentinel_read (b : Z) (l : bytes) : event :=
  Returned (ReadMem RESET_SENTINEL_ADDR 1) (Data (b :: l)).

(** The sentinel was written and read back, the reset was issued, and the byte read after it
    is [b]. *)
Definition reset_seen (b : Z) (tr : list event) : Prop :=
  ∃ l l' ms, tr = [sentinel_write; sentinel_read RESET_SENTINEL_VALUE l;
                   Returned ResetMachine Done; Slept ms; sentinel_read b l'].

Definition interrupted (e : exn) : Prop := is_exception e = false.

Definition placed (tr : list event) : Prop :=
  ∃ l, tr = [sentinel_write; sentinel_read RESET_SENTINEL_VALUE l].

Lemma place_sentinel_logs :
  logs place_sentinel
    (λ b tr, inside tr ∧ resets tr = 0%nat ∧ (b = true ↔ placed tr))
    (λ e tr, inside tr ∧ resets tr = 0%nat ∧ interrupted e).
Proof.
  unfold place_sentinel, read_byte, placed. log_steps;
    (split_and!; [done|done|]); try done; try by split; [|intros (? & ?)].
  rewrite Z.eqb_eq. split; [intros ->; by eexists|]. by intros (l' & [= -> ->]).
Qed.

Lemma reset_seen_placed tr l b ms :
  placed tr →
  reset_seen b (tr ++ [Returned ResetMachine Done; Slept ms; sentinel_read b l]).
Proof. intros [l' ->]. by exists l', l, ms. Qed.

(** The last event tells the outcomes of a reset apart. *)
Lemma last_app_cons' {A} (l k : list A) x : last (l ++ x :: k) = last (x :: k).
Proof. induction l as [|y [|z l] IH]; [done|by destruct k|done]. Qed.

Lemma reset_seen_last b tr : reset_seen b tr → ∃ l, last tr = Some (sentinel_read b l).
Proof. intros (l & l' & ms & ->). by exists l'. Qed.

Lemma reset_raised_last tr :
  (∃ pre e, tr = pre ++ [Raised ResetMachine e]) → ∃ e, last tr = Some (Raised ResetMachine e).
Proof. intros (pre & e & ->). exists e. by rewrite last_snoc. Qed.

Lemma reset_logs ms :
  logs (reset_and_verify ms)
    (λ st tr, inside tr ∧ resets tr = 1%nat ∧
       (st = Verified ↔ ∃ b, b ≠ RESET_SENTINEL_VALUE ∧ reset_seen b tr) ∧
       (st = ResetFailed ↔
          reset_seen RESET_SENTINEL_VALUE tr ∨ ∃ pre e, tr = pre ++ [Raised ResetMachine e]))
    (λ e tr, inside tr ∧ interrupted e).
Proof.
  unfold reset_and_verify. apply logs_bind. eapply logs_conseq; [apply place_sentinel_logs|..].
  2:{ intros e tr (? & ? & ?). done. }
  intros b tr (Hin & Hr & Hb). unfold read_byte. log_steps;
    repeat match goal with |- _ ∧ interrupted _ => split; [by apply inside_app|done] end;
    (split; [by apply inside_app|split; [by rewrite resets_app, Hr|]]).
  5: { split; [split; [done|]|split; [|done]].
       - intros (? & _ & [? Hl]%reset_seen_last). by rewrite last_snoc in Hl.
       - intros _. right. by eexists _, _. }
  3: { destruct b; [|done]. assert (Hp : placed tr) by by apply Hb. clear Hb.
       destruct (Z.eqb_spec z RESET_SENTINEL_VALUE) as [->|Hz].
       - split; [split; [done|]|split; [|done]].
         + intros (b & Hne & [l Hl]%reset_seen_last). rewrite last_app_cons' in Hl.
           unfold sentinel_read in Hl. cbn in Hl. congruence.
         + intros _. left. by apply reset_seen_placed.
       - split; [split; [|done]|split; [done|]].
         + intros _. exists z. split; [done|]. by apply reset_seen_placed.
         + intros [[l Hl]%reset_seen_last|[e He]%reset_raised_last];
             rewrite last_app_cons' in *; unfold sentinel_read in *; cbn in *; congruence. }
  all: split; (split; [done|]);
    [intros (? & _ & [? Hl]%reset_seen_last)|
     intros [[? Hl]%reset_seen_last|[? Hl]%reset_raised_last]];
    by rewrite last_app_cons' in Hl.
Qed.

(** *** Teardown *)

Lemma restore_clock_logs idle :
  logs (restore_clock idle)
    (λ t tr, inside tr ∧ resets tr = 0%nat ∧
       ∀ v, t = Some v → last tr = Some (Returned GetTurbo (Clock (Some v))))
    (λ e tr, inside tr ∧ resets tr = 0%nat ∧ interrupted e).
Proof.
  unfold restore_clock. log_steps;
    (split_and!; [done|done|first [done|by intros ? [=]|by intros ? [= <-]|by intros ? ->]]).
Qed.

Lemma detach_reu_logs :
  logs detach_reu
    (λ b tr, inside tr ∧ resets tr = 0%nat ∧
       (b = true → tr = [Returned (SetReu false) Done]))
    (λ e tr, inside tr ∧ resets tr = 0%nat ∧ interrupted e).
Proof. unfold detach_reu. log_steps; (split_and!; done). Qed.

(** What the result of a teardown says is what its log shows: the clock it read last, the
    detached expansion, the reset that was seen to take. *)
Definition result_shown (st : teardown_result) (tr : list event) : Prop :=
  ∃ tc tu tt, tr = tc ++ tu ++ tt ∧
    (∀ v, td_turbo st = Some v → last tc = Some (Returned GetTurbo (Clock (Some v)))) ∧
    (td_reu st = true → tu = [Returned (SetReu false) Done]) ∧
    (td_reset st = Some Verified → ∃ b, b ≠ RESET_SENTINEL_VALUE ∧ reset_seen b tt).

Lemma restore_settings_logs mode :
  logs (restore_settings mode)
    (λ p tr, inside tr ∧ resets tr = 0%nat ∧ ∃ tc tu, tr = tc ++ tu ∧
       (∀ v, p.1 = Some v → last tc = Some (Returned GetTurbo (Clock (Some v)))) ∧
       (p.2 = true → tu = [Returned (SetReu false) Done]))
    (λ e tr, inside tr ∧ resets tr = 0%nat ∧ interrupted e).
Proof.
  unfold restore_settings. apply logs_bind.
  eapply (logs_conseq _ _ _ (λ b tr, inside tr ∧ resets tr = 0%nat)
                            (λ e tr, inside tr ∧ resets tr = 0%nat ∧ interrupted e));
    [log_steps; (split_and!; done)| |done].
  intros b pre [Hin Hr]. log_tidy. destruct (negb b).
  { apply logs_ret. rewrite app_nil_r. split_and!; [done|done|]. exists pre, [].
    by rewrite app_nil_r. }
  apply logs_bind. eapply logs_conseq; [apply restore_clock_logs|..].
  2:{ intros e tr (? & Hr' & ?). rewrite resets_app, Hr, Hr'. eauto using inside_app. }
  intros t tr (Hin' & Hr' & Ht). apply logs_bind.
  eapply (logs_conseq _ _ _ (λ b tr, inside tr ∧ resets tr = 0%nat ∧
           (b = true → tr = [Returned (SetReu false) Done])));
    [destruct (tm_reu_off mode); [apply detach_reu_logs|by apply logs_ret]|..].
  2:{ intros e tu (? & Hr'' & ?). rewrite !resets_app, Hr, Hr', Hr''. eauto using inside_app. }
  intros u tu (Hin'' & Hr'' & Hu). apply logs_ret. rewrite !resets_app, Hr, Hr', Hr''.
  split_and!; [auto using inside_app, inside_nil|done|].
  exists (pre ++ tr), tu. cbn. split_and!; [by rewrite app_nil_r, app_assoc| |done].
  intros v Hv. specialize (Ht v Hv).
  destruct tr as [|ev tr]; [done|]. by rewrite last_app_cons'.
Qed.

Lemma teardown_body_logs mode :
  logs (teardown_body mode)
    (λ st tr, inside tr ∧ td_mode st = mode ∧ result_shown st tr ∧
       resets tr = if tm_reset mode then 1%nat else 0%nat)
    (λ e tr, inside tr ∧ interrupted e).
Proof.
  unfold teardown_body. apply logs_bind, logs_finally.
  assert (Hreset : logs (final_reset mode)
    (λ r tr, inside tr ∧ (r = Some Verified → ∃ b, b ≠ RESET_SENTINEL_VALUE ∧ reset_seen b tr) ∧
             resets tr = if tm_reset mode then 1%nat else 0%nat)
    (λ e tr, inside tr ∧ interrupted e)).
  { unfold final_reset. destruct (tm_reset mode); [|by apply logs_ret]. apply logs_bind.
    eapply logs_conseq; [apply reset_logs|..|done].
    intros st tr (? & ? & Hv & _). apply logs_ret. rewrite app_nil_r. split_and!; [done| |done].
    intros [= ->]. by apply Hv. }
  eapply logs_conseq; [apply restore_settings_logs|..].
  - intros p tr (Hin & Hr & tc & tu & -> & Hc & Hu).
    eapply logs_conseq; [exact Hreset|..].
    + intros r tt (Hin' & Hv & Hr'). apply logs_ret. rewrite app_nil_r.
      split_and!; [by apply inside_app|done| |by rewrite resets_app, Hr, Hr'].
      exists tc, tu, tt. by rewrite <- app_assoc.
    + intros e tt [? ?]. split; [by apply inside_app|done].
  - intros e tr (Hin & _ & He). eapply logs_conseq; [exact Hreset|..].
    + intros _ tt (? & _). split; [by apply inside_app|done].
    + intros e' tt [? ?]. split; [by apply inside_app|done].
Qed.
End session_facts.

Definition final {D A} (o : outcome (session D) exn A) : session D :=
  match o with Ret _ s | Raise _ s => s end.

Section whole.
Context {D : Type} `{!Harness D}.
Abbreviation M := (eff (session D) exn).

Definition teardown_client (mode : teardown_mode) (c : option client) : M teardown_result :=
  match c with None => mret (nothing_done mode) | Some _ => teardown_body mode end.

Lemma teardown_alone_logs mode :
  logs (teardown_device None mode)
    (λ st tr, balanced tr ∧ td_mode st = mode)
    (λ e tr, balanced tr ∧ interrupted e).
Proof.
  unfold teardown_device. apply logs_catch.
  assert (Hstop : ∀ tr, balanced tr →
    logs (mret (nothing_done mode) : M _) (λ st tr', balanced (tr ++ tr') ∧ td_mode st = mode)
      (λ e tr', balanced (tr ++ tr') ∧ interrupted e))
    by (intros tr ?; apply logs_ret; by rewrite app_nil_r).
  change (logs (locked_client RESTORE_LOCK_TIMEOUT_S (teardown_client mode))
    (λ st tr, balanced tr ∧ td_mode st = mode)
    (λ e tr, if is_exception e
             then logs (mret (nothing_done mode) : M _)
                    (λ st tr', balanced (tr ++ tr') ∧ td_mode st = mode)
                    (λ e tr', balanced (tr ++ tr') ∧ interrupted e)
             else balanced tr ∧ interrupted e)).
  assert (Hmode : logs (locked_client RESTORE_LOCK_TIMEOUT_S (teardown_client mode))
    (λ st _, td_mode st = mode) (λ _ _, True)).
  { assert (Hb : ∀ c, logs (teardown_client mode c) (λ st _, td_mode st = mode) (λ _ _, True)).
    { intros [c|]; [|by apply logs_ret].
      eapply logs_conseq; [apply teardown_body_logs|by intros st tr (_ & ? & _)|done]. }
    unfold locked_client. log_steps; try done; eapply logs_conseq; [apply Hb|..]; cbn; try done.
    all: intros st tr ?; log_steps; done. }
  intros s. specialize (Hmode s).
  pose proof (locked_client_balanced RESTORE_LOCK_TIMEOUT_S (teardown_client mode) interrupted)
    as Hbal.
  assert (Hbal' := Hbal ltac:(by apply logs_ret)
    ltac:(eapply logs_conseq; [apply teardown_body_logs|by intros st tr (? & _)|done])
    ltac:(done) s).
  destruct (locked_client _ _ s) as [st s'|e s'].
  - destruct Hmode as (tr & Hl & _ & Hm), Hbal' as (tr' & Hl' & ? & ?).
    exists tr'. by split_and!.
  - destruct Hbal' as (tr' & Hl' & Hf' & Hbal' & He). exists tr'. split_and!; [done|done|].
    by rewrite He.
Qed.

Lemma restore_idle_logs idle :
  logs (restore_idle idle) (λ _ tr, balanced tr) (λ e tr, balanced tr ∧ interrupted e).
Proof.
  unfold restore_idle. apply logs_catch, logs_bind, logs_perform.
  2:{ intros e. assert (Hb : balanced [Raised ImportHelpers e]) by (exists false; by split).
      destruct (is_exception e) eqn:He; [by apply logs_ret|done]. }
  intros u. cbn [reply_of].
  assert (Hcons : ∀ tr, balanced tr → balanced (Returned ImportHelpers Done :: tr)).
  { intros tr (h & Hrun & Hh). exists h. split; [exact Hrun|]. intros Ht.
    destruct (Hh Ht) as (e & He & ?). exists e. by destruct tr. }
  eapply logs_conseq; [apply (locked_client_balanced _ _ (λ _, True))|..].
  - by apply logs_ret.
  - unfold client_code. log_steps; by rewrite ?app_nil_r.
  - done.
  - intros b tr ?. by apply Hcons.
  - intros e tr [? _]. destruct (is_exception e) eqn:?; [|by split; [apply Hcons|]].
    apply logs_ret. rewrite app_nil_r. by apply Hcons.
Qed.
End whole.

(** ** A tool's run *)

Section tool.
Context {D : Type} `{!Harness D}.
Abbreviation M := (eff (session D) exn).

(** The main function of a live tool: its work, then the teardown of the device it holds,
    judged and recorded. *)
Definition tool (work : M exit_code) (mode : teardown_mode) : M exit_code :=
  fails_on_bad_teardown
    (r ← try_finally work (st ← teardown_device (Some Client) mode; check_teardown st);
     mret r.1).

(** What the log of a good teardown shows. *)
Definition restored (mode : teardown_mode) (tr : list event) : Prop :=
  ∃ tc tu tt, tr = tc ++ tu ++ tt ∧
    last tc = Some (Returned GetTurbo (Clock (Some (tm_idle_mhz mode)))) ∧
    (tm_reu_off mode = true → tu = [Returned (SetReu false) Done]) ∧
    (tm_reset mode = true → ∃ b, b ≠ RESET_SENTINEL_VALUE ∧ reset_seen b tt).

Lemma no_failure_restored st tr :
  teardown_failure st = None → result_shown st tr → restored (td_mode st) tr.
Proof.
  intros Hf (tc & tu & tt & -> & Hc & Hu & Hr). exists tc, tu, tt.
  unfold teardown_failure in Hf.
  destruct (decide (td_turbo st = Some (tm_idle_mhz (td_mode st)))) as [Ht|]; [|discriminate Hf].
  destruct (tm_reu_off _ && _) eqn:Hu', (tm_reset _ && _) eqn:Hr'; try discriminate Hf.
  split_and!; [done|by apply Hc| |].
  - intros Hoff. rewrite Hoff in Hu'. apply Hu. by destruct (td_reu st).
  - intros Hreset. rewrite Hreset in Hr'. apply Hr.
    by apply negb_false_iff, bool_decide_eq_true in Hr'.
Qed.

(** The part under [finally]: it records a failure, or the log shows a good teardown. *)
Lemma judged_teardown mode s :
  match (st ← teardown_device (Some Client) mode; check_teardown st) s with
  | Ret _ s' => ∃ tr new, s_log s' = s_log s ++ tr ∧ s_failures s' = s_failures s ++ new ∧
                          (new = [] → restored mode tr)
  | Raise e s' => interrupted e
  end.
Proof.
  rewrite run_bind. cbn [teardown_device]. pose proof (teardown_body_logs mode s) as Ht.
  destruct (teardown_body mode s) as [st s'|e s'].
  - destruct Ht as (tr & Hl & Hf & _ & <- & Hshown & _). unfold check_teardown.
    destruct (teardown_failure st) as [why|] eqn:Hw; cbn.
    + exists tr, [why]. by rewrite Hf.
    + exists tr, []. rewrite app_nil_r. split_and!; [done|done|].
      intros _. by apply no_failure_restored.
  - by destruct Ht as (tr & _ & _ & _ & ?).
Qed.

(** Code in which nothing ends the process. *)
Definition stays {A} (m : M A) : Prop := ∀ s code s', m s ≠ Raise (SystemExit code) s'.

Lemma stays_mret {A} (a : A) : stays (mret a).
Proof. by intros s code s'. Qed.
Lemma stays_then {A B} (m : M A) (f : A → M B) :
  stays m → (∀ a, stays (f a)) → stays (m ≫= f).
Proof.
  intros Hm Hf s code s'. rewrite run_bind. specialize (Hm s). destruct (m s); [apply Hf|].
  intros [= -> ->]. by apply (Hm code s').
Qed.
Lemma stays_catch {A} (m : M A) h : stays m → (∀ e, stays (h e)) → stays (catch m h).
Proof.
  intros Hm Hh s code s'. unfold catch. specialize (Hm s). destruct (m s) as [|e s1]; [done|].
  destruct (is_exception e); [apply Hh|]. intros [= -> ->]. by eapply Hm.
Qed.
Lemma stays_finally {A B} (m : M A) (f : M B) : stays m → stays f → stays (try_finally m f).
Proof.
  intros Hm Hf s code s'. unfold try_finally. specialize (Hm s). destruct (m s) as [a s1|e s1];
    specialize (Hf s1); destruct (f s1); [done| | |]; intros [= -> ->].
  - by eapply Hf.
  - by eapply Hm.
  - by eapply Hf.
Qed.

Hypothesis harness_stays : ∀ c w code w', harness_do c w ≠ Raise (SystemExit code) w'.

Lemma stays_perform c : stays (perform c).
Proof.
  intros s code s'. unfold perform. pose proof (harness_stays c (s_world s)) as Hc.
  destruct (harness_do c (s_world s)); [done|]. intros [= -> <-]. by eapply Hc.
Qed.
Lemma stays_read a n : stays (A := bytes) (perform (ReadMem a n)).
Proof. exact (stays_perform (ReadMem a n)). Qed.
Lemma stays_clock : stays (A := option Z) (perform GetTurbo).
Proof. exact (stays_perform GetTurbo). Qed.
Lemma stays_sleep ms : stays (sleep ms).
Proof. intros s code s'. unfold sleep. by destruct (os_sleep ms (s_world s)) as [[] w]. Qed.

#[local] Hint Resolve stays_mret stays_then stays_catch stays_finally stays_perform stays_read stays_clock
  stays_sleep : core.

Lemma judged_stays mode :
  stays (st ← teardown_device (Some Client) mode; check_teardown st).
Proof.
  assert (Hread : ∀ a, stays (read_byte a)).
  { intros a. unfold read_byte. apply stays_then; [auto|]. intros l.
    destruct l as [|b l]; [by intros s code s'|auto]. }
  assert (Hplace : stays place_sentinel).
  { unfold place_sentinel. apply stays_catch; [|auto]. apply stays_then; [auto|]. intros _.
    apply stays_then; auto. }
  assert (Hissue : stays (perform ResetMachine;; mret true)) by (apply stays_then; auto).
  assert (Hreset : stays (final_reset mode)).
  { unfold final_reset. destruct (tm_reset mode); [|auto]. apply stays_then; [|auto].
    unfold reset_and_verify. apply stays_then; [auto|]. intros b.
    apply stays_then; [by apply stays_catch|]. intros i. destruct (negb i); [auto|].
    apply stays_then; [auto|]. intros _. destruct (negb b); [auto|].
    apply stays_then; [|auto]. apply stays_catch; [|auto]. apply stays_then; auto. }
  assert (Hclock : stays (restore_clock (tm_idle_mhz mode))).
  { unfold restore_clock. apply stays_then; [auto|]. intros cur. apply stays_catch; [|auto].
    destruct (decide _); [auto|]. apply stays_then; [auto|]. intros _. apply stays_then; auto. }
  assert (Hreu : stays detach_reu).
  { unfold detach_reu. apply stays_catch; [|auto]. apply stays_then; auto. }
  assert (Hset : stays (restore_settings mode)).
  { unfold restore_settings. apply stays_then.
    - apply stays_catch; [|auto]. apply stays_then; auto.
    - intros b. destruct (negb b); [auto|]. apply stays_then; [auto|]. intros t.
      apply stays_then; [destruct (tm_reu_off mode)|]; auto. }
  apply stays_then; [|intros st s code s'; unfold check_teardown; by destruct (teardown_failure st)].
  apply stays_then; auto.
Qed.
End tool.

Module Sessions.
(** C13. Whatever the harness does, code that takes the device itself touches it only while it
    holds the lock, takes the lock at most once and gives it back, also when an exception
    passes through: the lock is left held only if something that is no [Exception] interrupts
    the making of the client. *)
Theorem lock_discipline {D} `{!Harness D} mode idle (s : session D) :
  (∃ tr, s_log (final (teardown_device None mode s)) = s_log s ++ tr ∧ balanced tr) ∧
  (∃ tr, s_log (final (restore_idle idle s)) = s_log s ++ tr ∧ balanced tr).
Proof.
  split.
  - pose proof (teardown_alone_logs mode s) as H. destruct (teardown_device None mode s);
      destruct H as (tr & ? & _ & ? & _); by exists tr.
  - pose proof (restore_idle_logs idle s) as H. destruct (restore_idle idle s);
      [destruct H as (tr & ? & _ & ?)|destruct H as (tr & ? & _ & ? & _)]; by exists tr.
Qed.

(** The reset's status is the truth about what was seen: verified exactly when the
    sentinel was read back before the reset and something else after it; failed exactly when
    the sentinel was still there, or the reset could not be issued.  It is issued exactly
    once, and nothing but an interrupt gets out. *)
Theorem reset_status_exact {D} `{!Harness D} ms (s : session D) :
  match reset_and_verify ms s with
  | Ret st s' => ∃ tr, s_log s' = s_log s ++ tr ∧ resets tr = 1%nat ∧
      (st = Verified ↔ ∃ b, b ≠ RESET_SENTINEL_VALUE ∧ reset_seen b tr) ∧
      (st = ResetFailed ↔
         reset_seen RESET_SENTINEL_VALUE tr ∨ ∃ pre e, tr = pre ++ [Raised ResetMachine e])
  | Raise e _ => is_exception e = false
  end.
Proof.
  pose proof (reset_logs ms s) as H. destruct (reset_and_verify ms s).
  - destruct H as (tr & Hl & _ & _ & H). by exists tr.
  - by destruct H as (tr & _ & _ & _ & H).
Qed.

(** C2. A tool whose exit code is that of a pass or a skip has left the device restored, and
    the log shows it: the clock read back as idle, the expansion detached and the reset seen
    to take, in the mode asked for.  This holds whether the work returned or called for an
    exit, as long as the work only adds to the recorded failures and the harness itself does
    not end the process. *)
Theorem passing_run_restored {D} `{!Harness D} (work : eff (session D) exn exit_code) mode s :
  (∀ s1, ∃ new, s_failures (final (work s1)) = s_failures s1 ++ new) →
  (∀ c w code w', harness_do c w ≠ Raise (SystemExit code) w') →
  let shown s' := ∃ pre tr, s_log s' = pre ++ tr ∧ restored mode tr in
  match tool work mode s with
  | Ret rc s' => not_a_failure rc = true → shown s'
  | Raise (SystemExit code) s' => not_a_failure code = true → shown s'
  | Raise _ _ => True
  end.
Proof.
  intros Hwork Hexit shown. unfold tool, fails_on_bad_teardown.
  rewrite run_bind. cbn [teardown_failure_count]. rewrite !run_bind. unfold try_finally.
  set (J := st ← teardown_device (Some Client) mode; check_teardown st).
  assert (Hend : ∀ new_w s1, s_failures s1 = s_failures s ++ new_w →
    match J s1 with
    | Ret _ s2 => (drop (length (s_failures s)) (s_failures s2) = [] → shown s2)
    | Raise e _ => ∀ code, e ≠ SystemExit code
    end).
  { intros new_w s1 Hs1. pose proof (judged_teardown mode s1) as HJ. fold J in HJ.
    pose proof (judged_stays Hexit mode s1) as Hstay. fold J in Hstay.
    destruct (J s1) as [why s2|e s2].
    - destruct HJ as (tr & new & Hl & Hf & Hr). rewrite Hf, Hs1, <- app_assoc, drop_app_length.
      intros [_ ->]%app_eq_nil. exists (s_log s1), tr. split; [done|by apply Hr].
    - intros code ->. by eapply Hstay. }
  destruct (Hwork s) as [new_w Hnew]. destruct (work s) as [rc s1|e s1]; cbn in Hnew;
    specialize (Hend _ _ Hnew); destruct (J s1) as [why s2|e' s2].
  - cbn. rewrite run_bind. cbn. unfold exit_code_after_teardown. case_bool_decide as Hd; cbn; [by auto|].
    destruct (not_a_failure rc) eqn:Hrc; cbn; [done|congruence].
  - cbn. destruct e' as [| | |code]; try done. by destruct (Hend code).
  - cbn. destruct e as [| | |code]; try done. case_bool_decide as Hd; cbn; [by auto|].
    destruct (not_a_failure code) eqn:Hrc; cbn; [|congruence].
    unfold exit_code_after_teardown. rewrite bool_decide_eq_false_2, Hrc by done. done.
  - cbn. destruct e' as [| | |code]; try done. by destruct (Hend code).
Qed.

(** *** A device in memory *)

(** The byte at the sentinel's address and the clock; a reset clears the byte. *)
#[local] Instance bench : Harness (Z * option Z) := {|
  harness_do c := λ w,
    match c return outcome (Z * option Z) exn (answer c) with
    | WriteMem _ l => Ret tt (default 0 (head l), w.2)
    | ReadMem _ _ => Ret [w.1] w
    | ResetMachine => Ret tt (0, w.2)
    | GetTurbo => Ret w.2 w
    | SetTurbo mhz => Ret tt (w.1, Some mhz)
    | TryAcquire _ | GetUci => Ret true w
    | ProbeUci | Connect _ _ | SocketWrite _ _ => Ret 0 w
    | GetIp => Ret "" w
    | SocketRead _ _ => Ret [] w
    | _ => Ret tt w
    end;
  os_sleep _ w := (false, w);
|}.

Definition idle_mode : teardown_mode := TeardownMode 1 true true.
Definition bench_start : session (Z * option Z) := Session (7, Some 48) [] [].

Lemma passing_run_restored_witness :
  ∃ pre tr, s_log (final (tool (mret (Code 0)) idle_mode bench_start)) = pre ++ tr ∧
            restored idle_mode tr.
Proof.
  refine (passing_run_restored (mret (Code 0)) idle_mode bench_start _ _ eq_refl).
  - intros s1. exists []. by rewrite app_nil_r.
  - intros c w code w'. by destruct c.
Defined.
End Sessions.
