(* ===== verification/UdpHelpers.v ===== *)
(** * The UDP helpers of the live probes (tools/uci/udp_echo_listener.py, tools/uci/udp_size_responder.py)

    Each helper is an object used by its owner's thread while a thread of its own receives and
    answers.  A move is one step of one of the threads up to where another thread can see it, or to
    the next call of the socket; what the socket does is part of the move.  [None]: the move cannot
    be made now. *)

From S2P Require Export PyBytes.

(** An address: the host's text is not looked at. *)
Definition peer : Type := Z * Z.

(** ** UDPEchoListener *)

(** What [recvfrom] does, and what the system gave when asked for a socket: [None] for an [OSError]. *)
Inductive arrival := Timeout | SocketError | Datagram (src : peer) (data : bytes).

(** A reply generator; [None] is an exception it raises. *)
Definition reply_fn : Type := bytes → option bytes.

(** Where the thread [_recv_loop] stands: begun, before it takes the object's socket, before the test of the stop event, in [recvfrom], with a
    datagram, with it recorded and the generator picked up, with the reply, returned, or ended by an
    exception. *)
Inductive echo_pc :=
| Fresh
| AtTest
| Receiving
| Arrived (src : peer) (data : bytes)
| Recorded (src : peer) (data : bytes) (f : option reply_fn)
| Answering (src : peer) (out : bytes)
| Returned
| Died.

(** A thread and the socket it took from the object. *)
Record echo_thread := EchoThread { et_sock : option nat; et_pc : echo_pc }.

(** Where the owner stands: outside, in [start] before the list is emptied and before the socket is
    bound, in [stop] before the join and before the close. *)
Inductive owner_pc := Outside | Emptying | Binding | Joining | Closing.

(** What has been done, for the statements: a datagram recorded by a thread, one sent, a reply that
    could not be sent. *)
Inductive echo_event :=
| Heard (t : nat) (src : peer) (data : bytes) (f : option reply_fn)
| Sent (t : nat) (src : peer) (out : bytes)
| SendFailed (t : nat) (src : peer).

Record listener := Listener {
  l_port : Z;
  l_max_payload : Z;
  l_reply_fn : option reply_fn;
  l_sock : option nat;
  l_thread : option nat;
  l_stop : bool;
  l_received : list (peer * bytes);
  l_owner : owner_pc;
  l_open : list bool;
  l_threads : list echo_thread;
  l_log : list echo_event;
}.

Definition new_listener (port max_payload : Z) (f : option reply_fn) : listener :=
  Listener port max_payload f None None false [] Outside [] [] [].

Inductive echo_move :=
| Start | StartEmpty | StartBind (port : option Z)
| Stop | StopJoin (timed_out : bool) | StopClose
| Clear | SetReply (f : option reply_fn)
| Begin (t : nat) | Test (t : nat) | Receive (t : nat) (a : arrival) | Record_ (t : nat) | Reply (t : nat) | Send (t : nat) (ok : bool).

Section moves.
Implicit Types s : listener.

Definition with_owner (o : owner_pc) s : listener :=
  Listener (l_port s) (l_max_payload s) (l_reply_fn s) (l_sock s) (l_thread s) (l_stop s) (l_received s) o
    (l_open s) (l_threads s) (l_log s).
Definition with_stop (b : bool) s : listener :=
  Listener (l_port s) (l_max_payload s) (l_reply_fn s) (l_sock s) (l_thread s) b (l_received s) (l_owner s)
    (l_open s) (l_threads s) (l_log s).
Definition with_received (l : list (peer * bytes)) s : listener :=
  Listener (l_port s) (l_max_payload s) (l_reply_fn s) (l_sock s) (l_thread s) (l_stop s) l (l_owner s)
    (l_open s) (l_threads s) (l_log s).
Definition with_reply (f : option reply_fn) s : listener :=
  Listener (l_port s) (l_max_payload s) f (l_sock s) (l_thread s) (l_stop s) (l_received s) (l_owner s)
    (l_open s) (l_threads s) (l_log s).
Definition with_pc (t : nat) (sock : option nat) (pc : echo_pc) s : listener :=
  Listener (l_port s) (l_max_payload s) (l_reply_fn s) (l_sock s) (l_thread s) (l_stop s) (l_received s)
    (l_owner s) (l_open s) (<[t := EchoThread sock pc]> (l_threads s)) (l_log s).
Definition logged (e : echo_event) s : listener :=
  Listener (l_port s) (l_max_payload s) (l_reply_fn s) (l_sock s) (l_thread s) (l_stop s) (l_received s)
    (l_owner s) (l_open s) (l_threads s) (l_log s ++ [e]).

(** [start()] finds a socket: the [RuntimeError], the object as it was. *)
Definition start_refused s : bool := bool_decide (is_Some (l_sock s)).

(** The socket bound and the thread begun. *)
Definition bound (port : Z) s : listener :=
  Listener port (l_max_payload s) (l_reply_fn s) (Some (length (l_open s))) (Some (length (l_threads s)))
    (l_stop s) (l_received s) Outside (l_open s ++ [true]) (l_threads s ++ [EchoThread None Fresh])
    (l_log s).
(** [self._sock.close()] and the two fields emptied. *)
Definition closed s : listener :=
  Listener (l_port s) (l_max_payload s) (l_reply_fn s) None (l_thread s) (l_stop s) (l_received s) Outside
    (match l_sock s with Some i => <[i := false]> (l_open s) | None => l_open s end) (l_threads s) (l_log s).
Definition joined s : listener :=
  Listener (l_port s) (l_max_payload s) (l_reply_fn s) (l_sock s) None (l_stop s) (l_received s) Closing
    (l_open s) (l_threads s) (l_log s).

Definition thread_ended (pc : echo_pc) : bool := match pc with Returned | Died => true | _ => false end.
Definition is_open s (i : option nat) : bool := default false (i ≫= λ i, l_open s !! i).

Definition owner_move (m : echo_move) s : option listener :=
  match m, l_owner s with
  | Start, Outside => Some (if start_refused s then s else with_owner Emptying (with_stop false s))
  | StartEmpty, Emptying => Some (with_owner Binding (with_received [] s))
  | StartBind (Some port), Binding => Some (bound port s)
  | StartBind None, Binding => Some (with_owner Outside s)
  | Stop, Outside =>
      Some (with_owner (match l_thread s with Some _ => Joining | None => Closing end) (with_stop true s))
  | StopJoin timed_out, Joining =>
      t ← l_thread s;
      th ← l_threads s !! t;
      if timed_out || thread_ended (et_pc th) then Some (joined s) else None
  | StopClose, Closing => Some (closed s)
  | Clear, Outside => Some (with_received [] s)
  | SetReply f, Outside => Some (with_reply f s)
  | _, _ => None
  end.

(** A reply is computed outside the lock, from what was picked up under it. *)
Definition reply_to (f : option reply_fn) (data : bytes) : option bytes :=
  match f with Some f => f data | None => Some data end.

Definition thread_move (m : echo_move) s : option listener :=
  match m with
  | Begin t =>
      th ← l_threads s !! t;
      match et_pc th with
      | Fresh => Some (with_pc t (l_sock s) (match l_sock s with Some _ => AtTest | None => Died end) s)
      | _ => None
      end
  | Test t =>
      th ← l_threads s !! t;
      match et_pc th with
      | AtTest => Some (with_pc t (et_sock th) (if l_stop s then Returned else Receiving) s)
      | _ => None
      end
  | Receive t a =>
      th ← l_threads s !! t;
      match et_pc th, a with
      | Receiving, Timeout => Some (with_pc t (et_sock th) AtTest s)
      | Receiving, SocketError => Some (with_pc t (et_sock th) (if l_stop s then Returned else Died) s)
      | Receiving, Datagram src data =>
          if is_open s (et_sock th)
          then Some (with_pc t (et_sock th) (Arrived src (slice 0 (l_max_payload s) data)) s) else None
      | _, _ => None
      end
  | Record_ t =>
      th ← l_threads s !! t;
      match et_pc th with
      | Arrived src data =>
          Some (logged (Heard t src data (l_reply_fn s))
            (with_pc t (et_sock th) (Recorded src data (l_reply_fn s)) (with_received (l_received s ++ [(src, data)]) s)))
      | _ => None
      end
  | Reply t =>
      th ← l_threads s !! t;
      match et_pc th with
      | Recorded src data f =>
          Some (with_pc t (et_sock th) (match reply_to f data with Some out => Answering src out | None => Died end) s)
      | _ => None
      end
  | Send t ok =>
      th ← l_threads s !! t;
      match et_pc th with
      | Answering src out =>
          if ok && negb (is_open s (et_sock th)) then None else
          Some (logged (if ok then Sent t src out else SendFailed t src) (with_pc t (et_sock th) AtTest s))
      | _ => None
      end
  | _ => None
  end.

Definition listener_step (m : echo_move) s : option listener :=
  match m with
  | Start | StartEmpty | StartBind _ | Stop | StopJoin _ | StopClose | Clear | SetReply _ => owner_move m s
  | Begin _ | Test _ | Receive _ _ | Record_ _ | Reply _ | Send _ _ => thread_move m s
  end.

Fixpoint echo_run (ms : list echo_move) s : option listener :=
  match ms with
  | [] => Some s
  | m :: ms => s' ← listener_step m s; echo_run ms s'
  end.
End moves.

(** ** UDPSizeResponder *)

(** [bytes((i & 0xFF) for i in range(n))] *)
Definition make_pattern (n : Z) : bytes := (λ i, Z.land i 0xFF) <$> seqZ 0 n.

(** Where the thread [run] stands: not started, before the test of the stop event, in [recvfrom], with a
    datagram, with it noted, behind the test that found [response_payload] set, with what is to be sent
    ([None] is Python's), with it sent, with it remembered, with it counted, returned, or ended by an
    exception. *)
Inductive size_pc :=
| NotStarted
| SAtTest
| SReceiving
| SArrived (src : peer) (data : bytes)
| SNoted (src : peer) (data : bytes)
| SOverridden (src : peer) (data : bytes)
| SChosen (src : peer) (data : bytes) (payload : option bytes)
| SSent (src : peer) (data : bytes) (payload : bytes)
| SRemembered (src : peer) (data : bytes)
| SCounted (src : peer) (data : bytes)
| SReturned
| SDied.

(** What has been done: a reply sent, and the line that is logged behind it. *)
Inductive size_event :=
| Replied (src : peer) (payload : bytes)
| Reported (src : peer) (request_len response_size : Z).

Record size_responder := SizeResponder {
  sr_port : Z;
  sr_response_size : Z;
  sr_response_payload : option bytes;
  sr_last_request : option (peer * bytes);
  sr_last_response : option bytes;
  sr_responses_sent : Z;
  sr_stop : bool;
  sr_open : bool;
  sr_pc : size_pc;
  sr_log : list size_event;
}.

(** The object of an owner that got [port]. *)
Definition new_size_responder (port : Z) : size_responder :=
  SizeResponder port 32 None None None 0 false true NotStarted [].

Inductive size_move :=
| SStart | SStop | SClose | SetSize (n : Z) | SetPayload (p : option bytes) | Forget
| STest | SReceive (a : arrival) | SNote | SChoose | SPick | SSend (ok : bool) | SRemember | SCount | SReport.

Section size_moves.
Implicit Types s : size_responder.

Definition sr_at (pc : size_pc) s : size_responder :=
  SizeResponder (sr_port s) (sr_response_size s) (sr_response_payload s) (sr_last_request s) (sr_last_response s)
    (sr_responses_sent s) (sr_stop s) (sr_open s) pc (sr_log s).
Definition sr_with_request (r : peer * bytes) s : size_responder :=
  SizeResponder (sr_port s) (sr_response_size s) (sr_response_payload s) (Some r) (sr_last_response s)
    (sr_responses_sent s) (sr_stop s) (sr_open s) (sr_pc s) (sr_log s).
Definition sr_with_response (p : option bytes) s : size_responder :=
  SizeResponder (sr_port s) (sr_response_size s) (sr_response_payload s) (sr_last_request s) p
    (sr_responses_sent s) (sr_stop s) (sr_open s) (sr_pc s) (sr_log s).
Definition sr_counted s : size_responder :=
  SizeResponder (sr_port s) (sr_response_size s) (sr_response_payload s) (sr_last_request s) (sr_last_response s)
    (sr_responses_sent s + 1) (sr_stop s) (sr_open s) (sr_pc s) (sr_log s).
Definition sr_logged (e : size_event) s : size_responder :=
  SizeResponder (sr_port s) (sr_response_size s) (sr_response_payload s) (sr_last_request s) (sr_last_response s)
    (sr_responses_sent s) (sr_stop s) (sr_open s) (sr_pc s) (sr_log s ++ [e]).
Definition sr_settings (n : Z) (p : option bytes) (stop open : bool) s : size_responder :=
  SizeResponder (sr_port s) n p (sr_last_request s) (sr_last_response s)
    (sr_responses_sent s) stop open (sr_pc s) (sr_log s).

(** The owner's assignments, [start] and the two statements of [stop]. *)
Definition size_owner (m : size_move) s : option size_responder :=
  match m with
  | SStart => match sr_pc s with NotStarted => Some (sr_at SAtTest s) | _ => None end
  | SStop => Some (sr_settings (sr_response_size s) (sr_response_payload s) true (sr_open s) s)
  | SClose => Some (sr_settings (sr_response_size s) (sr_response_payload s) (sr_stop s) false s)
  | SetSize n => Some (sr_settings n (sr_response_payload s) (sr_stop s) (sr_open s) s)
  | SetPayload p => Some (sr_settings (sr_response_size s) p (sr_stop s) (sr_open s) s)
  | Forget => Some (sr_with_response None s)
  | _ => None
  end.

(** The thread.  Only a timeout of [recvfrom] is caught: any other error of the socket ends it, and so
    does a reply that is not bytes. *)
Definition size_thread (m : size_move) s : option size_responder :=
  match m, sr_pc s with
  | STest, SAtTest => Some (sr_at (if sr_stop s then SReturned else SReceiving) s)
  | SReceive Timeout, SReceiving => Some (sr_at SAtTest s)
  | SReceive SocketError, SReceiving => Some (sr_at SDied s)
  | SReceive (Datagram src data), SReceiving =>
      if sr_open s then Some (sr_at (SArrived src (slice 0 2048 data)) s) else None
  | SNote, SArrived src data => Some (sr_at (SNoted src data) (sr_with_request (src, data) s))
  | SChoose, SNoted src data =>
      Some (sr_at (match sr_response_payload s with
                   | Some _ => SOverridden src data
                   | None => SChosen src data (Some (make_pattern (sr_response_size s)))
                   end) s)
  | SPick, SOverridden src data => Some (sr_at (SChosen src data (sr_response_payload s)) s)
  | SSend ok, SChosen src data payload =>
      match payload with
      | None => Some (sr_at SDied s)
      | Some p =>
          if ok then if sr_open s then Some (sr_logged (Replied src p) (sr_at (SSent src data p) s)) else None
          else Some (sr_at SDied s)
      end
  | SRemember, SSent src data p => Some (sr_at (SRemembered src data) (sr_with_response (Some p) s))
  | SCount, SRemembered src data => Some (sr_at (SCounted src data) (sr_counted s))
  | SReport, SCounted src data =>
      Some (sr_logged (Reported src (len data) (sr_response_size s)) (sr_at SAtTest s))
  | _, _ => None
  end.

Definition size_step (m : size_move) s : option size_responder :=
  match m with
  | SStart | SStop | SClose | SetSize _ | SetPayload _ | Forget => size_owner m s
  | _ => size_thread m s
  end.

Fixpoint size_run (ms : list size_move) s : option size_responder :=
  match ms with
  | [] => Some s
  | m :: ms => s' ← size_step m s; size_run ms s'
  end.
End size_moves.
