(* ===== verification/UdpThms.v ===== *)
(** * The UDP helpers: the properties

    The echo listener answers what came, to where it came from, once, with the generator that was set
    when it was recorded; after a stop it sends nothing and its thread ends.  The size responder counts
    what it sent; what its owner can do to it meanwhile. *)

From S2P Require Export UdpHelpers.

(** ** The listener's invariant *)

Definition thread_of (e : echo_event) : nat :=
  match e with Heard t _ _ _ | Sent t _ _ | SendFailed t _ => t end.

(** The datagram a thread owes an answer for, from what has been done. *)
Inductive owes (t : nat) : list echo_event → option (peer * bytes * option reply_fn) → Prop :=
| owes_nil : owes t [] None
| owes_heard l src data f : owes t l None → owes t (l ++ [Heard t src data f]) (Some (src, data, f))
| owes_sent l src data f out :
    owes t l (Some (src, data, f)) → reply_to f data = Some out → owes t (l ++ [Sent t src out]) None
| owes_failed l src data f : owes t l (Some (src, data, f)) → owes t (l ++ [SendFailed t src]) None
| owes_other l e q : thread_of e ≠ t → owes t l q → owes t (l ++ [e]) q.

Definition heard_of (l : list echo_event) : list (peer * bytes) :=
  omap (λ e, match e with Heard _ src data _ => Some (src, data) | _ => None end) l.

Lemma heard_of_app l k : heard_of (l ++ k) = heard_of l ++ heard_of k.
Proof. apply omap_app. Qed.

(** What a thread owes and where it stands. *)
Definition owes_at (t : nat) (l : list echo_event) (pc : echo_pc) : Prop :=
  match pc with
  | Recorded src data f => owes t l (Some (src, data, f))
  | Answering src out => ∃ data f, owes t l (Some (src, data, f)) ∧ reply_to f data = Some out
  | Died => ∃ q, owes t l q
  | _ => owes t l None
  end.

Record listener_ok (s : listener) : Prop := ListenerOk {
  lo_threads : ∀ t, match l_threads s !! t with
                    | Some th => owes_at t (l_log s) (et_pc th)
                    | None => owes t (l_log s) None
                    end;
  lo_open : ∀ i, l_open s !! i = Some true → l_sock s = Some i;
  lo_starting : l_owner s = Emptying ∨ l_owner s = Binding → l_sock s = None;
  lo_stopping : l_owner s = Joining ∨ l_owner s = Closing → l_stop s = true;
  lo_received : ∃ l, heard_of (l_log s) = l ++ l_received s;
}.

Lemma new_listener_ok port n f : listener_ok (new_listener port n f).
Proof. constructor; [intros t; apply owes_nil|by intros|done|by intros [?|?]|by exists []]. Qed.

Lemma owes_at_other t l e pc : thread_of e ≠ t → owes_at t l pc → owes_at t (l ++ [e]) pc.
Proof.
  intros Hne. destruct pc; cbn [owes_at]; eauto using owes_other.
  - intros (data & f & Ho & Ha). eauto using owes_other.
  - intros [q Ho]. eauto using owes_other.
Qed.

(** A thread moved without a record. *)
Lemma moved_ok t th sock pc s :
  l_threads s !! t = Some th → owes_at t (l_log s) pc → listener_ok s →
  listener_ok (with_pc t sock pc s).
Proof.
  intros Ht Hpc [Hth Hop Hst Hsg Hrec]. constructor; cbn; [|done..]. intros t'.
  destruct (decide (t' = t)) as [->|Hne].
  - by rewrite list_lookup_insert_eq by by eapply lookup_lt_Some.
  - rewrite list_lookup_insert_ne by done. apply Hth.
Qed.

(** A thread moved with one. *)
Lemma logged_ok t th pc e r s :
  l_threads s !! t = Some th → thread_of e = t → owes_at t (l_log s ++ [e]) pc → listener_ok s →
  (∃ l, heard_of (l_log s ++ [e]) = l ++ r) →
  listener_ok (logged e (with_pc t (et_sock th) pc (with_received r s))).
Proof.
  intros Ht He Hpc [Hth Hop Hst Hsg _] Hrec. constructor; cbn; [|done..]. intros t'.
  destruct (decide (t' = t)) as [->|Hne].
  - by rewrite list_lookup_insert_eq by by eapply lookup_lt_Some.
  - rewrite list_lookup_insert_ne by done. specialize (Hth t').
    destruct (l_threads s !! t'); [apply owes_at_other|apply owes_other]; congruence || done.
Qed.

(** A move of the owner that leaves the threads and the sockets alone. *)
Lemma same_ok s s' :
  l_threads s' = l_threads s → l_log s' = l_log s → l_open s' = l_open s → l_sock s' = l_sock s →
  (l_owner s' = Emptying ∨ l_owner s' = Binding → l_sock s' = None) →
  (l_owner s' = Joining ∨ l_owner s' = Closing → l_stop s' = true) →
  (l_received s' = l_received s ∨ l_received s' = []) → listener_ok s → listener_ok s'.
Proof.
  intros Ht Hl Ho Hs Hst Hsg Hr [Hth Hop _ _ [l Hrec]]. constructor; rewrite ?Ht, ?Hl, ?Ho, ?Hs; try done.
  - by rewrite <- Hs.
  - destruct Hr as [->| ->]; [by exists l|]. exists (heard_of (l_log s)). by rewrite app_nil_r.
Qed.

Lemma bound_ok port s : listener_ok s → l_sock s = None → listener_ok (bound port s).
Proof.
  intros [Hth Hop _ _ Hrec] Hnone. constructor; cbn; [intros t|intros i Hi|by intros [?|?]|by intros [?|?]|done].
  - specialize (Hth t). destruct (decide (t < length (l_threads s))%nat).
    + by rewrite lookup_app_l.
    + rewrite lookup_app_r by lia. rewrite lookup_ge_None_2 in Hth by lia.
      destruct (t - length (l_threads s))%nat as [|k]; [exact Hth|by rewrite lookup_ge_None_2 by (cbn; lia)].
  - destruct (decide (i < length (l_open s))%nat).
    + rewrite lookup_app_l in Hi by done. apply Hop in Hi. congruence.
    + apply lookup_lt_Some in Hi. rewrite length_app in Hi. cbn in Hi. f_equal. lia.
Qed.

Lemma closed_ok s : listener_ok s → listener_ok (closed s).
Proof.
  intros [Hth Hop _ _ Hrec]. constructor; cbn; [done| |by intros [?|?]|by intros [?|?]|done]. intros i Hi.
  destruct (l_sock s) as [j|]; [|by apply Hop in Hi].
  destruct (decide (i = j)) as [->|Hne].
  - by apply list_lookup_insert_Some in Hi as [(_ & ? & _)|[? _]].
  - rewrite list_lookup_insert_ne in Hi by done. apply Hop in Hi. congruence.
Qed.

Lemma owner_ok m s s' : listener_ok s → owner_move m s = Some s' → listener_ok s'.
Proof.
  intros Hok Hm. pose proof (lo_starting s Hok) as Hst. pose proof (lo_stopping s Hok) as Hsg. unfold owner_move in Hm.
  destruct m as [| |[port|]| |timed_out| | |f| | | | | |]; destruct (l_owner s) eqn:Ho; try done; cbn in Hm.
  all: try (injection Hm as <-).
  all: lazymatch goal with
       | Hm : _ = Some _ |- _ => idtac
       | |- listener_ok (bound _ _) => apply bound_ok; auto
       | |- listener_ok (closed _) => by apply closed_ok
       | |- listener_ok (if start_refused _ then _ else _) => idtac
       | |- listener_ok _ =>
           apply (same_ok s); cbn; rewrite ?Ho; auto; try (by intros [?|?]); by destruct (l_thread s); intros [?|?]
       | _ => idtac
       end.
  - unfold start_refused. case_bool_decide as Hs; [done|]. apply (same_ok s); cbn; auto; [|by intros [?|?]].
    intros _. destruct (l_sock s) eqn:E; [|done]. destruct Hs. by eexists.
  - destruct (l_thread s) as [t|]; [|done]. cbn in Hm. destruct (l_threads s !! t) as [th|]; [|done]. cbn in Hm.
    destruct (_ || _); [|done]. injection Hm as <-. apply (same_ok s); cbn; auto. by intros [?|?].
Qed.

Lemma thread_ok m s s' : listener_ok s → thread_move m s = Some s' → listener_ok s'.
Proof.
  intros Hok Hm. unfold thread_move in Hm.
  destruct m as [| | | | | | | |t|t|t a|t|t|t ok]; try done.
  all: destruct (l_threads s !! t) as [th|] eqn:Ht; [|done]; cbn in Hm.
  all: pose proof (lo_threads s Hok t) as Hat; rewrite Ht in Hat.
  - destruct (et_pc th) eqn:Hpc; try done. injection Hm as <-. apply (moved_ok t th); [done| |done].
    destruct (l_sock s); [done|by exists None].
  - destruct (et_pc th) eqn:Hpc; try done. injection Hm as <-. apply (moved_ok t th); [done| |done]. by destruct (l_stop s).
  - destruct (et_pc th) eqn:Hpc; try done. destruct a as [| |src data].
    + injection Hm as <-. by apply (moved_ok t th).
    + injection Hm as <-. apply (moved_ok t th); [done| |done]. destruct (l_stop s); [done|]. by exists None.
    + destruct (is_open s (et_sock th)); [|done]. injection Hm as <-. by apply (moved_ok t th).
  - destruct (et_pc th) eqn:Hpc; try done. injection Hm as <-.
    apply logged_ok; [done|done|by apply owes_heard|done|].
    destruct (lo_received s Hok) as [l Hl]. exists l. by rewrite heard_of_app, Hl, <- app_assoc.
  - destruct (et_pc th) as [| | | |src data f| | |] eqn:Hpc; try done. injection Hm as <-.
    apply (moved_ok t th); [done| |done]. cbn in Hat. destruct (reply_to f data) eqn:Ha; [by exists data, f|by eexists].
  - destruct (et_pc th) as [| | | | |src out| |] eqn:Hpc; try done. destruct (ok && _); [done|]. injection Hm as <-.
    destruct Hat as (data & f & Ho & Ha).
    apply (logged_ok t th _ _ (l_received s) s); [done|by destruct ok| |done|].
    + destruct ok; [by eapply owes_sent|by eapply owes_failed].
    + destruct (lo_received s Hok) as [l Hl]. exists l. rewrite heard_of_app, Hl. destruct ok; cbn; by rewrite app_nil_r.
Qed.

Lemma echo_run_ok ms s s' : listener_ok s → echo_run ms s = Some s' → listener_ok s'.
Proof.
  revert s. induction ms as [|m ms IH]; intros s Hok; cbn; [by intros [= <-]|].
  destruct (listener_step m s) as [s1|] eqn:Hm; [|done]. cbn. apply IH. unfold listener_step in Hm.
  destruct m; by first [by eapply owner_ok|by eapply thread_ok].
Qed.

(** A reply in the log is the answer to what its thread heard last. *)
Lemma owes_pending t l q :
  owes t l q → ∀ src data f, q = Some (src, data, f) →
  ∃ l1 l2, l = l1 ++ Heard t src data f :: l2 ∧ Forall (λ e, thread_of e ≠ t) l2.
Proof.
  induction 1 as [|l src data f Ho IH|l src data f out Ho IH Ha|l src data f Ho IH|l e q Hne Ho IH];
    intros src' data' f' Hq; try done.
  - injection Hq as -> -> ->. by exists l, [].
  - destruct (IH _ _ _ Hq) as (l1 & l2 & -> & Hf). exists l1, (l2 ++ [e]).
    split; [by rewrite <- app_assoc|]. apply Forall_app. split; [done|by constructor].
Qed.

Lemma owes_sent_inv t l q :
  owes t l q → ∀ l1 src out l2, l = l1 ++ Sent t src out :: l2 →
  ∃ data f, owes t l1 (Some (src, data, f)) ∧ reply_to f data = Some out.
Proof.
  induction 1 as [|l src data f Ho IH|l src data f out Ho IH Ha|l src data f Ho IH|l e q Hne Ho IH];
    intros l1 src' out' l2 Heq.
  1: by destruct l1.
  all: destruct l2 as [|x l2 _] using rev_ind;
    [apply app_inj_tail in Heq as [-> [=]]|rewrite app_comm_cons, app_assoc in Heq; apply app_inj_tail in Heq as [-> _]];
    eauto.
  - subst. eauto.
  - subst. by destruct Hne.
Qed.

(** ** Winding down *)

Definition mover (m : echo_move) : option nat :=
  match m with
  | Begin t | Test t | Receive t _ | Record_ t | Reply t | Send t _ => Some t
  | _ => None
  end.
Definition moves_of (t : nat) (ms : list echo_move) : nat :=
  length (List.filter (λ m, bool_decide (mover m = Some t)) ms).

(** How many moves a thread has left once the stop event is set. *)
Definition wind (pc : echo_pc) : nat :=
  match pc with
  | Receiving => 5 | Arrived _ _ => 4 | Recorded _ _ _ => 3 | Answering _ _ => 2 | Fresh => 2 | AtTest => 1
  | Returned | Died => 0
  end.

Lemma thread_moved m t s s' :
  mover m = Some t → listener_step m s = Some s' →
  ∃ th sock pc, l_threads s !! t = Some th ∧ l_threads s' = <[t := EchoThread sock pc]> (l_threads s) ∧
    (l_stop s = true → (wind pc < wind (et_pc th))%nat) ∧ l_stop s' = l_stop s ∧ l_sock s' = l_sock s ∧
    l_owner s' = l_owner s.
Proof.
  intros Hm Hs. destruct m as [| | | | | | | |t'|t'|t' a|t'|t'|t' ok]; try done; injection Hm as ->; cbn in Hs;
    destruct (l_threads s !! t) as [th|] eqn:Ht; try done; cbn in Hs; exists th;
    destruct (et_pc th) as [| | |src data|src data f|src out| |] eqn:Hpc; try done.
  - injection Hs as <-. eexists _, _. split_and!; try done. intros _. case_match; cbn; lia.
  - injection Hs as <-. eexists _, _. split_and!; try done. intros Hst. rewrite Hst. cbn. lia.
  - destruct a as [| |src data]; [| |destruct (is_open _ _); [|done]]; injection Hs as <-; eexists _, _;
      (split_and!; try done); intros Hst; rewrite ?Hst; cbn; lia.
  - injection Hs as <-. eexists _, _. split_and!; try done. cbn. lia.
  - injection Hs as <-. eexists _, _. split_and!; try done. intros _. case_match; cbn; lia.
  - destruct (_ && _); [done|]. injection Hs as <-. eexists _, _. split_and!; try done. cbn. lia.
Qed.

Lemma owner_moved m s s' :
  mover m = None → m ≠ Start → listener_step m s = Some s' →
  (∀ t th, l_threads s !! t = Some th → l_threads s' !! t = Some th) ∧ (l_stop s = true → l_stop s' = true) ∧
  l_log s' = l_log s ∧
  (l_sock s = None → l_owner s ≠ Emptying ∧ l_owner s ≠ Binding →
   l_sock s' = None ∧ l_owner s' ≠ Emptying ∧ l_owner s' ≠ Binding).
Proof.
  intros Hm Hne Hs. destruct m as [| |[port|]| |timed_out| | |f| | | | | |]; try done; cbn in Hs;
    destruct (l_owner s) eqn:Ho; try done; try (injection Hs as <-).
  5: { destruct (l_thread s) as [t|]; [|done]. cbn in Hs. destruct (l_threads s !! t); [|done]. cbn in Hs.
       destruct (_ || _); [|done]. injection Hs as <-. split_and!; try done. }
  all: split_and!; try done; cbn; rewrite ?Ho; try tauto.
  - intros t th Ht. rewrite lookup_app_l; [done|by eapply lookup_lt_Some].
  - intros Hn _. split; [done|]. by destruct (l_thread s).
Qed.

Lemma moves_left ms t th s s' :
  l_stop s = true → l_threads s !! t = Some th → Start ∉ ms → echo_run ms s = Some s' →
  ∃ th', l_threads s' !! t = Some th' ∧ (moves_of t ms + wind (et_pc th') ≤ wind (et_pc th))%nat.
Proof.
  revert s th. induction ms as [|m ms IH]; intros s th Hst Ht Hns; cbn [echo_run].
  - intros [= <-]. exists th. split; [done|]. cbn. lia.
  - destruct (listener_step m s) as [s1|] eqn:Hm; [|done]. cbn. intros Hr.
    apply not_elem_of_cons in Hns as [Hne Hns].
    destruct (mover m) as [t'|] eqn:Hmv.
    + destruct (thread_moved m t' s s1 Hmv Hm) as (th0 & sock & pc & Ht0 & Hs1 & Hlt & Hst1 & _). rewrite Hst in Hst1.
      destruct (decide (t' = t)) as [->|Hnt].
      * rewrite Ht in Ht0. injection Ht0 as <-.
        destruct (IH s1 (EchoThread sock pc)) as (th' & Ht' & Hle); [done| |done|done|].
        { rewrite Hs1, list_lookup_insert_eq; [done|by eapply lookup_lt_Some]. }
        exists th'. split; [done|]. unfold moves_of in *. cbn [List.filter]. rewrite ?Hmv, bool_decide_true by done.
        cbn in *. specialize (Hlt Hst). lia.
      * destruct (IH s1 th) as (th' & Ht' & Hle); [done| |done|done|].
        { by rewrite Hs1, list_lookup_insert_ne. }
        exists th'. split; [done|]. unfold moves_of in *. cbn [List.filter].
        by rewrite ?Hmv, bool_decide_false by congruence.
    + destruct (owner_moved m s s1 Hmv (not_eq_sym Hne) Hm) as (Hk & Hst1 & _).
      destruct (IH s1 th) as (th' & Ht' & Hle); [by apply Hst1|by apply Hk|done|done|].
      exists th'. split; [done|]. unfold moves_of in *. cbn [List.filter]. by rewrite ?Hmv, bool_decide_false.
Qed.

(** A thread that has not ended can always move. *)
Lemma can_move t th s :
  l_threads s !! t = Some th → thread_ended (et_pc th) = false → ∃ m s', mover m = Some t ∧ listener_step m s = Some s'.
Proof.
  intros Ht He. destruct (et_pc th) as [| | |src data|src data f|src out| |] eqn:Hpc; try done;
    [exists (Begin t)|exists (Test t)|exists (Receive t Timeout)|exists (Record_ t)|exists (Reply t)|exists (Send t false)];
    cbn; rewrite Ht; cbn; rewrite Hpc; by eexists.
Qed.

(** Nothing is sent while no socket is open. *)
Definition is_sent (e : echo_event) : bool := match e with Sent _ _ _ => true | _ => false end.

Lemma step_silent m s s' :
  listener_ok s → l_sock s = None → listener_step m s = Some s' →
  ∃ k, l_log s' = l_log s ++ k ∧ forallb (λ e, negb (is_sent e)) k = true.
Proof.
  intros Hok Hn Hm.
  assert (Hshut : ∀ i, is_open s i = false).
  { intros [i|]; [|done]. unfold is_open. cbn. destruct (l_open s !! i) as [[]|] eqn:E; [|done|done].
    apply (lo_open s Hok) in E. congruence. }
  destruct m as [| |[port|]| |timed_out| | |f|t|t|t a|t|t|t ok]; cbn in Hm.
  1-9: exists []; rewrite app_nil_r; split; [|done]; destruct (l_owner s); try done; try (by injection Hm as <-).
  - injection Hm as <-. by destruct (start_refused s).
  - destruct (l_thread s) as [t|]; [|done]. cbn in Hm. destruct (l_threads s !! t); [|done]. cbn in Hm.
    destruct (_ || _); [|done]. by injection Hm as <-.
  - destruct (l_threads s !! t) as [th|]; [|done]. cbn in Hm. destruct (et_pc th); try done.
    injection Hm as <-. exists []. by rewrite app_nil_r.
  - destruct (l_threads s !! t) as [th|]; [|done]. cbn in Hm. destruct (et_pc th); try done.
    injection Hm as <-. exists []. by rewrite app_nil_r.
  - destruct (l_threads s !! t) as [th|]; [|done]. cbn in Hm. destruct (et_pc th); try done.
    exists []. rewrite app_nil_r. split; [|done]. destruct a; [| |destruct (is_open _ _); [|done]]; by injection Hm as <-.
  - destruct (l_threads s !! t) as [th|]; [|done]. cbn in Hm. destruct (et_pc th); try done.
    injection Hm as <-. by eexists [_].
  - destruct (l_threads s !! t) as [th|]; [|done]. cbn in Hm. destruct (et_pc th); try done.
    injection Hm as <-. exists []. by rewrite app_nil_r.
  - destruct (l_threads s !! t) as [th|]; [|done]. cbn in Hm. destruct (et_pc th); try done.
    rewrite Hshut, andb_true_r in Hm. destruct ok; [done|]. injection Hm as <-. by eexists [_].
Qed.

Lemma run_silent ms s s' :
  listener_ok s → l_sock s = None → l_owner s ≠ Emptying ∧ l_owner s ≠ Binding → Start ∉ ms →
  echo_run ms s = Some s' →
  l_sock s' = None ∧ ∃ k, l_log s' = l_log s ++ k ∧ forallb (λ e, negb (is_sent e)) k = true.
Proof.
  revert s. induction ms as [|m ms IH]; intros s Hok Hn Ho Hns; cbn [echo_run].
  - intros [= <-]. split; [done|]. exists []. by rewrite app_nil_r.
  - destruct (listener_step m s) as [s1|] eqn:Hm; [|done]. cbn. intros Hr.
    apply not_elem_of_cons in Hns as [Hne Hns].
    assert (H1 : l_sock s1 = None ∧ l_owner s1 ≠ Emptying ∧ l_owner s1 ≠ Binding).
    { destruct (mover m) as [t|] eqn:Hmv.
      - destruct (thread_moved m t s s1 Hmv Hm) as (th & sock & pc & _ & _ & _ & _ & -> & ->). done.
      - destruct (owner_moved m s s1 Hmv (not_eq_sym Hne) Hm) as (_ & _ & _ & Hk). by apply Hk. }
    destruct (step_silent m s s1 Hok Hn Hm) as (k & Hk & Hf).
    destruct (IH s1) as (Hn' & k' & Hk' & Hf'); [|tauto..|].
    { apply (echo_run_ok [m] s); [done|]. cbn. by rewrite Hm. }
    split; [done|]. exists (k ++ k'). rewrite Hk', Hk, <- app_assoc, forallb_app, Hf. done.
Qed.

Lemma echo_run_snoc ms m s s' :
  echo_run (ms ++ [m]) s = Some s' → ∃ s1, echo_run ms s = Some s1 ∧ listener_step m s1 = Some s'.
Proof.
  revert s. induction ms as [|m' ms IH]; intros s; cbn [echo_run app].
  - destruct (listener_step m s) as [s1|] eqn:Hm; [|done]. cbn. intros [= <-]. by exists s.
  - destruct (listener_step m' s); [|done]. cbn. apply IH.
Qed.

(** ** The responder's accounts *)

Definition replies_of (l : list size_event) : list bytes :=
  omap (λ e, match e with Replied _ p => Some p | Reported _ _ _ => None end) l.
Definition reports_of (l : list size_event) : list Z :=
  omap (λ e, match e with Reported _ _ n => Some n | Replied _ _ => None end) l.

(** A reply that is sent and not yet counted, one that is sent and not yet remembered, one that is
    counted and not yet reported. *)
Definition uncounted (pc : size_pc) : nat := match pc with SSent _ _ _ | SRemembered _ _ => 1 | _ => 0 end.
Definition unremembered (pc : size_pc) : nat := match pc with SSent _ _ _ => 1 | _ => 0 end.
Definition unreported (pc : size_pc) : nat := match pc with SCounted _ _ => 1 | _ => 0 end.

Lemma replies_of_app l k : replies_of (l ++ k) = replies_of l ++ replies_of k.
Proof. apply omap_app. Qed.
Lemma reports_of_app l k : reports_of (l ++ k) = reports_of l ++ reports_of k.
Proof. apply omap_app. Qed.

(** The replies the owner can know of. *)
Definition remembered (s : size_responder) : list bytes :=
  let l := replies_of (sr_log s) in take (length l - unremembered (sr_pc s)) l.

Record accounts (s : size_responder) : Prop := Accounts {
  ac_counted : Z.of_nat (length (replies_of (sr_log s))) = sr_responses_sent s + Z.of_nat (uncounted (sr_pc s));
  ac_reported : Z.of_nat (length (reports_of (sr_log s)) + unreported (sr_pc s)) = sr_responses_sent s;
  ac_response : sr_last_response s = None ∨ sr_last_response s = last (remembered s);
  ac_sent : ∀ src data p, sr_pc s = SSent src data p → last (replies_of (sr_log s)) = Some p;
}.

Lemma new_accounts port : accounts (new_size_responder port).
Proof. constructor; try done. by left. Qed.

(** A move that changes neither the accounts nor whether a reply is under way. *)
Lemma quiet_accounts s s' :
  sr_log s' = sr_log s → sr_responses_sent s' = sr_responses_sent s →
  sr_last_response s' = sr_last_response s ∨ sr_last_response s' = None →
  uncounted (sr_pc s') = uncounted (sr_pc s) → unremembered (sr_pc s') = unremembered (sr_pc s) →
  unreported (sr_pc s') = unreported (sr_pc s) → (sr_pc s' = sr_pc s ∨ unremembered (sr_pc s') = 0%nat) →
  accounts s → accounts s'.
Proof.
  intros Hl Hn Hr Hu Hm Hp Hpc [H1 H2 H3 H4]. constructor.
  - by rewrite Hl, Hn, Hu.
  - by rewrite Hl, Hn, Hp.
  - unfold remembered. rewrite Hl, Hm. destruct Hr as [->| ->]; [done|by left].
  - intros src data p Hpc'. destruct Hpc as [Heq|Hz]; [|by rewrite Hpc' in Hz].
    rewrite Hl. apply (H4 src data). congruence.
Qed.

Lemma step_accounts m s s' : accounts s → size_step m s = Some s' → accounts s'.
Proof.
  intros Hok Hm. pose proof Hok as [H1 H2 H3 H4].
  destruct m as [| | |n|p| | |a| | | |ok| | |]; cbn in Hm; destruct (sr_pc s) as
    [| | |src data|src data|src data|src data payload|src data payload|src data|src data| |] eqn:Hpc; try done;
    try (by destruct a);
    try (injection Hm as <-; apply (quiet_accounts s); cbn; rewrite ?Hpc; cbn; tauto).
  - injection Hm as <-. apply (quiet_accounts s); cbn; rewrite ?Hpc; destruct (sr_stop s); cbn; tauto.
  - destruct a; [| |destruct (sr_open s); [|done]]; injection Hm as <-;
      (apply (quiet_accounts s); cbn; rewrite ?Hpc; cbn; tauto).
  - injection Hm as <-. apply (quiet_accounts s); cbn; rewrite ?Hpc; destruct (sr_response_payload s); cbn; tauto.
  - destruct payload as [p|]; [destruct ok; [destruct (sr_open s); [|done]|]|];
      try (injection Hm as <-; apply (quiet_accounts s); cbn; rewrite ?Hpc; cbn; tauto).
    injection Hm as <-. unfold remembered in H3. rewrite Hpc in H3. cbn [unremembered uncounted unreported] in *.
    rewrite Nat.sub_0_r, take_ge in H3 by done.
    constructor; cbn [sr_log sr_logged sr_at sr_pc sr_responses_sent sr_last_response uncounted unreported];
      rewrite ?replies_of_app, ?reports_of_app, ?length_app; cbn [length replies_of reports_of omap list_omap].
    + lia.
    + lia.
    + unfold remembered. cbn [sr_log sr_logged sr_at sr_pc unremembered].
      rewrite replies_of_app, length_app. cbn. by rewrite Nat.add_sub, take_app_length.
    + intros ? ? ? [= _ _ <-]. by rewrite last_snoc.
  - injection Hm as <-. constructor; cbn; try done. right. unfold remembered. cbn.
    rewrite Nat.sub_0_r, take_ge by done. symmetry. by apply (H4 src data).
  - injection Hm as <-. unfold remembered in H3. rewrite Hpc in H3. cbn [unremembered uncounted unreported] in *.
    constructor; cbn [sr_log sr_counted sr_at sr_pc sr_responses_sent sr_last_response uncounted unreported];
      [lia|lia|done|done].
  - injection Hm as <-. unfold remembered in H3. rewrite Hpc in H3. cbn [unremembered uncounted unreported] in *.
    constructor; cbn [sr_log sr_logged sr_at sr_pc sr_responses_sent sr_last_response uncounted unreported];
      rewrite ?replies_of_app, ?reports_of_app, ?length_app; cbn [length replies_of reports_of omap list_omap].
    + lia.
    + lia.
    + unfold remembered. cbn [sr_log sr_logged sr_at sr_pc unremembered].
      rewrite replies_of_app. cbn [replies_of omap list_omap]. by rewrite app_nil_r.
    + done.
Qed.

Lemma run_accounts ms s s' : accounts s → size_run ms s = Some s' → accounts s'.
Proof.
  revert s. induction ms as [|m ms IH]; intros s Hok; cbn [size_run]; [by intros [= <-]|].
  destruct (size_step m s) as [s1|] eqn:Hm; [|done]. cbn. apply IH. by eapply step_accounts.
Qed.

(** A session of the listener: a datagram answered with a generator set in between, a stop while the
    thread is about to record the second one, and what it does then. *)
Definition double : reply_fn := λ data, Some (data ++ data).
Definition demo_session : list echo_move :=
  [Start; StartEmpty; StartBind (Some 4000); SetReply (Some double); Begin 0; Test 0; Receive 0 (Datagram (1, 2) [7; 8]);
   Record_ 0; SetReply None; Reply 0; Send 0 true; Test 0; Receive 0 (Datagram (1, 2) [9]); Stop; StopJoin true;
   StopClose].
Definition demo_after : list echo_move := [Record_ 0; Reply 0; Send 0 false; Test 0].

Lemma size_run_cons m ms s s1 : size_step m s = Some s1 → size_run (m :: ms) s = size_run ms s1.
Proof. intros Hm. cbn [size_run]. by rewrite Hm. Qed.

(** From the arrival on. *)
Lemma served src d s :
  sr_open s = true →
  ∃ s', size_run (SNote :: SChoose :: (match sr_response_payload s with Some _ => [SPick] | None => [] end)
                  ++ [SSend true; SRemember; SCount; SReport]) (sr_at (SArrived src d) s) = Some s' ∧
    let p := default (make_pattern (sr_response_size s)) (sr_response_payload s) in
    sr_log s' = sr_log s ++ [Replied src p; Reported src (len d) (sr_response_size s)] ∧
    sr_last_request s' = Some (src, d) ∧ sr_last_response s' = Some p ∧
    sr_responses_sent s' = sr_responses_sent s + 1 ∧ sr_pc s' = SAtTest.
Proof.
  intros Hop. set (s1 := sr_at (SNoted src d) (sr_with_request (src, d) s)).
  assert (H1 : size_step SNote (sr_at (SArrived src d) s) = Some s1) by reflexivity.
  rewrite (size_run_cons _ _ _ _ H1). set (p := default _ _).
  assert (H2 : size_run (SChoose :: (match sr_response_payload s with Some _ => [SPick] | None => [] end)
                  ++ [SSend true; SRemember; SCount; SReport]) s1
    = size_run [SSend true; SRemember; SCount; SReport] (sr_at (SChosen src d (Some p)) s1)).
  { unfold p. destruct (sr_response_payload s) as [o|] eqn:Ho.
    - rewrite (size_run_cons _ _ _ (sr_at (SOverridden src d) s1)) by (unfold size_step, size_thread; cbn [sr_pc sr_at s1 sr_response_payload sr_with_request]; by rewrite Ho).
      cbn [app]. rewrite (size_run_cons _ _ _ (sr_at (SChosen src d (Some o)) s1)); [done|].
      unfold size_step, size_thread. cbn [sr_pc sr_at s1 sr_response_payload sr_with_request]. by rewrite Ho.
    - rewrite (size_run_cons _ _ _ (sr_at (SChosen src d (Some (make_pattern (sr_response_size s)))) s1)); [done|].
      unfold size_step, size_thread. cbn [sr_pc sr_at s1 sr_response_payload sr_with_request]. by rewrite Ho. }
  rewrite H2. clear H1 H2. generalize p. clear p. intros p.
  rewrite (size_run_cons (SSend true) _ _ (sr_logged (Replied src p) (sr_at (SSent src d p) s1)))
    by (unfold size_step, size_thread; cbn [sr_pc sr_at sr_open s1 sr_with_request]; by rewrite Hop).
  eexists. split; [reflexivity|]. cbn [sr_log sr_logged sr_counted sr_with_response sr_at sr_last_request
    sr_last_response sr_responses_sent sr_pc s1 sr_with_request sr_response_size]. by rewrite <- app_assoc.
Qed.

Module Udp.

(** C15. The echo listener answers what came and nothing else, however its owner and its threads
    interleave: every datagram sent is the answer to one its thread recorded before, goes to where that
    came from, is what the generator that was set when it was recorded makes of it (the datagram itself
    when there was none), and is the only thing the thread did with it; what the owner sees as received
    is what was recorded since the list was last emptied, in order. *)
Theorem echo_answers_what_came port n f ms s :
  echo_run ms (new_listener port n f) = Some s →
  (∀ l1 t src out l2, l_log s = l1 ++ Sent t src out :: l2 →
     ∃ data g k k', l1 = k ++ Heard t src data g :: k' ∧ reply_to g data = Some out ∧
       Forall (λ e, thread_of e ≠ t) k') ∧
  ∃ l, heard_of (l_log s) = l ++ l_received s.
Proof.
  intros Hr. pose proof (echo_run_ok _ _ _ (new_listener_ok port n f) Hr) as Hok.
  split; [|apply (lo_received s Hok)]. intros l1 t src out l2 Hl.
  assert (∃ q, owes t (l_log s) q) as [q Hq].
  { pose proof (lo_threads s Hok t) as Ht. destruct (l_threads s !! t) as [th|]; [|by eexists].
    destruct (et_pc th); cbn in Ht; eauto. destruct Ht as (? & ? & ? & _). eauto. }
  destruct (owes_sent_inv t _ _ Hq l1 src out l2 Hl) as (data & g & Ho & Ha).
  destruct (owes_pending t _ _ Ho _ _ _ eq_refl) as (k & k' & Hk & Hf). by exists data, g, k, k'.
Qed.

Lemma echo_answers_what_came_witness :
  ∃ s, echo_run demo_session (new_listener 0 2048 None) = Some s ∧
    ∃ data g k k', [Heard 0 (1, 2) [7; 8] (Some double)] = k ++ Heard 0 (1, 2) data g :: k' ∧
      reply_to g data = Some [7; 8; 7; 8].
Proof.
  destruct (echo_run demo_session (new_listener 0 2048 None)) as [s|] eqn:Hrun; [|vm_compute in Hrun; discriminate Hrun].
  exists s. split; [reflexivity|].
  destruct (echo_answers_what_came 0 2048 None demo_session s Hrun) as [H _].
  destruct (H [Heard 0 (1, 2) [7; 8] (Some double)] 0%nat (1, 2) [7; 8; 7; 8] []) as (data & g & k & k' & Hk & Ha & _).
  - vm_compute in Hrun. injection Hrun as <-. reflexivity.
  - exists data, g, k, k'. split; [exact Hk|exact Ha].
Defined.

(** C16. A stopped listener is silent and its threads end: from the moment [stop] returns until the next
    [start], even when the join timed out, nothing more is sent, whatever still happens; each thread
    makes at most five more moves, and as long as it has not ended it can move. *)
Theorem stopped_listener_silent port n f ms s ms' s' :
  echo_run (ms ++ [StopClose]) (new_listener port n f) = Some s → Start ∉ ms' → echo_run ms' s = Some s' →
  (∃ k, l_log s' = l_log s ++ k ∧ ∀ t src out, Sent t src out ∉ k) ∧
  ∀ t th, l_threads s !! t = Some th → (moves_of t ms' ≤ 5)%nat ∧
    ∃ th', l_threads s' !! t = Some th' ∧
      (thread_ended (et_pc th') = false → ∃ m s'', mover m = Some t ∧ listener_step m s' = Some s'').
Proof.
  intros Hr Hns Hr'. pose proof (echo_run_ok _ _ _ (new_listener_ok port n f) Hr) as Hok.
  apply echo_run_snoc in Hr as (s1 & Hr1 & Hcl).
  pose proof (echo_run_ok _ _ _ (new_listener_ok port n f) Hr1) as Hok1.
  cbn in Hcl. destruct (l_owner s1) eqn:Ho; try done. injection Hcl as <-.
  pose proof (lo_stopping s1 Hok1 (or_intror Ho)) as Hst. split.
  - destruct (run_silent ms' _ s' Hok eq_refl) as (_ & k & Hk & Hf); [done|done|done|].
    exists k. split; [done|]. intros t src out Hin. rewrite forallb_forall in Hf.
    apply list_elem_of_In, Hf in Hin. done.
  - intros t th Ht. destruct (moves_left ms' t th (closed s1) s' Hst Ht Hns Hr') as (th' & Ht' & Hle).
    split; [destruct (et_pc th); cbn in Hle; lia|]. exists th'. split; [done|]. intros He. by eapply can_move.
Qed.

Lemma stopped_listener_silent_witness :
  ∃ s s', echo_run demo_session (new_listener 0 2048 None) = Some s ∧ echo_run demo_after s = Some s' ∧
    ∃ k, l_log s' = l_log s ++ k ∧ ∀ t src out, Sent t src out ∉ k.
Proof.
  destruct (echo_run demo_session (new_listener 0 2048 None)) as [s|] eqn:Hrun; [|vm_compute in Hrun; discriminate Hrun].
  destruct (echo_run demo_after s) as [s'|] eqn:Hafter;
    [|vm_compute in Hrun; injection Hrun as <-; vm_compute in Hafter; discriminate Hafter].
  exists s, s'. split; [reflexivity|]. split; [exact Hafter|].
  destruct (stopped_listener_silent 0 2048 None
    [Start; StartEmpty; StartBind (Some 4000); SetReply (Some double); Begin 0; Test 0; Receive 0 (Datagram (1, 2) [7; 8]);
     Record_ 0; SetReply None; Reply 0; Send 0 true; Test 0; Receive 0 (Datagram (1, 2) [9]); Stop; StopJoin true]
    s demo_after s') as [H _].
  - exact Hrun.
  - unfold demo_after. rewrite !not_elem_of_cons. split_and!; try discriminate. apply not_elem_of_nil.
  - exact Hafter.
  - exact H.
Defined.

(** What the size responder's owner can conclude, whatever it sets meanwhile: the counter is at most
    one behind the replies that were sent, and then the last one is on its way to be counted; the last
    reply it finds, unless it was just forgotten, is the newest one the thread has got as far as
    remembering; the lines reported are as many as the counter says, but for the one behind it. *)
Theorem size_replies_accounted port ms s :
  size_run ms (new_size_responder port) = Some s →
  Z.of_nat (length (replies_of (sr_log s))) = sr_responses_sent s + Z.of_nat (uncounted (sr_pc s)) ∧
  Z.of_nat (length (reports_of (sr_log s)) + unreported (sr_pc s)) = sr_responses_sent s ∧
  (sr_last_response s = None ∨ sr_last_response s = last (remembered s)).
Proof. intros Hr. destruct (run_accounts _ _ _ (new_accounts port) Hr) as [H1 H2 H3 _]. done. Qed.

Lemma size_replies_accounted_witness :
  ∃ s, size_run [SStart; SetPayload (Some [5; 6]); STest; SReceive (Datagram (1, 2) [0]); SNote; SChoose; SPick;
                 SSend true; Forget; SRemember] (new_size_responder 4000) = Some s ∧
    Z.of_nat (length (replies_of (sr_log s))) = sr_responses_sent s + Z.of_nat (uncounted (sr_pc s)) ∧
    (sr_last_response s = None ∨ sr_last_response s = last (remembered s)).
Proof.
  destruct (size_run [SStart; SetPayload (Some [5; 6]); STest; SReceive (Datagram (1, 2) [0]); SNote; SChoose; SPick;
                 SSend true; Forget; SRemember] (new_size_responder 4000)) as [s|] eqn:Hrun;
    [|vm_compute in Hrun; discriminate Hrun].
  exists s. split; [reflexivity|].
  destruct (size_replies_accounted 4000 _ s Hrun) as (H1 & _ & H3). split; [exact H1|exact H3].
Defined.

(** A responder left alone answers one datagram with the override, or the pattern of the size that was
    set, and remembers and counts it; the line it logs gives the size that was set, whatever was sent. *)
Theorem size_responder_serves s src data :
  sr_pc s = SAtTest → sr_stop s = false → sr_open s = true →
  ∃ s', size_run ([STest; SReceive (Datagram src data); SNote; SChoose]
                  ++ (match sr_response_payload s with Some _ => [SPick] | None => [] end)
                  ++ [SSend true; SRemember; SCount; SReport]) s = Some s' ∧
    let p := default (make_pattern (sr_response_size s)) (sr_response_payload s) in
    sr_log s' = sr_log s ++ [Replied src p; Reported src (len (slice 0 2048 data)) (sr_response_size s)] ∧
    sr_last_request s' = Some (src, slice 0 2048 data) ∧ sr_last_response s' = Some p ∧
    sr_responses_sent s' = sr_responses_sent s + 1 ∧ sr_pc s' = SAtTest.
Proof.
  intros Hpc Hst Hop. cbn [app]. rewrite (size_run_cons _ _ _ (sr_at SReceiving s)) by (cbn; by rewrite Hpc, Hst).
  rewrite (size_run_cons _ _ _ (sr_at (SArrived src (slice 0 2048 data)) s)) by (cbn [size_step size_thread sr_pc sr_at sr_open]; by rewrite Hop).
  generalize (slice 0 2048 data) as d. intros d. destruct (served src d s Hop) as (s' & Hr & H). by exists s'.
Qed.

(** Three ways in which the responder's thread ends by an exception, after which no request is answered:
    the override is withdrawn between the test of it and its use, a reply cannot be sent, and [stop]
    closes the socket the thread waits in; in the last the listener's thread returns. *)
Theorem size_responder_dies s src data p ok :
  (sr_pc s = SOverridden src data →
   ∃ s', size_run [SetPayload None; SPick; SSend ok] s = Some s' ∧ sr_pc s' = SDied) ∧
  (sr_pc s = SChosen src data (Some p) → ∃ s', size_run [SSend false] s = Some s' ∧ sr_pc s' = SDied) ∧
  (sr_pc s = SReceiving → ∃ s', size_run [SStop; SClose; SReceive SocketError] s = Some s' ∧ sr_pc s' = SDied) ∧
  (∀ l t th, l_threads l !! t = Some th → et_pc th = Receiving → l_stop l = true →
     ∃ l', listener_step (Receive t SocketError) l = Some l' ∧
           (et_pc <$> l_threads l' !! t) = Some Returned).
Proof.
  split_and!.
  - intros Hpc. unfold size_run, size_step, size_owner, size_thread. cbn. rewrite Hpc. by eexists.
  - intros Hpc. unfold size_run, size_step, size_owner, size_thread. cbn. rewrite Hpc. by eexists.
  - intros Hpc. unfold size_run, size_step, size_owner, size_thread. cbn. rewrite Hpc. by eexists.
  - intros l t th Ht Hpc Hst. cbn. rewrite Ht. cbn. rewrite Hpc, Hst. eexists. split; [done|]. cbn.
    by rewrite list_lookup_insert_eq by by eapply lookup_lt_Some.
Qed.
End Udp.
