(* ===== verification/UdpProbe.v ===== *)
(** * The UCI UDP probe (tools/uci/udp_probe_harness.py)

    One datagram out through the device's firmware and back, under the device's lock, with the shared
    teardown of [DeviceSession] behind it.  The calls of the harness are those of [DeviceSession] and
    are logged there; the sockets of the Mac and its echo thread are the class [ProbeHost]. *)

From S2P Require Export DeviceSession UdpHelpers.

(** ** The echo thread *)

(** A round of [EchoThread.run]: whether the stop event is seen set, what [recvfrom] does, whether
    [sendto] succeeds. *)
Record round := Round { rd_stop : bool; rd_arrival : arrival; rd_sent : bool }.

Inductive echo_end := Waiting | Finished | Broken.

(** What was received and what was sent back after these rounds, and whether the thread waits for more,
    returned, or ended by an exception: only a timeout is caught. *)
Fixpoint echo_rounds (rounds : list round) (received sent : list (peer * bytes)) :
    list (peer * bytes) * list (peer * bytes) * echo_end :=
  match rounds with
  | [] => (received, sent, Waiting)
  | r :: rounds =>
      if rd_stop r then (received, sent, Finished) else
      match rd_arrival r with
      | Timeout => echo_rounds rounds received sent
      | SocketError => (received, sent, Broken)
      | Datagram src data =>
          let data := slice 0 2048 data in
          let received := received ++ [(src, data)] in
          if rd_sent r then echo_rounds rounds received (sent ++ [(src, data)]) else (received, sent, Broken)
      end
  end.

(** ** The probe *)

(** [_local_ip_for], the making of the echo thread with the port it got, [start], [stop] and [join]. *)
Class ProbeHost (D : Type) := {
  ph_local_ip : string → eff D exn string;
  ph_echo_open : eff D exn Z;
  ph_echo_start : eff D exn unit;
  ph_echo_stop : eff D exn unit;
  ph_echo_join : Z → eff D exn unit;
}.

Section probe.
Context {D : Type} `{!Harness D} `{!ProbeHost D}.
Abbreviation M := (eff (session D) exn).

(** A use of the Mac, which is not a use of the device. *)
Definition on_host {A} (m : eff D exn A) : M A := λ s,
  match m (s_world s) with
  | Ret a w => Ret a (Session w (s_log s) (s_failures s))
  | Raise e w => Raise e (Session w (s_log s) (s_failures s))
  end.

Definition assert (b : bool) : M unit := if b then mret tt else raise (Error "AssertionError").

Definition HELLO : bytes := bytes_of_string "HELLO-UCI-UDP" ++ [10].

(** [if not get_uci_enabled(client): enable_uci(client); time.sleep(0.5)] *)
Definition enable_if_off : M bool :=
  on ← perform GetUci;
  if (on : bool) then mret false else (perform EnableUci;; sleep 500;; mret true).

(** The reads, until one gives something. *)
Fixpoint read_loop (attempts : nat) (id : Z) : M (option bytes) :=
  match attempts with
  | O => mret None
  | S attempts =>
      data ← perform (SocketRead id 255);
      match (data : bytes) with
      | _ :: _ => mret (Some data)
      | [] => sleep 300;; read_loop attempts id
      end
  end.

Definition probe_work (host : string) : M exit_code :=
  was_off ← enable_if_off;
  (if was_off : bool then on ← perform GetUci; assert (on : bool) else mret tt);;
  perform NewTransport;;
  perform ResetMachine;;
  sleep 3000;;
  enable_if_off;;
  id_byte ← perform ProbeUci;
  assert ((id_byte : Z) =? 0xC9);;
  perform GetIp;;
  local_ip ← on_host (ph_local_ip host);
  port ← on_host ph_echo_open;
  on_host ph_echo_start;;
  sock ← perform (Connect local_ip port);
  perform (SocketWrite (sock : Z) HELLO);;
  sleep 500;;
  got ← read_loop 5 (sock : Z);
  catch (perform (SocketClose (sock : Z))) (λ _, mret tt);;
  on_host ph_echo_stop;;
  on_host (ph_echo_join 1);;
  mret (match got with
        | Some data => if bool_decide (data = HELLO) then Code 0 else Code 3
        | None => Code 1
        end).

Definition default_mode : teardown_mode := TeardownMode 1 true true.

(** Inside the lock: without a client there is nothing to tear down. *)
Definition probe_locked (host : string) : M exit_code :=
  perform NewClient;;
  r ← try_finally (probe_work host) (st ← teardown_device (Some Client) default_mode; check_teardown st);
  mret r.1.

Definition probe_main (host : option string) : M exit_code :=
  fails_on_bad_teardown
    (match host with
     | None | Some "" => mret (Code 2)
     | Some host =>
         got ← perform (TryAcquire 60);
         if negb (got : bool) then mret (Code 2) else
         r ← try_finally (probe_locked host) (perform Release);
         mret r.1
     end).
End probe.
