(* ===== verification/UdpProbeThms.v ===== *)
(** * The UCI UDP probe: the properties

    The device is only touched under the lock and the lock is given back on every way out; a probe that
    passes has seen its own bytes come back and has left the device restored. *)

From S2P Require Export UdpProbe SessionThms.

Section probe_facts.
Context {D : Type} `{!Harness D} `{!ProbeHost D}.
Abbreviation M := (eff (session D) exn).

(** ** The lock *)

(** Whatever comes of it, the log shows only what is allowed inside the lock. *)
Definition within {A} (m : M A) : Prop :=
  ∀ s, ∃ tr, s_log (final (m s)) = s_log s ++ tr ∧ inside tr.

Lemma within_same {A} (m : M A) : (∀ s, s_log (final (m s)) = s_log s) → within m.
Proof. intros Hm s. exists []. by rewrite Hm, app_nil_r. Qed.
Lemma within_ret {A} (a : A) : within (mret a).
Proof. by apply within_same. Qed.
Lemma within_bind {A B} (m : M A) (f : A → M B) : within m → (∀ a, within (f a)) → within (m ≫= f).
Proof.
  intros Hm Hf s. specialize (Hm s). rewrite run_bind. destruct (m s) as [a s1|e s1]; [|done].
  destruct Hm as (tr & Hl & Hi). destruct (Hf a s1) as (tr' & Hl' & Hi'). cbn [final] in Hl.
  exists (tr ++ tr'). rewrite Hl', Hl, app_assoc. split; [done|by apply inside_app].
Qed.
Lemma within_catch {A} (m : M A) h : within m → (∀ e, within (h e)) → within (catch m h).
Proof.
  intros Hm Hh s. specialize (Hm s). unfold catch. destruct (m s) as [a s1|e s1]; [done|].
  destruct (is_exception e); [|done].
  destruct Hm as (tr & Hl & Hi). destruct (Hh e s1) as (tr' & Hl' & Hi'). cbn [final] in Hl.
  exists (tr ++ tr'). rewrite Hl', Hl, app_assoc. split; [done|by apply inside_app].
Qed.
Lemma within_finally {A B} (m : M A) (f : M B) : within m → within f → within (try_finally m f).
Proof.
  intros Hm Hf s. specialize (Hm s). unfold try_finally. destruct (m s) as [a s1|e s1]; cbn [final] in Hm;
    destruct Hm as (tr & Hl & Hi); destruct (Hf s1) as (tr' & Hl' & Hi');
    destruct (f s1) as [b s2|e' s2]; cbn [final] in *;
    exists (tr ++ tr'); rewrite Hl', Hl, app_assoc; (split; [done|by apply inside_app]).
Qed.
Lemma within_perform c :
  (∀ r, lock_step true (Returned c r) = Some true) → (∀ e, lock_step true (Raised c e) = Some true) →
  within (perform c).
Proof.
  intros Hr He s. unfold perform. destruct (harness_do c (s_world s)) as [a w|e w]; cbn;
    eexists; (split; [done|]); unfold inside, lock_run; cbn [foldl]; cbn -[lock_step]; by rewrite ?Hr, ?He.
Qed.
Lemma within_sleep ms : within (sleep ms).
Proof. intros s. unfold sleep. destruct (os_sleep ms (s_world s)) as [[] w]; by exists [Slept ms]. Qed.
Lemma within_host {A} (m : eff D exn A) : within (on_host m).
Proof. apply within_same. intros s. unfold on_host. by destruct (m (s_world s)). Qed.
Lemma within_assert b : within (assert b).
Proof. by destruct b; apply within_same. Qed.
Lemma within_judged mode : within (st ← teardown_device (Some Client) mode; check_teardown st).
Proof.
  apply within_bind.
  - intros s. pose proof (teardown_body_logs mode s) as H. cbn [teardown_device].
    destruct (teardown_body mode s); destruct H as (tr & Hl & _ & Hi & _); by exists tr.
  - intros st. apply within_same. intros s. unfold check_teardown. by destruct (teardown_failure st).
Qed.
End probe_facts.

(** One call of the harness. *)
Ltac called := match goal with |- logs (perform ?c) _ _ => refine (logs_perform c _ _ _ _) end.

(** Step by step. *)
Ltac stays_within := repeat first
  [ apply within_ret | apply within_host | apply within_assert | apply within_sleep
  | apply within_bind; [|intros ?] | apply within_catch; [|intros ?]
  | match goal with |- within (perform ?c) => exact (within_perform c (λ _, eq_refl) (λ _, eq_refl)) end
  | match goal with |- within (if ?b then _ else _) => destruct b end
  | match goal with |- within (match ?x with _ => _ end) => destruct x end ].

Section probe_log.
Context {D : Type} `{!Harness D} `{!ProbeHost D}.
Abbreviation M := (eff (session D) exn).

Lemma within_read_loop n id : within (read_loop (D:=D) n id).
Proof. induction n as [|n IH]; cbn [read_loop]; stays_within; done. Qed.
Lemma within_enable : within (enable_if_off (D:=D)).
Proof. unfold enable_if_off. stays_within. Qed.
Lemma within_work host : within (probe_work (D:=D) host).
Proof.
  unfold probe_work. apply within_bind; [apply within_enable|intros was_off].
  stays_within; try apply within_enable; try apply within_read_loop.
Qed.
Lemma within_locked host : within (probe_locked (D:=D) host).
Proof.
  unfold probe_locked. apply within_bind; [by apply within_perform|intros _].
  apply within_bind; [apply within_finally; [apply within_work|apply within_judged]|intros r; apply within_ret].
Qed.

(** ** What the work shows *)

(** Its own bytes, written to a socket and read back from it. *)
Definition came_back (tr : list event) : Prop :=
  ∃ sock n l1 l2 l3, tr = l1 ++ Returned (SocketWrite sock HELLO) (Number n) :: l2
                          ++ Returned (SocketRead sock 255) (Data HELLO) :: l3.

Lemma came_back_app tr tr' : came_back tr' → came_back (tr ++ tr').
Proof. intros (sock & n & l1 & l2 & l3 & ->). exists sock, n, (tr ++ l1), l2, l3. by rewrite <- app_assoc. Qed.

Abbreviation any := (λ _ _, True).
Definition shows (m : M exit_code) : Prop := logs m (λ rc tr, rc = Code 0 → came_back tr) any.

Lemma logs_host {A} (m : eff D exn A) : logs (on_host m) any any.
Proof.
  intros s. unfold on_host. destruct (m (s_world s)) as [a w|e w]; exists []; cbn; by rewrite app_nil_r.
Qed.
Lemma logs_assert b : logs (D:=D) (assert b) any any.
Proof. destruct b; [by apply logs_ret|by apply logs_raise]. Qed.
Lemma shows_after {A} (m : M A) f : logs m any any → (∀ a, shows (f a)) → shows (m ≫= f).
Proof.
  intros Hm Hf. apply logs_bind. eapply logs_conseq; [exact Hm| |done]. intros a tr _.
  eapply logs_conseq; [apply Hf| |done]. intros rc tr' Hs Hrc. by apply came_back_app, Hs.
Qed.
Lemma logs_read_loop n id :
  logs (D:=D) (read_loop n id)
    (λ g tr, ∀ d, g = Some d → ∃ l, tr = l ++ [Returned (SocketRead id 255) (Data d)]) any.
Proof.
  induction n as [|n IH]; cbn [read_loop]; [by apply logs_ret|].
  apply logs_bind; called; [|done]. intros [|b data].
  - apply logs_bind, logs_sleep; [|done]. eapply logs_conseq; [exact IH| |done].
    intros g tr Hg d Hd. destruct (Hg d Hd) as [l ->]. cbn [app].
    exists (Returned (SocketRead id 255) (reply_of (SocketRead id 255) []) :: Slept 300 :: l). done.
  - apply logs_ret. intros d [= <-]. by exists [].
Qed.

Lemma logs_enable : logs (D:=D) enable_if_off any any.
Proof. unfold enable_if_off. log_steps; done. Qed.

Lemma work_shows host : shows (probe_work host).
Proof.
  unfold probe_work.
  apply shows_after; [apply logs_enable|intros was_off].
  apply shows_after; [destruct was_off; [apply logs_bind; called; [intros on; apply logs_assert|done]|by apply logs_ret]|intros _].
  do 3 (apply shows_after; [first [by called|by apply logs_sleep]|intros _]).
  apply shows_after; [apply logs_enable|intros _].
  apply shows_after; [by called|intros id]. apply shows_after; [apply logs_assert|intros _].
  apply shows_after; [by called|intros ip].
  apply shows_after; [apply logs_host|intros local_ip]. apply shows_after; [apply logs_host|intros port].
  apply shows_after; [apply logs_host|intros _].
  apply shows_after; [by called|intros sock].
  apply logs_bind; called; [|done]. intros n. cbn [reply_of].
  apply logs_bind, logs_sleep; [|done].
  apply logs_bind. eapply logs_conseq; [apply logs_read_loop| |done]. intros got tr Hgot.
  apply logs_bind. eapply (logs_conseq _ _ _ any any);
    [apply logs_catch; called; [done|intros e; destruct (is_exception e); [by apply logs_ret|done]]| |done].
  intros u tr2 _. apply logs_bind. eapply logs_conseq; [apply logs_host| |done]. intros u3 tr3 _.
  apply logs_bind. eapply logs_conseq; [apply logs_host| |done]. intros u4 tr4 _.
  apply logs_ret. destruct got as [d|]; [|done]. case_bool_decide as Hd; [|done]. intros _. subst d.
  destruct (Hgot HELLO eq_refl) as [l ->]. exists sock, n, [], (Slept 500 :: l), (tr2 ++ tr3 ++ tr4).
  cbn [app]. rewrite app_nil_r, <- !app_assoc. done.
Qed.
End probe_log.

Section probe_main.
Context {D : Type} `{!Harness D} `{!ProbeHost D}.
Abbreviation M := (eff (session D) exn).

Lemma judged_log (fn : M exit_code) s : s_log (final (fails_on_bad_teardown fn s)) = s_log (final (fn s)).
Proof.
  unfold fails_on_bad_teardown. rewrite run_bind. cbn [teardown_failure_count]. rewrite run_bind.
  destruct (fn s) as [rc s1|e s1]; [done|]. destruct e; try done. by destruct (_ && _).
Qed.

(** A pass that is judged a pass: the work passed and no new failure was recorded. *)
Lemma judged_pass (fn : M exit_code) s s' :
  fails_on_bad_teardown fn s = Ret (Code 0) s' →
  fn s = Ret (Code 0) s' ∧ drop (length (s_failures s)) (s_failures s') = [].
Proof.
  unfold fails_on_bad_teardown. rewrite run_bind. cbn [teardown_failure_count]. rewrite run_bind.
  destruct (fn s) as [rc s1|e s1]; [|destruct e; try done; by destruct (_ && _)].
  cbn. unfold exit_code_after_teardown. intros [= Hrc <-].
  case_bool_decide as Hd; cbn in Hrc; [by rewrite Hrc|]. by destruct (not_a_failure rc) eqn:Hn; [|rewrite Hrc in Hn].
Qed.

(** Under the lock: the work that passed, then a teardown whose failures, if any, are recorded. *)
Lemma locked_pass host s s' :
  probe_locked host s = Ret (Code 0) s' →
  ∃ pre td new, s_log s' = s_log s ++ pre ++ td ∧ came_back pre ∧
    s_failures s' = s_failures s ++ new ∧ (new = [] → restored default_mode td).
Proof.
  unfold probe_locked. rewrite run_bind. unfold perform. destruct (harness_do NewClient (s_world s)) as [u w|e w]; [|done].
  set (s1 := Session w _ _). rewrite run_bind. unfold try_finally.
  pose proof (work_shows host s1) as Hw. destruct (probe_work host s1) as [rc s2|e s2].
  - destruct Hw as (tr & Hl & Hf & Hcb). pose proof (judged_teardown default_mode s2) as Hj.
    destruct ((st ← teardown_device (Some Client) default_mode; check_teardown st) s2) as [why s3|e s3]; [|done].
    destruct Hj as (td & new & Hl' & Hf' & Hr). cbn. intros [= -> <-].
    exists (Returned NewClient Done :: tr), td, new. split_and!; [|by apply (came_back_app [_]), Hcb| |done].
    + rewrite Hl', Hl. cbn. by rewrite <- !app_assoc.
    + by rewrite Hf', Hf.
  - by destruct ((st ← teardown_device (Some Client) default_mode; check_teardown st) s2).
Qed.

Definition acquired (host : string) : M exit_code :=
  got ← perform (TryAcquire 60);
  if negb (got : bool) then mret (Code 2) else
  r ← try_finally (probe_locked host) (perform Release);
  mret r.1.

Lemma acquired_lock host s :
  ∃ tr, s_log (final (acquired host s)) = s_log s ++ tr ∧ lock_run false tr = Some false.
Proof.
  unfold acquired. rewrite run_bind. unfold perform at 1.
  destruct (harness_do (TryAcquire 60) (s_world s)) as [got w|e w]; [|by eexists].
  destruct got; [|by eexists]. cbn [negb]. set (s1 := Session w _ _). rewrite run_bind. unfold try_finally.
  assert (Hrel : ∀ (s2 : session D) tr, s_log s2 = s_log s1 ++ tr → inside tr →
    ∃ k, s_log (final (perform Release s2)) = s_log s ++ k ∧ lock_run false k = Some false).
  { intros s2 tr Hl Hi. unfold perform. destruct (harness_do Release (s_world s2)) as [u w2|e w2]; cbn;
      eexists; (split; [rewrite Hl; cbn; by rewrite <- !app_assoc|]);
      cbn [app]; change (lock_run true (tr ++ [Returned Release Done]) = Some false)
        || change (lock_run true (tr ++ [Raised Release e]) = Some false);
      rewrite lock_run_app; unfold inside in Hi; by rewrite Hi. }
  pose proof (within_locked host s1) as (tr & Hl & Hi).
  destruct (probe_locked host s1) as [rc s2|e s2]; cbn [final] in Hl; specialize (Hrel s2 tr Hl Hi);
    by destruct (perform Release s2).
Qed.

Lemma acquired_pass host s s' :
  acquired host s = Ret (Code 0) s' → drop (length (s_failures s)) (s_failures s') = [] →
  ∃ pre td rel, s_log s' = s_log s ++ pre ++ td ++ [rel] ∧ came_back pre ∧ restored default_mode td.
Proof.
  unfold acquired. rewrite run_bind. unfold perform at 1.
  destruct (harness_do (TryAcquire 60) (s_world s)) as [got w|e w]; [|done].
  destruct got; [|done]. cbn [negb]. set (s1 := Session w _ _). rewrite run_bind. unfold try_finally.
  destruct (probe_locked host s1) as [rc s2|e s2] eqn:Hp; [|by destruct (perform Release s2)].
  unfold perform. destruct (harness_do Release (s_world s2)) as [u w2|e w2]; [|done]. cbn. intros [= -> <-] Hd.
  apply locked_pass in Hp as (pre & td & new & Hl & Hc & Hf & Hr). cbn in Hd. rewrite Hf in Hd. cbn [s1 s_failures] in Hd.
  rewrite drop_app_length in Hd. eexists (_ :: pre), td, _. cbn [s_log].
  split_and!; [rewrite Hl; cbn [s1 s_log]; rewrite <- !app_assoc; reflexivity|by apply (came_back_app [_])|by apply Hr].
Qed.
End probe_main.

Module Probe.

(** C14. The UDP probe holds the device's lock whenever it touches the device and gives it back on every way
    out, whatever is raised; and when its exit code is 0, its own bytes were written to a socket of the
    device and read back from it, and the device was left restored by the teardown behind it. *)
Theorem probe_pass_means {D} `{!Harness D} `{!ProbeHost D} host (s : session D) :
  (∃ tr, s_log (final (probe_main host s)) = s_log s ++ tr ∧ lock_run false tr = Some false) ∧
  ∀ s', probe_main host s = Ret (Code 0) s' →
    ∃ pre td rel, s_log s' = s_log s ++ pre ++ td ++ [rel] ∧ came_back pre ∧ restored default_mode td.
Proof.
  unfold probe_main. destruct host as [host|].
  2: { split; [exists []; by rewrite judged_log, app_nil_r|]. by intros s' [? _]%judged_pass. }
  destruct host as [|c host].
  { split; [exists []; by rewrite judged_log, app_nil_r|]. by intros s' [? _]%judged_pass. }
  set (h := String c host). split.
  - rewrite judged_log. apply acquired_lock.
  - intros s' [Hrun Hd]%judged_pass. by apply (acquired_pass h).
Qed.

(** A device whose firmware gives back what it was handed: the sentinel's byte, the clock, the datagram. *)
Definition loopback : Type := Z * option Z * bytes.
#[local] Instance loopback_device : Harness loopback := {|
  harness_do c := λ w,
    match c return outcome loopback exn (answer c) with
    | WriteMem _ l => Ret tt (default 0 (head l), w.1.2, w.2)
    | ReadMem _ _ => Ret [w.1.1] w
    | ResetMachine => Ret tt (0, w.1.2, w.2)
    | GetTurbo => Ret w.1.2 w
    | SetTurbo mhz => Ret tt (w.1.1, Some mhz, w.2)
    | TryAcquire _ | GetUci => Ret true w
    | ProbeUci => Ret 0xC9 w
    | Connect _ _ => Ret 1 w
    | SocketWrite _ data => Ret (Z.of_nat (length data)) (w.1, data)
    | GetIp => Ret "10.0.66.200" w
    | SocketRead _ _ => Ret w.2 w
    | _ => Ret tt w
    end;
  os_sleep _ w := (false, w);
|}.
#[local] Instance loopback_host : ProbeHost loopback := {|
  ph_local_ip _ := mret "10.0.66.1"; ph_echo_open := mret 4000; ph_echo_start := mret tt;
  ph_echo_stop := mret tt; ph_echo_join _ := mret tt;
|}.

Lemma probe_pass_means_witness :
  ∃ s', probe_main (Some "10.0.66.200") (Session (7, Some 48, []) [] []) = Ret (Code 0) s' ∧
    ∃ pre td rel, s_log s' = pre ++ td ++ [rel] ∧ came_back pre ∧ restored default_mode td.
Proof.
  destruct (probe_main (Some "10.0.66.200") (Session (7, Some 48, []) [] [])) as [rc s'|e s'] eqn:Hrun;
    [|vm_compute in Hrun; discriminate Hrun].
  assert (Hrc : rc = Code 0) by (vm_compute in Hrun; injection Hrun as <- _; reflexivity). subst rc.
  exists s'. split; [reflexivity|].
  destruct (probe_pass_means (Some "10.0.66.200") (Session (7, Some 48, []) [] [])) as [_ H].
  exact (H s' Hrun).
Defined.
End Probe.
