(* ===== verification/Firmware.v ===== *)
(** * Which firmware is on the device (tools/u64_firmware.py)

    The answer of [/v1/info] as a value, the builds this repository has measured, and the
    verdict on the answer.  The description that comes with a verdict is a tag with the values
    its text interpolates. *)

From S2P Require Export Pcap.

Definition MAX_INFO_BYTES : Z := 64 * 1024.
Definition MIN_HASH_PREFIX : Z := 7.

(** A build's kind and what was measured on it. *)
Abbreviation build := (string * string)%type.

Definition KNOWN_BUILDS : list (string * build) :=
  [("a474a7ed", ("chunked",
      "GideonZ#807 spike rebased onto upstream test-merge 883f608d (fpga 125). NOTE: "
      +:+ "this commit object is unpublished (0 refs; gc-eligible). Its published "
      +:+ "equivalent is 1653b0ac on issue-807-write-socket-chunk, and the ONLY delta is "
      +:+ "doc/uci_network_chunked_write.md — no source, so the image's code is checkable "
      +:+ "there. Opcode PRESENT — measured by the WARP interop run of 2026-09-03 (4 "
      +:+ "handshakes ACTIVE). That run only ever issued SINGLE-PART writes (<= 888 B: a "
      +:+ "148-byte handshake, ~40-byte DNS), so it does NOT evidence firmware-side "
      +:+ "REASSEMBLY on this image; multi-part parity rests on the firmware lane's "
      +:+ "uci-net-target, which is a third-party report, not our measurement."));
   ("4011c97c", ("chunked",
      "The image on device 601A96 (fw 3.15, fpga 125, core 1.4F). $16 OBSERVED TO "
      +:+ "DISPATCH on 2026-09-07: test_uci_udp_echo_live.py with "
      +:+ "ECHO_PAYLOAD_LEN=888,1472 against a UCI_CHUNKED_WRITE=1 build returned "
      +:+ "udp_recv_len=1472 net_last_error=$00 — not $8E. A full-MTU wire-encryption run "
      +:+ "the same day passed 60/60 with 1452- and 1472-byte datagrams. "
      +:+ "REASSEMBLY-EVIDENCE: 1472B as 1 datagram on 2026-09-07. So firmware-side "
      +:+ "REASSEMBLY is measured on this image, unlike a474a7ed. READ THIS AS "
      +:+ "BEHAVIOURAL, NOT AS IDENTIFICATION: git_commit_hash is the builder's "
      +:+ "assertion, embedded from git rev-parse with no --dirty marker, so what is "
      +:+ "recorded is 'a device reporting this hash dispatched $16 on 601A96 on "
      +:+ "2026-09-07', NOT 'this commit contains the handler'. A different image "
      +:+ "reporting the same hash is not covered. NOTE this hash was on the device "
      +:+ "before 2026-09-07 and we declined to build chunked against it for weeks, "
      +:+ "having inferred absence of the capability from absence of an attestation. "
      +:+ "Probe, do not assume."));
   ("3a1ff9ff", ("chunked",
      "OUR fork's local branch esp-tls/m3-master: a merge of upstream a1a1f44d with "
      +:+ "our GideonZ#835 chunked write. NOTE: unpublished (local only, not pushed), so "
      +:+ "the image's code cannot be checked against a public ref. The image on device "
      +:+ "601A96 on 2026-10-04, on WiFi only (Ethernet registered but down). $16 "
      +:+ "OBSERVED TO DISPATCH: a UCI_CHUNKED_WRITE=1 build sent every size from 888 to "
      +:+ "1472 B and each arrived as ONE datagram, none answered $8E. "
      +:+ "REASSEMBLY-EVIDENCE: 1472B as 1 datagram on 2026-10-04. 1473 B was refused "
      +:+ "with $8C (UCI_ERR_SEND_TOO_LONG) — our own pre-check, so it puts nothing on "
      +:+ "the wire and says nothing about the firmware. Same caveat as 4011c97c: the "
      +:+ "hash is the builder's assertion, so this records what a device reporting it "
      +:+ "did, not what the commit contains. Streams need the wired Ethernet port (the "
      +:+ "VIC/audio/debug streams are FPGA generators on the Ethernet MAC), so on WiFi "
      +:+ "only /v1/streams/*:start answers HTTP 500 by design; only its text, 'No "
      +:+ "Operational Network Interface', is misleading."))].

Definition VERDICTS : list string := ["chunked"; "unknown"; "no-hash"; "unreachable"].

(** ** Reading the answer *)

(** The loop that reads the body: [late i] says whether the deadline has passed before the
    [i]-th read, [recv i want] is what that read returns, at most [want] bytes, nothing at the
    end.  [None] gives up. *)
Fixpoint read_body (fuel : nat) (late : nat → bool) (recv : nat → Z → bytes) (i : nat)
    (body : bytes) : option bytes :=
  match fuel with
  | O => None
  | S fuel =>
      if len body <=? MAX_INFO_BYTES then
        if late i then None else
        let want := Z.min 8192 (MAX_INFO_BYTES + 1 - len body) in
        match recv i want with
        | [] => Some body
        | chunk => read_body fuel late recv (S i) (body ++ chunk)
        end
      else Some body
  end.

(** The body that is parsed: nothing longer than the limit. *)
Definition info_body (late : nat → bool) (recv : nat → Z → bytes) : option bytes :=
  body ← read_body (Z.to_nat MAX_INFO_BYTES + 2) late recv 0 [];
  if MAX_INFO_BYTES <? len body then None else Some body.

(** ** The hash *)

Definition is_hex (c : ascii) : bool :=
  let z := code c in ((48 <=? z) && (z <=? 57)) || ((97 <=? z) && (z <=? 102)).

Definition normalise_hash (commit : string) : option string :=
  let c := lower (strip commit) in
  if bool_decide (c = "") || negb (forallb is_hex (chars c)) then None else Some c.

Inductive known := Ambiguous | Hit (b : build).

(** The recorded hash and the normalised one agree up to the length of the shorter. *)
Definition compatible (c : string) (e : string * build) : bool :=
  (MIN_HASH_PREFIX <=? len (chars e.1))
  && (startswith c (lower e.1) || startswith (lower e.1) c).

Definition match_known (builds : list (string * build)) (commit : string) : option known :=
  c ← normalise_hash commit;
  match assoc c builds with
  | Some hit => Some (Hit hit)
  | None =>
      if len (chars c) <? MIN_HASH_PREFIX then None else
      match List.filter (compatible c) builds with
      | [] => None
      | [e] => Some (Hit e.2)
      | _ => Some Ambiguous
      end
  end.

(** ** The verdict *)

(** [info.get(key)], [None] for a missing key and for a null alike. *)
Definition get (key : string) (info : list (string * pv)) : option pv :=
  match assoc key info with Some PNone | None => None | Some v => Some v end.

Definition unhashable (v : pv) : bool := match v with PList _ | PDict _ => true | _ => false end.

(** [v == z] for a number [z] that is not 0 or 1 *)
Definition equals (z : Z) (v : pv) : bool :=
  match v with
  | PInt z' => z =? z'
  | PFloat f => SFeqb f (float_of_Z z)
  | _ => false
  end.

Definition status_hint (status : pv) : string :=
  if equals 403 status then "network password set"
  else if equals 404 status then "no /v1/info on this firmware" else "".

Definition ident (info : list (string * pv)) : pv :=
  PDict (omap (λ k, (λ v, (k, v)) <$> get k info)
    ["firmware_version"; "fpga_version"; "core_version"; "unique_id"]).

(** [None] is the [TypeError] of looking up a status that cannot be hashed. *)
Definition describe_build (builds : list (string * build)) (info : option pv) :
    option (string * reason) :=
  match info with
  | None | Some PNone => Some ("unreachable", ("did not answer", []))
  | Some (PDict info) =>
      match get "__http_status__" info with
      | Some status =>
          if unhashable status then None
          else Some ("no-hash", ("answered HTTP", [status; PStr (status_hint status)]))
      | None =>
          let id := ident info in
          match get "git_commit_hash" info with
          | None => Some ("no-hash", ("hash absent", [id]))
          | Some (PStr commit) =>
              if bool_decide (strip commit = "") then Some ("no-hash", ("hash empty", [id])) else
              match match_known builds commit with
              | Some Ambiguous => Some ("unknown", ("several recorded builds", [id; PStr commit]))
              | None => Some ("unknown", ("not measured", [id; PStr commit]))
              | Some (Hit (kind, detail)) =>
                  Some (kind, ("recorded", [id; PStr commit; PStr detail]))
              end
          | Some _ => Some ("unknown", ("hash is not a string", [id]))
          end
      end
  | Some _ => Some ("unreachable", ("not an object", []))
  end.

(** The verdict, and whether its line is only for information: anything but a measured chunked image is a
    warning. *)
Definition log_build (builds : list (string * build)) (info : option pv) : option (bool * string * reason) :=
  '(verdict, text) ← describe_build builds info;
  Some (bool_decide (verdict = "chunked"), verdict, text).

(** [main] with one argument: the exit status, with the lock had or not. *)
Definition main_status (locked : bool) (info : option pv) : option Z :=
  if negb locked then Some 3 else
  '(verdict, _) ← describe_build KNOWN_BUILDS info;
  Some (if bool_decide (verdict ∈ ["chunked"; "unknown"; "no-hash"]) then 0 else 1).
