(* ===== verification/FirmwareThms.v ===== *)
(** * Which firmware is on the device: the properties *)

From S2P Require Export Firmware EchoThms.
#[local] Set Warnings "-clear-no-such-hyp".

Lemma assoc_Some_elem {K V} `{EqDecision K} (k : K) (v : V) l : assoc k l = Some v → (k, v) ∈ l.
Proof.
  unfold assoc. intros (e & He & ->)%fmap_Some. apply find_some in He as [Hin Hk].
  apply bool_decide_eq_true in Hk. apply list_elem_of_In. by destruct e; cbn in *; subst.
Qed.

Lemma get_assoc key d v : get key d = Some v → assoc key d = Some v.
Proof. unfold get. by destruct (assoc key d) as [[]|]. Qed.

(** A recorded hash and what the device reports name the same object: one is the beginning of
    the other, in at least seven digits. *)
Definition names (commit hash : string) : Prop :=
  let c := lower (strip commit) in
  7 ≤ len (chars c) ∧ 7 ≤ len (chars hash) ∧
  ((∃ rest, chars hash = chars c ++ rest) ∨ (∃ rest, chars c = chars hash ++ rest)).

(** Facts of the table, each decided by evaluation: the recorded hashes are lower case and long
    enough, the kinds are verdicts, and no two hashes agree on their first seven digits. *)
Definition entry_ok (e : string * build) : bool :=
  bool_decide (lower e.1 = e.1) && (7 <=? len (chars e.1)) && bool_decide (e.2.1 ∈ VERDICTS)
  && bool_decide (e.2.1 ≠ "unreachable").
Lemma known_entries_ok : forallb entry_ok KNOWN_BUILDS = true.
Proof. by vm_compute. Qed.

Lemma entry_known e :
  e ∈ KNOWN_BUILDS →
  lower e.1 = e.1 ∧ 7 ≤ len (chars e.1) ∧ e.2.1 ∈ VERDICTS ∧ e.2.1 ≠ "unreachable".
Proof.
  intros Hin%list_elem_of_In. pose proof known_entries_ok as Hall.
  rewrite forallb_forall in Hall. specialize (Hall e Hin). unfold entry_ok in Hall.
  by rewrite !andb_true_iff, !bool_decide_eq_true, Z.leb_le in Hall; destruct Hall as [[[]]].
Qed.

Lemma filter_one {A} (f : A → bool) l e x : List.filter f l = [e] → x ∈ l → f x = true → x = e.
Proof.
  intros Hf Hx Hfx. assert (Hin : In x (List.filter f l)) by (apply filter_In; by rewrite <- list_elem_of_In).
  rewrite Hf in Hin. by destruct Hin as [->|[]].
Qed.

(** An exact hit is the only entry that agrees with the reported hash. *)
Lemma known_distinct :
  forallb (λ e, bool_decide (List.filter (compatible e.1) KNOWN_BUILDS = [e])) KNOWN_BUILDS = true.
Proof. by vm_compute. Qed.

Lemma match_known_hit commit b :
  match_known KNOWN_BUILDS commit = Some (Hit b) →
  ∃ k, (k, b) ∈ KNOWN_BUILDS ∧ names commit k ∧
       ∀ e, e ∈ KNOWN_BUILDS → compatible (lower (strip commit)) e = true → e = (k, b).
Proof.
  unfold match_known, normalise_hash. destruct (_ || _) eqn:Hhex; [done|]. cbn [mbind option_bind].
  set (c := lower (strip commit)) in *.
  assert (Hone : ∀ e, List.filter (compatible c) KNOWN_BUILDS = [e] → 7 ≤ len (chars c) →
    e ∈ KNOWN_BUILDS ∧ names commit e.1 ∧
    ∀ e', e' ∈ KNOWN_BUILDS → compatible c e' = true → e' = e).
  { intros e Hf Hlen. assert (Hin : In e (List.filter (compatible c) KNOWN_BUILDS)) by (rewrite Hf; by left).
    apply filter_In in Hin as [Hin Hc]. rewrite <- list_elem_of_In in Hin.
    destruct (entry_known e Hin) as (Hl & H7 & _).
    split_and!; [done| |by intros e' ? ?; eapply filter_one].
    unfold compatible, startswith in Hc.
    rewrite Hl, andb_true_iff, orb_true_iff, !starts_with_spec in Hc.
    unfold names. fold c. tauto. }
  destruct (assoc c KNOWN_BUILDS) as [hit|] eqn:Ha.
  - intros [= ->]. apply assoc_Some_elem in Ha. exists c. split; [done|].
    pose proof known_distinct as Hd. rewrite forallb_forall in Hd.
    specialize (Hd (c, b)). rewrite <- list_elem_of_In in Hd. specialize (Hd Ha).
    apply bool_decide_eq_true in Hd. cbn [fst] in Hd. destruct (entry_known _ Ha) as (_ & H7 & _).
    destruct (Hone _ Hd H7) as (_ & ? & ?). done.
  - destruct (Z.ltb_spec (len (chars c)) MIN_HASH_PREFIX) as [|Hlen]; [done|].
    destruct (List.filter _ _) as [|e [|]] eqn:Hf; [done| |done]. intros [= <-].
    destruct (Hone _ eq_refl Hlen) as (? & ? & ?). exists e.1. by destruct e.
Qed.

Section reading.
Context (late : nat → bool) (recv : nat → Z → bytes).
Hypothesis recv_bounded : ∀ i want, 0 ≤ want → len (recv i want) ≤ want.

(** Every read that is not the last makes progress, so the fuel is never what stops it. *)
Lemma read_body_spec fuel i body :
  len body ≤ MAX_INFO_BYTES + 1 → MAX_INFO_BYTES + 1 - len body < Z.of_nat fuel →
  match read_body fuel late recv i body with
  | Some b => len b ≤ MAX_INFO_BYTES + 1
  | None => ∃ j, late j = true
  end.
Proof.
  revert i body. induction fuel as [|fuel IH]; intros i body Hlen Hfuel; [lia|]. cbn [read_body].
  destruct (Z.leb_spec (len body) MAX_INFO_BYTES); [|done].
  destruct (late i) eqn:Hl; [by exists i|].
  pose proof (recv_bounded i (Z.min 8192 (MAX_INFO_BYTES + 1 - len body))) as Hr.
  destruct (recv i _) as [|b chunk] eqn:Hc; [done|].
  assert (Hn : 0 < len (b :: chunk)) by (rewrite len_cons; pose proof (len_nonneg chunk); lia).
  apply IH; rewrite len_app; lia.
Qed.
End reading.

Module Builds.
(** The verdict on a device's answer is always one of the four, and it is the one that
    lets a run proceed only for an answer whose hash names exactly one recorded build, of
    that kind, in at least seven digits; the description raises, although it says it never
    does, exactly when the answer itself carries a list or an object as its status. *)
Theorem describe_build_verdict info :
  match describe_build KNOWN_BUILDS info with
  | None => ∃ d v, info = Some (PDict d) ∧ assoc "__http_status__" d = Some v ∧ unhashable v = true
  | Some (verdict, _) =>
      verdict ∈ VERDICTS ∧
      (verdict = "chunked" →
       ∃ d commit k b, info = Some (PDict d) ∧ assoc "git_commit_hash" d = Some (PStr commit) ∧
         (k, b) ∈ KNOWN_BUILDS ∧ b.1 = "chunked" ∧ names commit k ∧
         ∀ e, e ∈ KNOWN_BUILDS → compatible (lower (strip commit)) e = true → e = (k, b))
  end.
Proof.
  assert (Hv : ∀ v, v ∈ VERDICTS → v ≠ "chunked" → ∀ P : Prop, v ∈ VERDICTS ∧ (v = "chunked" → P))
    by done.
  assert (Hu : "unreachable" ∈ VERDICTS) by (apply (bool_decide_unpack _); by vm_compute).
  assert (Hn : "no-hash" ∈ VERDICTS) by (apply (bool_decide_unpack _); by vm_compute).
  assert (Hk : "unknown" ∈ VERDICTS) by (apply (bool_decide_unpack _); by vm_compute).
  destruct info as [[| | | | | | | |d]|]; try by apply Hv. cbn [describe_build].
  destruct (get "__http_status__" d) as [status|] eqn:Hs.
  { destruct (unhashable status) eqn:Huh; [|by apply Hv].
    exists d, status. split_and!; [done|by apply get_assoc|done]. }
  destruct (get "git_commit_hash" d) as [commit|] eqn:Hc; [|by apply Hv].
  destruct commit as [| | |commit| | | | |]; try by apply Hv.
  case_bool_decide; [by apply Hv|].
  destruct (match_known KNOWN_BUILDS commit) as [[|[kind detail]]|] eqn:Hm; [by apply Hv| |by apply Hv].
  apply match_known_hit in Hm as (k & Hin & Hnames & Huniq).
  destruct (entry_known _ Hin) as (_ & _ & Hkind & _). split; [done|]. cbn. intros ->.
  apply get_assoc in Hc. exists d, commit, k, ("chunked", detail). done.
Qed.

(** Reading the answer ends, whatever the device sends, and never returns more than the
    limit: it gives up only past the deadline or on an answer that is too long. *)
Theorem info_body_bounded late recv :
  (∀ i want, 0 ≤ want → len (recv i want) ≤ want) →
  match info_body late recv with
  | Some body => len body ≤ MAX_INFO_BYTES
  | None => (∃ i, late i = true) ∨
            ∃ fuel body, read_body fuel late recv 0 [] = Some body ∧ len body = MAX_INFO_BYTES + 1
  end.
Proof.
  intros Hrecv. unfold info_body.
  pose proof (read_body_spec late recv Hrecv (Z.to_nat MAX_INFO_BYTES + 2) 0 []) as Hb.
  specialize (Hb ltac:(vm_compute; discriminate) ltac:(unfold len; cbn [length]; lia)).
  destruct (read_body _ late recv 0 []) as [body|] eqn:Hr; cbn [mbind option_bind]; [|by left].
  destruct (Z.ltb_spec MAX_INFO_BYTES (len body)) as [Hlt|]; [|done].
  right. exists (Z.to_nat MAX_INFO_BYTES + 2)%nat, body. split; [done|lia].
Qed.

(** Three chunks of two bytes, then the end. *)
Definition three_chunks (i : nat) (want : Z) : bytes :=
  if (i <? 3)%nat then take (Z.to_nat want) [65; 66] else [].

Lemma info_body_bounded_witness :
  ∃ body, info_body (λ _, false) three_chunks = Some body ∧ len body ≤ MAX_INFO_BYTES.
Proof.
  exists [65; 66; 65; 66; 65; 66]. split; [by vm_compute|].
  refine (info_body_bounded (λ _, false) three_chunks _).
  intros i want Hw. unfold three_chunks, len. destruct (i <? 3)%nat; [|done].
  rewrite length_take. lia.
Defined.
End Builds.
