(* ===== verification/WireSearch.v ===== *)
(** * The absence search of the live wire test (tools/wire_plaintext_search.py)

    A search that refuses to be vacuous, the absence check built on it, the positive control
    over the counterfactual cleartext datagram, and the module's selftest. *)

From S2P Require Export LeakThms.

Definition T4_HDR_LEN : Z := 16.

Definition screen_code_form (needle : bytes) : bytes :=
  (λ b, if (0x41 <=? b) && (b <=? 0x5A) then b - 0x40
        else if (0x61 <=? b) && (b <=? 0x7A) then b - 0x60 else b) <$> needle.

(** The exceptions: [VacuousSearchError], [TypeError], and the [UnicodeEncodeError] of
    [str.encode]. *)
Inductive search_error :=
| Vacuous (why : string)
| TypeErr (why : string)
| EncodeErr.
#[export] Instance search_error_eq_dec : EqDecision search_error.
Proof. solve_decision. Defined.

Abbreviation E := (res search_error).

(** What may be passed for a needle or a buffer: text, bytes of some kind, anything else. *)
Inductive blob :=
| BStr (s : string)
| BBytes (l : bytes)
| BOther.

Record hit := Hit {
  h_label : string;
  h_form : string;
  h_offset : Z;
  h_length : Z;
}.

(** [text.encode("ascii")] *)
Definition encode_ascii (s : string) : E bytes :=
  if forallb (λ c, code c <? 128) (chars s) then Ok (code <$> chars s) else Err EncodeErr.

Definition forms_of (raw : bytes) : list (string * bytes) :=
  [("exact", raw); ("petscii", petscii_form raw); ("petscii-shifted", petscii_shifted_form raw);
   ("screen-code", screen_code_form raw); ("reversed", rev raw)].

Definition raw_needle (text : blob) : E bytes :=
  match text with
  | BStr s => encode_ascii s
  | BBytes l => Ok l
  | BOther => Err (TypeErr "needle must be str or bytes")
  end.

Definition needle_forms (text : blob) : E (list (string * bytes)) :=
  raw ← raw_needle text;
  if bool_decide (raw = []) then Err (Vacuous "empty needle") else Ok (forms_of raw).

Definition as_haystack (buf : blob) : E bytes :=
  match buf with
  | BStr _ => Err (TypeErr "bytes were expected")
  | BOther => Err (TypeErr "must be bytes-like")
  | BBytes raw => if bool_decide (raw = []) then Err (Vacuous "empty haystack") else Ok raw
  end.

(** The hits of one form: only the exact ones of the shared searcher count. *)
Definition form_hits (hay : bytes) (label : string) (fp : string * bytes) : list hit :=
  omap (λ '(got_form, at_, n),
    if bool_decide (got_form = "exact") then Some (Hit label fp.1 at_ n) else None)
    (search_forms hay fp.2).

Definition needle_hits (hay : bytes) (needle : string * blob) : E (list hit) :=
  let '(label, text) := needle in
  forms ← needle_forms text;
  let need := len (from_option snd [] (head forms)) in
  if len hay <? need then Err (Vacuous "needle longer than the haystack")
  else Ok (mjoin (form_hits hay label <$> forms)).

Fixpoint all_hits (hay : bytes) (needles : list (string * blob)) : E (list hit) :=
  match needles with
  | [] => Ok []
  | needle :: needles =>
      hits ← needle_hits hay needle;
      rest ← all_hits hay needles;
      Ok (hits ++ rest)
  end.

Definition find_hits (buf : blob) (needles : list (string * blob)) : E (list hit) :=
  hay ← as_haystack buf;
  if bool_decide (needles = []) then Err (Vacuous "no needles") else all_hits hay needles.

Definition hit_pv (h : hit) : pv :=
  PList [PStr (h_label h); PStr (h_form h); PInt (h_offset h); PInt (h_length h)].

Definition blob_len (b : blob) : Z := match b with BBytes l => len l | _ => 0 end.

Definition plaintext_absent (buf : blob) (needles : list (string * blob)) : E (bool * reason) :=
  hits ← find_hits buf needles;
  let n := blob_len buf in
  if negb (bool_decide (hits = []))
  then Ok (false, ("hits", [PInt (len hits); PInt n; PList (hit_pv <$> take 6 hits)]))
  else
    forms ← needle_forms (from_option snd BOther (head needles));
    Ok (true, ("no hit", [PInt n; PInt (len needles); PList ((PStr ∘ fst) <$> needles);
                          PInt (len (remove_dups (snd <$> forms)))])).

Definition cleartext_counterfactual (datagram body : blob) (hdr_len : Z) : E bytes :=
  raw ← as_haystack datagram;
  payload ← as_haystack body;
  if len raw <? hdr_len then Err (Vacuous "shorter than the header")
  else Ok (slice 0 hdr_len raw ++ payload).

(** The control, then the absence claim: whether each holds, and its detail. *)
Definition absence_and_control (datagram body : blob) (needles : list (string * blob))
    (hdr_len : Z) : E (list (bool * reason)) :=
  ctrl_buf ← cleartext_counterfactual datagram body hdr_len;
  '(ctrl_absent, ctrl_detail) ← plaintext_absent (BBytes ctrl_buf) needles;
  '(absent, detail) ← plaintext_absent datagram needles;
  Ok [(negb ctrl_absent,
       ("control", [PInt (len ctrl_buf); PInt hdr_len; PInt (blob_len body);
                    PStr ctrl_detail.1; PList ctrl_detail.2]));
      (absent, detail)].

(** ** The selftest *)

Section selftest.

Definition test_hdr : bytes := [4; 0; 0; 0; 1; 2; 3; 4] ++ replicate 8 0.
Definition test_text : string := "MDCK BAMA AAKHMD DBD DIG END BMBGIKKL".
Definition test_bytes : bytes := code <$> chars test_text.
Definition test_needles : list (string * blob) := [("probe", BStr test_text)].
Definition test_lower : string := lower test_text.

(** [any(h.form == form for h in hits)], and the check of a result that must be found. *)
Definition has_form (form : string) (hits : list hit) : bool :=
  existsb (λ h, bool_decide (h_form h = form)) hits.
Definition found_as (buf : bytes) (needles : list (string * blob)) (want : list string)
    (without : list string) : bool :=
  match find_hits (BBytes buf) needles with
  | Ok hits => forallb (λ f, has_form f hits) want && forallb (λ f, negb (has_form f hits)) without
  | Err _ => false
  end.
Definition reported_absent (buf : bytes) (needles : list (string * blob)) : bool :=
  match plaintext_absent (BBytes buf) needles with Ok (ok, _) => ok | Err _ => false end.
Definition refused (buf : blob) (needles : list (string * blob)) (want : search_error) : bool :=
  match plaintext_absent buf needles with Ok _ => false | Err e => bool_decide (e = want) end.

(** The independent table of screen codes: A is 1. *)
Definition screen_table (b : Z) : Z := if (0x41 <=? b) && (b <=? 0x5A) then b - 0x41 + 1 else b.

(** The text in chunks of ten, joined by bars; and in hexadecimal. *)
Fixpoint chunks (fuel : nat) (l : bytes) : list bytes :=
  match fuel, l with
  | S fuel, _ :: _ => take 10 l :: chunks fuel (drop 10 l)
  | _, _ => []
  end.
Definition test_split : bytes := foldr (λ c acc, match acc with [] => c | _ => c ++ 124 :: acc end) []
  (chunks 10 test_bytes).
Definition test_hex : bytes := code <$> chars (upper (hex_bytes test_bytes)).
Definition test_cipher : bytes :=
  test_hdr ++ ((λ b, Z.land (b * 37 + 11) 0xFF) <$> seqZ 0 (len test_bytes + 16)).

Definition selftest : list bool :=
  [found_as (test_hdr ++ test_bytes) test_needles ["exact"] [];
   found_as (test_hdr ++ petscii_form (code <$> chars test_lower)) [("probe", BStr test_lower)]
     ["petscii"] ["exact"];
   found_as (test_hdr ++ petscii_shifted_form test_bytes) test_needles ["petscii-shifted"] [];
   found_as (test_hdr ++ rev test_bytes) test_needles ["reversed"] [];
   bool_decide (screen_code_form test_bytes = screen_table <$> test_bytes);
   found_as (test_hdr ++ (screen_table <$> test_bytes)) test_needles ["screen-code"]
     ["exact"; "petscii"];
   reported_absent (test_hdr ++ replicate 200 0xa7) test_needles;
   reported_absent (test_hdr ++ test_split) test_needles;
   reported_absent (test_hdr ++ test_hex) test_needles;
   refused (BBytes []) test_needles (Vacuous "empty haystack");
   refused (BBytes test_hdr) [("probe", BStr "")] (Vacuous "empty needle");
   refused (BBytes test_hdr) [] (Vacuous "no needles");
   refused (BBytes test_hdr) test_needles (Vacuous "needle longer than the haystack");
   refused (BStr test_text) test_needles (TypeErr "bytes were expected");
   refused (BBytes test_hdr) [("probe", BOther)] (TypeErr "needle must be str or bytes");
   refused BOther test_needles (TypeErr "must be bytes-like")]
  ++ match absence_and_control (BBytes test_cipher) (BBytes (petscii_form test_bytes))
             test_needles T4_HDR_LEN with
     | Ok rows => fst <$> rows
     | Err _ => [false]
     end.

Example selftest_passes : forallb id selftest && (length selftest =? 18)%nat = true.
Proof. by vm_compute. Qed.
End selftest.
