(* ===== verification/WireSearchThms.v ===== *)
(** * The absence search of the live wire test: the properties *)

From S2P Require Export WireSearch.
#[local] Set Warnings "-clear-no-such-hyp".

(** A search that would examine something: bytes to search, something to look for, and
    nothing that could not be there for its length alone. *)
Definition examinable (buf : blob) (needles : list (string * blob)) : Prop :=
  needles ≠ [] ∧ ∃ hay, buf = BBytes hay ∧ hay ≠ [] ∧
  ∀ label text, (label, text) ∈ needles →
    ∃ raw, raw_needle text = Ok raw ∧ raw ≠ [] ∧ len raw ≤ len hay.

(** Some form of some needle stands in the text. *)
Definition plaintext_in (hay : bytes) (needles : list (string * blob)) : Prop :=
  ∃ label text raw form pat, (label, text) ∈ needles ∧ raw_needle text = Ok raw ∧
    (form, pat) ∈ forms_of raw ∧ occurs pat hay.

#[local] Instance occurs_dec (pat hay : bytes) : Decision (occurs pat hay).
Proof. refine (cast_if (decide (py_in pat hay = true))); by rewrite <- py_in_spec. Defined.

Definition needle_stands (hay : bytes) (needle : string * blob) : Prop :=
  match raw_needle needle.2 with
  | Ok raw => Exists (λ fp, occurs fp.2 hay) (forms_of raw)
  | Err _ => False
  end.
#[local] Instance needle_stands_dec hay needle : Decision (needle_stands hay needle).
Proof. unfold needle_stands. destruct (raw_needle needle.2); apply _. Defined.

Lemma plaintext_in_alt hay needles : plaintext_in hay needles ↔ Exists (needle_stands hay) needles.
Proof.
  rewrite Exists_exists. unfold plaintext_in, needle_stands. split.
  - intros (label & text & raw & form & pat & Hin & Hraw & Hform & Ho).
    exists (label, text). split; [done|]. cbn. rewrite Hraw. apply Exists_exists. by exists (form, pat).
  - intros ([label text] & Hin & Hs). cbn in Hs. destruct (raw_needle text) as [raw|] eqn:Hraw; [|done].
    apply Exists_exists in Hs as ([form pat] & Hform & Ho). by exists label, text, raw, form, pat.
Qed.

#[local] Instance plaintext_in_dec hay needles : Decision (plaintext_in hay needles).
Proof. refine (cast_if (decide (Exists (needle_stands hay) needles))); by rewrite plaintext_in_alt. Defined.

(** The shared searcher reports every place where the pattern itself stands as exact. *)
Lemma exact_hits hay pat at_ n :
  ("exact", at_, n) ∈ search_forms hay pat ↔ stands_at pat hay at_ ∧ n = len pat.
Proof.
  split.
  - intros (p & Hin & -> & Hat)%search_forms_hit.
    assert (p = pat) as ->; [|done]. unfold forms in Hin.
    rewrite !elem_of_cons, elem_of_nil in Hin. naive_solver.
  - intros [Hat ->]. unfold search_forms, forms. cbn [foldl].
    assert (Hkeep : ∀ fs st h, h ∈ st.1 → h ∈ (foldl (search_form hay pat) st fs).1).
    { induction fs as [|fp fs IH]; intros st h Hh; [done|]. cbn [foldl]. apply IH.
      by apply search_form_spec. }
    apply (Hkeep [("petscii", petscii_form pat); ("petscii-shifted", petscii_shifted_form pat);
                  ("reversed", rev pat)]).
    destruct (add_hits_spec "exact" pat (matches pat hay) ([], [])) as (_ & _ & H3 & H4 & H5).
    change (search_form hay pat ([], []) ("exact", pat))
      with (foldl (add_hit "exact" pat) ([], []) (matches pat hay)).
    destruct (H5 at_) as [Hn|(fo & n & Hin)]; [by apply H4, elem_of_matches|by apply elem_of_nil in Hn|].
    destruct (H3 _ Hin) as [Hn|(a & _ & [= -> -> ->])]; [by apply elem_of_nil in Hn|done].
Qed.

Lemma elem_of_form_hits hay label fp h :
  h ∈ form_hits hay label fp ↔
  h_label h = label ∧ h_form h = fp.1 ∧ stands_at fp.2 hay (h_offset h) ∧ h_length h = len fp.2.
Proof.
  unfold form_hits. rewrite list_elem_of_omap. split.
  - intros ([[form at_] n] & Hin & Hh). case_bool_decide as Hf; [|done]. injection Hh as <-.
    subst form. by apply exact_hits in Hin as [? ?].
  - destruct h as [l f a n]. cbn. intros (-> & -> & Hat & ->).
    exists ("exact", a, len fp.2). split; [by apply exact_hits|]. by case_bool_decide.
Qed.

Lemma form_hits_nil hay label forms :
  mjoin (form_hits hay label <$> forms) = [] ↔ ∀ fp, fp ∈ forms → ¬ occurs fp.2 hay.
Proof.
  induction forms as [|fp forms IH].
  - split; [|done]. by intros _ fp ?%elem_of_nil.
  - cbn [fmap list_fmap]. change (mjoin (?x :: ?l)) with (x ++ mjoin l).
    rewrite app_nil, IH. split.
    + intros [Hn Hall] fp' [->|?]%elem_of_cons; [|by apply Hall]. intros [i Hi].
      assert (Hin : Hit label fp.1 i (len fp.2) ∈ form_hits hay label fp)
        by by apply elem_of_form_hits.
      rewrite Hn in Hin. by apply elem_of_nil in Hin.
    + intros Hall. split; [|intros fp' ?; apply Hall; by right].
      destruct (form_hits hay label fp) as [|h l] eqn:Hh; [done|].
      assert (Hin : h ∈ form_hits hay label fp) by (rewrite Hh; by left).
      apply elem_of_form_hits in Hin as (_ & _ & Hat & _).
      destruct (Hall fp (list_elem_of_here _ _)). by exists (h_offset h).
Qed.

Lemma needle_hits_spec hay label text :
  match needle_hits hay (label, text) with
  | Ok hits => ∃ raw, raw_needle text = Ok raw ∧ raw ≠ [] ∧ len raw ≤ len hay ∧
                      (hits = [] ↔ ∀ fp, fp ∈ forms_of raw → ¬ occurs fp.2 hay)
  | Err _ => ∀ raw, raw_needle text = Ok raw → raw ≠ [] → len hay < len raw
  end.
Proof.
  unfold needle_hits, needle_forms. destruct (raw_needle text) as [raw|e]; cbn; [|done].
  case_bool_decide as Hraw; cbn; [naive_solver|].
  destruct (Z.ltb_spec (len hay) (len raw)); [naive_solver|].
  exists raw. split_and!; [done|done|done|]. exact (form_hits_nil hay label (forms_of raw)).
Qed.

Lemma all_hits_spec hay needles :
  match all_hits hay needles with
  | Ok hits =>
      (∀ label text, (label, text) ∈ needles →
         ∃ raw, raw_needle text = Ok raw ∧ raw ≠ [] ∧ len raw ≤ len hay) ∧
      (hits = [] ↔ ¬ plaintext_in hay needles)
  | Err _ => ∃ label text, (label, text) ∈ needles ∧
               ∀ raw, raw_needle text = Ok raw → raw ≠ [] → len hay < len raw
  end.
Proof.
  induction needles as [|[label text] needles IH]; cbn [all_hits].
  - split; [by intros ? ? ?%elem_of_nil|]. split; [|done].
    by intros _ (? & ? & ? & ? & ? & ?%elem_of_nil & _).
  - pose proof (needle_hits_spec hay label text) as Hn.
    destruct (needle_hits hay (label, text)) as [hits|e]; cbn [mbind res_bind].
    2:{ exists label, text. split; [by left|done]. }
    destruct Hn as (raw & Hraw & Hne & Hlen & Hnil).
    destruct (all_hits hay needles) as [rest|e]; cbn [mbind res_bind].
    2:{ destruct IH as (l & t & ? & ?). exists l, t. split; [by right|done]. }
    destruct IH as [Hall Hrest]. split.
    + intros l t [[= -> ->]|?]%elem_of_cons; [by exists raw|by eapply Hall].
    + rewrite app_nil, Hnil, Hrest. split.
      * intros [Hone Hno] (l & t & raw' & form & pat & Hin & Hr & Hf & Ho).
        apply elem_of_cons in Hin as [[= -> ->]|Hin]; [|apply Hno; by exists l, t, raw', form, pat].
        assert (raw' = raw) as -> by congruence. by apply (Hone (form, pat)).
      * intros Hno. split.
        -- intros [form pat] Hf Ho. apply Hno. exists label, text, raw, form, pat.
           split_and!; [by left|done|done|done].
        -- intros (l & t & raw' & form & pat & Hin & H). apply Hno.
           exists l, t, raw', form, pat. split; [by right|done].
Qed.

Lemma plaintext_absent_spec buf needles :
  match plaintext_absent buf needles with
  | Ok (ok, _) => examinable buf needles ∧
                  (ok = true ↔ ∀ hay, buf = BBytes hay → ¬ plaintext_in hay needles)
  | Err _ => ¬ examinable buf needles
  end.
Proof.
  unfold plaintext_absent, find_hits, as_haystack. destruct buf as [s|hay|]; cbn.
  1, 3: by intros (_ & hay & [=] & _).
  destruct (decide (hay = [])) as [->|Hhay].
  { cbn. intros (_ & h & [= <-] & Hne & _). done. }
  rewrite (bool_decide_eq_false_2 (hay = [])) by done. cbn [mbind res_bind].
  destruct (decide (needles = [])) as [->|Hn]; [cbn; by intros [? _]|].
  rewrite (bool_decide_eq_false_2 (needles = [])) by done.
  pose proof (all_hits_spec hay needles) as Hall.
  destruct (all_hits hay needles) as [hits|e]; cbn [mbind res_bind].
  - destruct Hall as [Hall Hnil].
    assert (Hex : examinable (BBytes hay) needles) by (split; [done|]; exists hay; done).
    case_bool_decide as Hh; cbn [negb].
    + destruct needles as [|[label text] needles]; [done|]. cbn [head from_option snd].
      destruct (Hall label text (list_elem_of_here _ _)) as (raw & Hraw & Hne & _).
      unfold needle_forms. rewrite Hraw. cbn. case_bool_decide; [done|]. cbn.
      split; [done|]. split; [|done]. intros _ h [= <-]. by apply Hnil.
    + split; [done|]. split; [done|]. intros Hno. destruct Hh. apply Hnil. by apply Hno.
  - destruct Hall as (label & text & Hin & Hlong). intros (_ & h & [= <-] & _ & Hall).
    destruct (Hall label text Hin) as (raw & Hraw & Hne & Hle). specialize (Hlong raw Hraw Hne). lia.
Qed.

Module Absence.
(** C37. The absence check decides, and only ever on a search that examines something: it
    answers exactly when there are bytes to search and every needle is text or bytes, not
    empty and short enough to be there, and then says absent exactly when no needle stands
    anywhere in any of the five encodings. *)
Theorem plaintext_absent_exact buf needles :
  (examinable buf needles ↔ ∃ ok detail, plaintext_absent buf needles = Ok (ok, detail)) ∧
  ∀ ok detail, plaintext_absent buf needles = Ok (ok, detail) →
    ∃ hay, buf = BBytes hay ∧ (ok = true ↔ ¬ plaintext_in hay needles).
Proof.
  pose proof (plaintext_absent_spec buf needles) as H.
  destruct (plaintext_absent buf needles) as [[ok detail]|e].
  - destruct H as [Hex Hok]. pose proof Hex as (_ & hay & -> & _). split.
    + split; [eauto|done].
    + intros ok' detail' [= <- <-]. exists hay. split; [done|]. rewrite Hok. naive_solver.
  - split; [|done]. split; [done|]. by intros (? & ? & [=]).
Qed.

(** The control is the same check over the same header with the cleartext body behind it:
    the pair of results is green exactly when the plaintext stands in the counterfactual and
    nowhere in the datagram itself.  A body that is one of the encodings of a needle always
    makes the control fire. *)
Theorem control_exact datagram body needles hdr_len rows :
  0 ≤ hdr_len →
  absence_and_control (BBytes datagram) (BBytes body) needles hdr_len = Ok rows →
  (forallb fst rows = true ↔
   plaintext_in (slice 0 hdr_len datagram ++ body) needles ∧ ¬ plaintext_in datagram needles) ∧
  (∀ label text raw form pat, (label, text) ∈ needles → raw_needle text = Ok raw →
     (form, pat) ∈ forms_of raw → body = pat → fst <$> head rows = Some true).
Proof.
  intros Hh. unfold absence_and_control, cleartext_counterfactual, as_haystack.
  destruct (decide (datagram = [])) as [->|Hd]; [done|].
  rewrite (bool_decide_eq_false_2 (datagram = [])) by done. cbn [mbind res_bind].
  destruct (decide (body = [])) as [->|Hb]; [done|].
  rewrite (bool_decide_eq_false_2 (body = [])) by done. cbn [mbind res_bind].
  destruct (Z.ltb_spec (len datagram) hdr_len); cbn [mbind res_bind]; [done|].
  set (ctrl := slice 0 hdr_len datagram ++ body).
  pose proof (plaintext_absent_spec (BBytes ctrl) needles) as Hc.
  destruct (plaintext_absent (BBytes ctrl) needles) as [[cok cdetail]|]; cbn [mbind res_bind]; [|done].
  pose proof (plaintext_absent_spec (BBytes datagram) needles) as Ha.
  destruct (plaintext_absent (BBytes datagram) needles) as [[ok detail]|]; cbn [mbind res_bind]; [|done].
  intros [= <-]. destruct Hc as [_ Hc], Ha as [_ Ha].
  assert (Hc' : cok = true ↔ ¬ plaintext_in ctrl needles) by naive_solver.
  assert (Ha' : ok = true ↔ ¬ plaintext_in datagram needles) by naive_solver.
  assert (Hcf : plaintext_in ctrl needles → cok = false)
    by (intros ?; destruct cok; [by destruct (proj1 Hc' eq_refl)|done]).
  split.
  - cbn. rewrite andb_true_r, andb_true_iff, negb_true_iff, Ha'. apply and_iff_compat_r.
    split; [|done]. intros ->. apply dec_stable. intros Hn. by apply Hc' in Hn.
  - intros label text raw form pat Hin Hraw Hform ->. cbn. rewrite Hcf; [done|].
    exists label, text, raw, form, pat. split_and!; [done..|].
    unfold ctrl. exists (len (slice 0 hdr_len datagram)). split; [apply len_nonneg|].
    exists (slice 0 hdr_len datagram), []. by rewrite app_nil_r.
Qed.

(** The rows of the selftest's own pair. *)
Definition test_rows : list (bool * reason) :=
  match absence_and_control (BBytes test_cipher) (BBytes (petscii_form test_bytes)) test_needles
          T4_HDR_LEN with
  | Ok rows => rows
  | Err _ => []
  end.

Lemma control_exact_witness :
  plaintext_in (slice 0 T4_HDR_LEN test_cipher ++ petscii_form test_bytes) test_needles ∧
  ¬ plaintext_in test_cipher test_needles.
Proof.
  apply (control_exact test_cipher (petscii_form test_bytes) test_needles T4_HDR_LEN test_rows).
  - done.
  - vm_compute. reflexivity.
  - vm_compute. reflexivity.
Defined.
End Absence.
