(* ===== verification/PyRegex.v ===== *)
(** * Reading text: Python's [re] and [bytes.fromhex]

    The part of [re] the tools use, as a backtracking matcher: a match is the first of the
    successes in the order of preference, greedy repetitions first; and [bytes.fromhex] with
    [bytes.hex], of which the one reads back what the other writes. *)

From S2P Require Export PyStr.

Inductive rx :=
| REps
| RChar (f : ascii → bool)
| RSeq (r s : rx)
| RAlt (r s : rx)
| RStar (r : rx)
| RLazy (r : rx)
| RGroup (n : nat) (r : rx)
| RBol
| REol
| REnd
| RWordEdge.

Definition RLit (s : string) : rx :=
  foldr (λ c r, RSeq (RChar (λ c', bool_decide (c' = c))) r) REps (chars s).
Definition ROpt (r : rx) : rx := RAlt r REps.
Definition RPlus (r : rx) : rx := RSeq r (RStar r).
Definition RPlusLazy (r : rx) : rx := RSeq r (RLazy r).
(** [r{n}] and [r{n,m}]. *)
Fixpoint RTimes (n : nat) (r : rx) : rx :=
  match n with O => REps | S n => RSeq r (RTimes n r) end.
Fixpoint RUpTo (n : nat) (r : rx) : rx :=
  match n with O => REps | S n => ROpt (RSeq r (RUpTo n r)) end.

(** Character classes. *)
Definition in_range (a b : Z) (c : ascii) : bool := (a <=? code c) && (code c <=? b).
Definition is_digit : ascii → bool := in_range 48 57.
Definition is_upper : ascii → bool := in_range 65 90.
Definition is_lower : ascii → bool := in_range 97 122.
Definition is_word (c : ascii) : bool :=
  is_digit c || is_upper c || is_lower c || bool_decide (c = "_"%char).
Definition is_hex_any (c : ascii) : bool := is_digit c || in_range 65 70 c || in_range 97 102 c.
Definition newline : ascii := ascii_of_nat 10.
Definition is_any (c : ascii) : bool := negb (bool_decide (c = newline)).
Definition is_nonspace (c : ascii) : bool := negb (space_char c).

(** A position in the text: the character before it, the text from it on, and what the groups
    have matched, the latest first. *)
Record spot := Spot {
  sp_prev : option ascii;
  sp_rest : list ascii;
  sp_groups : list (nat * list ascii);
}.

Definition spot_at (prev : option ascii) (rest : list ascii) : spot := Spot prev rest [].

Definition before (s s' : spot) : list ascii :=
  take (length (sp_rest s) - length (sp_rest s')) (sp_rest s).

(** All successes from a position, the preferred first; [RBol] and [REol] are the [^] and [$]
    of [re.MULTILINE], [REnd] the [$] without it.  A repetition stops where an iteration
    consumed nothing. *)
Fixpoint run_rx (r : rx) (s : spot) : list spot :=
  match r with
  | REps => [s]
  | RChar f =>
      match sp_rest s with
      | c :: rest => if f c then [Spot (Some c) rest (sp_groups s)] else []
      | [] => []
      end
  | RSeq r1 r2 => s' ← run_rx r1 s; run_rx r2 s'
  | RAlt r1 r2 => run_rx r1 s ++ run_rx r2 s
  | RStar r =>
      (fix star (fuel : nat) (s : spot) : list spot :=
         match fuel with
         | O => [s]
         | S fuel =>
             (s' ← run_rx r s;
              if (length (sp_rest s') <? length (sp_rest s))%nat then star fuel s' else [])
             ++ [s]
         end) (length (sp_rest s)) s
  | RLazy r =>
      (fix star (fuel : nat) (s : spot) : list spot :=
         match fuel with
         | O => [s]
         | S fuel =>
             s :: (s' ← run_rx r s;
                   if (length (sp_rest s') <? length (sp_rest s))%nat then star fuel s' else [])
         end) (length (sp_rest s)) s
  | RGroup n r =>
      (λ s', Spot (sp_prev s') (sp_rest s') ((n, before s s') :: sp_groups s')) <$> run_rx r s
  | RBol => match sp_prev s with
            | None => [s]
            | Some c => if decide (c = newline) then [s] else []
            end
  | REol => match sp_rest s with
            | [] => [s]
            | c :: _ => if decide (c = newline) then [s] else []
            end
  | REnd => match sp_rest s with
            | [] => [s]
            | [c] => if decide (c = newline) then [s] else []
            | _ => []
            end
  | RWordEdge =>
      let left_word := from_option is_word false (sp_prev s) in
      let right_word := from_option is_word false (head (sp_rest s)) in
      if Bool.eqb left_word right_word then [] else [s]
  end.

(** [m.group(n)] of the match that ends at a position. *)
Definition group (n : nat) (s : spot) : string :=
  str (default [] (snd <$> List.find (λ g, (g.1 =? n)%nat) (sp_groups s))).

(** [re.match(r, text)] *)
Definition rx_match (r : rx) (text : string) : option spot := head (run_rx r (spot_at None (chars text))).

(** [re.search(r, text)] and the matches of [re.finditer(r, text)]: the position behind each.
    After a match that consumed nothing the search goes on one character later. *)
Fixpoint scan_rx (fuel : nat) (r : rx) (prev : option ascii) (rest : list ascii) : list spot :=
  match fuel with
  | O => []
  | S fuel =>
      let next :=
        match rest with [] => [] | c :: rest' => scan_rx fuel r (Some c) rest' end in
      match run_rx r (spot_at prev rest) with
      | [] => next
      | s' :: _ =>
          s' :: (if (length (sp_rest s') <? length rest)%nat
                 then scan_rx fuel r (sp_prev s') (sp_rest s') else next)
      end
  end.
Definition finditer (r : rx) (text : string) : list spot :=
  scan_rx (S (length (chars text))) r None (chars text).
Definition rx_search (r : rx) (text : string) : option spot := head (finditer r text).

(** [re.fullmatch(r, text)] *)
Definition rx_full (r : rx) (text : string) : bool :=
  existsb (λ s, bool_decide (sp_rest s = [])) (run_rx r (spot_at None (chars text))).

(** A line of text, with its end. *)
Definition line_of (s : string) : string := s +:+ String newline "".
Definition lines_text (l : list string) : string := foldr (λ s t, line_of s +:+ t) "" l.

Example rx_backtrack :
  group 1 <$> rx_match (RSeq (RGroup 1 (RStar (RChar is_digit))) (RLit "7")) "12477"
  = Some "1247".
Proof. by vm_compute. Qed.
Example rx_first_alternative :
  group 1 <$> rx_match (RGroup 1 (RAlt (RLit "ab") (RLit "abc"))) "abc" = Some "ab".
Proof. by vm_compute. Qed.
Example rx_lines :
  group 1 <$> finditer (RSeq RBol (RSeq (RGroup 1 (RPlus (RChar is_word))) REol))
    (line_of "one" +:+ line_of "two words" +:+ "three") = ["one"; "three"].
Proof. by vm_compute. Qed.
Example rx_edge :
  group 1 <$> finditer (RSeq (RGroup 1 (RPlus (RChar is_digit))) RWordEdge) "12a 34" = ["34"].
Proof. by vm_compute. Qed.

(** *** Bytes as hexadecimal text *)

(** [bytes.fromhex]: blanks may stand between two bytes. *)
Definition ascii_space (c : ascii) : bool := in_range 9 13 c || bool_decide (c = " "%char).
Definition hex_nibble (c : ascii) : option Z := if is_hex_any c then digit_value c else None.
Fixpoint fromhex (l : list ascii) : option bytes :=
  match l with
  | [] => Some []
  | a :: l' =>
      if ascii_space a then fromhex l' else
      match l' with
      | b :: r => x ← hex_nibble a; y ← hex_nibble b; rest ← fromhex r; Some (16 * x + y :: rest)
      | [] => None
      end
  end.

Example fromhex_ex : fromhex (chars "00 0e3A") = Some [0; 14; 58]. Proof. by vm_compute. Qed.
Example fromhex_odd : fromhex (chars "00 0") = None. Proof. by vm_compute. Qed.

Lemma hex_nibble_digit d : 0 ≤ d < 16 → hex_nibble (hex_digit false d) = Some d ∧ ascii_space (hex_digit false d) = false.
Proof.
  intros Hd. assert (Hall : forallb (λ d, bool_decide (hex_nibble (hex_digit false d) = Some d)
    && negb (ascii_space (hex_digit false d))) (Z.of_nat <$> seq 0 16) = true) by by vm_compute.
  rewrite forallb_forall in Hall. specialize (Hall d).
  assert (Hin : In d (Z.of_nat <$> seq 0 16)).
  { apply list_elem_of_In, list_elem_of_fmap. exists (Z.to_nat d). split; [lia|]. apply elem_of_seq. lia. }
  apply Hall, andb_true_iff in Hin as [Hv%bool_decide_eq_true Hs%negb_true_iff]. done.
Qed.

(** [bytes.fromhex(l.hex()) == l] *)
Lemma fromhex_hex l : is_bytes l → fromhex (chars (hex_bytes l)) = Some l.
Proof.
  unfold hex_bytes. rewrite chars_str. induction 1 as [|b l Hb _ IH]; [done|].
  change (concat (hex_low false 2 <$> b :: l))
    with (hex_digit false ((b / 16) mod 16) :: hex_digit false (b mod 16) :: concat (hex_low false 2 <$> l)).
  unfold byte in Hb. cbn [fromhex].
  destruct (hex_nibble_digit ((b / 16) mod 16)) as [H1 ->]; [by apply Z.mod_pos_bound|].
  destruct (hex_nibble_digit (b mod 16)) as [H2 _]; [by apply Z.mod_pos_bound|].
  rewrite H1, H2, IH. cbn [mbind option_bind]. do 2 f_equal. Z.to_euclidean_division_equations. lia.
Qed.
