(* ===== verification/PyDict.v ===== *)
(** * Python dictionaries in insertion order

    [d[k] = v] and [d.setdefault(k, [])], with the lookups of [Pcap.assoc]. *)

From S2P Require Export Pcap.

(** [d[k] = v]: an existing key keeps its place. *)
Fixpoint dict_set {K V} `{EqDecision K} (k : K) (v : V) (d : list (K * V)) : list (K * V) :=
  match d with
  | [] => [(k, v)]
  | (k', v') :: d => if decide (k' = k) then (k, v) :: d else (k', v') :: dict_set k v d
  end.

(** [d.update] with pairs in order. *)
Definition dict_of {K V} `{EqDecision K} (l : list (K * V)) : list (K * V) :=
  foldl (λ d kv, dict_set kv.1 kv.2 d) [] l.

Section dict.
Context {K V : Type} `{EqDecision K}.
Implicit Types (k : K) (v : V) (d l : list (K * V)).

Lemma dict_set_fresh k v d : k ∉ d.*1 → dict_set k v d = d ++ [(k, v)].
Proof.
  induction d as [|[k' v'] d IH]; intros Hk; [done|]. cbn in *.
  apply not_elem_of_cons in Hk as [Hne Hk]. rewrite decide_False by done. by rewrite IH.
Qed.

Lemma assoc_cons k k' v d : assoc k ((k', v) :: d) = if decide (k' = k) then Some v else assoc k d.
Proof. unfold assoc. cbn. by destruct (decide (k' = k)); [rewrite bool_decide_eq_true_2|rewrite bool_decide_eq_false_2]. Qed.

Lemma assoc_dict_set k k' v d :
  assoc k (dict_set k' v d) = if decide (k' = k) then Some v else assoc k d.
Proof.
  induction d as [|[k'' v''] d IH]; cbn [dict_set]; [apply assoc_cons|].
  destruct (decide (k'' = k')) as [->|Hne]; rewrite !assoc_cons.
  - by destruct (decide (k' = k)).
  - rewrite IH. destruct (decide (k'' = k)) as [->|]; [|done]. by rewrite decide_False.
Qed.

Lemma dict_of_snoc l k v : dict_of (l ++ [(k, v)]) = dict_set k v (dict_of l).
Proof. unfold dict_of. by rewrite foldl_app. Qed.

(** The last value given to a key is the one it keeps. *)
Lemma assoc_dict_of k l : assoc k (dict_of l) = assoc k (rev l).
Proof.
  induction l as [|[k' v] l IH] using rev_ind; [done|].
  rewrite dict_of_snoc, assoc_dict_set, rev_app_distr. cbn [rev app]. by rewrite assoc_cons, IH.
Qed.

Lemma dict_of_nodup l : NoDup l.*1 → dict_of l = l.
Proof.
  induction l as [|[k v] l IH] using rev_ind; [done|].
  rewrite fmap_app. intros (Hl & Hk & _)%NoDup_app. rewrite dict_of_snoc, IH by done.
  apply dict_set_fresh. intros Hin. apply (Hk k Hin). by left.
Qed.
End dict.
