(* ===== verification/RegexThms.v ===== *)
(** * Regular expressions and numbers: what a match is

    The preferred success of a pattern on a text it was written for, the search behind a prefix
    that cannot match, hexadecimal and decimal numbers, and lines. *)

From S2P Require Export PyRegex PyDict.
#[local] Set Warnings "-clear-no-such-hyp".

(** ** First successes of the matcher *)

(** The preferred success of [r] on the text [l] leaves [rest], with these groups. *)
Definition first (r : rx) (l rest : list ascii) (g g' : list (nat * list ascii)) : Prop :=
  ∀ p, ∃ p' others, run_rx r (Spot p l g) = Spot p' rest g' :: others.

Lemma first_seq r r' l m rest g g' g'' :
  first r l m g g' → first r' m rest g' g'' → first (RSeq r r') l rest g g''.
Proof.
  intros Hr Hr' p. destruct (Hr p) as (p' & others & Heq). destruct (Hr' p') as (p'' & others' & Heq').
  cbn [run_rx]. rewrite Heq. cbn. rewrite Heq'. cbn. by eexists _, _.
Qed.

Lemma first_eps l g : first REps l l g g.
Proof. intros p. by exists p, []. Qed.

Lemma first_char f c rest g : f c = true → first (RChar f) (c :: rest) rest g g.
Proof. intros Hf p. cbn. rewrite Hf. by exists (Some c), []. Qed.

Lemma first_lit s rest g : first (RLit s) (chars s ++ rest) rest g g.
Proof.
  unfold RLit. induction (chars s) as [|c cs IH]; [apply first_eps|].
  eapply first_seq; [|exact IH]. apply first_char. by apply bool_decide_eq_true.
Qed.

(** A repeated class takes everything up to the first character outside of it. *)
Lemma first_star f l rest g :
  Forall (λ c, f c = true) l → from_option f false (head rest) = false →
  first (RStar (RChar f)) (l ++ rest) rest g g.
Proof.
  intros Hl Hrest p. cbn [run_rx sp_rest].
  set (star := fix star (fuel : nat) (s : spot) : list spot := _).
  assert (Hgen : ∀ fuel p, (length l ≤ fuel)%nat →
    ∃ p' others, star fuel (Spot p (l ++ rest) g) = Spot p' rest g :: others).
  { induction Hl as [|c l Hc Hl IH]; intros fuel q Hfuel.
    - exists q, []. destruct fuel as [|fuel]; [done|]. cbn [star run_rx sp_rest app].
      destruct rest as [|c rest]; [done|]. cbn in Hrest. by rewrite Hrest.
    - destruct fuel as [|fuel]; [cbn in Hfuel; lia|]. cbn [star run_rx sp_rest app].
      rewrite Hc. cbn [mbind list_bind sp_rest sp_groups].
      rewrite (proj2 (Nat.ltb_lt _ _)) by (cbn; lia).
      destruct (IH fuel (Some c)) as (p' & others & Heq); [cbn in Hfuel; lia|].
      rewrite Heq. by eexists _, _. }
  apply Hgen. rewrite length_app. lia.
Qed.

Lemma first_plus f l rest g :
  l ≠ [] → Forall (λ c, f c = true) l → from_option f false (head rest) = false →
  first (RPlus (RChar f)) (l ++ rest) rest g g.
Proof.
  intros Hne Hl Hrest. destruct Hl as [|c l Hc Hl]; [done|].
  eapply first_seq; [by apply first_char|by apply first_star].
Qed.

Lemma first_group n r l rest g g' :
  first r (l ++ rest) rest g g' → first (RGroup n r) (l ++ rest) rest g ((n, l) :: g').
Proof.
  intros Hr p. destruct (Hr p) as (p' & others & Heq). cbn [run_rx]. rewrite Heq.
  eexists p', _. cbn [fmap list_fmap sp_prev sp_rest sp_groups]. unfold before. cbn [sp_rest].
  rewrite length_app, Nat.add_sub, take_app_length. done.
Qed.

Lemma first_eol g : first REol [] [] g g.
Proof. intros p. by exists p, []. Qed.

(** ** Hexadecimal numbers *)

Record digit_ok (d : Z) : Prop := DigitOk {
  do_value : digit_value (hex_digit true d) = Some d;
  do_hex : is_hex_any (hex_digit true d) = true;
  do_plain : space_char (hex_digit true d) = false ∧ line_break (hex_digit true d) = false;
  do_sign : hex_digit true d ≠ "-"%char ∧ hex_digit true d ≠ "+"%char ∧ hex_digit true d ≠ "_"%char;
  do_x : (code (lower_char (hex_digit true d)) =? 120) = false;
}.

Lemma hex_digit_ok d : 0 ≤ d < 16 → digit_ok d.
Proof.
  intros Hd.
  assert (Hall : Forall (λ d, digit_value (hex_digit true d) = Some d ∧
      is_hex_any (hex_digit true d) = true ∧
      (space_char (hex_digit true d) = false ∧ line_break (hex_digit true d) = false) ∧
      (hex_digit true d ≠ "-"%char ∧ hex_digit true d ≠ "+"%char ∧ hex_digit true d ≠ "_"%char) ∧
      (code (lower_char (hex_digit true d)) =? 120) = false) (seqZ 0 16))
    by (apply (bool_decide_unpack _); by vm_compute).
  rewrite Forall_forall in Hall. destruct (Hall d) as (? & ? & ? & ? & ?); [by apply elem_of_seqZ|].
  by constructor.
Qed.

(** The characters of a number: each is the digit of some value below 16. *)
Definition digits (l : list ascii) : Prop := Forall (λ c, ∃ d, 0 ≤ d < 16 ∧ c = hex_digit true d) l.

Lemma hex_low_digits n z : digits (hex_low true n z).
Proof.
  revert z. induction n as [|n IH]; intros z; [constructor|]. apply Forall_app. split; [apply IH|].
  constructor; [|constructor]. exists (z mod 16). split; [apply Z.mod_pos_bound; lia|done].
Qed.

Definition value_of (acc : Z) (l : list ascii) : Z :=
  foldl (λ a c, a * 16 + default 0 (digit_value c)) acc l.

Lemma digits_value_digits l acc b :
  digits l → digits_value 16 l acc b = if bool_decide (l = []) && negb b then None else Some (value_of acc l).
Proof.
  intros Hl. revert acc b. induction Hl as [|c l (d & Hd & ->) Hl IH]; intros acc b; [by destruct b|].
  destruct (hex_digit_ok d Hd) as [Hv _ _ (_ & _ & Hu) _]. cbn [digits_value].
  rewrite decide_False by done. rewrite Hv. cbn [mbind option_bind].
  rewrite (proj2 (Z.ltb_lt _ _)) by lia. rewrite IH, andb_false_r. cbn. by rewrite Hv.
Qed.

Lemma value_of_hex_low n z acc :
  value_of acc (hex_low true n z) = acc * 16 ^ Z.of_nat n + z mod 16 ^ Z.of_nat n.
Proof.
  revert z. induction n as [|n IH]; intros z.
  - cbn [hex_low value_of foldl]. rewrite Z.pow_0_r, Z.mod_1_r. lia.
  - cbn [hex_low]. unfold value_of in *. rewrite foldl_app, IH. cbn [foldl].
    destruct (hex_digit_ok (z mod 16)) as [-> _ _ _ _]; [apply Z.mod_pos_bound; lia|].
    cbn [default]. rewrite Nat2Z.inj_succ, Z.pow_succ_r by lia.
    set (P := 16 ^ Z.of_nat n). assert (0 < P) by (apply Z.pow_pos_nonneg; lia).
    rewrite Z.rem_mul_r by lia. unfold id. lia.
Qed.

Lemma strip_digits l : digits l → chars (strip (str l)) = l.
Proof.
  intros Hl. unfold strip. rewrite !chars_str.
  assert (Hd : ∀ k, digits k → drop_while space_char k = k).
  { intros k [|c k' (d & Hd & ->) _]; [done|]. cbn. destruct (hex_digit_ok d Hd) as [_ _ [-> _] _ _]. done. }
  rewrite Hd by done. unfold rstrip. rewrite Hd; [apply rev_involutive|]. by apply Forall_rev.
Qed.

Lemma length_hex_low n z : length (hex_low true n z) = n.
Proof.
  revert z. induction n as [|n IH]; intros z; [done|]. cbn [hex_low].
  rewrite length_app, IH. cbn [length]. lia.
Qed.

Lemma parse_hex_pad n z :
  0 ≤ z → parse_int 16 (hex_pad true (S n) z) = Some z.
Proof.
  intros Hz. unfold hex_pad, parse_int. set (k := Nat.max (S n) (hex_size z)).
  rewrite strip_digits by apply hex_low_digits.
  pose proof (hex_low_digits k z) as Hd.
  pose proof (length_hex_low k z) as Hlen.
  assert (Hval : digits_value 16 (hex_low true k z) 0 false = Some z).
  { rewrite digits_value_digits by done. rewrite bool_decide_eq_false_2; [cbn|].
    - rewrite value_of_hex_low. f_equal. rewrite Z.mul_0_l, Z.add_0_l. apply Z.mod_small.
      split; [done|]. assert (hex_size z ≤ k)%nat by lia. unfold hex_size in *.
      destruct (Z.eqb_spec z 0) as [->|Hne]; [apply Z.pow_pos_nonneg; lia|].
      pose proof (Z.log2_spec z ltac:(lia)) as [_ Hlog].
      eapply Z.lt_le_trans; [exact Hlog|]. change 16 with (2 ^ 4). rewrite <- Z.pow_mul_r by lia.
      apply Z.pow_le_mono_r; [lia|].
      pose proof (Z.div_mod (Z.log2 z) 4 ltac:(lia)).
      pose proof (Z.mod_pos_bound (Z.log2 z) 4 ltac:(lia)). pose proof (Z.log2_nonneg z). lia.
    - intros Hnil. rewrite Hnil in Hlen. cbn in Hlen. lia. }
  destruct Hd as [|c l (d & Hdr & ->) Hl]; [cbn in Hlen; lia|].
  destruct (hex_digit_ok d Hdr) as [_ _ _ (Hm & Hp & _) _].
  rewrite decide_False, decide_False by done.
  destruct Hl as [|c' l (d' & Hdr' & ->) Hl]; [rewrite Hval; cbn; by destruct z|].
  destruct (hex_digit_ok d' Hdr') as [_ _ _ _ Hx]. rewrite Hx, andb_false_r.
  rewrite Hval. cbn. by destruct z.
Qed.

(** Lines without line breaks are what [splitlines] gives back. *)
Lemma lines_chars_line l rest acc :
  Forall (λ c, line_break c = false) l →
  lines_chars (l ++ newline :: rest) acc = (rev acc ++ l) :: lines_chars rest [].
Proof.
  intros Hl. revert acc. induction Hl as [|c l Hc Hl IH]; intros acc.
  - cbn [app lines_chars]. change (line_break newline) with true. cbv beta iota.
    rewrite app_nil_r. f_equal. destruct rest as [|y rest]; [done|]. done.
  - cbn [app lines_chars]. rewrite Hc, IH. cbn [rev]. by rewrite <- app_assoc.
Qed.

Lemma chars_lines_text t ts :
  chars (lines_text (t :: ts)) = chars t ++ newline :: chars (lines_text ts).
Proof.
  cbn [lines_text foldr]. unfold line_of. rewrite !chars_app, <- app_assoc. done.
Qed.

Lemma lines_chars_text ts l :
  Forall (λ s, Forall (λ c, line_break c = false) (chars s)) ts →
  lines_chars (chars (lines_text ts) ++ l) [] = (chars <$> ts) ++ lines_chars l [].
Proof.
  induction 1 as [|t ts Ht Hts IH]; [done|].
  by rewrite chars_lines_text, <- app_assoc, <- app_comm_cons, lines_chars_line, IH.
Qed.

Lemma lines_chars_last l acc :
  Forall (λ c, line_break c = false) l → acc ++ l ≠ [] → lines_chars l acc = [rev acc ++ l].
Proof.
  intros Hl. revert acc. induction Hl as [|c l Hc Hl IH]; intros acc Hne; cbn [lines_chars].
  - rewrite app_nil_r in *. by destruct acc.
  - rewrite Hc, IH by done. cbn [rev]. by rewrite <- app_assoc.
Qed.

Lemma splitlines_lines ls :
  Forall (λ s, Forall (λ c, line_break c = false) (chars s)) ls →
  splitlines (foldr (λ s t, line_of s +:+ t) "" ls) = ls.
Proof.
  unfold splitlines. induction 1 as [|s ls Hs Hls IH]; [done|]. cbn [foldr].
  unfold line_of at 1. rewrite !chars_app. change (chars (String newline "")) with [newline].
  rewrite <- app_assoc. cbn [app]. rewrite lines_chars_line by done.
  cbn [rev app fmap list_fmap]. by rewrite str_chars, IH.
Qed.


(** ** Decimal numbers *)

Definition is_decimal (l : list ascii) : Prop := Forall (λ c, is_digit c = true) l.
Definition dec_value (acc : Z) (l : list ascii) : Z := foldl (λ a c, a * 10 + (code c - 48)) acc l.

Lemma digit_char d : (d < 10)%N → is_digit (pretty_N_char d) = true ∧ code (pretty_N_char d) = 48 + Z.of_N d.
Proof.
  intros Hd. assert (d = 0 ∨ d = 1 ∨ d = 2 ∨ d = 3 ∨ d = 4 ∨ d = 5 ∨ d = 6 ∨ d = 7 ∨ d = 8 ∨ d = 9)%N
    as Hcases by lia. by repeat destruct Hcases as [->|Hcases]; [..|subst d].
Qed.

Lemma pretty_N_go_dec x s :
  ∃ l, chars (pretty_N_go x s) = l ++ chars s ∧ is_decimal l ∧ dec_value 0 l = Z.of_N x ∧
       ((0 < x)%N → l ≠ []).
Proof.
  revert s. induction (N.lt_wf_0 x) as [x _ IH]; intros s.
  destruct (decide (x = 0)%N) as [->|Hx]; [exists []; rewrite pretty_N_go_0; split_and!; [done|constructor|done|lia]|].
  rewrite pretty_N_go_step by lia.
  destruct (IH (x / 10)%N ltac:(apply N.div_lt; lia) (String (pretty_N_char (x mod 10)) s))
    as (l & Hl & Hd & Hv & _).
  destruct (digit_char (x mod 10)) as [Hc Hcode]; [apply N.mod_lt; lia|].
  exists (l ++ [pretty_N_char (x mod 10)]). rewrite Hl, <- app_assoc. split_and!; [done| | |].
  - apply Forall_app. split; [done|]. by constructor.
  - unfold dec_value in *. rewrite foldl_app, Hv. cbn [foldl]. rewrite Hcode.
    rewrite N2Z.inj_div, N2Z.inj_mod. pose proof (Z.div_mod (Z.of_N x) 10). lia.
  - by destruct l.
Qed.

Lemma dec_digits z :
  0 ≤ z → is_decimal (chars (dec z)) ∧ dec_value 0 (chars (dec z)) = z ∧ chars (dec z) ≠ [].
Proof.
  intros Hz. destruct z as [|p|p]; [by repeat constructor| |lia].
  change (dec (Z.pos p)) with (pretty_N_go (N.pos p) "").
  destruct (pretty_N_go_dec (N.pos p) "") as (l & Hl & Hd & Hv & Hne).
  change (chars "") with (@nil ascii) in Hl. rewrite app_nil_r in Hl. rewrite Hl.
  split_and!; [done|done|by apply Hne].
Qed.

Lemma digit_facts c :
  is_digit c = true →
  space_char c = false ∧ line_break c = false ∧ digit_value c = Some (code c - 48) ∧ code c - 48 < 10 ∧
  c ≠ "_"%char ∧ c ≠ "-"%char ∧ c ≠ "+"%char.
Proof.
  unfold is_digit, in_range, digit_value, space_char, line_break. intros H.
  pose proof H as H'. rewrite andb_true_iff, !Z.leb_le in H'. rewrite H. split_and!.
  3: done.
  1,2: rewrite !orb_false_iff, ?andb_false_iff, ?Z.leb_gt, ?Z.eqb_neq; lia.
  1: lia.
  all: intros ->; vm_compute in H; discriminate.
Qed.

Lemma digits_value_dec l acc b :
  is_decimal l → digits_value 10 l acc b = if bool_decide (l = []) && negb b then None else Some (dec_value acc l).
Proof.
  intros Hl. revert acc b. induction Hl as [|c l Hc Hl IH]; intros acc b; [by destruct b|].
  destruct (digit_facts c Hc) as (_ & _ & Hv & Hlt & Hu & _). cbn [digits_value].
  rewrite decide_False by done. rewrite Hv. cbn [mbind option_bind].
  rewrite (proj2 (Z.ltb_lt _ _)) by done. rewrite IH, andb_false_r. done.
Qed.

Lemma strip_plain l : Forall (λ c, space_char c = false) l → chars (strip (str l)) = l.
Proof.
  intros Hl. unfold strip. rewrite !chars_str.
  assert (Hd : ∀ k, Forall (λ c, space_char c = false) k → drop_while space_char k = k).
  { intros k [|c k' Hc _]; [done|]. cbn. by rewrite Hc. }
  rewrite Hd by done. unfold rstrip. rewrite Hd; [apply rev_involutive|]. by apply Forall_rev.
Qed.

(** [int(str(z)) == z] *)
Lemma parse_dec z : 0 ≤ z → parse_int 10 (dec z) = Some z.
Proof.
  intros Hz. destruct (dec_digits z Hz) as (Hd & Hv & Hne). unfold parse_int.
  assert (Hs : chars (strip (dec z)) = chars (dec z)).
  { rewrite <- (str_chars (dec z)) at 1. apply strip_plain. eapply Forall_impl; [exact Hd|].
    intros c Hc. by destruct (digit_facts c Hc). }
  rewrite Hs. destruct Hd as [|c l Hc Hl]; [done|].
  destruct (digit_facts c Hc) as (_ & _ & _ & _ & _ & Hm & Hp).
  rewrite decide_False, decide_False by done.
  assert (Hval : digits_value 10 (c :: l) 0 false = Some z).
  { rewrite digits_value_dec by (by constructor). by rewrite bool_decide_eq_false_2, Hv. }
  destruct l as [|c' l]; [by rewrite Hval; cbn; destruct z|].
  change (10 =? 16) with false. cbn [andb]. rewrite Hval. cbn. by destruct z.
Qed.
