(* ===== verification/Caps.v ===== *)
(** * The datagram ceilings of a build (tools/c64_caps.py)

    The labels of a build and the assembler's equates, and how the ceilings are resolved from
    them.  The file system and the environment are a class; a warning is a tag with values. *)

From S2P Require Export PyRegex Verdict Pcap.

(** [Path.read_text] with [None] for an [OSError], [is_dir], [exists]; paths are text. *)
Class Files := {
  read_text : string → option string;
  is_dir : string → bool;
  exists_ : string → bool;
}.

Definition PROJECT_ROOT : string := ".".
Definition slash (p q : string) : string := p +:+ "/" +:+ q.
Definition NET_CAPS_INC : string := slash PROJECT_ROOT "src/net/uci/net_caps.inc".
Definition CONSTANTS_INC : string := slash PROJECT_ROOT "src/constants.inc".
Definition DEFAULT_LABELS : string := slash PROJECT_ROOT "build/labels.txt".

Definition DEFAULTS : list (string * Z) :=
  [("NET_UDP_SEND_MAX", 892); ("NET_UDP_RECV_MAX", 1472); ("WG_DATA_OVERHEAD", 32)].
Definition SOURCE_OF : list (string * string) :=
  [("NET_UDP_SEND_MAX", NET_CAPS_INC); ("NET_UDP_RECV_MAX", NET_CAPS_INC);
   ("WG_DATA_OVERHEAD", CONSTANTS_INC)].
Definition CHUNK_LABEL : string := "uci_send_part".
Definition PART_MAX_LABEL : string := "UCI_CHUNK_PART_MAX".

(** ** The files *)

Definition spaces : rx := RStar (RChar space_char).
Definition spaces1 : rx := RPlus (RChar space_char).
Definition hex_digits : rx := RPlus (RChar is_hex_any).

(** [^\s*{name}\s*=\s*(\$[0-9A-Fa-f]+|[0-9]+)\b] *)
Definition ASSIGN_RE (name : string) : rx :=
  RSeq RBol (RSeq spaces (RSeq (RLit name) (RSeq spaces (RSeq (RLit "=") (RSeq spaces
    (RSeq (RGroup 1 (RAlt (RSeq (RLit "$") hex_digits) (RPlus (RChar is_digit)))) RWordEdge)))))).

(** [^al\s+C:([0-9A-Fa-f]+)\s+\.(\S+)\s*$] *)
Definition LABEL_RE : rx :=
  RSeq RBol (RSeq (RLit "al") (RSeq spaces1 (RSeq (RLit "C:") (RSeq (RGroup 1 hex_digits)
    (RSeq spaces1 (RSeq (RLit ".") (RSeq (RGroup 2 (RPlus (RChar (λ c, negb (space_char c)))))
      (RSeq spaces REol)))))))).

(** [d[k] = v] on a dict in insertion order. *)
Fixpoint table_set (k : string) (v : Z) (l : list (string * Z)) : list (string * Z) :=
  match l with
  | [] => [(k, v)]
  | (k', v') :: l => if decide (k' = k) then (k, v) :: l else (k', v') :: table_set k v l
  end.

(** What one line of the labels file binds; the digits of group 1 are a number. *)
Definition label_of (line : string) : option (string * Z) :=
  m ← rx_match LABEL_RE line;
  v ← parse_int 16 (group 1 m);
  Some (group 2 m, v).

Definition add_label (table : list (string * Z)) (line : string) : list (string * Z) :=
  match label_of line with Some (name, v) => table_set name v table | None => table end.

Definition labels_of (text : string) : list (string * Z) := foldl add_label [] (splitlines text).

(** [tok.startswith("$")] selects the base. *)
Definition token_value (tok : string) : option Z :=
  if startswith "$" tok then parse_int 16 (str (from 1 (chars tok))) else parse_int 10 tok.

Definition symbol_in (name text : string) : option Z :=
  tok ← last (group 1 <$> finditer (ASSIGN_RE name) text);
  token_value tok.

Section files.
Context `{!Files}.

Definition read_labels (path : string) : option (list (string * Z)) :=
  text ← read_text path;
  match labels_of text with [] => None | table => Some table end.

Definition read_symbol (path name : string) : option Z :=
  text ← read_text path;
  symbol_in name text.

(** ** The ceilings *)

Record caps := Caps {
  send_max : Z;
  recv_max : Z;
  overhead : Z;
  chunked : bool;
  from_labels : bool;
  from_source : bool;
  labels_path : option string;
  mtu_label : option Z;
  chunk_part_max : option Z;
}.

Definition tunnel_mtu (c : caps) : Z := Z.min (send_max c) (recv_max c) - overhead c.
Definition recv_mtu (c : caps) : Z := recv_max c - overhead c.

Definition describe (c : caps) : reason :=
  let src := if from_labels c then "labels" else if from_source c then "source" else "defaults" in
  ("C64 caps", [PStr src; of_opt PStr (labels_path c); PBool (chunked c);
                of_opt PInt (chunk_part_max c); PInt (send_max c); PInt (recv_max c);
                PInt (overhead c); PInt (tunnel_mtu c); PInt (recv_mtu c)]).

(** Where the labels are looked for. *)
Definition labels_file (env labels : option string) : string :=
  let path := match labels with
              | Some p => p
              | None => match env with
                        | Some p => if bool_decide (p = "") then DEFAULT_LABELS else p
                        | None => DEFAULT_LABELS
                        end
              end in
  if is_dir path
  then default path (List.find exists_ [slash path "build/labels.txt"; slash path "labels.txt"])
  else path.

(** One symbol: from the labels, from its source, or its default; and whether it was in the
    labels and whether it was in a file at all. *)
Definition resolve (table : option (list (string * Z))) (name : string) (dflt : Z) :
    Z * bool * bool :=
  match table ≫= assoc name with
  | Some v => (v, true, true)
  | None =>
      match assoc name SOURCE_OF ≫= λ path, read_symbol path name with
      | Some v => (v, false, true)
      | None => (dflt, false, false)
      end
  end.

Definition fallback_warning (table : option (list (string * Z))) (path : string)
    (e : string * Z) : option reason :=
  let '(v, _, found) := resolve table e.1 e.2 in
  if found then None
  else Some ("not found, using default",
         [PStr e.1; of_opt PStr ((λ _, path) <$> table); of_opt PStr (assoc e.1 SOURCE_OF); PInt v]).

Definition load_caps (env labels : option string) (warn : bool) : caps * list reason :=
  let path := labels_file env labels in
  let table := read_labels path in
  let value name := (resolve table name (default 0 (assoc name DEFAULTS))).1.1 in
  let all_labels := forallb (λ e, (resolve table e.1 e.2).1.2) DEFAULTS in
  let all_source := forallb (λ e, (resolve table e.1 e.2).2) DEFAULTS in
  let warnings := if warn then omap (fallback_warning table path) DEFAULTS else [] in
  let chunk := bool_decide (is_Some (table ≫= assoc CHUNK_LABEL)) in
  let mtu := table ≫= assoc "WG_MTU" in
  let part := table ≫= assoc PART_MAX_LABEL in
  let c := Caps (value "NET_UDP_SEND_MAX") (value "NET_UDP_RECV_MAX") (value "WG_DATA_OVERHEAD")
             chunk all_labels all_source ((λ _, path) <$> table) mtu part in
  match mtu with
  | Some m =>
      if negb (m =? tunnel_mtu c) && warn
      then (Caps (Z.min (send_max c) (m + overhead c)) (recv_max c) (overhead c) chunk all_labels
              all_source (labels_path c) mtu part,
            warnings ++ [("built WG_MTU differs", [PInt m; PInt (tunnel_mtu c)])])
      else (c, warnings)
  | None => (c, warnings)
  end.

(** *** What the module exports, resolved once when it is imported *)
Definition module_caps (env : option string) : caps := (load_caps env None true).1.
Definition C64_SEND_MAX (env : option string) : Z := send_max (module_caps env).
Definition C64_RECV_MAX (env : option string) : Z := recv_max (module_caps env).
Definition WG_DATA_OVERHEAD (env : option string) : Z := overhead (module_caps env).
Definition C64_TUNNEL_MTU (env : option string) : Z := tunnel_mtu (module_caps env).
Definition C64_RECV_MTU (env : option string) : Z := recv_mtu (module_caps env).
Definition C64_CHUNKED (env : option string) : bool := chunked (module_caps env).
Definition C64_CHUNK_PART_MAX (env : option string) : option Z := chunk_part_max (module_caps env).
Definition FROM_LABELS (env : option string) : bool := from_labels (module_caps env).
Definition FROM_SOURCE (env : option string) : bool := from_source (module_caps env) || from_labels (module_caps env).
Definition LABELS_PATH (env : option string) : option string := labels_path (module_caps env).

(** Run as a program: the ceilings of the labels named on the command line, or of the module. *)
Definition caps_main (env : option string) (argv : list string) : reason :=
  match argv with
  | _ :: labels :: _ => describe (load_caps env (Some labels) true).1
  | _ => describe (module_caps env)
  end.
End files.

Example label_line : label_of "al 00982D .msg" = None.
Proof. by vm_compute. Qed.
Example label_line_c : label_of "al C:982D .msg_input_buf" = Some ("msg_input_buf", 0x982D).
Proof. by vm_compute. Qed.
Example last_assignment : symbol_in "NET_UDP_SEND_MAX"
  (line_of ".ifdef UCI_CHUNKED_WRITE" +:+ line_of "NET_UDP_SEND_MAX = $5C0 ; chunked"
   +:+ line_of ".else" +:+ line_of "  NET_UDP_SEND_MAX = 892" +:+ line_of ".endif") = Some 892.
Proof. by vm_compute. Qed.
