(* ===== verification/CapsThms.v ===== *)
(** * The datagram ceilings of a build: the properties

    How the ceilings are resolved, and that a labels file reads back as what was written. *)

From S2P Require Export RegexThms Caps.
#[local] Set Warnings "-clear-no-such-hyp".

(** ** A labels file *)

(** A line of the linker's labels file. *)
Definition label_line_of (e : string * Z) : string :=
  "al C:" +:+ hex_pad true 6 e.2 +:+ " ." +:+ e.1.

Definition plain_name (s : string) : Prop :=
  chars s ≠ [] ∧ Forall (λ c, space_char c = false) (chars s).

Lemma label_line_match e :
  0 ≤ e.2 → plain_name e.1 →
  ∃ p, rx_match LABEL_RE (label_line_of e)
       = Some (Spot p [] [(2%nat, chars e.1); (1%nat, hex_low true (Nat.max 6 (hex_size e.2)) e.2)]).
Proof.
  intros Hv [Hne Hname]. set (hex := hex_low true _ _).
  assert (Htext : chars (label_line_of e) =
    chars "al" ++ [" "%char] ++ chars "C:" ++ hex ++ [" "%char] ++ chars "." ++ chars e.1 ++ []).
  { unfold label_line_of, hex_pad. rewrite !chars_app, chars_str, app_nil_r. done. }
  assert (Hhex : Forall (λ c, is_hex_any c = true) hex).
  { eapply Forall_impl; [apply hex_low_digits|]. intros c (d & Hd & ->).
    exact (do_hex _ (hex_digit_ok d Hd)). }
  assert (Hhne : hex ≠ []).
  { intros Hn%(f_equal length). unfold hex in Hn. rewrite length_hex_low in Hn. cbn [length] in Hn. lia. }
  assert (Hfirst : first (RSeq (RLit "al") (RSeq spaces1 (RSeq (RLit "C:") (RSeq (RGroup 1 hex_digits)
    (RSeq spaces1 (RSeq (RLit ".") (RSeq (RGroup 2 (RPlus (RChar (λ c, negb (space_char c)))))
      (RSeq spaces REol))))))))
    (chars "al" ++ [" "%char] ++ chars "C:" ++ hex ++ [" "%char] ++ chars "." ++ chars e.1 ++ [])
    [] [] [(2%nat, chars e.1); (1%nat, hex)]).
  { eapply first_seq; [apply first_lit|].
    eapply first_seq; [apply first_plus; [done|by repeat constructor|done]|].
    eapply first_seq; [apply first_lit|].
    eapply first_seq; [apply first_group, first_plus; [done|done|done]|].
    eapply first_seq; [apply first_plus; [done|by repeat constructor|done]|].
    eapply first_seq; [apply first_lit|].
    eapply first_seq; [apply first_group, first_plus; [done| |done]|].
    { eapply Forall_impl; [exact Hname|]. by intros c ->. }
    eapply first_seq; [apply (first_star space_char [] []); [constructor|done]|apply first_eol]. }
  destruct (Hfirst None) as (p & others & Heq). exists p.
  unfold rx_match, spot_at, LABEL_RE. rewrite Htext. cbn [run_rx sp_prev mbind list_bind].
  cbn [run_rx] in Heq. rewrite Heq. done.
Qed.

Lemma label_of_line e : 0 ≤ e.2 → plain_name e.1 → label_of (label_line_of e) = Some e.
Proof.
  intros Hv Hn. destruct (label_line_match e Hv Hn) as [p Hp]. unfold label_of. rewrite Hp.
  cbn [mbind option_bind].
  change (group 1 _) with (hex_pad true 6 e.2).
  change (group 2 _) with (str (chars e.1)).
  rewrite parse_hex_pad, str_chars by done. by destruct e.
Qed.

Lemma label_line_plain e :
  plain_name e.1 → Forall (λ c, line_break c = false) (chars (label_line_of e)).
Proof.
  intros [_ Hn]. unfold label_line_of, hex_pad. rewrite !chars_app, chars_str, !Forall_app.
  split_and!; [by repeat constructor| |by repeat constructor|].
  - eapply Forall_impl; [apply hex_low_digits|]. intros c (d & Hd & ->).
    exact (proj2 (do_plain _ (hex_digit_ok d Hd))).
  - eapply Forall_impl; [exact Hn|]. intros c Hc. unfold space_char, line_break in *.
    rewrite !orb_false_iff, !andb_false_iff, !Z.leb_gt, !Z.eqb_neq in *. lia.
Qed.

Lemma table_set_new k v l : k ∉ (fst <$> l) → table_set k v l = l ++ [(k, v)].
Proof.
  induction l as [|[k' v'] l IH]; intros Hk; [done|]. cbn in *.
  apply not_elem_of_cons in Hk as [Hne Hk]. rewrite decide_False by congruence. by rewrite IH.
Qed.

Lemma add_labels es pre :
  NoDup ((fst <$> pre) ++ (fst <$> es)) → Forall (λ e, 0 ≤ e.2 ∧ plain_name e.1) es →
  foldl add_label pre (label_line_of <$> es) = pre ++ es.
Proof.
  revert pre. induction es as [|e es IH]; intros pre Hnd Hes; [by rewrite app_nil_r|].
  apply Forall_cons in Hes as [[Hv Hn] Hes]. cbn [fmap list_fmap foldl].
  assert (Hadd : add_label pre (label_line_of e) = pre ++ [e]).
  { unfold add_label. rewrite label_of_line by done. destruct e as [name v].
    apply table_set_new. apply NoDup_app in Hnd as (_ & Hd & _).
    intros Hin. destruct (Hd name Hin). by left. }
  rewrite Hadd, IH; [by rewrite <- app_assoc| |done].
  rewrite fmap_app, <- app_assoc. exact Hnd.
Qed.

Module Ceilings.
(** A labels file reads back as the table that was written to it, in order, whatever the
    names and addresses. *)
Theorem labels_roundtrip (es : list (string * Z)) :
  NoDup (fst <$> es) → Forall (λ e, 0 ≤ e.2 ∧ plain_name e.1) es →
  labels_of (foldr (λ s t, line_of s +:+ t) "" (label_line_of <$> es)) = es.
Proof.
  intros Hnd Hes. unfold labels_of. rewrite splitlines_lines; [by apply add_labels|].
  apply Forall_fmap. eapply Forall_impl; [exact Hes|]. intros e [_ Hn]. by apply label_line_plain.
Qed.

Definition demo_labels : list (string * Z) :=
  [("NET_UDP_SEND_MAX", 1472); ("NET_UDP_RECV_MAX", 1472); ("WG_DATA_OVERHEAD", 32);
   ("WG_MTU", 860)].

Lemma labels_roundtrip_witness :
  labels_of (foldr (λ s t, line_of s +:+ t) "" (label_line_of <$> demo_labels)) = demo_labels.
Proof.
  apply labels_roundtrip.
  - apply (bool_decide_unpack _). by vm_compute.
  - apply (bool_decide_unpack _). by vm_compute.
Defined.

(** The ceilings are resolved symbol by symbol, from the labels, else the sources, else
    the defaults, and the tunnel's MTU is what both directions allow; an MTU the build exports
    clamps it, but only if warnings are asked for: with them off, the same labels give the
    unclamped MTU.  Nothing but the labels gives a part size or a chunked build. *)
Theorem caps_resolved `{!Files} env labels warn :
  let '(c, warnings) := load_caps env labels warn in
  let table := read_labels (labels_file env labels) in
  let symbol name := (resolve table name (default 0 (assoc name DEFAULTS))).1.1 in
  let derived := Z.min (symbol "NET_UDP_SEND_MAX") (symbol "NET_UDP_RECV_MAX")
                 - symbol "WG_DATA_OVERHEAD" in
  tunnel_mtu c = match table ≫= assoc "WG_MTU" with
                 | Some m => if warn then Z.min m derived else derived
                 | None => derived
                 end ∧
  recv_mtu c = symbol "NET_UDP_RECV_MAX" - symbol "WG_DATA_OVERHEAD" ∧
  (from_labels c = true ↔ ∀ name v, (name, v) ∈ DEFAULTS → table ≫= assoc name ≠ None) ∧
  chunk_part_max c = table ≫= assoc PART_MAX_LABEL ∧
  (chunked c = true ↔ is_Some (table ≫= assoc CHUNK_LABEL)) ∧
  (warn = false → warnings = []).
Proof.
  unfold load_caps. set (table := read_labels _).
  assert (Hlab : forallb (λ e, (resolve table e.1 e.2).1.2) DEFAULTS = true ↔
                 ∀ name v, (name, v) ∈ DEFAULTS → table ≫= assoc name ≠ None).
  { rewrite forallb_forall. setoid_rewrite <- list_elem_of_In. split.
    - intros Hall name v Hin. specialize (Hall _ Hin). unfold resolve in Hall. cbn [fst] in Hall.
      destruct (table ≫= assoc name); [done|]. by destruct (assoc name SOURCE_OF ≫= _).
    - intros Hall [name v] Hin. specialize (Hall _ _ Hin). unfold resolve. cbn [fst].
      by destruct (table ≫= assoc name). }
  cbv zeta. destruct (table ≫= assoc "WG_MTU") as [m|]; 
    [|unfold tunnel_mtu, recv_mtu;
      cbn [send_max recv_max overhead from_labels chunk_part_max chunked];
      rewrite bool_decide_eq_true; split_and!; [done..|by intros ->]].
  unfold tunnel_mtu at 1. cbn [send_max recv_max overhead].
  set (s := (resolve table "NET_UDP_SEND_MAX" _).1.1). set (r := (resolve table "NET_UDP_RECV_MAX" _).1.1).
  set (o := (resolve table "WG_DATA_OVERHEAD" _).1.1).
  destruct (Z.eqb_spec m (Z.min s r - o)) as [Hm|Hm], warn; cbn [negb andb];
    unfold tunnel_mtu, recv_mtu; cbn [send_max recv_max overhead from_labels chunk_part_max chunked];
    rewrite bool_decide_eq_true; (split_and!; [lia|done..]).
Qed.
End Ceilings.
