(* ===== verification/Settle.v ===== *)
(** * Polling loops that end

    A loop with fuel settles when, from some amount of fuel on, its outcome is always the same
    and is not the exception that stands for running out. *)

From S2P Require Export Prelude.

Section settle.
Context {S E : Type} (out_of_fuel : E → bool).
Abbreviation M := (eff S E).

Definition in_fuel {A} (o : outcome S E A) : Prop :=
  match o with Raise e _ => out_of_fuel e = false | Ret _ _ => True end.

Lemma in_fuel_bind {A B} (m : M A) (f : A → M B) s :
  in_fuel (m s) → (∀ a s', in_fuel (f a s')) → in_fuel ((m ≫= f) s).
Proof. intros Hm Hf. rewrite run_bind. destruct (m s); [apply Hf|done]. Qed.

Definition settles_at {A} (m : nat → M A) (s : S) : Prop :=
  ∃ n o, in_fuel o ∧ ∀ fuel, (n ≤ fuel)%nat → m fuel s = o.
Definition settles {A} (m : nat → M A) : Prop := ∀ s, settles_at m s.

Lemma settles_at_bind {A B} (m : nat → M A) (f : nat → A → M B) s :
  settles_at m s →
  (∀ n a s', (∀ fuel, (n ≤ fuel)%nat → m fuel s = Ret a s') → settles_at (λ fuel, f fuel a) s') →
  settles_at (λ fuel, m fuel ≫= f fuel) s.
Proof.
  intros (n & [a s'|e s'] & Ho & Hn) Hf.
  - destruct (Hf n a s' Hn) as (n' & o & Ho' & Hn'). exists (n `max` n')%nat, o. split; [done|].
    intros fuel ?. rewrite run_bind, Hn, Hn' by lia. done.
  - exists n, (Raise e s'). split; [done|]. intros fuel ?. by rewrite run_bind, Hn.
Qed.

Lemma settles_bind {A B} (m : nat → M A) (f : nat → A → M B) :
  settles m → (∀ a, settles (λ fuel, f fuel a)) → settles (λ fuel, m fuel ≫= f fuel).
Proof. intros Hm Hf s. apply settles_at_bind; [apply Hm|]. intros n a s' _. apply Hf. Qed.

(** A step that needs no fuel. *)
Lemma settles_at_const {A} (m : M A) s : in_fuel (m s) → settles_at (λ _, m) s.
Proof. intros Hm. by exists 0%nat, (m s). Qed.

Lemma settles_const {A} (m : M A) : (∀ s, in_fuel (m s)) → settles (λ _, m).
Proof. intros Hm s. by apply settles_at_const. Qed.

Lemma settles_at_then {A B} (m : M A) (f : nat → A → M B) s :
  in_fuel (m s) → (∀ a s', m s = Ret a s' → settles_at (λ fuel, f fuel a) s') →
  settles_at (λ fuel, m ≫= f fuel) s.
Proof.
  intros Hm Hf. apply (settles_at_bind (λ _, m)); [by apply settles_at_const|].
  intros n a s' Ha. apply Hf, (Ha n). lia.
Qed.

Lemma settles_then {A B} (m : M A) (f : nat → A → M B) :
  (∀ s, in_fuel (m s)) → (∀ a, settles (λ fuel, f fuel a)) → settles (λ fuel, m ≫= f fuel).
Proof. intros Hm Hf s. apply settles_at_then; [apply Hm|]. intros a s' _. apply Hf. Qed.

Lemma settles_ret {A} (a : A) : settles (λ _, mret a).
Proof. by apply settles_const. Qed.

(** The loops count their fuel down. *)
Lemma settles_at_succ {A} (m : nat → M A) s :
  settles_at (λ fuel, m (Datatypes.S fuel)) s → settles_at m s.
Proof.
  intros (n & o & Ho & Hn). exists (Datatypes.S n), o. split; [done|].
  intros [|fuel] ?; [lia|]. apply Hn. lia.
Qed.

(** [if not m(): return False] *)
Lemma settles_guard (m f : nat → M bool) :
  settles m → settles f → settles (λ fuel, b ← m fuel; if negb b then mret false else f fuel).
Proof.
  intros Hm Hf. apply settles_bind; [done|]. intros b. destruct b; cbn [negb]; [done|].
  apply settles_ret.
Qed.
End settle.
