(* ===== verification/Discipline.v ===== *)
(** * Disciplines on a log

    A stateful program that records what it does in a log obeys a discipline, an automaton on the
    records, when no record it adds is a breach; from states in [P] a value is returned in a state,
    and after a log, that satisfy [R]. *)

From S2P Require Export Prelude.

Section discipline.
Context {S E Ev Q : Type} (log : S → list Ev) (step : Q → Ev → option Q).
Abbreviation M := (eff S E).
Implicit Types P : Q → Prop.

Definition run_log (q : Q) (tr : list Ev) : option Q :=
  foldl (λ q a, q' ← q; step q' a) (Some q) tr.

Lemma run_log_app q tr tr' : run_log q (tr ++ tr') = q' ← run_log q tr; run_log q' tr'.
Proof.
  unfold run_log. rewrite foldl_app. destruct (foldl _ (Some q) tr); [done|]. cbn. by induction tr'.
Qed.

Definition obeys {A} P (m : M A) (R : A → Q → list Ev → Prop) : Prop :=
  ∀ s q, P q → match m s with
               | Ret a s' => ∃ tr q', log s' = log s ++ tr ∧ run_log q tr = Some q' ∧ R a q' tr
               | Raise _ s' => ∃ tr q', log s' = log s ++ tr ∧ run_log q tr = Some q'
               end.

Lemma obeys_ret {A} P (a : A) (R : A → Q → list Ev → Prop) :
  (∀ q, P q → R a q []) → obeys P (mret a) R.
Proof. intros H s q Hq. exists [], q. rewrite app_nil_r. auto. Qed.

Lemma obeys_raise {A} P e (R : A → Q → list Ev → Prop) : obeys P (raise e) R.
Proof. intros s q _. exists [], q. by rewrite app_nil_r. Qed.

Lemma obeys_bind {A B} P (m : M A) (f : A → M B) R R' :
  obeys P m R →
  (∀ a tr, obeys (λ q, R a q tr) (f a) (λ b q tr', R' b q (tr ++ tr'))) →
  obeys P (m ≫= f) R'.
Proof.
  intros Hm Hf s q Hq. specialize (Hm s q Hq). rewrite run_bind. destruct (m s) as [a s'|e s'];
    [|done]. destruct Hm as (tr & q' & Hl & Hr & HR). specialize (Hf a tr s' q' HR).
  destruct (f a s'); [destruct Hf as (tr' & q'' & Hl' & Hr' & HQ)|destruct Hf as (tr' & q'' & Hl' & Hr')];
    exists (tr ++ tr'), q''; rewrite Hl', Hl, app_assoc, run_log_app, Hr; auto.
Qed.

Lemma obeys_conseq {A} P P' (m : M A) (R R' : A → Q → list Ev → Prop) :
  obeys P' m R' → (∀ q, P q → P' q) → (∀ a q tr, R' a q tr → R a q tr) → obeys P m R.
Proof.
  intros Hm HP HQ s q Hq. specialize (Hm s q (HP q Hq)). destruct (m s); [|done].
  destruct Hm as (tr & q' & ? & ? & ?). eauto 10.
Qed.

Lemma obeys_ext {A} P (m m' : M A) R : (∀ s, m s = m' s) → obeys P m' R → obeys P m R.
Proof. intros Heq Hm s q Hq. rewrite Heq. by apply Hm. Qed.

(** A step that records nothing. *)
Lemma obeys_silent {A B} P (m : M A) (f : A → M B) R :
  obeys P m (λ _ q tr, P q ∧ tr = []) → (∀ a, obeys P (f a) R) → obeys P (m ≫= f) R.
Proof.
  intros Hm Hf. eapply obeys_bind; [exact Hm|]. intros a tr s q [Hq ->]. exact (Hf a s q Hq).
Qed.

(** Facts about what came before are taken out of the precondition. *)
Lemma obeys_pre {A} P P' (φ : Prop) (m : M A) R :
  (∀ q, P q → P' q ∧ φ) → (φ → obeys P' m R) → obeys P m R.
Proof. intros HP Hm s q Hq. destruct (HP q Hq) as [Hq' Hφ]. exact (Hm Hφ s q Hq'). Qed.

(** The run of the automaton behind a returned value. *)
Lemma obeys_traced {A} P (m : M A) R :
  obeys P m R → obeys P m (λ a q tr, R a q tr ∧ ∃ q0, P q0 ∧ run_log q0 tr = Some q).
Proof.
  intros Hm s q Hq. specialize (Hm s q Hq). destruct (m s); [|done].
  destruct Hm as (tr & q' & ? & ? & ?). exists tr, q'. eauto 10.
Qed.

(** ** Keeping a set of states *)

(** From a state in [P] back to one, whenever a value is returned. *)
Definition remains {A} P (m : M A) : Prop := obeys P m (λ _ q _, P q).

Lemma remains_ret {A} P (a : A) : remains P (mret a).
Proof. by apply obeys_ret. Qed.
Lemma remains_raise {A} P e : remains P (raise (A:=A) e).
Proof. apply obeys_raise. Qed.
Lemma remains_bind {A B} P (m : M A) (f : A → M B) :
  remains P m → (∀ a, remains P (f a)) → remains P (m ≫= f).
Proof. intros Hm Hf. eapply obeys_bind; [exact Hm|]. intros a tr. exact (Hf a). Qed.
End discipline.

Arguments obeys_pre {S E Ev Q log step A} P P' φ m R.

(** ** What a step adds to the log *)

Section adds.
Context {S E Ev : Type} {log : S → list Ev}.
Abbreviation M := (eff S E).

(** [P] of what a step adds when it returns, [X] when it raises. *)
Definition adds {A} (m : M A) (P : A → list Ev → Prop) (X : E → list Ev → Prop) : Prop :=
  ∀ s, match m s with
       | Ret a s' => ∃ tr, log s' = log s ++ tr ∧ P a tr
       | Raise e s' => ∃ tr, log s' = log s ++ tr ∧ X e tr
       end.

Lemma adds_conseq {A} (m : M A) (P P' : A → list Ev → Prop) (X X' : E → list Ev → Prop) :
  adds m P X → (∀ a tr, P a tr → P' a tr) → (∀ e tr, X e tr → X' e tr) → adds m P' X'.
Proof. intros Hm HP HX s. specialize (Hm s). destruct (m s); destruct Hm as (tr & ? & ?); exists tr; auto. Qed.

Lemma adds_ret {A} (a : A) (P : A → list Ev → Prop) X : P a [] → adds (mret a) P X.
Proof. intros HP s. exists []. by rewrite app_nil_r. Qed.
Lemma adds_raise {A} e (P : A → list Ev → Prop) X : X e [] → adds (raise (A:=A) e) P X.
Proof. intros HX s. exists []. by rewrite app_nil_r. Qed.

Lemma adds_bind {A B} (m : M A) (f : A → M B) R P X :
  adds m R X →
  (∀ a tr, R a tr → adds (f a) (λ b tr', P b (tr ++ tr')) (λ e tr', X e (tr ++ tr'))) →
  adds (m ≫= f) P X.
Proof.
  intros Hm Hf s. specialize (Hm s). rewrite run_bind. destruct (m s) as [a s1|e s1]; [|done].
  destruct Hm as (tr & Hl & HR). specialize (Hf a tr HR s1).
  destruct (f a s1); destruct Hf as (tr' & Hl' & ?); exists (tr ++ tr'); by rewrite Hl', Hl, app_assoc.
Qed.

Lemma adds_gets {A B} (g : S → A) (f : A → M B) P X : (∀ a, adds (f a) P X) → adds (gets g ≫= f) P X.
Proof. intros Hf s. rewrite run_bind. exact (Hf (g s) s). Qed.

(** A first step that adds nothing, however it ends. *)
Lemma adds_quiet {A B} (m : M A) (f : A → M B) P X :
  adds m (λ _ tr, tr = []) (λ e tr, tr = [] ∧ X e []) → (∀ a, adds (f a) P X) → adds (m ≫= f) P X.
Proof.
  intros Hm Hf. apply (adds_bind _ _ (λ _ tr, tr = [])).
  - eapply adds_conseq; [exact Hm|done|]. by intros e tr [-> ?].
  - intros a tr ->. apply Hf.
Qed.

(** However a step ends, the [finally] behind it adds its own log. *)
Lemma adds_finally {A} (m : M A) (last : M unit) P X P' X' R :
  adds m P X → adds last P' X' →
  (∀ a tr tr' e, P a tr → X' e tr' → R e (tr ++ tr')) →
  (∀ e tr tr' u, X e tr → P' u tr' → R e (tr ++ tr')) →
  (∀ e tr tr' e', X e tr → X' e' tr' → R e' (tr ++ tr')) →
  adds (finally m last) (λ a tr, ∃ tr1 tr2, tr = tr1 ++ tr2 ∧ P a tr1 ∧ P' tt tr2) R.
Proof.
  intros Hm Hl H1 H2 H3 s. specialize (Hm s). unfold finally.
  destruct (m s) as [a s1|e s1]; destruct Hm as (tr & He & HP); specialize (Hl s1);
    destruct (last s1) as [u s2|e' s2]; destruct Hl as (tr' & He' & HP'); exists (tr ++ tr');
    rewrite He', He, app_assoc; split; try done; eauto.
  destruct u. by exists tr, tr'.
Qed.

Lemma adds_catch {A} (m : M A) (h : E → M A) P X X' :
  adds m P X →
  (∀ e tr, X e tr → adds (h e) (λ a tr', P a (tr ++ tr')) (λ e' tr', X' e' (tr ++ tr'))) →
  adds (catch_any m h) P X'.
Proof.
  intros Hm Hh s. specialize (Hm s). unfold catch_any.
  destruct (m s) as [a s1|e s1]; destruct Hm as (tr & He & HP); [by exists tr|].
  specialize (Hh e tr HP s1). destruct (h e s1); destruct Hh as (tr' & He' & HP'); exists (tr ++ tr');
    by rewrite He', He, app_assoc.
Qed.
End adds.
Arguments adds {S E Ev} log {A} m P X.
