(* ===== verification/C64Input.v ===== *)
(** * Driving the C64's keyboard (tools/wg_c64_input.py)

    Typing into the KERNAL's keyboard queue, staging a message by DMA, and renewing the
    session.  The transport and the clock are the class [Transport]; every access is recorded
    in a log.  A polling loop gets fuel: running out of it is an outcome of its own. *)

From S2P Require Export Caps.

Definition KBD_BUFFER : Z := 0x0277.
Definition KBD_COUNT : Z := 0x00C6.
Definition KBD_MAX : nat := 10.
Definition IP_UDP_HDR_LEN : Z := 28.
Definition DMA_CHUNK : nat := 64.

(** [C64_TUNNEL_MTU - 28] of the build in force. *)
Definition C64_INPUT_MAX `{!Files} (env : option string) : Z :=
  tunnel_mtu (load_caps env None true).1 - 28.

(** ** The transport *)

Inductive input_error :=
| OutOfFuel
| TooLong (n limit : Z)
| NoLabel (name : string)
| EmptyRead
| BadKey
| Overflow
| TransportError (what : string).

Class Transport (W : Type) := {
  tr_read : Z → Z → eff W input_error bytes;
  tr_write : Z → bytes → eff W input_error unit;
  tr_now : W → spec_float * W;
  tr_sleep : Z → W → W;
}.

Inductive access :=
| IRead (addr : Z) (l : bytes)
| IWrite (addr : Z) (l : bytes)
| IFailed (addr : Z).

Record input_state (W : Type) := InputState { i_world : W; i_log : list access }.
Arguments InputState {W} i_world i_log.
Arguments i_world {W} s : rename.
Arguments i_log {W} s : rename.

Section input.
Context {W : Type} `{!Transport W}.

Abbreviation M := (eff (input_state W) input_error).

Definition read_memory (addr n : Z) : M bytes := λ s,
  match tr_read addr n (i_world s) with
  | Ret l w => Ret l (InputState w (i_log s ++ [IRead addr l]))
  | Raise e w => Raise e (InputState w (i_log s ++ [IFailed addr]))
  end.
(** A write that fails may have had its effect. *)
Definition write_memory (addr : Z) (l : bytes) : M unit := λ s,
  match tr_write addr l (i_world s) with
  | Ret u w => Ret u (InputState w (i_log s ++ [IWrite addr l]))
  | Raise e w => Raise e (InputState w (i_log s ++ [IWrite addr l]))
  end.
Definition monotonic : M spec_float := λ s,
  let '(t, w) := tr_now (i_world s) in Ret t (InputState w (i_log s)).
Definition sleep_ms (ms : Z) : M unit := λ s, Ret tt (InputState (tr_sleep ms (i_world s)) (i_log s)).

(** [tr.read_memory(addr, 1)[0]] *)
Definition peek (addr : Z) : M Z :=
  l ← read_memory addr 1;
  match l with b :: _ => mret b | [] => raise EmptyRead end.

(** [while time.monotonic() < deadline: if test(tr.read_memory(addr, 1)[0]): return True;
    time.sleep(pause)], then [return False] *)
Fixpoint poll (fuel : nat) (deadline : spec_float) (addr : Z) (test : Z → bool) (pause : Z) : M bool :=
  match fuel with
  | O => raise OutOfFuel
  | S fuel =>
      t ← monotonic;
      if negb (flt t deadline) then mret false else
      b ← peek addr;
      if test b then mret true else (sleep_ms pause;; poll fuel deadline addr test pause)
  end.

Definition poll_for (fuel : nat) (timeout : spec_float) (addr : Z) (test : Z → bool) (pause : Z) : M bool :=
  t ← monotonic;
  poll fuel (fadd t timeout) addr test pause.

Definition seconds_of (s : Z) : spec_float := float_of_Z s.

(** ** The keyboard *)

Definition wait_drained (fuel : nat) (timeout : spec_float) : M bool :=
  poll_for fuel timeout KBD_COUNT (λ b, b =? 0) 50.

(** The bytes first, the count last. *)
Definition enqueue (chunk : bytes) : M unit :=
  write_memory KBD_BUFFER chunk;;
  write_memory KBD_COUNT [len chunk].

(** [key] is [ord(char)], which has to be a byte. *)
Definition press_key (fuel : nat) (key : Z) (timeout : spec_float) : M bool :=
  ready ← wait_drained fuel timeout;
  if negb ready then mret false else
  if negb ((0 <=? key) && (key <? 256)) then raise BadKey else
  enqueue [key];;
  wait_drained fuel timeout.

(** [payload[i:i + n] for i in range(0, len(payload), n)] *)
Fixpoint blocks_fuel (fuel n : nat) (l : bytes) : list bytes :=
  match fuel, l with
  | S fuel, _ :: _ => take n l :: blocks_fuel fuel n (drop n l)
  | _, _ => []
  end.
Definition blocks (n : nat) (l : bytes) : list bytes := blocks_fuel (length l) n l.

(** [text.encode("ascii", errors="replace")] *)
Definition encode_replace (text : string) : bytes :=
  (λ c, if code c <? 128 then code c else 63) <$> chars text.

Fixpoint type_chunks (fuel : nat) (chunks : list bytes) (timeout : spec_float) : M bool :=
  match chunks with
  | [] => wait_drained fuel timeout
  | chunk :: chunks =>
      ready ← wait_drained fuel timeout;
      if negb ready then mret false else
      enqueue chunk;;
      type_chunks fuel chunks timeout
  end.

Definition type_text (fuel : nat) (text : string) (timeout : spec_float) : M bool :=
  type_chunks fuel (blocks KBD_MAX (encode_replace text)) timeout.

(** [text[:n]]: a negative [n] counts from the end. *)
Definition first_chars (n : Z) (s : string) : string :=
  str (take (Z.to_nat (if n <? 0 then Z.of_nat (length (chars s)) + n else n)) (chars s)).

Definition KEY_M : Z := 77.
Definition KEY_H : Z := 72.
Definition KEY_RETURN : Z := 13.

Definition send_message (fuel : nat) (input_max : Z) (text : string) (timeout : spec_float) : M bool :=
  let text := first_chars input_max (upper text) in
  pressed ← press_key fuel KEY_M timeout;
  if negb pressed then mret false else
  sleep_ms 300;;
  typed ← type_text fuel text timeout;
  if negb typed then mret false else
  press_key fuel KEY_RETURN timeout.

(** ** Staging by DMA *)

Abbreviation label_map := (list (string * Z)).

Definition label (L : label_map) (name : string) : M Z :=
  match assoc name L with Some v => mret v | None => raise (NoLabel name) end.

Definition input_max_from_labels (input_max : Z) (L : label_map) : Z :=
  match assoc "ip_pkt_len" L, assoc "ip_packet_buf" L with
  | Some e, Some b => e - b - IP_UDP_HDR_LEN
  | _, _ => input_max
  end.

Fixpoint write_blocks (addr : Z) (chunks : list bytes) : M unit :=
  match chunks with
  | [] => mret tt
  | chunk :: chunks =>
      write_memory addr chunk;;
      write_blocks (addr + Z.of_nat DMA_CHUNK) chunks
  end.

Definition send_message_dma (fuel : nat) (input_max : Z) (text : string) (L : label_map)
    (timeout : spec_float) : M bool :=
  let payload := encode_replace (upper text) in
  let limit := input_max_from_labels input_max L in
  if limit <? len payload then raise (TooLong (len payload) limit) else
  pressed ← press_key fuel KEY_M timeout;
  if negb pressed then mret false else
  drained ← wait_drained fuel timeout;
  if negb drained then mret false else
  sleep_ms 300;;
  buf ← label L "ip_packet_buf";
  write_blocks (buf + IP_UDP_HDR_LEN) (blocks DMA_CHUNK payload);;
  count ← label L "msg_input_len";
  match to_le 2 (len payload) with
  | None => raise Overflow
  | Some two =>
      write_memory count two;;
      press_key fuel KEY_RETURN timeout
  end.

(** ** The session's state *)

Definition wait_for_state (fuel : nat) (addr want : Z) (timeout : spec_float) : M bool :=
  poll_for fuel timeout addr (λ b, b =? want) 1000.
Definition wait_while_state (fuel : nat) (addr avoid : Z) (timeout : spec_float) : M bool :=
  poll_for fuel timeout addr (λ b, negb (b =? avoid)) 1000.

Definition rekey (fuel : nat) (wg_state_addr active_value : Z) (timeout : spec_float) : M bool :=
  pressed ← press_key fuel KEY_H (seconds_of 15);
  if negb pressed then mret false else
  t ← monotonic;
  let deadline := fadd t timeout in
  left_ ← wait_while_state fuel wg_state_addr active_value timeout;
  if negb left_ then mret false else
  t ← monotonic;
  let remaining := fsub deadline t in
  wait_for_state fuel wg_state_addr active_value
    (if flt (seconds_of 1) remaining then remaining else seconds_of 1).
End input.
