(* ===== verification/InputThms.v ===== *)
(** * Driving the C64's keyboard: the properties

    The queue protocol that every key press keeps, what reaches the queue and the staging area,
    what a renewed session is recognised by, and that the polling ends. *)

From S2P Require Export Settle Discipline C64Input CapsThms.
#[local] Set Warnings "-clear-no-such-hyp".

(** ** The protocol of the keyboard queue *)

(** What is known of the queue: nothing, that it is empty, or that this many bytes were put
    into its buffer and not yet announced. *)
Inductive queue := Unknown | Empty | Filled (n : Z).

Definition idle (q : queue) : Prop := q = Unknown ∨ q = Empty.

(** One access; [None] is a breach: bytes written into a queue not known to be empty, or too
    many for it, a count that is not theirs, or a write anywhere else. *)
Definition queue_step (q : queue) (a : access) : option queue :=
  match a with
  | IRead addr l =>
      if addr =? KBD_COUNT then
        match l with 0 :: _ => Some Empty | _ => Some Unknown end
      else Some q
  | IFailed _ => Some q
  | IWrite addr l =>
      match q with
      | Empty => if (addr =? KBD_BUFFER) && (1 <=? len l) && (len l <=? Z.of_nat KBD_MAX)
                 then Some (Filled (len l)) else None
      | Filled n => if (addr =? KBD_COUNT) && bool_decide (l = [n]) then Some Unknown else None
      | Unknown => None
      end
  end.

Abbreviation queue_run := (run_log queue_step).

Definition writes (tr : list access) : list (Z * bytes) :=
  omap (λ a, match a with IWrite addr l => Some (addr, l) | _ => None end) tr.

Lemma writes_app tr tr' : writes (tr ++ tr') = writes tr ++ writes tr'.
Proof. apply omap_app. Qed.

(** The two writes that put a chunk into the queue. *)
Definition enqueued (chunk : bytes) : list (Z * bytes) :=
  [(KBD_BUFFER, chunk); (KBD_COUNT, [len chunk])].

Definition log_after {W A} (o : outcome (input_state W) input_error A) : list access :=
  match o with Ret _ s | Raise _ s => i_log s end.

Abbreviation proto := (obeys i_log queue_step).

Section protocol.
Context {W : Type} `{!Transport W}.
Abbreviation M := (eff (input_state W) input_error).

Lemma proto_now {B} P (f : spec_float → M B) Q : (∀ t, proto P (f t) Q) → proto P (monotonic ≫= f) Q.
Proof.
  apply obeys_silent. intros s q Hq. unfold monotonic. destruct (tr_now (i_world s)) as [t w].
  exists [], q. cbn. by rewrite app_nil_r.
Qed.

Lemma proto_sleep {B} P ms (f : unit → M B) Q : (∀ u, proto P (f u) Q) → proto P (sleep_ms ms ≫= f) Q.
Proof. apply obeys_silent. intros s q Hq. exists [], q. cbn. by rewrite app_nil_r. Qed.

(** Reading a byte keeps an idle queue idle, and a zero count shows it empty. *)
Lemma proto_peek addr :
  proto idle (peek (W:=W) addr)
    (λ v q tr, idle q ∧ (∃ l, tr = [IRead addr (v :: l)]) ∧ (addr = KBD_COUNT → v = 0 → q = Empty)).
Proof.
  intros s q Hq. unfold peek, read_memory. rewrite run_bind.
  assert (Hread : ∀ l, ∃ q', queue_run q [IRead addr l] = Some q' ∧ idle q' ∧
    (addr = KBD_COUNT → head l = Some 0 → q' = Empty)).
  { intros l. cbn. destruct (Z.eqb_spec addr KBD_COUNT); [|eexists; naive_solver].
    destruct l as [|v l]; [eexists; split_and!; [done|by left|done]|].
    destruct (decide (v = 0)) as [->|Hv]; [eexists; split_and!; [done|by right|done]|].
    exists Unknown. split_and!; [by destruct v|by left|]. intros _ [=]. done. }
  destruct (tr_read addr 1 (i_world s)) as [l w|e w].
  - destruct (Hread l) as (q' & Hr & Hi & He). destruct l as [|v l].
    + exists [IRead addr []], q'. done.
    + exists [IRead addr (v :: l)], q'. split_and!; [done|done|done|by exists l|].
      intros Ha ->. by apply He.
  - exists [IFailed addr], q. done.
Qed.

Definition saw (addr : Z) (test : Z → bool) (tr : list access) : Prop :=
  ∃ v l, last tr = Some (IRead addr (v :: l)) ∧ test v = true.

Lemma saw_app addr test tr tr' : saw addr test tr' → saw addr test (tr ++ tr').
Proof.
  intros (v & l & Hl & Ht). exists v, l. split; [|done].
  destruct tr' as [|a tr'] using rev_ind; [done|]. rewrite app_assoc, last_snoc. by rewrite last_snoc in Hl.
Qed.

Lemma poll_proto fuel deadline addr test pause :
  proto idle (poll (W:=W) fuel deadline addr test pause)
    (λ b q tr, idle q ∧ writes tr = [] ∧
       (b = true → saw addr test tr ∧
          (addr = KBD_COUNT → (∀ v, test v = true → v = 0) → q = Empty))).
Proof.
  induction fuel as [|fuel IH]; cbn [poll]; [apply obeys_raise|].
  apply proto_now. intros t. destruct (negb _); [by apply obeys_ret|].
  eapply obeys_bind; [apply proto_peek|]. intros v tr1. destruct (test v) eqn:Htest.
  - apply obeys_ret. intros q (Hi & (l & ->) & He). split_and!; [done|done|]. intros _.
    split; [by exists v, l|]. intros Ha Hz. apply He; auto.
  - apply proto_sleep. intros _ s q (Hi & (l & ->) & _). specialize (IH s q Hi).
    destruct (poll _ _ _ _ _ s); [|done]. destruct IH as (tr & q' & Hl & Hr & Hi' & Hw & Hsaw).
    exists tr, q'. split_and!; [done|done|done| |].
    + rewrite writes_app, Hw. done.
    + intros Hb. destruct (Hsaw Hb). split; [by apply saw_app|done].
Qed.

Lemma poll_for_proto fuel timeout addr test pause :
  proto idle (poll_for (W:=W) fuel timeout addr test pause)
    (λ b q tr, idle q ∧ writes tr = [] ∧
       (b = true → saw addr test tr ∧
          (addr = KBD_COUNT → (∀ v, test v = true → v = 0) → q = Empty))).
Proof. apply proto_now. intros t. apply poll_proto. Qed.

(** The queue was seen empty by the last access. *)
Definition seen_empty : list access → Prop := saw KBD_COUNT (λ b, b =? 0).

Lemma wait_drained_proto fuel timeout :
  proto idle (wait_drained (W:=W) fuel timeout)
    (λ b q tr, idle q ∧ writes tr = [] ∧ (b = true → q = Empty ∧ seen_empty tr)).
Proof.
  eapply obeys_conseq; [apply poll_for_proto|done|]. intros b q tr (Hi & Hw & Hs).
  split_and!; [done|done|]. intros Hb. destruct (Hs Hb) as [? He]. split; [|done].
  apply He; [done|]. by intros v ?%Z.eqb_eq.
Qed.

Lemma enqueue_proto chunk :
  1 ≤ len chunk ≤ Z.of_nat KBD_MAX →
  proto (λ q, q = Empty) (enqueue (W:=W) chunk) (λ _ q tr, idle q ∧ writes tr = enqueued chunk).
Proof.
  intros Hlen s q ->. unfold enqueue, write_memory. rewrite run_bind.
  assert (Hfill : queue_step Empty (IWrite KBD_BUFFER chunk) = Some (Filled (len chunk))).
  { cbn. rewrite (proj2 (Z.leb_le _ _)), (proj2 (Z.leb_le _ _)) by lia. done. }
  assert (Hcount : queue_step (Filled (len chunk)) (IWrite KBD_COUNT [len chunk]) = Some Unknown).
  { cbn. by rewrite bool_decide_eq_true_2. }
  assert (Hrun : run_log queue_step Empty [IWrite KBD_BUFFER chunk; IWrite KBD_COUNT [len chunk]] = Some Unknown).
  { unfold run_log. cbn [foldl]. change (Some Empty ≫= ?f) with (f Empty). cbv beta.
    rewrite Hfill. change (Some ?x ≫= ?f) with (f x). cbv beta. exact Hcount. }
  destruct (tr_write KBD_BUFFER chunk (i_world s)) as [[] w|e w]; cbn [i_world i_log].
  - destruct (tr_write KBD_COUNT [len chunk] w) as [[] w'|e w']; cbn [i_log];
      exists [IWrite KBD_BUFFER chunk; IWrite KBD_COUNT [len chunk]], Unknown;
      rewrite <- app_assoc; (split; [done|]); [|exact Hrun].
    split; [exact Hrun|]. by split; [left|].
  - exists [IWrite KBD_BUFFER chunk], (Filled (len chunk)). split; [done|].
    exact Hfill.
Qed.

Lemma press_key_proto fuel key timeout :
  proto idle (press_key (W:=W) fuel key timeout)
    (λ b q tr, idle q ∧ (writes tr = [] ∧ b = false ∨ writes tr = enqueued [key]) ∧
               (b = true → q = Empty)).
Proof.
  unfold press_key. eapply obeys_bind; [apply wait_drained_proto|]. intros b tr. destruct b; cbn [negb].
  2:{ apply obeys_ret. intros q (Hi & Hw & _). rewrite app_nil_r. split_and!; [done|by left|done]. }
  eapply (obeys_pre _ (λ q, q = Empty) (writes tr = []));
    [by intros q (_ & Hw & Hq); destruct (Hq eq_refl)|]. intros Hw.
  destruct (negb _); [apply obeys_raise|].
  eapply obeys_bind; [by apply enqueue_proto|]. intros u tr'.
  eapply (obeys_pre _ idle (writes tr' = enqueued [key])); [by intros q [? ?]|]. intros Hw'.
  eapply obeys_conseq; [apply wait_drained_proto|done|]. intros b q tr'' (Hi & Hw'' & Hs).
  rewrite !writes_app, Hw, Hw', Hw''. split_and!; [done|by right|]. intros Hb. by apply Hs.
Qed.

(** ** Blocks *)

Lemma blocks_fuel_spec fuel n l :
  (0 < n)%nat → (length l ≤ fuel)%nat →
  mjoin (blocks_fuel fuel n l) = l ∧
  Forall (λ c, 1 ≤ len c ≤ Z.of_nat n) (blocks_fuel fuel n l).
Proof.
  intros Hn. revert l. induction fuel as [|fuel IH]; intros l Hl.
  - destruct l; [done|cbn in Hl; lia].
  - destruct l as [|x l]; [done|].
    change (blocks_fuel (S fuel) n (x :: l)) with (take n (x :: l) :: blocks_fuel fuel n (drop n (x :: l))).
    destruct (IH (drop n (x :: l))) as [Hj Hf]; [rewrite length_drop; cbn in *; lia|]. split.
    + change (mjoin (?a :: ?b)) with (a ++ mjoin b). rewrite Hj. apply take_drop.
    + constructor; [|done]. unfold len. rewrite length_take. cbn [length]. lia.
Qed.

Lemma blocks_spec n l :
  (0 < n)%nat → mjoin (blocks n l) = l ∧ Forall (λ c, 1 ≤ len c ≤ Z.of_nat n) (blocks n l).
Proof. intros. by apply blocks_fuel_spec. Qed.

(** What typing these chunks writes, when it got as far as [done] of them. *)
Lemma type_chunks_proto fuel chunks timeout :
  Forall (λ c, 1 ≤ len c ≤ Z.of_nat KBD_MAX) chunks →
  proto idle (type_chunks (W:=W) fuel chunks timeout)
    (λ b q tr, idle q ∧ (∃ typed, typed `prefix_of` chunks ∧ writes tr = mjoin (enqueued <$> typed) ∧
                                  (b = true → typed = chunks)) ∧ (b = true → q = Empty)).
Proof.
  induction 1 as [|chunk chunks Hc Hcs IH]; cbn [type_chunks].
  - eapply obeys_conseq; [apply wait_drained_proto|done|]. intros b q tr (Hi & Hw & Hs).
    split_and!; [done| |intros Hb; by apply Hs]. exists []. by split_and!.
  - eapply obeys_bind; [apply wait_drained_proto|]. intros b tr. destruct b; cbn [negb].
    2:{ apply obeys_ret. intros q (Hi & Hw & _). rewrite app_nil_r. split_and!; [done| |done].
        exists []. split_and!; [apply prefix_nil|done|done]. }
    eapply (obeys_pre _ (λ q, q = Empty) (writes tr = []));
      [by intros q (_ & Hw & Hq); destruct (Hq eq_refl)|]. intros Hw.
    eapply obeys_bind; [by apply enqueue_proto|]. intros u tr'.
    eapply (obeys_pre _ idle (writes tr' = enqueued chunk)); [by intros q [? ?]|]. intros Hw'.
    eapply obeys_conseq; [exact IH|done|].
    intros b q tr'' (Hi & (typed & Hp & Hw'' & Hall) & Hs). split_and!; [done| |done].
    exists (chunk :: typed). split_and!; [by apply prefix_cons| |by intros Hb; rewrite Hall].
    rewrite !writes_app, Hw, Hw', Hw''. done.
Qed.

Definition typed_bytes (ws : list (Z * bytes)) : bytes :=
  mjoin (omap (λ w, if w.1 =? KBD_BUFFER then Some w.2 else None) ws).

Lemma typed_bytes_app ws ws' : typed_bytes (ws ++ ws') = typed_bytes ws ++ typed_bytes ws'.
Proof. unfold typed_bytes. by rewrite omap_app, join_app. Qed.

Lemma typed_bytes_enqueued chunks : typed_bytes (mjoin (enqueued <$> chunks)) = mjoin chunks.
Proof.
  induction chunks as [|c chunks IH]; [done|]. cbn [fmap list_fmap].
  change (mjoin (?a :: ?b)) with (a ++ mjoin b). rewrite typed_bytes_app, IH.
  unfold typed_bytes. cbn. by rewrite app_nil_r.
Qed.

Lemma type_text_proto fuel text timeout :
  proto idle (type_text (W:=W) fuel text timeout)
    (λ b q tr, idle q ∧ typed_bytes (writes tr) `prefix_of` encode_replace text ∧
               (b = true → q = Empty ∧ typed_bytes (writes tr) = encode_replace text)).
Proof.
  destruct (blocks_spec KBD_MAX (encode_replace text)) as [Hj Hb]; [unfold KBD_MAX; lia|].
  eapply obeys_conseq; [by apply type_chunks_proto|done|].
  intros b q tr (Hi & (typed & (rest & Hrest) & Hw & Hall) & Hs). rewrite Hw, typed_bytes_enqueued.
  split_and!; [done| |].
  - exists (mjoin rest). rewrite <- Hj, Hrest.
    clear. induction typed as [|c typed IH]; [done|].
    change (mjoin (?a :: ?b)) with (a ++ mjoin b). cbn [app].
    change (mjoin (?a :: ?b)) with (a ++ mjoin b). by rewrite <- app_assoc, <- IH.
  - intros Hbt. split; [by apply Hs|]. by rewrite (Hall Hbt).
Qed.

(** A whole message: the key, the text cut to the limit, and RETURN. *)
Definition message_bytes (input_max : Z) (text : string) : bytes :=
  KEY_M :: encode_replace (first_chars input_max (upper text)) ++ [KEY_RETURN].

Lemma send_message_proto fuel input_max text timeout :
  proto idle (send_message (W:=W) fuel input_max text timeout)
    (λ b q tr, b = true → q = Empty ∧ typed_bytes (writes tr) = message_bytes input_max text).
Proof.
  unfold send_message. eapply obeys_bind; [apply press_key_proto|]. intros b tr.
  destruct b; cbn [negb]; [|by apply obeys_ret].
  eapply (obeys_pre _ idle (writes tr = enqueued [KEY_M]));
    [by intros q (? & [[_ ?]|?] & _)|]. intros Hw.
  apply proto_sleep. intros _. eapply obeys_bind; [apply type_text_proto|]. intros b tr'.
  destruct b; cbn [negb]; [|by apply obeys_ret].
  eapply (obeys_pre _ idle (typed_bytes (writes tr') = _));
    [intros q (? & _ & H); split; [done|by apply H]|]. intros Hw'.
  eapply obeys_conseq; [apply press_key_proto|done|]. intros b q tr'' (_ & Hw'' & He) ->.
  split; [by apply He|]. destruct Hw'' as [[_ ?]|Hw'']; [done|].
  rewrite !writes_app, !typed_bytes_app, Hw, Hw', Hw''. done.
Qed.
End protocol.

(** ** Staging by DMA *)

(** The memory after these writes. *)
Definition mem_write (m : Z → Z) (w : Z * bytes) : Z → Z :=
  λ a, if (w.1 <=? a) && (a <? w.1 + len w.2) then byte_at w.2 (Z.to_nat (a - w.1)) else m a.
Definition mem_after (m : Z → Z) (ws : list (Z * bytes)) : Z → Z := foldl mem_write m ws.

Fixpoint block_writes (addr : Z) (chunks : list bytes) : list (Z * bytes) :=
  match chunks with
  | [] => []
  | chunk :: chunks => (addr, chunk) :: block_writes (addr + Z.of_nat DMA_CHUNK) chunks
  end.

(** The accesses of a sequence of writes. *)
Definition as_writes (ws : list (Z * bytes)) : list access := (λ w, IWrite w.1 w.2) <$> ws.

Lemma writes_as_writes ws : writes (as_writes ws) = ws.
Proof. unfold writes, as_writes. induction ws as [|[a l] ws IH]; [done|]. cbn in *. by rewrite IH. Qed.

(** Written block by block, the bytes lie one after the other, and nothing else changes. *)
Lemma mem_after_blocks m addr l a :
  mem_after m (block_writes addr (blocks DMA_CHUNK l)) a =
  (if (addr <=? a) && (a <? addr + len l) then byte_at l (Z.to_nat (a - addr)) else m a).
Proof.
  unfold blocks. remember (length l) as fuel eqn:Hf. assert (Hl : (length l ≤ fuel)%nat) by lia. clear Hf.
  assert (Hnil : ∀ b, ((addr <=? a) && (a <? addr + len (@nil Z)) = b) → b = false).
  { intros b <-. unfold len. cbn [length].
    destruct (Z.leb_spec addr a), (Z.ltb_spec a (addr + Z.of_nat 0)); done || lia. }
  revert m addr l Hl Hnil. induction fuel as [|fuel IH]; intros m addr l Hl Hnil.
  { destruct l; [|cbn in Hl; lia]. by rewrite (Hnil _ eq_refl). }
  destruct l as [|x l]; [by rewrite (Hnil _ eq_refl)|]. clear Hnil.
  change (blocks_fuel (S fuel) DMA_CHUNK (x :: l))
    with (take DMA_CHUNK (x :: l) :: blocks_fuel fuel DMA_CHUNK (drop DMA_CHUNK (x :: l))).
  remember (x :: l) as l' eqn:El. cbn [block_writes]. unfold mem_after in *. cbn [foldl].
  rewrite IH.
  2: rewrite length_drop; unfold DMA_CHUNK in *; lia.
  2:{ intros b <-. unfold len. cbn [length].
      destruct (Z.leb_spec (addr + Z.of_nat DMA_CHUNK) a),
        (Z.ltb_spec a (addr + Z.of_nat DMA_CHUNK + Z.of_nat 0)); done || lia. }
  clear x l El. unfold mem_write. cbn [fst snd]. unfold len, byte_at in *. rewrite length_drop, length_take.
  unfold DMA_CHUNK in *. rewrite lookup_drop.
  destruct (Z.leb_spec (addr + Z.of_nat 64) a), (Z.leb_spec addr a),
    (Z.ltb_spec a (addr + Z.of_nat 64 + Z.of_nat (length l' - 64))),
    (Z.ltb_spec a (addr + Z.of_nat (64 `min` length l'))),
    (Z.ltb_spec a (addr + Z.of_nat (length l'))); cbn [andb]; try lia; try done.
  - do 2 f_equal. lia.
  - rewrite lookup_take_lt by lia. done.
Qed.

Definition staging (buf count : Z) (payload two : bytes) : list (Z * bytes) :=
  block_writes (buf + IP_UDP_HDR_LEN) (blocks DMA_CHUNK payload) ++ [(count, two)].

Lemma mem_after_app m ws ws' : mem_after m (ws ++ ws') = mem_after (mem_after m ws) ws'.
Proof. apply foldl_app. Qed.

(** What the memory holds after the staging: the payload, and its length in the count. *)
Lemma staged_payload m buf count payload two i :
  0 ≤ i < len payload → ¬ (count ≤ buf + 28 + i < count + len two) →
  mem_after m (staging buf count payload two) (buf + 28 + i) = byte_at payload (Z.to_nat i).
Proof.
  intros Hi Hc. unfold staging. rewrite mem_after_app. unfold IP_UDP_HDR_LEN.
  cbn [mem_after foldl]. unfold mem_write at 1. cbn [fst snd].
  destruct (Z.leb_spec count (buf + 28 + i)), (Z.ltb_spec (buf + 28 + i) (count + len two));
    cbn [andb]; try (exfalso; lia); rewrite mem_after_blocks, (proj2 (Z.leb_le _ _)), (proj2 (Z.ltb_lt _ _)) by lia;
    cbn [andb]; do 2 f_equal; lia.
Qed.

Lemma staged_count m buf count payload two i :
  0 ≤ i < len two → mem_after m (staging buf count payload two) (count + i) = byte_at two (Z.to_nat i).
Proof.
  intros Hi. unfold staging. rewrite mem_after_app. cbn [mem_after foldl]. unfold mem_write at 1. cbn [fst snd].
  rewrite (proj2 (Z.leb_le _ _)), (proj2 (Z.ltb_lt _ _)) by lia. cbn [andb]. do 2 f_equal. lia.
Qed.

Section dma.
Context {W : Type} `{!Transport W}.
Abbreviation M := (eff (input_state W) input_error).

(** Only the writes of an outcome that returned. *)
Definition returns {A} (m : M A) (Q : A → list access → Prop) : Prop :=
  ∀ s a s', m s = Ret a s' → ∃ tr, i_log s' = i_log s ++ tr ∧ Q a tr.

Lemma returns_bind {A B} (m : M A) (f : A → M B) R (Q : B → list access → Prop) :
  returns m R → (∀ a tr, R a tr → returns (f a) (λ b tr', Q b (tr ++ tr'))) → returns (m ≫= f) Q.
Proof.
  intros Hm Hf s b s'. rewrite run_bind. destruct (m s) as [a s1|] eqn:Ha; [|done]. intros Hb.
  destruct (Hm s a s1 Ha) as (tr & Hl & HR). destruct (Hf a tr HR s1 b s' Hb) as (tr' & Hl' & HQ).
  exists (tr ++ tr'). by rewrite Hl', Hl, app_assoc.
Qed.

Lemma returns_ret {A} (a : A) (Q : A → list access → Prop) : Q a [] → returns (mret a) Q.
Proof. intros HQ s a' s' [= <- <-]. exists []. by rewrite app_nil_r. Qed.

Lemma returns_raise {A} e (Q : A → list access → Prop) : returns (raise e) Q.
Proof. by intros s a s'. Qed.

Lemma returns_conseq {A} (m : M A) (Q R : A → list access → Prop) :
  returns m R → (∀ a tr, R a tr → Q a tr) → returns m Q.
Proof. intros Hm HQ s a s' Ha. destruct (Hm s a s' Ha) as (tr & ? & ?). eauto. Qed.

Lemma returns_proto {A} (m : M A) (Q : A → queue → list access → Prop) :
  proto idle m Q → returns m (λ a tr, ∃ q, queue_run Unknown tr = Some q ∧ Q a q tr).
Proof.
  intros Hm s a s' Ha. specialize (Hm s Unknown (or_introl eq_refl)). rewrite Ha in Hm.
  destruct Hm as (tr & q & ? & ? & ?). eauto.
Qed.

Lemma write_returns addr l : returns (write_memory (W:=W) addr l) (λ _ tr, tr = [IWrite addr l]).
Proof.
  intros s u s'. unfold write_memory. destruct (tr_write _ _ _); [|done]. intros [= <- <-]. by eexists.
Qed.

Lemma write_blocks_returns addr chunks :
  returns (write_blocks (W:=W) addr chunks) (λ _ tr, tr = as_writes (block_writes addr chunks)).
Proof.
  revert addr. induction chunks as [|c chunks IH]; intros addr; cbn [write_blocks]; [by apply returns_ret|].
  eapply returns_bind; [apply write_returns|]. intros _ tr ->.
  eapply returns_conseq; [apply IH|]. by intros _ tr ->.
Qed.

Lemma label_returns L name : returns (label (W:=W) L name) (λ v tr, assoc name L = Some v ∧ tr = []).
Proof. unfold label. destruct (assoc name L); [by apply returns_ret|apply returns_raise]. Qed.

Lemma sleep_returns ms : returns (sleep_ms (W:=W) ms) (λ _ tr, tr = []).
Proof. intros s u s' [= <- <-]. exists []. by rewrite app_nil_r. Qed.
End dma.

(** ** Polling ends *)

(** A clock under which no deadline is further away than a number of pauses: reading does not
    move it back, every pause moves it on, and the transport does not report running out of
    fuel, which is the model's own outcome. *)
Class Clock W `{!Transport W} := {
  pauses : spec_float → W → nat;
  pauses_now : ∀ d w, (pauses d (tr_now w).2 ≤ pauses d w)%nat;
  pauses_before : ∀ d w, flt (tr_now w).1 d = true → (0 < pauses d (tr_now w).2)%nat;
  pauses_read : ∀ d w a n l w', tr_read a n w = Ret l w' → (pauses d w' ≤ pauses d w)%nat;
  pauses_sleep : ∀ d w ms, 0 < ms → (pauses d (tr_sleep ms w) ≤ pred (pauses d w))%nat;
  read_fails : ∀ w a n w', tr_read a n w ≠ Raise OutOfFuel w';
  write_fails : ∀ w a l w', tr_write a l w ≠ Raise OutOfFuel w';
}.

Definition fuel_error (e : input_error) : bool :=
  match e with OutOfFuel => true | _ => false end.
Abbreviation in_fuel := (in_fuel fuel_error).
Abbreviation settles := (settles fuel_error).

Section clock.
Context {W : Type} `{!Transport W, !Clock W}.
Abbreviation M := (eff (input_state W) input_error).

Lemma settles_now {B} (f : nat → spec_float → M B) :
  (∀ t, settles (λ fuel, f fuel t)) → settles (λ fuel, monotonic ≫= f fuel).
Proof.
  apply settles_then. intros s. unfold monotonic. by destruct (tr_now (i_world s)).
Qed.

Lemma settles_sleep {B} ms (f : nat → unit → M B) :
  (∀ u, settles (λ fuel, f fuel u)) → settles (λ fuel, sleep_ms ms ≫= f fuel).
Proof. by apply settles_then. Qed.

Lemma write_in_fuel addr l s : in_fuel (write_memory addr l s).
Proof.
  unfold write_memory. destruct (tr_write addr l (i_world s)) as [|e w] eqn:Hw; [done|].
  destruct e; try done. by apply write_fails in Hw.
Qed.

Lemma settles_write {B} addr l (f : nat → unit → M B) :
  (∀ u, settles (λ fuel, f fuel u)) → settles (λ fuel, write_memory addr l ≫= f fuel).
Proof. apply settles_then, write_in_fuel. Qed.

Lemma poll_settles deadline addr test pause :
  0 < pause → settles (λ fuel, poll (W:=W) fuel deadline addr test pause).
Proof.
  intros Hpause s. remember (pauses deadline (i_world s)) as k eqn:Hk.
  assert (Hle : (pauses deadline (i_world s) ≤ k)%nat) by lia. clear Hk.
  revert s Hle. induction k as [|k IH]; intros s Hle.
  all: pose proof (pauses_now deadline (i_world s)) as Hnow;
    pose proof (pauses_before deadline (i_world s)) as Hbefore;
    destruct (tr_now (i_world s)) as [t w] eqn:Ht; cbn [fst snd] in *.
  - exists 1%nat, (Ret false (InputState w (i_log s))). split; [done|].
    intros [|fuel] ?; [lia|]. cbn [poll]. rewrite run_bind. unfold monotonic. rewrite Ht.
    destruct (flt t deadline); [|done]. specialize (Hbefore eq_refl). lia.
  - destruct (flt t deadline) eqn:Hlt.
    2:{ exists 1%nat, (Ret false (InputState w (i_log s))). split; [done|].
        intros [|fuel] ?; [lia|]. cbn [poll]. rewrite run_bind. unfold monotonic. by rewrite Ht, Hlt. }
    destruct (peek addr (InputState w (i_log s))) as [v s1|e s1] eqn:Hp.
    + destruct (test v) eqn:Htest.
      { exists 1%nat, (Ret true s1). split; [done|]. intros [|fuel] ?; [lia|]. cbn [poll].
        rewrite run_bind. unfold monotonic. rewrite Ht, Hlt. cbn [negb]. by rewrite run_bind, Hp, Htest. }
      destruct (IH (InputState (tr_sleep pause (i_world s1)) (i_log s1))) as (n & o & Ho & Hn).
      { cbn [i_world]. pose proof (pauses_sleep deadline (i_world s1) pause Hpause).
        unfold peek, read_memory in Hp. rewrite run_bind in Hp. cbn [i_world i_log] in Hp.
        destruct (tr_read addr 1 w) as [l w'|] eqn:Hr; [|done]. apply (pauses_read deadline) in Hr.
        destruct l as [|v' l]; [done|]. injection Hp as <- <-. cbn [i_world] in *. lia. }
      exists (S n), o. split; [done|]. intros [|fuel] ?; [lia|]. cbn [poll].
      rewrite run_bind. unfold monotonic. rewrite Ht, Hlt. cbn [negb].
      rewrite run_bind, Hp, Htest. rewrite run_bind. apply Hn. lia.
    + exists 1%nat, (Raise e s1). split.
      { unfold peek, read_memory in Hp. rewrite run_bind in Hp. cbn [i_world i_log] in Hp.
        destruct (tr_read addr 1 w) as [[|v l] w'|e' w'] eqn:Hr; try done.
        - by injection Hp as <- <-.
        - injection Hp as <- <-. destruct e'; try done. by apply read_fails in Hr. }
      intros [|fuel] ?; [lia|]. cbn [poll].
      rewrite run_bind. unfold monotonic. rewrite Ht, Hlt. cbn [negb]. by rewrite run_bind, Hp.
Qed.
End clock.

(** ** The operations *)

Section operations.
Context {W : Type} `{!Transport W}.
Abbreviation M := (eff (input_state W) input_error).

(** What a message staged by DMA did, when it was sent. *)
Definition dma_sent (text : string) (L : list (string * Z)) (tr : list access) : Prop :=
  let payload := encode_replace (upper text) in
  ∃ tr1 tr2 buf count two,
    assoc "ip_packet_buf" L = Some buf ∧ assoc "msg_input_len" L = Some count ∧
    to_le 2 (len payload) = Some two ∧
    tr = tr1 ++ as_writes (staging buf count payload two) ++ tr2 ∧
    queue_run Unknown tr1 = Some Empty ∧ writes tr1 = enqueued [KEY_M] ∧
    queue_run Unknown tr2 = Some Empty ∧ writes tr2 = enqueued [KEY_RETURN].

Lemma press_key_returns fuel key timeout :
  returns (press_key (W:=W) fuel key timeout)
    (λ b tr, b = true → queue_run Unknown tr = Some Empty ∧ writes tr = enqueued [key]).
Proof.
  eapply returns_conseq; [apply returns_proto, press_key_proto|].
  intros b tr (q & Hq & _ & Hw & He) ->. rewrite (He eq_refl) in Hq. split; [done|].
  by destruct Hw as [[_ ?]|].
Qed.

Lemma wait_drained_returns fuel timeout :
  returns (wait_drained (W:=W) fuel timeout)
    (λ b tr, b = true → writes tr = [] ∧ ∀ q, idle q → queue_run q tr = Some Empty).
Proof.
  intros s b s' Hr. pose proof (wait_drained_proto fuel timeout s) as Hp. rewrite Hr in Hp.
  destruct (Hp Unknown (or_introl eq_refl)) as (tr & q & Hl & Hq & _ & Hw & Hb). exists tr.
  split; [done|]. intros ->. destruct (Hb eq_refl) as [-> _]. split; [done|]. intros q' Hq'.
  destruct (Hp q' Hq') as (tr' & q'' & Hl' & Hq'' & _ & _ & Hb'). destruct (Hb' eq_refl) as [-> _].
  rewrite Hl in Hl'. apply app_inv_head in Hl'. by subst.
Qed.

Lemma send_message_dma_returns fuel input_max text L timeout :
  returns (send_message_dma (W:=W) fuel input_max text L timeout)
    (λ b tr, b = true → dma_sent text L tr).
Proof.
  unfold send_message_dma, dma_sent. set (payload := encode_replace (upper text)).
  destruct (_ <? _); [apply returns_raise|].
  eapply returns_bind; [apply press_key_returns|]. intros b tr1 H1.
  destruct b; cbn [negb]; [|by apply returns_ret]. destruct (H1 eq_refl) as [Hq1 Hw1]. clear H1.
  eapply returns_bind; [apply wait_drained_returns|]. intros b tr1' H1.
  destruct b; cbn [negb]; [|by apply returns_ret]. destruct (H1 eq_refl) as [Hw1' Hq1']. clear H1.
  eapply returns_bind; [apply sleep_returns|]. intros _ ? ->.
  eapply returns_bind; [apply label_returns|]. intros buf ? [Hbuf ->].
  eapply returns_bind; [apply write_blocks_returns|]. intros _ trs ->.
  eapply returns_bind; [apply label_returns|]. intros count ? [Hcount ->].
  destruct (to_le 2 (len payload)) as [two|] eqn:Htwo; [|apply returns_raise].
  eapply returns_bind; [apply write_returns|]. intros _ ? ->.
  eapply returns_conseq; [apply press_key_returns|]. intros b tr2 H2 Hb.
  destruct (H2 Hb) as [Hq2 Hw2]. exists (tr1 ++ tr1'), tr2, buf, count, two.
  split_and!; [done..| | | |done|done].
  - unfold staging, as_writes. rewrite fmap_app. cbn. by rewrite <- !app_assoc.
  - rewrite run_log_app, Hq1. apply Hq1'. by right.
  - by rewrite writes_app, Hw1, Hw1', app_nil_r.
Qed.

(** A renewed session: H pressed, the state seen to leave the active one, and seen back in it. *)
Definition renewed (addr active : Z) (tr : list access) : Prop :=
  ∃ tr1 tr2 tr3, tr = tr1 ++ tr2 ++ tr3 ∧
    queue_run Unknown tr1 = Some Empty ∧ writes tr1 = enqueued [KEY_H] ∧
    writes tr2 = [] ∧ saw addr (λ b, negb (b =? active)) tr2 ∧
    writes tr3 = [] ∧ saw addr (λ b, b =? active) tr3.

Lemma poll_for_returns fuel timeout addr test pause :
  returns (poll_for (W:=W) fuel timeout addr test pause)
    (λ b tr, b = true → writes tr = [] ∧ saw addr test tr).
Proof.
  eapply returns_conseq; [apply returns_proto, poll_for_proto|].
  intros b tr (q & _ & _ & Hw & Hs) Hb. by destruct (Hs Hb).
Qed.

Lemma now_returns : returns (monotonic (W:=W)) (λ _ tr, tr = []).
Proof.
  intros s t s'. unfold monotonic. destruct (tr_now _). intros [= <- <-]. exists [].
  by rewrite app_nil_r.
Qed.

Lemma rekey_returns fuel addr active timeout :
  returns (rekey (W:=W) fuel addr active timeout) (λ b tr, b = true → renewed addr active tr).
Proof.
  unfold rekey. eapply returns_bind; [apply press_key_returns|]. intros b tr1 H1.
  destruct b; cbn [negb]; [|by apply returns_ret]. destruct (H1 eq_refl) as [Hq1 Hw1]. clear H1.
  eapply returns_bind; [apply now_returns|]. intros t ? ->.
  eapply returns_bind; [apply poll_for_returns|]. intros b tr2 H2.
  destruct b; cbn [negb]; [|by apply returns_ret]. destruct (H2 eq_refl) as [Hw2 Hs2]. clear H2.
  eapply returns_bind; [apply now_returns|]. intros t' ? ->.
  eapply returns_conseq; [apply poll_for_returns|]. intros b tr3 H3 Hb.
  destruct (H3 Hb) as [Hw3 Hs3]. exists tr1, tr2, tr3. by split_and!.
Qed.

Context `{!Clock W}.

Lemma poll_for_settles timeout addr test pause :
  0 < pause → settles (λ fuel, poll_for (W:=W) fuel timeout addr test pause).
Proof. intros Hp. apply settles_now. intros t. by apply poll_settles. Qed.

Lemma wait_drained_settles timeout : settles (λ fuel, wait_drained (W:=W) fuel timeout).
Proof. by apply poll_for_settles. Qed.

Lemma enqueue_settles {B} chunk (f : nat → unit → M B) :
  (∀ u, settles (λ fuel, f fuel u)) → settles (λ fuel, enqueue chunk ≫= f fuel).
Proof.
  intros Hf. apply settles_then; [|done]. intros s. unfold enqueue. rewrite run_bind.
  pose proof (write_in_fuel KBD_BUFFER chunk s).
  destruct (write_memory KBD_BUFFER chunk s); [apply write_in_fuel|done].
Qed.

Lemma press_key_settles key timeout : settles (λ fuel, press_key (W:=W) fuel key timeout).
Proof.
  apply settles_guard; [apply wait_drained_settles|]. destruct (negb _); [by apply settles_const|].
  apply enqueue_settles. intros _. apply wait_drained_settles.
Qed.

Lemma type_text_settles text timeout : settles (λ fuel, type_text (W:=W) fuel text timeout).
Proof.
  unfold type_text. generalize (blocks KBD_MAX (encode_replace text)). intros chunks.
  induction chunks as [|c chunks IH]; cbn [type_chunks]; [apply wait_drained_settles|].
  apply settles_guard; [apply wait_drained_settles|]. by apply enqueue_settles.
Qed.

Lemma send_message_settles input_max text timeout :
  settles (λ fuel, send_message (W:=W) fuel input_max text timeout).
Proof.
  apply settles_guard; [apply press_key_settles|]. apply settles_sleep. intros _.
  apply settles_guard; [apply type_text_settles|]. apply press_key_settles.
Qed.

Lemma write_blocks_in_fuel addr chunks s : in_fuel (write_blocks (W:=W) addr chunks s).
Proof.
  revert addr s. induction chunks as [|c chunks IH]; intros addr s; [done|]. cbn [write_blocks].
  rewrite run_bind. pose proof (write_in_fuel addr c s).
  by destruct (write_memory addr c s).
Qed.

Lemma settles_label {B} L name (f : nat → Z → M B) :
  (∀ v, settles (λ fuel, f fuel v)) → settles (λ fuel, label L name ≫= f fuel).
Proof.
  apply settles_then.
  intros s. unfold label. by destruct (assoc name L).
Qed.

Lemma send_message_dma_settles input_max text L timeout :
  settles (λ fuel, send_message_dma (W:=W) fuel input_max text L timeout).
Proof.
  unfold send_message_dma. destruct (_ <? _); [by apply settles_const|].
  apply settles_guard; [apply press_key_settles|].
  apply settles_guard; [apply wait_drained_settles|]. apply settles_sleep. intros _.
  apply settles_label. intros buf.
  apply settles_then; [apply write_blocks_in_fuel|].
  intros _. apply settles_label. intros count. destruct (to_le 2 _); [|by apply settles_const].
  apply settles_write. intros _. apply press_key_settles.
Qed.

Lemma rekey_settles addr active timeout : settles (λ fuel, rekey (W:=W) fuel addr active timeout).
Proof.
  apply settles_guard; [apply press_key_settles|]. apply settles_now. intros t.
  apply settles_guard; [by apply poll_for_settles|]. apply settles_now. intros t'.
  by apply poll_for_settles.
Qed.
End operations.

(** ** A machine that eats its keys *)

(** Memory and the pauses so far; a pause empties the queue, and the clock runs out after a
    hundred of them. *)
Record toy := Toy { toy_mem : Z → Z; toy_pauses : nat }.

#[export] Instance toy_transport : Transport toy := {|
  tr_read addr n w := Ret ((λ i, toy_mem w (addr + Z.of_nat i)) <$> seq 0 (Z.to_nat n)) w;
  tr_write addr l w := Ret tt (Toy (mem_write (toy_mem w) (addr, l)) (toy_pauses w));
  tr_now w := (if (toy_pauses w <? 100)%nat then S754_zero false else S754_infinity false, w);
  tr_sleep ms w := Toy (mem_write (toy_mem w) (KBD_COUNT, [0])) (S (toy_pauses w));
|}.

#[export] Instance toy_clock : Clock toy.
Proof.
  refine {| pauses _ w := (100 - toy_pauses w)%nat |}.
  - done.
  - intros d w. cbn [tr_now toy_transport fst snd]. destruct (Nat.ltb_spec (toy_pauses w) 100); [lia|].
    by destruct d as [[]|[]| |[] ? ?].
  - by intros d w a n l w' [= _ <-].
  - intros d w ms _. cbn [tr_sleep toy_transport toy_pauses]. lia.
  - done.
  - done.
Defined.

Definition toy_start : input_state toy := InputState (Toy (λ _, 0) 0) [].
Definition toy_labels : list (string * Z) :=
  [("ip_packet_buf", 0x9000); ("ip_pkt_len", 0x9384); ("msg_input_len", 0x9400)].

Example toy_types :
  match send_message 200 832 "Hello there, C64" (seconds_of 30) toy_start with
  | Ret b s => b = true ∧ typed_bytes (writes (i_log s)) = [77] ++ encode_replace "HELLO THERE, C64" ++ [13]
  | Raise _ _ => False
  end.
Proof. vm_compute. done. Qed.

Module Keyboard.

(** C17. Every access of [press_key], [type_text] and [send_message] keeps the protocol of the
    KERNAL's keyboard queue, from whatever state and over whatever transport: bytes are put into
    the buffer only when the last look at the count showed zero, at most ten of them, and the next
    access announces exactly their number; nothing else is written.  When they return True the
    queue was seen empty at the end and the bytes typed are exactly the key, the text with
    non-ASCII characters as [?], or the key M, the text in upper case cut to the limit, and RETURN. *)
Theorem typing_protocol {W} `{!Transport W} fuel key input_max text timeout (s : input_state W) :
  Forall (λ '(o, sent), ∃ tr q, log_after o = i_log s ++ tr ∧ queue_run Unknown tr = Some q ∧
            (∀ s', o = Ret true s' → q = Empty ∧ typed_bytes (writes tr) = sent))
    [(press_key fuel key timeout s, [key]);
     (type_text fuel text timeout s, encode_replace text);
     (send_message fuel input_max text timeout s, message_bytes input_max text)].
Proof.
  assert (Hgen : ∀ (m : eff (input_state W) input_error bool) sent,
    proto idle m (λ b q tr, b = true → q = Empty ∧ typed_bytes (writes tr) = sent) →
    ∃ tr q, log_after (m s) = i_log s ++ tr ∧ queue_run Unknown tr = Some q ∧
      (∀ s', m s = Ret true s' → q = Empty ∧ typed_bytes (writes tr) = sent)).
  { intros m sent Hm. specialize (Hm s Unknown (or_introl eq_refl)). destruct (m s) as [b s'|e s'].
    - destruct Hm as (tr & q & ? & ? & HQ). exists tr, q. split_and!; [done..|].
      intros s'' [= -> _]. by apply HQ.
    - destruct Hm as (tr & q & ? & ?). by exists tr, q. }
  repeat constructor; apply Hgen; [| |apply send_message_proto].
  - eapply obeys_conseq; [apply press_key_proto|done|]. intros b q tr (_ & Hw & He) Hb.
    split; [by apply He|]. destruct Hw as [[_ ?]| ->]; [congruence|]. done.
  - eapply obeys_conseq; [apply type_text_proto|done|]. by intros b q tr (_ & _ & H).
Qed.

(** [send_message_dma] makes no access at all when the text is longer than the loaded build's
    limit, which it reports.  When it returns True, M was typed and consumed, then exactly the
    staging was written, then RETURN was typed and consumed, each key by the queue's protocol;
    and the staging leaves the whole text 28 bytes into the packet buffer (where the count does
    not overlap it) and its length, low byte first, in the count. *)
Theorem dma_message_staged {W} `{!Transport W} fuel input_max text L timeout (s : input_state W) :
  let payload := encode_replace (upper text) in
  let limit := input_max_from_labels input_max L in
  if limit <? len payload
  then send_message_dma fuel input_max text L timeout s = Raise (TooLong (len payload) limit) s
  else ∀ s', send_message_dma fuel input_max text L timeout s = Ret true s' →
    (∃ tr, i_log s' = i_log s ++ tr ∧ dma_sent text L tr) ∧
    (∀ m buf count two, to_le 2 (len payload) = Some two →
       let m' := mem_after m (staging buf count payload two) in
       (∀ i, 0 ≤ i < len payload → ¬ (count ≤ buf + 28 + i < count + 2) →
             m' (buf + 28 + i) = byte_at payload (Z.to_nat i)) ∧
       m' count + 256 * m' (count + 1) = len payload).
Proof.
  cbv zeta. destruct (_ <? _) eqn:Hlen.
  { unfold send_message_dma. by rewrite Hlen. }
  intros s' Hs'. split.
  - destruct (send_message_dma_returns _ _ _ _ _ _ _ _ Hs') as (tr & Hl & H). eauto.
  - intros m buf count two Htwo. destruct (from_le_to_le _ _ _ Htwo) as (Hle & H2 & _).
    assert (len two = 2) as Hl2 by (unfold len; lia). split.
    + intros i Hi Hc. apply staged_payload; [done|by rewrite Hl2].
    + pose proof (staged_count m buf count (encode_replace (upper text)) two 0) as H0.
      pose proof (staged_count m buf count (encode_replace (upper text)) two 1) as H1.
      rewrite Z.add_0_r in H0. rewrite H0, H1 by lia. rewrite <- Hle.
      destruct two as [|a [|b [|]]]; try done. cbn [from_le]. change (a + 256 * b = a + 256 * (b + 256 * 0)). lia.
Qed.

(** When [rekey] returns True, H was typed and consumed, after that the session's state was
    read as something other than the active value, and after that it was read as the active
    value: the session seen is a new one, not the one that was there before. *)
Theorem rekey_sees_new_session {W} `{!Transport W} fuel addr active timeout (s : input_state W) :
  match rekey fuel addr active timeout s with
  | Ret true s' => ∃ tr, i_log s' = i_log s ++ tr ∧ renewed addr active tr
  | _ => True
  end.
Proof.
  destruct (rekey _ _ _ _ _) as [[]|] eqn:Hr; try done.
  destruct (rekey_returns _ _ _ _ _ _ _ Hr) as (tr & Hl & H). eauto.
Qed.

(** Under a clock that moves on with every pause, every one of these operations ends: from
    any state there is an amount of fuel from which on the outcome is the same, and it is not
    running out. *)
Theorem keyboard_settles {W} `{!Transport W, !Clock W} key input_max text L addr active timeout :
  Forall settles
    [(λ fuel, press_key (W:=W) fuel key timeout); (λ fuel, type_text fuel text timeout);
     (λ fuel, send_message fuel input_max text timeout);
     (λ fuel, send_message_dma fuel input_max text L timeout);
     (λ fuel, wait_for_state fuel addr active timeout);
     (λ fuel, wait_while_state fuel addr active timeout);
     (λ fuel, rekey fuel addr active timeout)].
Proof.
  repeat constructor; [apply press_key_settles|apply type_text_settles|apply send_message_settles|
    apply send_message_dma_settles|by apply poll_for_settles|by apply poll_for_settles|
    apply rekey_settles].
Qed.

Lemma keyboard_settles_witness : settles (λ fuel, rekey (W:=toy) fuel 0x9500 2 (seconds_of 420)).
Proof.
  pose proof (keyboard_settles (W:=toy) 72 832 "HI" toy_labels 0x9500 2 (seconds_of 420)) as H.
  do 6 apply Forall_inv_tail in H. exact (Forall_inv H).
Defined.
End Keyboard.
