(* ===== verification/Gate.v ===== *)
(** * The regression gate (tools/run_regression.py)

    The pool of suites, the serial suites behind it, the deadline every suite has, the restore
    of the build tree and the gate's verdict.  The operating system is the class [GateHost];
    a log records the starts and the ends of the suites and the commands that were run.  The
    polling loops get fuel, and running out of it is an error of its own. *)

From S2P Require Export PyRegex PyDict.

(** A suite: its name and the arguments of [python3]. *)
Definition suite : Type := string * list string.

Definition TESTS : list suite :=
  [("suite_imports", ["tools/test_suite_imports.py"]);
   ("gate_self", ["tools/run_regression.py"; "--self-check"]);
   ("u64_firmware", ["tools/test_u64_firmware.py"; "--verbose"]);
   ("net_families", ["tools/test_net_families_drift.py"]);
   ("session", ["tools/test_session.py"; "--seed"; "51820"; "--verbose"]);
   ("transport", ["tools/test_transport.py"; "--seed"; "7539"]);
   ("aead_status", ["tools/test_aead_encrypt_status_checked.py"; "--seed"; "7539"]);
   ("tp_refusal", ["tools/test_transport_refusal_convention.py"; "--seed"; "424242"]);
   ("blake2s", ["tools/test_blake2s.py"; "--seed"; "7539"]);
   ("chacha", ["tools/test_chacha20_poly1305.py"; "--seed"; "7539"]);
   ("fe25519", ["tools/test_fe25519.py"; "--seed"; "7539"]);
   ("networking", ["tools/test_networking.py"; "--seed"; "7539"]);
   ("handshake", ["tools/test_handshake.py"; "--seed"; "7539"]);
   ("phase7", ["tools/test_phase7.py"; "--seed"; "7"]);
   ("disk_config", ["tools/test_disk_config.py"; "--seed"; "7"]);
   ("phase8_psk", ["tools/test_phase8_psk.py"; "--seed"; "7"]);
   ("mtu", ["tools/test_mtu.py"; "--seed"; "1500"]);
   ("tai64n", ["tools/test_tai64n.py"; "--verbose"]);
   ("mac2", ["tools/test_mac2_integration.py"; "--verbose"]);
   ("blake2s_keylen", ["tools/test_blake2s_keylen_regression.py"]);
   ("replay_window", ["tools/test_replay_window.py"]);
   ("key_rotation", ["tools/test_key_rotation.py"]);
   ("endpoint_update", ["tools/test_endpoint_update.py"]);
   ("type2_slow", ["tools/test_type2_slow.py"]);
   ("hs_recovery", ["tools/test_issue_95_handshake_recovery.py"]);
   ("entropy_seed", ["tools/test_entropy_seed.py"]);
   ("live_seams", ["tools/test_live_tool_seams.py"]);
   ("wire_control", ["tools/test_wire_encryption_control.py"]);
   ("teardown", ["tools/test_device_teardown.py"]);
   ("wire_enc_arm", ["tools/test_wire_encryption_defaults.py"]);
   ("cold_init_seam", ["tools/test_cold_init_seam.py"]);
   ("cold_reclaim", ["tools/test_cold_segment_reclaim.py"]);
   ("issue_94", ["tools/test_issue_94_95_adversarial.py"]);
   ("tai64n_monotonic", ["tools/test_tai64n_monotonic.py"; "--verbose"]);
   ("responder_ts", ["tools/test_wg_responder_timestamp.py"]);
   ("petscii_ctrl", ["tools/test_issue_129_petscii_control.py"]);
   ("msg_port", ["tools/test_msg_port_default.py"]);
   ("warp_instrument", ["tools/test_warp_instrument_unit.py"]);
   ("ip65_hw_checks", ["tools/test_ip65_hw_checks_unit.py"]);
   ("ip65_hw_checks_mutation", ["tools/test_ip65_hw_checks_unit.py"; "--self-check"]);
   ("warp_instrument_vice", ["tools/test_warp_instrument_vice.py"]);
   ("live_tools_wifi", ["tools/test_live_tools_wifi.py"]);
   ("warp_identity", ["tools/test_warp_identity.py"]);
   ("vice_reu", ["tools/test_vice_reu_matches_build.py"])].

Definition SERIAL_TESTS : list suite :=
  [("x25519", ["tools/test_x25519.py"]);
   ("write_bytes", ["tools/test_write_bytes_limit.py"]);
   ("uci_stub", ["tools/test_uci_backend_stub.py"]);
   ("both_backends", ["tools/test_build_both_backends.py"]);
   ("chunked_send", ["tools/test_chunked_send_boundary.py"]);
   ("multipart_split", ["tools/test_multipart_chunk_split.py"]);
   ("build_mtu1440", ["tools/test_build_mtu1440.py"]);
   ("ip65_bss_guard", ["tools/test_ip65_bss_guard.py"]);
   ("uci_short_read", ["tools/test_uci_short_read_drop.py"]);
   ("uci_status_tear", ["tools/test_uci_status_tear.py"]);
   ("uci_send_race", ["tools/test_uci_send_part_race.py"]);
   ("uci_dhcp_iface", ["tools/test_uci_dhcp_iface_probe.py"]);
   ("uci_wait_carry", ["tools/test_uci_wait_carry_drain_ack.py"])].

Definition MAX_PARALLEL : nat := 5.
Definition STAGGER_MS : Z := 2000.
Definition POLL_MS : Z := 1000.
Definition SUITE_TIMEOUT : Z := 1800.

(** ** The operating system *)

Inductive gate_error :=
| NoFuel
| OSFailure (what : string).

(** A process and its log file, as numbers. *)
Record handles := Handles { h_proc : Z; h_log : Z }.

(** What the commands of [subprocess.run] leave behind. *)
Record completed := Completed { c_rc : Z; c_stdout : string; c_stderr : string }.

(** [gh_popen] starts a suite with its output in a temporary file, with or without
    [C64_SKIP_BUILD]; [gh_wait] says whether the process was collected in time; [gh_read] gives
    the file's text, or the representation of the exception; [gh_remove] swallows its [OSError];
    [gh_now] is [time.monotonic()] in milliseconds, its rounding left out. *)
Class GateHost (W : Type) := {
  gh_popen : suite → bool → eff W gate_error handles;
  gh_poll : Z → W → option Z * W;
  gh_kill : Z → W → W;
  gh_wait : Z → Z → W → bool * W;
  gh_read : Z → W → res string string * W;
  gh_remove : Z → W → W;
  gh_now : W → Z * W;
  gh_sleep : Z → W → W;
  gh_run : list string → eff W gate_error completed;
  gh_exists : string → W → bool * W;
  gh_read_file : string → W → option string * W;
  gh_sha256 : string → W → option (string * Z) * W;
}.

(** How a suite ended. *)
Inductive ending := Exited (rc : Z) | Killed.
#[export] Instance ending_eq_dec : EqDecision ending.
Proof. solve_decision. Defined.

Inductive gate_event :=
| Launched (name : string) (skip_build : bool)
| Ended (name : string) (how : ending)
| Ran (cmd : list string) (rc : Z)
| Found (path : string) (there : bool).

Record gate_state (W : Type) := GateState { g_world : W; g_log : list gate_event }.
Arguments GateState {W} g_world g_log.
Arguments g_world {W} s : rename.
Arguments g_log {W} s : rename.

(** An entry of [running]. *)
Record slot := Slot { sl_name : string; sl_handles : handles; sl_started : Z }.

(** [results]: exit code and output by name, in the order of the first result. *)
Definition results_t : Type := list (string * (Z * string)).

Section gate.
Context {W : Type} `{!GateHost W}.
Abbreviation M := (eff (gate_state W) gate_error).

(** An operation of the system that returns. *)
Definition sys {A} (f : W → A * W) : M A := λ s,
  let '(a, w) := f (g_world s) in Ret a (GateState w (g_log s)).
Definition sys_do (f : W → W) : M unit := λ s, Ret tt (GateState (f (g_world s)) (g_log s)).
Definition sys_eff {A} (m : eff W gate_error A) : M A := λ s,
  match m (g_world s) with
  | Ret a w => Ret a (GateState w (g_log s))
  | Raise e w => Raise e (GateState w (g_log s))
  end.
Definition note (e : gate_event) : M unit := λ s, Ret tt (GateState (g_world s) (g_log s ++ [e])).

(** ** A suite *)

(** [launch], and the entry the caller makes of it. *)
Definition launch (s : suite) (skip_build : bool) : M slot :=
  h ← sys_eff (gh_popen s skip_build);
  note (Launched s.1 skip_build);;
  t ← sys gh_now;
  mret (Slot s.1 h t).

Definition drain (fh : Z) : M string :=
  text ← sys (gh_read fh);
  sys_do (gh_remove fh);;
  mret (match text with
        | Ok out => out
        | Err what => "(could not read suite log: " +:+ what +:+ ")"
        end).

Definition killed_note (timeout : Z) : string :=
  line_of "" +:+ line_of "" +:+ line_of ("*** KILLED: exceeded SUITE_TIMEOUT (" +:+ dec timeout
    +:+ "s). A suite that had to be killed has not passed. ***").

(** [elapsed > timeout] *)
Definition over (timeout : option Z) (started now : Z) : bool :=
  match timeout with
  | None => false
  | Some limit => limit * 1000 <? now - started
  end.

Fixpoint reap (running : list slot) (results : results_t) (timeout : option Z) :
    M (list slot * results_t) :=
  match running with
  | [] => mret ([], results)
  | sl :: rest =>
      rc ← sys (gh_poll (h_proc (sl_handles sl)));
      now ← sys gh_now;
      if bool_decide (rc = None) && over timeout (sl_started sl) now then
        sys_do (gh_kill (h_proc (sl_handles sl)));;
        _ ← sys (gh_wait (h_proc (sl_handles sl)) 10);
        out ← drain (h_log (sl_handles sl));
        note (Ended (sl_name sl) Killed);;
        reap rest (dict_set (sl_name sl) (-1, out +:+ killed_note (default 0 timeout)) results) timeout
      else
        match rc with
        | None =>
            r ← reap rest results timeout;
            mret (sl :: r.1, r.2)
        | Some rc =>
            out ← drain (h_log (sl_handles sl));
            note (Ended (sl_name sl) (Exited rc));;
            reap rest (dict_set (sl_name sl) (rc, out) results) timeout
        end
  end.

(** ** The pool *)

(** [while pending and len(running) < MAX_PARALLEL] *)
Fixpoint fill (pending : list suite) (running : list slot) : M (list suite * list slot) :=
  match pending with
  | [] => mret ([], running)
  | s :: rest =>
      if (length running <? MAX_PARALLEL)%nat then
        sl ← launch s true;
        sys_do (gh_sleep STAGGER_MS);;
        fill rest (running ++ [sl])
      else mret (pending, running)
  end.

(** [if running: time.sleep(POLL_SECONDS)] *)
Definition pause (running : list slot) : M unit :=
  match running with [] => mret tt | _ => sys_do (gh_sleep POLL_MS) end.

Fixpoint pool (fuel : nat) (pending : list suite) (running : list slot) (results : results_t) :
    M results_t :=
  match fuel with
  | O => raise NoFuel
  | S fuel =>
      match pending, running with
      | [], [] => mret results
      | _, _ =>
          r ← reap running results (Some SUITE_TIMEOUT);
          p ← fill pending r.1;
          pause p.2;;
          pool fuel p.1 p.2 r.2
      end
  end.

(** ** The serial suites *)

Fixpoint wait_one (fuel : nat) (running : list slot) (results : results_t) : M results_t :=
  match fuel with
  | O => raise NoFuel
  | S fuel =>
      match running with
      | [] => mret results
      | _ =>
          r ← reap running results (Some SUITE_TIMEOUT);
          pause r.1;;
          wait_one fuel r.1 r.2
      end
  end.

Fixpoint serial (fuel : nat) (suites : list suite) (results : results_t) : M results_t :=
  match suites with
  | [] => mret results
  | s :: rest =>
      sl ← launch s false;
      results ← wait_one fuel [sl] results;
      serial fuel rest results
  end.

(** ** The build tree *)

Definition run_cmd (cmd : list string) : M completed :=
  r ← sys_eff (gh_run cmd);
  note (Ran cmd (c_rc r));;
  mret r.

Definition PRG : string := "build/wireguard.prg".
Definition LABELS : string := "build/labels.txt".

(** [(r.stderr or r.stdout or "").strip().splitlines()[-15:]], joined. *)
Definition tail_of (r : completed) : string :=
  let lines := splitlines (strip (if bool_decide (c_stderr r = "") then c_stdout r else c_stderr r)) in
  join (String newline "") (drop (length lines - 15) lines).

Definition exists_noted (path : string) : M bool :=
  there ← sys (gh_exists path);
  note (Found path there);;
  mret there.

(** [None] is a success. *)
Definition make_checked (cmd : list string) : M (option string) :=
  r ← run_cmd cmd;
  mret (if c_rc r =? 0 then None
        else Some (line_of ("  `" +:+ join " " cmd +:+ "` exited " +:+ dec (c_rc r)) +:+ tail_of r)).

Definition restore_default_build : M (option string) :=
  cleaned ← make_checked ["make"; "clean"];
  match cleaned with
  | Some why => mret (Some why)
  | None =>
      made ← make_checked ["make"];
      match made with
      | Some why => mret (Some why)
      | None =>
          there ← exists_noted PRG;
          mret (if (there : bool) then None
                else Some ("  `make` reported success but " +:+ PRG +:+ " does not exist"))
      end
  end.

(** The backend the labels name. *)
Definition backend_of (names : string) : string :=
  let has_ip65 := contains ".ip65_blob_start" names in
  let has_uci := contains ".uci_wait_idle" names in
  if has_ip65 && negb has_uci then "ip65"
  else if has_uci && negb has_ip65 then "uci" else "ambiguous".

(** The backend, the size and the digest of the build left behind; [None] when unreadable. *)
Definition describe_tree : M (option (string * Z * string)) :=
  prg ← sys (gh_sha256 PRG);
  match prg with
  | None => mret None
  | Some (sha, size) =>
      names ← sys (gh_read_file LABELS);
      mret (Some (from_option backend_of "unknown" names, size, str (take 16 (chars sha))))
  end.

(** ** The verdict *)

Definition find_line (parts : list string) (lines : list string) : list string :=
  List.filter (λ l, existsb (λ p, contains p l) parts) lines.

(** The line printed for a suite: status, name, process, summary. *)
Definition summary_line (r : string * (Z * string)) : bool * string * string * string :=
  let lines := split_on newline (strip r.2.2) in
  let pid := match find_line ["VICE PID="] lines with l :: _ => strip l | [] => "no PID info" end in
  let summary := match last (find_line ["Results:"; "All tests passed"] lines) with
                 | Some l => strip l
                 | None => from_option strip "(no output)" (last lines)
                 end in
  (r.2.1 =? 0, r.1, pid, summary).

Definition all_passed (results : results_t) : bool := forallb (λ r, r.2.1 =? 0) results.

(** [main] behind the self-check: the exit code. *)
Definition run_gate (fuel : nat) (tests serial_tests : list suite) : M Z :=
  run_cmd ["make"; "clean"];;
  built ← run_cmd ["make"];
  if negb (c_rc built =? 0) then mret 1 else
  results ← pool fuel tests [] [];
  results ← serial fuel serial_tests results;
  restore ← (match serial_tests with [] => mret None | _ => restore_default_build end);
  let all_ok := all_passed results && bool_decide (restore = None) in
  if all_ok then describe_tree;; mret 0 else mret 1.

Definition gate_main (fuel : nat) : M Z := run_gate fuel TESTS SERIAL_TESTS.

(** ** The suite counts written in the documents *)

(** [All (\d+) suites] and [must pass \((\d+) suites] *)
Definition number_between (before after : string) : rx :=
  RSeq (RLit before) (RSeq (RGroup 1 (RPlus (RChar is_digit))) (RLit after)).
Definition COUNT_CLAIMS : list (string * rx) :=
  [("README.md", number_between "All " " suites");
   ("docs/library-ingestion-architecture.md", number_between "must pass (" " suites")].

(** How many failures the counts of one document are: unreadable, no claim, or wrong numbers. *)
Definition count_failures (total : Z) (text : option string) (pat : rx) : Z :=
  match text with
  | None => 1
  | Some text =>
      match group 1 <$> finditer pat text with
      | [] => 1
      | hits => len (List.filter (λ h, negb (bool_decide (parse_int 10 h = Some total))) hits)
      end
  end.

Fixpoint check_counts (claims : list (string * rx)) (total : Z) : M Z :=
  match claims with
  | [] => mret 0
  | (path, pat) :: claims =>
      text ← sys (gh_read_file path);
      rest ← check_counts claims total;
      mret (count_failures total text pat + rest)
  end.
End gate.

Example suite_names_distinct : NoDup (TESTS ++ SERIAL_TESTS).*1.
Proof. apply (bool_decide_unpack _). by vm_compute. Qed.
Example suite_count : length (TESTS ++ SERIAL_TESTS) = 57%nat.
Proof. done. Qed.
Example count_readme :
  count_failures 57 (Some "All 57 suites. All 56 suites.") (number_between "All " " suites") = 1.
Proof. by vm_compute. Qed.
