(* ===== verification/GateThms.v ===== *)
(** * The regression gate: the properties

    An abstract pool machine, of which every run of the gate is a trace; what its states
    guarantee; when the gate passes; and that it always ends. *)

From S2P Require Export Settle Gate.
#[local] Set Warnings "-clear-no-such-hyp".

(** ** The abstract machine

    Two queues of names, the names that run, and the suites that ended, in order. *)
Record machine := Machine {
  m_pool : list string;
  m_serial : list string;
  m_active : list string;
  m_done : list (string * ending);
}.

Inductive machine_step : machine → gate_event → machine → Prop :=
| StartPool n pool ser act ended :
    (length act < MAX_PARALLEL)%nat →
    machine_step (Machine (n :: pool) ser act ended) (Launched n true)
                 (Machine pool ser (act ++ [n]) ended)
| StartSerial n ser ended :
    machine_step (Machine [] (n :: ser) [] ended) (Launched n false) (Machine [] ser [n] ended)
| Finish n how pool ser l r ended :
    machine_step (Machine pool ser (l ++ n :: r) ended) (Ended n how)
                 (Machine pool ser (l ++ r) (ended ++ [(n, how)]))
| Command cmd rc m : machine_step m (Ran cmd rc) m
| Look path there m : machine_step m (Found path there) m.

Inductive machine_run (m : machine) : list gate_event → machine → Prop :=
| RunNil : machine_run m [] m
| RunSnoc log m' e m'' :
    machine_run m log m' → machine_step m' e m'' → machine_run m (log ++ [e]) m''.

#[local] Hint Constructors machine_step machine_run : core.

Definition machine_names (m : machine) : list string :=
  m_pool m ++ m_serial m ++ m_active m ++ (m_done m).*1.

(** Nothing is lost, and nothing is started twice. *)
Lemma machine_step_names m e m' : machine_step m e m' → machine_names m' ≡ₚ machine_names m.
Proof.
  destruct 1; unfold machine_names; cbn [m_pool m_serial m_active m_done];
    rewrite ?fmap_app; cbn; solve_Permutation.
Qed.

Lemma machine_run_names m log m' : machine_run m log m' → machine_names m' ≡ₚ machine_names m.
Proof. induction 1; [done|]. etrans; [by eapply machine_step_names|done]. Qed.

(** The limit on the parallel suites is kept, and a serial suite runs alone, behind the pool. *)
Record machine_ok (serials : nat) (m : machine) : Prop := MachineOk {
  mo_limit : (length (m_active m) ≤ MAX_PARALLEL)%nat;
  mo_alone : (length (m_serial m) < serials)%nat → m_pool m = [] ∧ (length (m_active m) ≤ 1)%nat;
}.

Lemma machine_step_ok k m e m' : machine_step m e m' → machine_ok k m → machine_ok k m'.
Proof.
  intros Hs [Hl Ha]. destruct Hs; cbn [m_pool m_serial m_active m_done] in *; split;
    cbn [m_pool m_serial m_active m_done]; rewrite ?length_app in *; cbn [length] in *; try done;
    try (unfold MAX_PARALLEL in *; lia).
  - intros Hk. by destruct (Ha Hk).
  - intros Hk. destruct (Ha Hk). split; [done|lia].
Qed.

Lemma machine_run_ok k m log m' : machine_run m log m' → machine_ok k m → machine_ok k m'.
Proof. induction 1; eauto using machine_step_ok. Qed.

(** ** The gate refines it *)

Definition code_of (how : ending) : Z := match how with Exited rc => rc | Killed => -1 end.
Definition codes (results : results_t) : list (string * Z) := (λ r, (r.1, r.2.1)) <$> results.
Definition ended_codes (ended : list (string * ending)) : list (string * Z) :=
  (λ e, (e.1, code_of e.2)) <$> ended.

Lemma codes_names results ended : codes results = ended_codes ended → results.*1 = ended.*1.
Proof.
  intros Heq. apply (f_equal (fmap fst)) in Heq. unfold codes, ended_codes in Heq.
  by rewrite <- !list_fmap_compose in Heq.
Qed.

Section refine.
Context {W : Type} `{!GateHost W}.
Abbreviation M := (eff (gate_state W) gate_error).
Context (m0 : machine) (Hdistinct : NoDup (machine_names m0)).

Definition traced (log : list gate_event) : Prop := ∃ m, machine_run m0 log m.

(** The machine stands where the gate stands. *)
Definition at_ (pending ser : list suite) (running : list slot) (results : results_t)
    (log : list gate_event) : Prop :=
  ∃ ended, machine_run m0 log (Machine pending.*1 ser.*1 (sl_name <$> running) ended) ∧
           codes results = ended_codes ended.

Lemma at_traced pending ser running results log : at_ pending ser running results log → traced log.
Proof. intros (ended & H & _). by eexists. Qed.

(** From a log in [P], a return in [Q]; an exception leaves a trace of the machine. *)
Definition follows {A} (P : list gate_event → Prop) (m : M A) (Q : A → list gate_event → Prop) : Prop :=
  triple (λ s, P (g_log s)) m (λ a s, Q a (g_log s)) (λ _ s, traced (g_log s)).

Lemma follows_ret {A} P (a : A) (Q : A → list gate_event → Prop) : (∀ l, P l → Q a l) → follows P (mret a) Q.
Proof. intros H s Hs. exact (H _ Hs). Qed.
Lemma follows_bind {A B} P (m : M A) (f : A → M B) R Q :
  follows P m R → (∀ a, follows (R a) (f a) Q) → follows P (m ≫= f) Q.
Proof. apply triple_bind. Qed.
Lemma follows_raise {A} P e (Q : A → list gate_event → Prop) : (∀ l, P l → traced l) → follows P (raise e) Q.
Proof. intros H s Hs. exact (H _ Hs). Qed.
Lemma follows_conseq {A} (P P' : list gate_event → Prop) (m : M A) (Q Q' : A → list gate_event → Prop) :
  follows P' m Q' → (∀ l, P l → P' l) → (∀ a l, Q' a l → Q a l) → follows P m Q.
Proof. intros Hm HP HQ. eapply triple_conseq; [exact Hm|..]; cbn; auto. Qed.
Lemma follows_sys {A} P (f : W → A * W) : follows P (sys f) (λ _, P).
Proof. intros s Hs. unfold sys. by destruct (f (g_world s)). Qed.
Lemma follows_sys_do P (f : W → W) : follows P (sys_do f) (λ _, P).
Proof. by intros s Hs. Qed.
Lemma follows_sys_eff {A} P (m : eff W gate_error A) : (∀ l, P l → traced l) → follows P (sys_eff m) (λ _, P).
Proof. intros HP s Hs. unfold sys_eff. destruct (m (g_world s)); [done|exact (HP _ Hs)]. Qed.
Lemma follows_note P e : follows P (note e) (λ _ l, ∃ l', l = l' ++ [e] ∧ P l').
Proof. intros s Hs. cbn. by eexists. Qed.

(** One operation that is not logged, in front of the rest. *)
Lemma follows_skip {A B} P (f : W → A * W) (k : A → M B) Q :
  (∀ a, follows P (k a) Q) → follows P (sys f ≫= k) Q.
Proof. intros Hk. eapply follows_bind; [apply follows_sys|exact Hk]. Qed.
Lemma follows_skip_do {B} P (f : W → W) (k : unit → M B) Q :
  (∀ a, follows P (k a) Q) → follows P (sys_do f ≫= k) Q.
Proof. intros Hk. eapply follows_bind; [apply follows_sys_do|exact Hk]. Qed.

Lemma drain_follows P fh : follows P (drain (W:=W) fh) (λ _, P).
Proof. apply follows_skip. intros t. apply follows_skip_do. intros _. by apply follows_ret. Qed.

(** A running suite has no result yet. *)
Lemma at_fresh pending ser l sl r results log :
  at_ pending ser (l ++ sl :: r) results log → sl_name sl ∉ results.*1.
Proof.
  intros (ended & Hrun & Hcodes). rewrite (codes_names _ _ Hcodes). intros Hin.
  apply machine_run_names in Hrun. rewrite <- Hrun in Hdistinct. unfold machine_names in Hdistinct.
  cbn [m_pool m_serial m_active m_done] in Hdistinct.
  apply NoDup_app in Hdistinct as (_ & _ & Hd). apply NoDup_app in Hd as (_ & _ & Hd).
  apply NoDup_app in Hd as (_ & Hd & _). apply (Hd (sl_name sl)); [|done].
  rewrite fmap_app. apply elem_of_app. right. by left.
Qed.

Lemma at_end pending ser l sl r results log how out :
  at_ pending ser (l ++ sl :: r) results log →
  at_ pending ser (l ++ r) (dict_set (sl_name sl) (code_of how, out) results)
      (log ++ [Ended (sl_name sl) how]).
Proof.
  intros Hat. pose proof (at_fresh _ _ _ _ _ _ _ Hat) as Hfresh.
  destruct Hat as (ended & Hrun & Hcodes). exists (ended ++ [(sl_name sl, how)]). split.
  - eapply RunSnoc; [exact Hrun|]. rewrite !fmap_app. apply Finish.
  - rewrite dict_set_fresh by done. unfold codes, ended_codes in *. by rewrite !fmap_app, Hcodes.
Qed.

Lemma end_follows pending ser l sl r results how out (k : unit → M (list slot * results_t)) Q :
  (∀ u, follows (at_ pending ser (l ++ r) (dict_set (sl_name sl) (code_of how, out) results)) (k u) Q) →
  follows (at_ pending ser (l ++ sl :: r) results) (note (Ended (sl_name sl) how) ≫= k) Q.
Proof.
  intros Hk. eapply follows_bind; [apply follows_note|]. intros u.
  eapply follows_conseq; [apply Hk| |done]. intros log (log' & -> & Hat). by apply at_end.
Qed.

Lemma reap_follows pending ser l running results timeout :
  follows (at_ pending ser (l ++ running) results) (reap running results timeout)
    (λ r, at_ pending ser (l ++ r.1) r.2).
Proof.
  revert l results. induction running as [|sl running IH]; intros l results; cbn [reap];
    [by apply follows_ret|].
  apply follows_skip. intros rc. apply follows_skip. intros now. destruct (_ && _).
  - apply follows_skip_do. intros _. apply follows_skip. intros _.
    eapply follows_bind; [apply drain_follows|]. intros out.
    eapply (end_follows _ _ _ _ _ _ Killed). intros _. apply IH.
  - destruct rc as [rc|].
    + eapply follows_bind; [apply drain_follows|]. intros out.
      eapply (end_follows _ _ _ _ _ _ (Exited rc)). intros _. apply IH.
    + eapply follows_bind.
      * eapply follows_conseq; [apply (IH (l ++ [sl]))| |done].
        intros log. by rewrite <- app_assoc.
      * intros r. apply follows_ret. intros log. cbn. by rewrite <- app_assoc.
Qed.

Lemma launch_pool_follows s pending ser running results :
  (length running < MAX_PARALLEL)%nat →
  follows (at_ (s :: pending) ser running results) (launch (W:=W) s true)
    (λ sl, at_ pending ser (running ++ [sl]) results).
Proof.
  intros Hlen. eapply follows_bind; [apply follows_sys_eff; by intros ? ?%at_traced|]. intros h.
  eapply follows_bind; [apply follows_note|]. intros u. apply follows_skip. intros t.
  apply follows_ret. intros log (log' & -> & ended & Hrun & Hcodes). exists ended. split; [|done].
  eapply RunSnoc; [exact Hrun|]. rewrite fmap_app. apply StartPool. by rewrite length_fmap.
Qed.

Lemma launch_serial_follows s ser results :
  follows (at_ [] (s :: ser) [] results) (launch (W:=W) s false) (λ sl, at_ [] ser [sl] results).
Proof.
  eapply follows_bind; [apply follows_sys_eff; by intros ? ?%at_traced|]. intros h.
  eapply follows_bind; [apply follows_note|]. intros u. apply follows_skip. intros t.
  apply follows_ret. intros log (log' & -> & ended & Hrun & Hcodes). exists ended. split; [|done].
  eapply RunSnoc; [exact Hrun|]. apply StartSerial.
Qed.

Lemma fill_follows pending ser running results :
  follows (at_ pending ser running results) (fill (W:=W) pending running)
    (λ p, at_ p.1 ser p.2 results).
Proof.
  revert running. induction pending as [|s pending IH]; intros running; cbn [fill];
    [by apply follows_ret|].
  destruct (Nat.ltb_spec (length running) MAX_PARALLEL) as [Hlen|]; [|by apply follows_ret].
  eapply follows_bind; [by apply launch_pool_follows|]. intros sl.
  apply follows_skip_do. intros _. apply IH.
Qed.

Lemma pause_follows P running : follows P (pause (W:=W) running) (λ _, P).
Proof. destruct running; [by apply follows_ret|apply follows_sys_do]. Qed.

Lemma pool_follows fuel pending ser running results :
  follows (at_ pending ser running results) (pool (W:=W) fuel pending running results)
    (at_ [] ser []).
Proof.
  revert pending running results. induction fuel as [|fuel IH]; intros pending running results;
    cbn [pool]; [apply follows_raise; by intros ? ?%at_traced|].
  assert (Hround : follows (at_ pending ser running results)
    (r ← reap running results (Some SUITE_TIMEOUT);
     p ← fill pending r.1; pause p.2;; pool fuel p.1 p.2 r.2) (at_ [] ser [])).
  { eapply follows_bind; [apply (reap_follows _ _ [])|]. intros r. cbn [app].
    eapply follows_bind; [apply fill_follows|]. intros p.
    eapply follows_bind; [apply pause_follows|]. intros u. apply IH. }
  destruct pending, running; [by apply follows_ret|apply Hround..].
Qed.

Lemma wait_one_follows fuel ser running results :
  follows (at_ [] ser running results) (wait_one (W:=W) fuel running results) (at_ [] ser []).
Proof.
  revert running results. induction fuel as [|fuel IH]; intros running results; cbn [wait_one];
    [apply follows_raise; by intros ? ?%at_traced|].
  assert (Hround : follows (at_ [] ser running results)
    (r ← reap running results (Some SUITE_TIMEOUT); pause r.1;; wait_one fuel r.1 r.2) (at_ [] ser [])).
  { eapply follows_bind; [apply (reap_follows _ _ [])|]. intros r. cbn [app].
    eapply follows_bind; [apply pause_follows|]. intros u. apply IH. }
  destruct running; [by apply follows_ret|apply Hround].
Qed.

Lemma serial_follows fuel ser results :
  follows (at_ [] ser [] results) (serial (W:=W) fuel ser results) (at_ [] [] []).
Proof.
  revert results. induction ser as [|s ser IH]; intros results; cbn [serial]; [by apply follows_ret|].
  eapply follows_bind; [apply launch_serial_follows|]. intros sl.
  eapply follows_bind; [apply wait_one_follows|]. intros r. apply IH.
Qed.
End refine.

(** ** The restore and the verdict *)

(** The log ends with a successful restore of the default build. *)
Definition restored (log : list gate_event) : Prop :=
  ∃ l, log = l ++ [Ran ["make"; "clean"] 0; Ran ["make"] 0; Found PRG true].

Lemma restored_last log : restored log → last log = Some (Found PRG true).
Proof. intros (l & ->). rewrite last_app. done. Qed.

Definition tree_event (e : gate_event) : Prop :=
  match e with Ran _ _ | Found _ _ => True | _ => False end.

Lemma machine_run_tree m0 log m suf :
  machine_run m0 log m → Forall tree_event suf → machine_run m0 (log ++ suf) m.
Proof.
  intros Hrun. induction suf as [|e suf IH] using rev_ind; intros Hsuf; [by rewrite app_nil_r|].
  apply Forall_app in Hsuf as [Hsuf He]. rewrite Forall_singleton in He. rewrite app_assoc.
  eapply RunSnoc; [by apply IH|]. destruct e; try done; constructor.
Qed.
Section verdict.
Context {W : Type} `{!GateHost W}.
Abbreviation M := (eff (gate_state W) gate_error).
Context (m0 : machine).
Abbreviation follows := (follows m0).
Abbreviation traced := (traced m0).
Lemma run_cmd_follows (P : list gate_event → Prop) cmd :
  (∀ l, P l → traced l) →
  follows P (run_cmd (W:=W) cmd) (λ r l, ∃ l', l = l' ++ [Ran cmd (c_rc r)] ∧ P l').
Proof.
  intros HP. eapply follows_bind; [by apply follows_sys_eff|]. intros r.
  eapply follows_bind; [apply follows_note|]. intros u. by apply follows_ret.
Qed.
Lemma traced_snoc l e : tree_event e → traced l → traced (l ++ [e]).
Proof. intros He (m & Hm). exists m. apply machine_run_tree; [done|]. by constructor. Qed.
Lemma make_checked_follows (P : list gate_event → Prop) cmd :
  (∀ l, P l → traced l) →
  follows P (make_checked (W:=W) cmd)
    (λ r l, ∃ l' rc, l = l' ++ [Ran cmd rc] ∧ P l' ∧ (r = None ↔ rc = 0)).
Proof.
  intros HP. eapply follows_bind; [by apply run_cmd_follows|]. intros r.
  apply follows_ret. intros l (l' & -> & Hl'). exists l', (c_rc r). split_and!; [done..|].
  destruct (Z.eqb_spec (c_rc r) 0); by split.
Qed.
Lemma exists_noted_follows (P : list gate_event → Prop) path :
  follows P (exists_noted (W:=W) path) (λ there l, ∃ l', l = l' ++ [Found path there] ∧ P l').
Proof.
  apply follows_skip. intros there. eapply follows_bind; [apply follows_note|]. intros u.
  by apply follows_ret.
Qed.

Lemma restore_follows (P : list gate_event → Prop) :
  (∀ l, P l → traced l) →
  follows P (restore_default_build (W:=W))
    (λ r l, ∃ l' suf, l = l' ++ suf ∧ P l' ∧ Forall tree_event suf ∧ (r = None ↔ restored l)).
Proof.
  intros HP. eapply follows_bind; [by apply make_checked_follows|]. intros [why|].
  { apply follows_ret. intros l (l' & rc & -> & Hl & Hrc). exists l', [Ran ["make"; "clean"] rc].
    split_and!; [done..|by repeat constructor|]. split; [done|]. intros H%restored_last.
    by rewrite last_snoc in H. }
  eapply follows_bind; [apply make_checked_follows|].
  { intros l (l' & rc & -> & Hl & _). apply traced_snoc; [done|]. by apply HP. }
  intros [why|].
  { apply follows_ret. intros l (l2 & rc2 & -> & (l' & rc & -> & Hl & Hrc) & Hrc2).
    exists l', [Ran ["make"; "clean"] rc; Ran ["make"] rc2]. rewrite <- app_assoc.
    split_and!; [done..|by repeat constructor|]. split; [done|]. intros H%restored_last.
    by rewrite app_assoc, last_snoc in H. }
  eapply follows_bind; [apply exists_noted_follows|].
  intros there. apply follows_ret.
  intros l (l3 & -> & l2 & rc2 & -> & (l' & rc & -> & Hl & Hrc) & Hrc2).
  exists l', [Ran ["make"; "clean"] rc; Ran ["make"] rc2; Found PRG there]. rewrite <- !app_assoc.
  split_and!; [done..|by repeat constructor|].
  rewrite (proj1 Hrc eq_refl), (proj1 Hrc2 eq_refl). destruct there.
  - split; [|done]. intros _. by exists l'.
  - split; [done|]. intros H%restored_last. by rewrite last_app in H.
Qed.
End verdict.

(** ** A whole run *)

Definition start_of (tests serials : list suite) : machine := Machine tests.*1 serials.*1 [] [].

Lemma all_passed_codes results ended :
  codes results = ended_codes ended →
  (all_passed results = true ↔ Forall (λ e, e.2 = Exited 0) ended).
Proof.
  unfold all_passed, codes, ended_codes. revert ended.
  induction results as [|[n [rc out]] results IH]; intros [|[n' how] ended] Hc; try done.
  cbn in Hc. injection Hc as -> -> Hc. cbn [forallb]. rewrite andb_true_iff, IH, Forall_cons by done.
  cbn. f_equiv. destruct how as [c|]; cbn; [rewrite Z.eqb_eq; split; congruence|by split].
Qed.

(** What a run that returned has logged. *)
Definition run_outcome (tests serials : list suite) (rc : Z) (log : list gate_event) : Prop :=
  (∃ rc0 rc1, log = [Ran ["make"; "clean"] rc0; Ran ["make"] rc1] ∧ rc1 ≠ 0 ∧ rc = 1) ∨
  (∃ ended, machine_run (start_of tests serials) log (Machine [] [] [] ended) ∧
     (rc = 0 ∨ rc = 1) ∧
     (rc = 0 ↔ Forall (λ e, e.2 = Exited 0) ended ∧ (serials = [] ∨ restored log))).

Section run.
Context {W : Type} `{!GateHost W}.
Context (tests serials : list suite) (Hdistinct : NoDup (tests ++ serials).*1).
Abbreviation m0 := (start_of tests serials).
Abbreviation follows := (follows m0).

Lemma start_distinct : NoDup (machine_names m0).
Proof. unfold machine_names. cbn. by rewrite app_nil_r, <- fmap_app. Qed.

Lemma describe_tree_follows P : follows P (describe_tree (W:=W)) (λ _, P).
Proof.
  apply follows_skip. intros [[sha size]|]; [|by apply follows_ret].
  apply follows_skip. intros names. by apply follows_ret.
Qed.

Lemma verdict_follows (results : results_t) (restore : option string) (P : list gate_event → Prop) :
  (∀ l, P l → ∃ ended, machine_run m0 l (Machine [] [] [] ended) ∧ codes results = ended_codes ended ∧
                      (restore = None ↔ serials = [] ∨ restored l)) →
  follows P (if all_passed results && bool_decide (restore = None)
             then describe_tree (W:=W);; mret 0 else mret 1)
    (run_outcome tests serials).
Proof.
  intros HP. destruct (_ && _) eqn:Hok.
  - eapply follows_bind; [apply describe_tree_follows|]. intros tree. apply follows_ret.
    intros l (ended & Hrun & Hcodes & Hres)%HP. right. exists ended. split_and!; [done|by left|].
    apply andb_true_iff in Hok as [Hall Hnone]. apply bool_decide_eq_true in Hnone.
    split; [intros _|done]. split; [by eapply all_passed_codes|by apply Hres].
  - apply follows_ret. intros l (ended & Hrun & Hcodes & Hres)%HP. right. exists ended.
    split_and!; [done|by right|]. split; [done|]. intros [Hall Hrest].
    apply (all_passed_codes _ _ Hcodes) in Hall. rewrite Hall in Hok. cbn in Hok.
    apply bool_decide_eq_false in Hok. by apply Hres in Hrest.
Qed.

Lemma restore_step results :
  follows (at_ m0 [] [] [] results)
    (match serials with [] => mret None | _ => restore_default_build (W:=W) end)
    (λ restore l, ∃ ended, machine_run m0 l (Machine [] [] [] ended) ∧ codes results = ended_codes ended ∧
                           (restore = None ↔ serials = [] ∨ restored l)).
Proof.
  destruct serials as [|s ser].
  - apply follows_ret. intros l (ended & Hrun & Hc). exists ended. split_and!; [done..|].
    split; [by left|done].
  - eapply follows_conseq; [apply restore_follows; apply at_traced|done|].
    intros restore l (l' & suf & -> & (ended & Hrun & Hc) & Hsuf & Hres). exists ended.
    split_and!; [by apply machine_run_tree|done|]. rewrite Hres. split; [by right|].
    by intros [?|?].
Qed.

Lemma run_gate_follows fuel :
  follows (λ l, l = []) (run_gate (W:=W) fuel tests serials) (run_outcome tests serials).
Proof.
  pose proof start_distinct as Hd. unfold run_gate.
  eapply follows_bind; [apply run_cmd_follows; intros l ->; by eexists; constructor|]. intros r0.
  eapply follows_bind; [apply run_cmd_follows|].
  { intros l (l' & -> & ->). apply traced_snoc; [done|]. by eexists; constructor. }
  intros r1. destruct (Z.eqb_spec (c_rc r1) 0) as [Hrc|Hrc]; cbn [negb].
  2:{ apply follows_ret. intros l (l1 & -> & l0 & -> & ->). left. by exists (c_rc r0), (c_rc r1). }
  eapply follows_bind.
  { eapply follows_conseq; [by apply pool_follows| |done].
    intros l (l1 & -> & l0 & -> & ->). exists []. split; [|done].
    apply (machine_run_tree _ []); [constructor|by repeat constructor]. }
  intros r. eapply follows_bind; [by apply serial_follows|]. intros results.
  eapply follows_bind; [apply restore_step|]. intros restore. by apply verdict_follows.
Qed.
End run.

(** ** The gate ends *)

(** A monotonic clock, which a pause moves on by its length whatever else is called, and a
    system that does not report the model's own running out of fuel. *)
Class GateClock W `{!GateHost W} := {
  clk : W → Z;
  clk_reads : ∀ w, clk w ≤ (gh_now w).1 ≤ clk (gh_now w).2;
  clk_sleep : ∀ ms w, clk w + ms ≤ clk (gh_sleep ms w);
  clk_poll : ∀ p w, clk w ≤ clk (gh_poll p w).2;
  clk_kill : ∀ p w, clk w ≤ clk (gh_kill p w);
  clk_wait : ∀ p n w, clk w ≤ clk (gh_wait p n w).2;
  clk_read : ∀ f w, clk w ≤ clk (gh_read f w).2;
  clk_remove : ∀ f w, clk w ≤ clk (gh_remove f w);
  popen_error : ∀ s b w w', gh_popen s b w ≠ Raise NoFuel w';
  run_error : ∀ cmd w w', gh_run cmd w ≠ Raise NoFuel w';
}.

Definition no_fuel (e : gate_error) : bool := match e with NoFuel => true | _ => false end.

Section clock.
Context {W : Type} `{!GateHost W, !GateClock W}.
Abbreviation M := (eff (gate_state W) gate_error).
Abbreviation settles_at := (settles_at no_fuel).
Abbreviation in_fuel := (in_fuel no_fuel).

(** The milliseconds until a suite started at [t] is over its budget. *)
Definition left_ (t : Z) (w : W) : nat := Z.to_nat (SUITE_TIMEOUT * 1000 + 1 - (clk w - t)).

Lemma left_mono t w w' : clk w ≤ clk w' → (left_ t w' ≤ left_ t w)%nat.
Proof. unfold left_. lia. Qed.
Lemma left_now t w : (left_ t (gh_now w).2 ≤ left_ t w)%nat.
Proof. apply left_mono. pose proof (clk_reads w). lia. Qed.
Lemma left_over t w : left_ t w = 0%nat → over (Some SUITE_TIMEOUT) t (gh_now w).1 = true.
Proof. unfold left_, over. pose proof (clk_reads w). intros. apply Z.ltb_lt. lia. Qed.
Lemma left_sleep t ms w : 0 < ms → (left_ t (gh_sleep ms w) ≤ pred (left_ t w))%nat.
Proof. unfold left_. pose proof (clk_sleep ms w). lia. Qed.

(** No deadline moves away. *)
Definition later (s s' : gate_state W) : Prop := ∀ t, (left_ t (g_world s') ≤ left_ t (g_world s))%nat.

#[local] Instance later_pre : PreOrder later.
Proof. split; [by intros s t|]. intros s1 s2 s3 H1 H2 t. etrans; [apply H2|apply H1]. Qed.

(** A step that returns, at or after [s0]. *)
Definition moves (s0 : gate_state W) {A} (m : M A) (Q : A → Prop) : Prop :=
  triple (later s0) m (λ a s, later s0 s ∧ Q a) (λ _ _, False).

Lemma moves_ret s0 {A} (a : A) (Q : A → Prop) : Q a → moves s0 (mret a) Q.
Proof. intros HQ s Hs. by split. Qed.
Lemma moves_bind s0 {A B} (m : M A) (f : A → M B) (R : A → Prop) (Q : B → Prop) :
  moves s0 m R → (∀ a, R a → moves s0 (f a) Q) → moves s0 (m ≫= f) Q.
Proof. intros Hm Hf. eapply triple_bind; [exact Hm|]. intros a s [Hs HR]. exact (Hf a HR s Hs). Qed.
Lemma moves_sys s0 {A} (f : W → A * W) :
  (∀ t w, (left_ t (f w).2 ≤ left_ t w)%nat) → moves s0 (sys f) (λ _, True).
Proof.
  intros Hf s Hs. pose proof (λ t, Hf t (g_world s)) as Hl. unfold sys.
  destruct (f (g_world s)) as [a w]. split; [|done]. intros t. etrans; [apply Hl|apply Hs].
Qed.
Lemma moves_sys_do s0 (f : W → W) :
  (∀ t w, (left_ t (f w) ≤ left_ t w)%nat) → moves s0 (sys_do f) (λ _, True).
Proof. intros Hf s Hs. split; [|done]. intros t. etrans; [apply Hf|apply Hs]. Qed.
Lemma moves_note s0 e : moves s0 (note e) (λ _, True).
Proof. intros s Hs. by split. Qed.

(** A suite found within its budget has time left. *)
Lemma moves_now s0 :
  moves s0 (sys gh_now)
    (λ now, ∀ t, over (Some SUITE_TIMEOUT) t now = false → (0 < left_ t (g_world s0))%nat).
Proof.
  intros s Hs. pose proof (λ t, left_now t (g_world s)) as Hl.
  pose proof (λ t, left_over t (g_world s)) as Ho. unfold sys.
  destruct (gh_now (g_world s)) as [now w]. cbn in *. split.
  - intros t. etrans; [apply Hl|apply Hs].
  - intros t Ht. specialize (Hs t). destruct (left_ t (g_world s)) eqn:H0; [|lia].
    by rewrite Ho in Ht.
Qed.

Lemma drain_moves s0 fh : moves s0 (drain (W:=W) fh) (λ _, True).
Proof.
  eapply moves_bind; [apply moves_sys; intros; apply left_mono, clk_read|]. intros t _.
  eapply moves_bind; [apply moves_sys_do; intros; apply left_mono, clk_remove|]. intros u _.
  by apply moves_ret.
Qed.

(** The suites that still run after a round had time left before it. *)
Definition fresh (s0 : gate_state W) (running : list slot) (r : list slot * results_t) : Prop :=
  r.1 ⊆ running ∧ Forall (λ sl, 0 < left_ (sl_started sl) (g_world s0))%nat r.1.

Lemma reap_moves s0 running results :
  moves s0 (reap running results (Some SUITE_TIMEOUT)) (fresh s0 running).
Proof.
  revert results. induction running as [|sl running IH]; intros results; cbn [reap];
    [by apply moves_ret; split|].
  assert (Hrec : ∀ res, moves s0 (reap running res (Some SUITE_TIMEOUT)) (fresh s0 (sl :: running))).
  { intros res s Hs. specialize (IH res s Hs). destruct (reap _ _ _ s); [|done].
    destruct IH as (Hl & Hsub & Hf). split; [done|]. split; [set_solver|done]. }
  eapply moves_bind; [apply moves_sys; intros; apply left_mono, clk_poll|]. intros rc _.
  eapply moves_bind; [apply moves_now|]. intros now Hnow. destruct (_ && _) eqn:Hov.
  - eapply moves_bind; [apply moves_sys_do; intros; apply left_mono, clk_kill|]. intros u _.
    eapply moves_bind; [apply moves_sys; intros; apply left_mono, clk_wait|]. intros b _.
    eapply moves_bind; [apply drain_moves|]. intros out _.
    eapply moves_bind; [apply moves_note|]. intros u' _. apply Hrec.
  - destruct rc as [rc|].
    + eapply moves_bind; [apply drain_moves|]. intros out _.
      eapply moves_bind; [apply moves_note|]. intros u' _. apply Hrec.
    + eapply moves_bind; [apply IH|]. intros r [Hsub Hf]. apply moves_ret. cbn in Hov. split; cbn.
      * set_solver.
      * constructor; [by apply Hnow|done].
Qed.

Lemma sys_eff_in_fuel {A} (m : eff W gate_error A) s :
  (∀ w w', m w ≠ Raise NoFuel w') → in_fuel (sys_eff m s).
Proof.
  intros Hm. unfold sys_eff. destruct (m (g_world s)) as [|[]] eqn:He; try done. by apply Hm in He.
Qed.

Lemma sys_in_fuel {A} (f : W → A * W) s : in_fuel (sys f s).
Proof. unfold sys. by destruct (f (g_world s)). Qed.

Lemma launch_in_fuel t b s : in_fuel (launch (W:=W) t b s).
Proof.
  apply in_fuel_bind; [apply sys_eff_in_fuel, popen_error|]. intros h s1.
  apply in_fuel_bind; [done|]. intros u s2. by apply in_fuel_bind; [apply sys_in_fuel|].
Qed.

(** Filling up starts a suite or changes nothing. *)
Lemma fill_launches pending running s :
  in_fuel (fill (W:=W) pending running s) ∧
  ∀ p s', fill pending running s = Ret p s' →
    (p = (pending, running) ∧ s' = s ∧ (pending = [] ∨ running ≠ [])) ∨
    (length p.1 < length pending)%nat.
Proof.
  revert running s. induction pending as [|t pending IH]; intros running s; cbn [fill].
  { split; [done|]. intros p s' [= <- <-]. left. by split_and!; [|..|left]. }
  destruct (Nat.ltb_spec (length running) MAX_PARALLEL) as [Hlen|Hlen].
  2:{ split; [done|]. intros p s' [= <- <-]. left. split_and!; [done..|right]. intros ->.
      unfold MAX_PARALLEL in Hlen. cbn in Hlen. lia. }
  split.
  - apply in_fuel_bind; [apply launch_in_fuel|]. intros sl s1.
    apply in_fuel_bind; [done|]. intros u s2. apply IH.
  - intros p s'. rewrite run_bind. destruct (launch t true s) as [sl s1|]; [|done].
    rewrite run_bind. cbn [sys_do]. intros Hp. apply IH in Hp as [(-> & _ & _)|Hp]; cbn; lia.
Qed.

Lemma pause_later running (s : gate_state W) :
  ∃ s', pause running s = Ret tt s' ∧ later s s' ∧
    (running ≠ [] → ∀ t, (left_ t (g_world s') ≤ pred (left_ t (g_world s)))%nat).
Proof.
  destruct running; [by exists s|]. eexists. split; [done|].
  assert (∀ t, (left_ t (gh_sleep POLL_MS (g_world s)) ≤ pred (left_ t (g_world s)))%nat) as Hs
    by (intros t; by apply left_sleep).
  split; [intros t; specialize (Hs t); cbn; lia|]. intros _ t. apply Hs.
Qed.

(** A bound on the pauses of everything that runs. *)
Definition within (k : nat) (running : list slot) (s : gate_state W) : Prop :=
  Forall (λ sl, left_ (sl_started sl) (g_world s) ≤ k)%nat running.

Lemma within_exists running s : ∃ k, within k running s.
Proof.
  induction running as [|sl running [k Hk]]; [by exists 0%nat; constructor|].
  exists (k `max` left_ (sl_started sl) (g_world s))%nat. constructor; [lia|].
  eapply Forall_impl; [exact Hk|]. cbn. lia.
Qed.

(** A round that starts nothing brings what still runs a pause closer to its deadline. *)
Lemma within_round k running still s s1 s2 :
  within (S k) running s → still ⊆ running →
  later s s1 → (∀ t, (left_ t (g_world s2) ≤ pred (left_ t (g_world s1)))%nat) → within k still s2.
Proof.
  unfold within. rewrite !Forall_forall. intros Hk Hsub H1 H2 sl Hin.
  specialize (Hk sl (Hsub sl Hin)). specialize (H1 (sl_started sl)). specialize (H2 (sl_started sl)).
  lia.
Qed.

Lemma fresh_within_0 running r s : within 0 running s → fresh s running r → r.1 = [].
Proof.
  intros Hk [Hsub Hf]. destruct r as [[|sl l] res]; [done|]. exfalso. cbn [fst] in *.
  apply Forall_cons in Hf as [Hpos _]. unfold within in Hk. rewrite Forall_forall in Hk.
  specialize (Hk sl). lapply Hk; [lia|]. apply Hsub. by left.
Qed.

Lemma pool_settles pending running results s :
  settles_at (λ fuel, pool (W:=W) fuel pending running results) s.
Proof.
  remember (length pending) as n eqn:Hn. revert pending Hn running results s.
  induction n as [n IHn] using lt_wf_ind. intros pending -> running results s.
  destruct (within_exists running s) as [k Hk]. revert running results s Hk.
  induction k as [|k IHk]; intros running results s Hk; apply settles_at_succ.
  all: assert (Hround : settles_at (λ fuel, r ← reap running results (Some SUITE_TIMEOUT);
    p ← fill pending r.1; pause p.2;; pool fuel p.1 p.2 r.2) s);
    [|destruct pending, running; [by apply settles_at_const|exact Hround..]].
  all: pose proof (reap_moves s running results s (reflexivity s)) as Hreap;
    destruct (reap running results (Some SUITE_TIMEOUT) s) as [r s1|] eqn:Hr; [|done];
    destruct Hreap as [Hl1 Hfresh].
  all: apply settles_at_then; rewrite Hr; [done|]; intros r' s1' [= <- <-].
  all: destruct (fill_launches pending r.1 s1) as [Hfuel Hfill]; apply settles_at_then; [done|];
    intros p s2 Hp.
  all: destruct (pause_later p.2 s2) as (s3 & Hs3 & Hl3 & Hstep); apply settles_at_then; rewrite Hs3;
    [done|]; intros u s3' [= <- <-].
  all: destruct (Hfill _ _ Hp) as [(-> & -> & Hidle)|Hlt]; [|by eapply IHn]; cbn [fst snd] in *.
  - rewrite (fresh_within_0 _ _ _ Hk Hfresh) in *. destruct Hidle as [->|]; [|done].
    apply settles_at_succ. by apply settles_at_const.
  - destruct (r.1) as [|sl still] eqn:Hstill.
    + destruct Hidle as [->|]; [|done]. apply settles_at_succ. by apply settles_at_const.
    + apply IHk. destruct Hfresh as [Hsub _]. rewrite Hstill in Hsub.
      eapply within_round; [exact Hk|exact Hsub|exact Hl1|]. by apply Hstep.
Qed.

(** Waiting for one suite is the pool with nothing left to start. *)
Lemma wait_one_pool fuel running results s :
  wait_one (W:=W) fuel running results s = pool fuel [] running results s.
Proof.
  revert running results s. induction fuel as [|fuel IH]; intros running results s; [done|].
  destruct running as [|sl running]; [done|]. cbn [wait_one pool]. rewrite !run_bind.
  destruct (reap _ _ _ s) as [r s1|]; [|done]. cbn [fill]. rewrite !run_bind.
  change (mret (M:=eff (gate_state W) gate_error) (@nil suite, r.1) s1)
    with (Ret (E:=gate_error) (@nil suite, r.1) s1). cbv iota beta. cbn [fst snd].
  rewrite run_bind. destruct (pause _ s1); [apply IH|done].
Qed.

Lemma serial_settles suites results s : settles_at (λ fuel, serial (W:=W) fuel suites results) s.
Proof.
  revert results s. induction suites as [|t suites IH]; intros results s; cbn [serial].
  { by apply settles_at_const. }
  apply settles_at_then; [apply launch_in_fuel|]. intros sl s1 _.
  apply settles_at_bind; [|intros n r s2 _; apply IH].
  destruct (pool_settles [] [sl] results s1) as (n & o & Ho & Hn). exists n, o. split; [done|].
  intros fuel ?. rewrite wait_one_pool. by apply Hn.
Qed.

Lemma run_cmd_in_fuel cmd s : in_fuel (run_cmd (W:=W) cmd s).
Proof. apply in_fuel_bind; [apply sys_eff_in_fuel, run_error|done]. Qed.

Lemma make_checked_in_fuel cmd s : in_fuel (make_checked (W:=W) cmd s).
Proof. apply in_fuel_bind; [apply run_cmd_in_fuel|done]. Qed.

Lemma restore_in_fuel s : in_fuel (restore_default_build (W:=W) s).
Proof.
  apply in_fuel_bind; [apply make_checked_in_fuel|]. intros [why|] s1; [done|].
  apply in_fuel_bind; [apply make_checked_in_fuel|]. intros [why|] s2; [done|].
  apply in_fuel_bind; [|done]. apply in_fuel_bind; [apply sys_in_fuel|done].
Qed.

Lemma describe_tree_in_fuel s : in_fuel (describe_tree (W:=W) s).
Proof.
  apply in_fuel_bind; [apply sys_in_fuel|]. intros [[sha size]|] s1; [|done].
  apply in_fuel_bind; [apply sys_in_fuel|done].
Qed.

Lemma run_gate_settles tests serials s :
  settles_at (λ fuel, run_gate (W:=W) fuel tests serials) s.
Proof.
  unfold run_gate. apply settles_at_then; [apply run_cmd_in_fuel|]. intros r0 s0 _.
  apply settles_at_then; [apply run_cmd_in_fuel|]. intros r1 s1 _.
  destruct (negb _); [by apply settles_at_const|].
  apply settles_at_bind; [apply pool_settles|]. intros _ r s2 _.
  apply settles_at_bind; [apply serial_settles|]. intros _ results s3 _.
  apply settles_at_then; [destruct serials; [done|apply restore_in_fuel]|]. intros restore s4 _.
  destruct (_ && _); [|by apply settles_at_const].
  apply settles_at_const. apply in_fuel_bind; [apply describe_tree_in_fuel|done].
Qed.
End clock.

(** ** A system on which every suite hangs *)

Record stuck := Stuck { st_clock : Z; st_next : Z }.

#[export] Instance stuck_host : GateHost stuck := {|
  gh_popen _ _ w := Ret (Handles (st_next w) (st_next w)) (Stuck (st_clock w) (st_next w + 1));
  gh_poll _ w := (None, w);
  gh_kill _ w := w;
  gh_wait _ n w := (false, Stuck (st_clock w + 1000 * Z.max 0 n) (st_next w));
  gh_read _ w := (Ok "", w);
  gh_remove _ w := w;
  gh_now w := (st_clock w, w);
  gh_sleep ms w := Stuck (st_clock w + Z.max 0 ms) (st_next w);
  gh_run _ w := Ret (Completed 0 "" "") w;
  gh_exists _ w := (true, w);
  gh_read_file _ w := (None, w);
  gh_sha256 _ w := (None, w);
|}.

#[export] Instance stuck_clock : GateClock stuck.
Proof.
  refine {| clk := st_clock |}; intros; cbn [gh_now gh_sleep gh_poll gh_kill gh_wait gh_read
    gh_remove gh_popen gh_run stuck_host st_clock fst snd]; try lia; done.
Defined.

Definition hung : outcome (gate_state stuck) gate_error Z :=
  run_gate 4000 [("a", ["a.py"]); ("b", ["b.py"])] [("c", ["c.py"])] (GateState (Stuck 0 1) []).
Example hung_suites_fail :
  match hung with
  | Ret rc s => rc = 1 ∧ g_log s =
      [Ran ["make"; "clean"] 0; Ran ["make"] 0; Launched "a" true; Launched "b" true;
       Ended "a" Killed; Ended "b" Killed; Launched "c" false; Ended "c" Killed;
       Ran ["make"; "clean"] 0; Ran ["make"] 0; Found PRG true]
  | Raise _ _ => False
  end.
Proof. vm_compute. done. Qed.

(** ** The limits, read off a log *)

(** How many suites run after a log; [None] once a suite was started with five running, a serial
    one next to any other, or one ended that was not running. *)
Definition flight_step (n : nat) (e : gate_event) : option nat :=
  match e with
  | Launched _ true => if (n <? MAX_PARALLEL)%nat then Some (S n) else None
  | Launched _ false => if (n =? 0)%nat then Some 1%nat else None
  | Ended _ _ => match n with O => None | S n => Some n end
  | Ran _ _ | Found _ _ => Some n
  end.
Definition in_flight (log : list gate_event) : option nat :=
  foldl (λ n e, n' ← n; flight_step n' e) (Some 0%nat) log.

Definition launched (log : list gate_event) : list string :=
  omap (λ e, match e with Launched n _ => Some n | _ => None end) log.
Definition endings (log : list gate_event) : list (string * ending) :=
  omap (λ e, match e with Ended n how => Some (n, how) | _ => None end) log.

Lemma in_flight_snoc log e : in_flight (log ++ [e]) = n ← in_flight log; flight_step n e.
Proof. unfold in_flight. by rewrite foldl_app. Qed.

Lemma machine_in_flight m0 log m :
  m_active m0 = [] → machine_run m0 log m → in_flight log = Some (length (m_active m)).
Proof.
  intros H0. induction 1 as [|log m' e m'' Hrun IH Hs]; [by rewrite H0|].
  rewrite in_flight_snoc, IH. cbn [mbind option_bind]. destruct Hs; cbn [m_active flight_step] in *; try done.
  - rewrite (proj2 (Nat.ltb_lt _ _)) by done. rewrite length_app. cbn. f_equal. lia.
  - rewrite !length_app. cbn [length]. rewrite Nat.add_succ_r. done.
Qed.

Lemma machine_endings m0 log m :
  m_done m0 = [] → machine_run m0 log m → endings log = m_done m.
Proof.
  intros H0. unfold endings. induction 1 as [|log m' e m'' Hrun IH Hs]; [by rewrite H0|].
  rewrite omap_app, IH. destruct Hs; cbn [m_done] in *; by rewrite ?app_nil_r.
Qed.

(** What was started is what runs or ended; with the queues it is everything. *)
Lemma machine_launched m0 log m :
  m_active m0 = [] → m_done m0 = [] → machine_run m0 log m →
  launched log ≡ₚ m_active m ++ (m_done m).*1.
Proof.
  intros Ha Hd. unfold launched. induction 1 as [|log m' e m'' Hrun IH Hs]; [by rewrite Ha, Hd|].
  rewrite omap_app, IH. destruct Hs; cbn [m_active m_done omap list_omap] in *; rewrite ?fmap_app; cbn;
    rewrite ?app_nil_r; solve_Permutation.
Qed.

Definition all_names : list string := (TESTS ++ SERIAL_TESTS).*1.

Definition gate_log {W} `{!GateHost W} (fuel : nat) (w : W) : list gate_event :=
  match gate_main fuel (GateState w []) with Ret _ s | Raise _ s => g_log s end.

Lemma gate_traced {W} `{!GateHost W} fuel (w : W) :
  ∃ m, machine_run (start_of TESTS SERIAL_TESTS) (gate_log fuel w) m.
Proof.
  pose proof (run_gate_follows TESTS SERIAL_TESTS suite_names_distinct fuel (GateState w []) eq_refl) as H.
  unfold gate_log, gate_main. destruct (run_gate _ _ _ _) as [rc s|e s]; [|exact H].
  destruct H as [(rc0 & rc1 & -> & _)|(ended & Hrun & _)]; [|by eexists].
  eexists. apply (machine_run_tree _ []); [constructor|by repeat constructor].
Qed.

Lemma start_names_all : machine_names (start_of TESTS SERIAL_TESTS) = all_names.
Proof. unfold machine_names. cbn [m_pool m_serial m_active m_done start_of]. by rewrite app_nil_r, <- fmap_app. Qed.

Module Regression.
(** C5. The gate refines the abstract pool: whatever the suites do, and however the run ends, its
    log is a run of the machine that starts with the two lists queued: suites start in the order
    of their queue, a pool suite while fewer than five run, a serial one once the pool's queue is
    empty and nothing runs, and a suite ends only while it runs. *)
Theorem gate_refines_pool {W} `{!GateHost W} fuel (w : W) :
  ∃ m, machine_run (start_of TESTS SERIAL_TESTS) (gate_log fuel w) m.
Proof. apply gate_traced. Qed.

(** C7. At no point of a run do more than five suites run, a serial suite runs alone, and no suite
    is started twice, is one that is not listed, or ends without having been started. *)
Theorem pool_bounded {W} `{!GateHost W} fuel (w : W) :
  let log := gate_log fuel w in
  is_Some (in_flight log) ∧ NoDup (launched log) ∧ launched log ⊆ all_names ∧
  (endings log).*1 ⊆ launched log.
Proof.
  destruct (gate_traced fuel w) as [m Hm]. cbv zeta.
  rewrite (machine_in_flight (start_of TESTS SERIAL_TESTS) _ _ eq_refl Hm), (machine_endings (start_of TESTS SERIAL_TESTS) _ _ eq_refl Hm).
  pose proof (machine_launched (start_of TESTS SERIAL_TESTS) _ _ eq_refl eq_refl Hm) as Hl.
  pose proof (machine_run_names _ _ _ Hm) as Hn. rewrite start_names_all in Hn.
  unfold machine_names in Hn. rewrite <- Hl in Hn.
  pose proof suite_names_distinct as Hd. fold all_names in Hd. rewrite <- Hn in Hd.
  split_and!; [done| | |].
  - apply NoDup_app in Hd as (_ & _ & Hd). by apply NoDup_app in Hd as (_ & _ & Hd).
  - intros x Hx. rewrite <- Hn. set_solver.
  - intros x Hx. rewrite Hl. set_solver.
Qed.

(** C4. When the gate passes and what its result rests on: it returns 0 exactly when every listed
    suite was started, once, and ended by itself with exit code 0 within its budget, and the
    default build was restored; a killed suite, a failing one or a failed restore make it 1, as
    does a build that fails, after which no suite is started. *)
Theorem gate_verdict {W} `{!GateHost W} fuel (w : W) :
  match gate_main fuel (GateState w []) with
  | Ret rc s =>
      let log := g_log s in
      (launched log = [] ∧ rc = 1 ∧ ∃ rc0 rc1, log = [Ran ["make"; "clean"] rc0; Ran ["make"] rc1] ∧ rc1 ≠ 0) ∨
      (launched log ≡ₚ all_names ∧ (endings log).*1 ≡ₚ all_names ∧ (rc = 0 ∨ rc = 1) ∧
       (rc = 0 ↔ Forall (λ e, e.2 = Exited 0) (endings log) ∧ restored log))
  | Raise e s => True
  end.
Proof.
  pose proof (run_gate_follows TESTS SERIAL_TESTS suite_names_distinct fuel (GateState w []) eq_refl) as H.
  unfold gate_main. destruct (run_gate _ _ _ _) as [rc s|e s]; [|done]. cbv zeta.
  destruct H as [(rc0 & rc1 & -> & Hrc & ->)|(ended & Hm & Hor & Hiff)].
  { left. split_and!; [done..|]. by exists rc0, rc1. }
  right. rewrite (machine_endings (start_of TESTS SERIAL_TESTS) _ _ eq_refl Hm), (machine_launched (start_of TESTS SERIAL_TESTS) _ _ eq_refl eq_refl Hm).
  pose proof (machine_run_names _ _ _ Hm) as Hn. rewrite start_names_all in Hn.
  split_and!; [done..|]. rewrite Hiff. split; intros [Hall Hres]; split; try done; [by destruct Hres|by right].
Qed.

(** C6. Every run ends, even if no suite does: with a monotonic clock that each pause moves on,
    there is an amount of fuel from which on the outcome is the same, and it is not running out;
    so a suite that hangs is killed instead of hanging the gate. *)
Theorem gate_ends {W} `{!GateHost W, !GateClock W} tests serials (s : gate_state W) :
  settles_at no_fuel (λ fuel, run_gate fuel tests serials) s.
Proof. apply run_gate_settles. Qed.

Lemma gate_ends_witness :
  settles_at no_fuel (λ fuel, run_gate fuel TESTS SERIAL_TESTS) (GateState (Stuck 0 1) []).
Proof. refine (gate_ends TESTS SERIAL_TESTS (GateState (Stuck 0 1) [])). Defined.
End Regression.
