(* ===== verification/GateCheck.v ===== *)
(** * The regression gate's self-check (tools/run_regression.py)

    [--self-check] drives the gate's own [launch], [reap] and [restore_default_build] over
    throwaway suites and a throwaway build, and then reads the suite counts in the documents. *)

From S2P Require Export Gate.

(** The temporary directory, writing a file, the working directory, and whether the environment that the
    self-check was started with holds C64_SKIP_BUILD: its suites inherit it. *)
Class CheckHost (W : Type) := {
  gk_mkdtemp : eff W gate_error string;
  gk_write : string → string → eff W gate_error unit;
  gk_getcwd : W → string * W;
  gk_chdir : string → eff W gate_error unit;
  gk_skip_build : bool;
}.

Definition tab : string := str [ascii_of_nat 9].
Definition CHATTY : string :=
  lines_text ["import sys"; "for _ in range(20000):"; "    sys.stdout.write('x' * 100 + '\n')"; "sys.exit(0)"].
Definition HANG : string := lines_text ["import time"; "time.sleep(3600)"].
Definition BAD_MAKEFILE : string :=
  lines_text ["all:"; tab +:+ "@mkdir -p build && echo prg > build/wireguard.prg";
              tab +:+ "@echo 'deliberate build failure' >&2; exit 1"; "clean:"; tab +:+ "@true"].
Definition GOOD_MAKEFILE : string :=
  lines_text ["all:"; tab +:+ "@mkdir -p build && echo prg > build/wireguard.prg"; "clean:"; tab +:+ "@true"].

Section self_check.
Context {W : Type} `{!GateHost W, !CheckHost W}.
Abbreviation M := (eff (gate_state W) gate_error).

(** [while running and monotonic() < start + limit: reap; sleep 0.2] *)
Fixpoint drive (fuel : nat) (start limit : Z) (timeout : Z) (running : list slot) (results : results_t) :
    M (list slot * results_t) :=
  match running with
  | [] => mret ([], results)
  | _ =>
      match fuel with
      | O => raise NoFuel
      | S fuel =>
          now ← sys gh_now;
          if negb (now - start <? limit * 1000) then mret (running, results) else
          r ← reap running results (Some timeout);
          sys_do (gh_sleep 200);;
          drive fuel start limit timeout r.1 r.2
      end
  end.

Fixpoint kill_all (running : list slot) : M unit :=
  match running with
  | [] => mret tt
  | sl :: running => sys_do (gh_kill (h_proc (sl_handles sl)));; kill_all running
  end.

(** One throwaway suite: what is still running, and its result. *)
Definition throwaway (fuel : nat) (name path : string) (limit timeout : Z) : M (list slot * option (Z * string)) :=
  sl ← launch (name, [path]) gk_skip_build;
  start ← sys gh_now;
  r ← drive fuel start limit timeout [sl] [];
  mret (r.1, assoc name r.2).

(** Two megabytes of output must not block the suite. *)
Definition check_chatty (fuel : nat) (path : string) : M Z :=
  r ← throwaway fuel "chatty" path 60 60;
  match r.1, r.2 with
  | [], Some (rc, _) => if rc =? 0 then mret 0 else mret 1
  | running, _ => kill_all running;; mret 1
  end.

(** A suite that hangs must be killed and recorded as a failure. *)
Definition check_hang (fuel : nat) (path : string) : M Z :=
  r ← throwaway fuel "hang" path 30 3;
  _ ← sys gh_now;
  match r.1, r.2 with
  | [], Some (rc, out) =>
      if rc =? 0 then mret 1 else if contains "KILLED" out then mret 0 else mret 1
  | running, _ => kill_all running;; mret 1
  end.

(** A restore that fails must be reported, one that succeeds must not. *)
Definition check_restore (td : string) : M Z :=
  saved ← sys gk_getcwd;
  r ← finally
        (sys_eff (gk_chdir td);;
         sys_eff (gk_write (td +:+ "/Makefile") BAD_MAKEFILE);;
         why ← restore_default_build;
         sys_eff (gk_write (td +:+ "/Makefile") GOOD_MAKEFILE);;
         why_ok ← restore_default_build;
         mret (why, why_ok))
        (sys_eff (gk_chdir saved));
  mret (match r with (Some _, None) => 0 | _ => 1 end).

(** [self_check]: the exit code. *)
Definition self_check (fuel : nat) : M Z :=
  td ← sys_eff gk_mkdtemp;
  sys_eff (gk_write (td +:+ "/chatty.py") CHATTY);;
  sys_eff (gk_write (td +:+ "/hang.py") HANG);;
  failed1 ← check_chatty fuel (td +:+ "/chatty.py");
  failed2 ← check_hang fuel (td +:+ "/hang.py");
  failed3 ← check_restore td;
  failed4 ← check_counts COUNT_CLAIMS (len TESTS + len SERIAL_TESTS);
  mret (if failed1 + failed2 + failed3 + failed4 =? 0 then 0 else 1).

(** [main] *)
Definition main (fuel : nat) (argv : list string) : M Z :=
  if bool_decide ("--self-check" ∈ argv) then self_check fuel else gate_main fuel.
End self_check.
