(* ===== verification/GateCheckThms.v ===== *)
(** * The regression gate's self-check: the properties

    What an exit code of zero shows of the gate's own reaping and restoring, and that the
    self-check ends. *)

From S2P Require Export Discipline GateCheck GateThms.
#[local] Set Warnings "-clear-no-such-hyp".

(** ** What each check adds to the log *)

Section logs.
Context {W : Type} `{!GateHost W, !CheckHost W}.
Abbreviation M := (eff (gate_state W) gate_error).
Abbreviation adds := (Discipline.adds (E:=gate_error) (@g_log W)).
Abbreviation never := (λ _ _, False).

Lemma adds_sys {A B} (f : W → A * W) (k : A → M B) P X : (∀ a, adds (k a) P X) → adds (sys f ≫= k) P X.
Proof.
  intros Hk s. rewrite run_bind. unfold sys. destruct (f (g_world s)) as [a w].
  exact (Hk a (GateState w (g_log s))).
Qed.
Lemma adds_sys_do {B} (f : W → W) (k : unit → M B) P X : (∀ u, adds (k u) P X) → adds (sys_do f ≫= k) P X.
Proof. intros Hk s. exact (Hk tt (GateState (f (g_world s)) (g_log s))). Qed.
Lemma adds_sys_eff {A B} (m : eff W gate_error A) (k : A → M B) (P : B → list gate_event → Prop) (X : gate_error → list gate_event → Prop) :
  (∀ e, X e []) → (∀ a, adds (k a) P X) → adds (sys_eff m ≫= k) P X.
Proof.
  intros HX Hk. apply adds_quiet; [|done]. intros s. unfold sys_eff.
  destruct (m (g_world s)); exists []; rewrite app_nil_r; auto.
Qed.
Lemma adds_note {B} e (k : unit → M B) P X :
  (∀ u, adds (k u) (λ b tr, P b (e :: tr)) (λ x tr, X x (e :: tr))) → adds (note e ≫= k) P X.
Proof.
  intros Hk. apply (adds_bind _ _ (λ _ tr, tr = [e])).
  - intros s. cbn. exists [e]. done.
  - intros u tr ->. apply Hk.
Qed.

Lemma drain_adds fh : adds (drain (W:=W) fh) (λ _ tr, tr = []) never.
Proof. apply adds_sys. intros t. apply adds_sys_do. intros u. by apply adds_ret. Qed.
Lemma drain_then {B} fh (k : string → M B) P X : (∀ out, adds (k out) P X) → adds (drain fh ≫= k) P X.
Proof. intros Hk. apply adds_quiet; [|done]. eapply adds_conseq; [apply drain_adds|done|done]. Qed.

(** What the gate takes for the output of a suite whose log file is [fh], when it looks at [w]. *)
Definition log_text (fh : Z) (w : W) : string :=
  match (gh_read fh w).1 with Ok out => out | Err what => "(could not read suite log: " +:+ what +:+ ")" end.

Lemma drain_text {B} fh (k : string → M B) P X :
  (∀ w, adds (k (log_text fh w)) P X) → adds (drain fh ≫= k) P X.
Proof.
  intros Hk s. rewrite run_bind. unfold drain, sys. rewrite run_bind.
  pose proof (Hk (g_world s)) as H. unfold log_text in H. destruct (gh_read fh (g_world s)) as [t w].
  exact (H (GateState (gh_remove fh w) (g_log s))).
Qed.

(** The output of a suite that ended like this: what its log file held, after a kill with the note on it. *)
Definition output_of (fh : Z) (how : ending) (out : string) : Prop :=
  match how with
  | Exited _ => ∃ w, out = log_text fh w
  | Killed => contains "KILLED" out = true
  end.

(** A round over one suite leaves it running, or records how it ended. *)
Definition settled_as (sl : slot) (how : ending) (out : string) (r : list slot * results_t) (tr : list gate_event) : Prop :=
  r = ([], [(sl_name sl, (code_of how, out))]) ∧ tr = [Ended (sl_name sl) how] ∧ output_of (h_log (sl_handles sl)) how out.

Lemma killed_note_says timeout out : contains "KILLED" (out +:+ killed_note timeout) = true.
Proof.
  unfold killed_note, contains. apply py_in_spec.
  exists (len (chars out ++ [newline; newline] ++ chars "*** ")). split; [unfold len; lia|].
  exists (chars out ++ [newline; newline] ++ chars "*** "). eexists. split; [|done].
  rewrite !chars_app. unfold line_of. rewrite !chars_app, <- !app_assoc. cbn. reflexivity.
Qed.

Lemma reap_one sl timeout :
  adds (reap [sl] [] (Some timeout))
    (λ r tr, (r = ([sl], []) ∧ tr = []) ∨ ∃ how out, settled_as sl how out r tr) never.
Proof.
  cbn [reap]. apply adds_sys. intros rc. apply adds_sys. intros now. destruct (_ && _).
  - apply adds_sys_do. intros _. apply adds_sys. intros b. apply drain_then. intros out.
    apply adds_note. intros _. apply adds_ret. right. exists Killed, (out +:+ killed_note timeout).
    split_and!; [done|done|]. apply killed_note_says.
  - destruct rc as [rc|].
    + apply drain_text. intros w. apply adds_note. intros _. apply adds_ret. right. exists (Exited rc), (log_text (h_log (sl_handles sl)) w).
      split_and!; [done|done|by exists w].
    + apply adds_ret. by left.
Qed.

Lemma drive_adds fuel start limit timeout sl :
  adds (drive fuel start limit timeout [sl] [])
    (λ r tr, (r = ([sl], []) ∧ tr = []) ∨ ∃ how out, settled_as sl how out r tr) (λ _ _, True).
Proof.
  induction fuel as [|fuel IH]; cbn [drive]; [by apply adds_raise|].
  apply adds_sys. intros now. destruct (negb _); [apply adds_ret; by left|].
  eapply adds_bind; [eapply adds_conseq; [apply reap_one|intros ? ? HR; exact HR|done]|].
  intros r tr [[-> ->]|(how & out & -> & -> & Hk)]; apply adds_sys_do; intros _; cbn [fst snd].
  - exact IH.
  - destruct fuel; cbn [drive]; apply adds_ret; right; exists how, out; done.
Qed.

(** One suite, run to its end, in the environment of the self-check. *)
Definition ran_to (name : string) (how : ending) (tr : list gate_event) : Prop :=
  tr = [Launched name gk_skip_build; Ended name how].
(** The handles of a suite that was started. *)
Definition started_as (name path : string) (h : handles) : Prop :=
  ∃ w w', gh_popen (name, [path]) gk_skip_build w = Ret h w'.

(** What a throwaway suite leaves. *)
Lemma throwaway_adds fuel name path limit timeout :
  adds (throwaway fuel name path limit timeout)
    (λ r tr, (∃ sl, r = ([sl], None) ∧ tr = [Launched name gk_skip_build]) ∨
       ∃ how out h, r = ([], Some (code_of how, out)) ∧ ran_to name how tr ∧
         started_as name path h ∧ output_of (h_log h) how out) (λ _ _, True).
Proof.
  unfold throwaway. eapply (adds_bind _ _ (λ sl tr, (sl_name sl = name ∧ started_as name path (sl_handles sl)) ∧
    tr = [Launched name gk_skip_build])).
  { intros s. unfold launch. rewrite run_bind. unfold sys_eff.
    destruct (gh_popen (name, [path]) gk_skip_build (g_world s)) as [h w|e w] eqn:Hp.
    2: { exists []. by rewrite app_nil_r. }
    rewrite run_bind. cbn [note g_world g_log]. rewrite run_bind. unfold sys. cbn [g_world g_log].
    destruct (gh_now w) as [t w']. eexists. split; [reflexivity|]. split; [|done]. split; [done|]. by eexists _, _. }
  intros sl tr [[<- Hs] ->]. apply adds_sys. intros start.
  eapply adds_bind; [eapply adds_conseq; [apply drive_adds|intros ? ? HR; exact HR|done]|].
  intros r tr [[-> ->]|(how & out & -> & -> & Hk)]; apply adds_ret; [left; by exists sl|right].
  exists how, out, (sl_handles sl). cbn [fst snd]. rewrite assoc_cons, decide_True by done. done.
Qed.

Lemma kill_all_adds running : adds (kill_all running) (λ _ tr, tr = []) never.
Proof.
  induction running as [|sl running IH]; cbn [kill_all]; [by apply adds_ret|].
  apply adds_sys_do. intros _. exact IH.
Qed.
Lemma kill_then running (n : Z) (P : Z → list gate_event → Prop) X :
  P n [] → adds (kill_all running;; mret n) P X.
Proof.
  intros HP. apply adds_quiet; [eapply adds_conseq; [apply kill_all_adds|done|done]|]. intros _. by apply adds_ret.
Qed.

(** The suite that hangs does nothing but sleep: nothing in its log file reads like the gate's note. *)
Definition hang_silent : Prop := ∀ path h w,
  started_as "hang" path h → contains "KILLED" (log_text (h_log h) w) = false.

Lemma chatty_adds fuel path :
  adds (check_chatty fuel path)
    (λ failed tr, (failed = 0 ∧ ran_to "chatty" (Exited 0) tr) ∨
       (failed = 1 ∧ ¬ ran_to "chatty" (Exited 0) tr)) (λ _ _, True).
Proof.
  unfold check_chatty. eapply adds_bind; [apply throwaway_adds|].
  intros r tr [(sl & -> & ->)|(how & out & h & -> & -> & _)]; cbn [fst snd].
  - apply kill_then. by right.
  - destruct how as [rc|]; cbn [code_of].
    + destruct (Z.eqb_spec rc 0) as [-> |Hrc]; apply adds_ret; [by left|right]. split; [done|].
      by intros [= ?].
    + apply adds_ret. by right.
Qed.

Lemma hang_adds fuel path :
  adds (check_hang fuel path)
    (λ failed tr, (failed = 0 ∧ ∃ how, ran_to "hang" how tr ∧ how ≠ Exited 0 ∧ (hang_silent → how = Killed)) ∨
       (failed = 1 ∧ ¬ ran_to "hang" Killed tr)) (λ _ _, True).
Proof.
  unfold check_hang. eapply adds_bind; [apply throwaway_adds|].
  intros r tr [(sl & -> & ->)|(how & out & h & -> & -> & Hs & Hk)]; cbn [fst snd]; apply adds_sys; intros _.
  - apply kill_then. by right.
  - destruct how as [rc|]; cbn [code_of].
    + destruct (Z.eqb_spec rc 0) as [-> |Hrc]; [apply adds_ret; by right|].
      destruct (contains "KILLED" out) eqn:Hout; apply adds_ret; [left|by right]. split; [done|].
      exists (Exited rc). split_and!; [done|congruence|]. intros Hq. destruct Hk as [w ->].
      by rewrite (Hq path h w Hs) in Hout.
    + cbn [output_of] in Hk. rewrite Hk. apply adds_ret. left. split; [done|]. by exists Killed.
Qed.

(** ** The restores *)

Definition good_restore : list gate_event := [Ran ["make"; "clean"] 0; Ran ["make"] 0; Found PRG true].
Definition bad_restore (tr : list gate_event) : Prop :=
  (∃ rc, rc ≠ 0 ∧ tr = [Ran ["make"; "clean"] rc]) ∨
  (∃ rc, rc ≠ 0 ∧ tr = [Ran ["make"; "clean"] 0; Ran ["make"] rc]) ∨
  tr = [Ran ["make"; "clean"] 0; Ran ["make"] 0; Found PRG false].
Definition restored_as (why : option string) (tr : list gate_event) : Prop :=
  match why with None => tr = good_restore | Some _ => bad_restore tr end.

Lemma bad_not_good tr : bad_restore tr → tr ≠ good_restore.
Proof. intros [(rc & Hrc & ->)|[(rc & Hrc & ->)| ->]]; unfold good_restore; congruence. Qed.

Lemma make_adds cmd :
  adds (make_checked (W:=W) cmd)
    (λ why tr, match why with None => tr = [Ran cmd 0] | Some _ => ∃ rc, rc ≠ 0 ∧ tr = [Ran cmd rc] end) (λ _ _, True).
Proof.
  unfold make_checked, run_cmd. eapply (adds_bind _ _ (λ r tr, tr = [Ran cmd (c_rc r)])).
  - apply adds_sys_eff; [done|]. intros r. apply adds_note. intros _. by apply adds_ret.
  - intros r tr ->. apply adds_ret. rewrite app_nil_r. destruct (Z.eqb_spec (c_rc r) 0) as [-> |Hrc]; [done|].
    by exists (c_rc r).
Qed.

Lemma restore_adds : adds (restore_default_build (W:=W)) (λ why tr, restored_as why tr) (λ _ _, True).
Proof.
  unfold restore_default_build. eapply adds_bind; [apply make_adds|]. intros [why|] tr Htr.
  { destruct Htr as (rc & Hrc & ->). apply adds_ret. left. by exists rc. }
  subst tr. eapply adds_bind; [apply make_adds|]. intros [why|] tr Htr.
  { destruct Htr as (rc & Hrc & ->). apply adds_ret. right. left. by exists rc. }
  subst tr. unfold exists_noted. eapply (adds_bind _ _ (λ there tr, tr = [Found PRG there])).
  { apply adds_sys. intros there. apply adds_note. intros _. by apply adds_ret. }
  intros [] tr ->; apply adds_ret; [done|]. by do 2 right.
Qed.

Lemma check_restore_adds td :
  adds (check_restore (W:=W) td)
    (λ failed tr, ∃ tr1 tr2, tr = tr1 ++ tr2 ∧ (failed = 0 ∨ failed = 1) ∧
       (failed = 0 ↔ bad_restore tr1 ∧ tr2 = good_restore)) (λ _ _, True).
Proof.
  unfold check_restore. apply adds_sys. intros saved.
  eapply (adds_bind _ _ (λ r tr, ∃ tr1 tr2, tr = tr1 ++ tr2 ∧ restored_as r.1 tr1 ∧ restored_as r.2 tr2)).
  - eapply adds_conseq.
    { apply (adds_finally _ _ (λ r tr, ∃ tr1 tr2, tr = tr1 ++ tr2 ∧ restored_as r.1 tr1 ∧ restored_as r.2 tr2)
               (λ _ _, True) (λ _ tr, tr = []) (λ _ _, True) (λ _ _, True)); [| |done..].
      - apply adds_sys_eff; [done|]. intros _. apply adds_sys_eff; [done|]. intros _.
        eapply adds_bind; [apply restore_adds|]. intros why tr1 H1.
        apply adds_sys_eff; [done|]. intros _. eapply adds_bind; [apply restore_adds|]. intros why_ok tr2 H2.
        apply adds_ret. rewrite app_nil_r. by exists tr1, tr2.
      - intros s. unfold sys_eff. destruct (gk_chdir saved (g_world s)); exists []; by rewrite app_nil_r. }
    + intros r tr (tr' & ? & -> & Hr & ->). by rewrite app_nil_r.
    + done.
  - intros [why why_ok] tr (tr1 & tr2 & -> & H1 & H2). apply adds_ret. rewrite app_nil_r.
    exists tr1, tr2. split; [done|]. destruct why, why_ok; cbn in *.
    + split; [by right|]. split; [done|]. intros [_ ?]. by apply bad_not_good in H2.
    + by split; [left|].
    + split; [by right|]. split; [done|]. intros [?%bad_not_good _]. done.
    + split; [by right|]. split; [done|]. intros [?%bad_not_good _]. done.
Qed.
End logs.

(** ** The documents *)

Definition count_right (total : Z) (text : option string) (pat : rx) : Prop :=
  ∃ t, text = Some t ∧ finditer pat t ≠ [] ∧ Forall (λ m, parse_int 10 (group 1 m) = Some total) (finditer pat t).

Lemma count_failures_zero total text pat :
  0 ≤ count_failures total text pat ∧ (count_failures total text pat = 0 ↔ count_right total text pat).
Proof.
  unfold count_failures, count_right. destruct text as [t|]; [|split; [lia|]; split; [lia|by intros (? & ? & _)]].
  destruct (finditer pat t) as [|m ms] eqn:Hf; cbn [fmap list_fmap].
  { split; [lia|]. split; [lia|]. intros (t' & [= <-] & Hne & _). by rewrite Hf in Hne. }
  split; [unfold len; lia|].
  assert (Hz : ∀ l : list spot, len (List.filter (λ h, negb (bool_decide (parse_int 10 h = Some total))) (group 1 <$> l)) = 0 ↔
    Forall (λ m, parse_int 10 (group 1 m) = Some total) l).
  { intros l. induction l as [|x l IH]; [by split|]. rewrite Forall_cons, <- IH. cbn [fmap list_fmap List.filter].
    case_bool_decide as Hx; cbn [negb]; [naive_solver|]. unfold len. cbn [length]. split; [lia|]. by intros [? _]. }
  specialize (Hz (m :: ms)). cbn [fmap list_fmap] in Hz. rewrite Hz. split.
  - intros Hall. exists t. rewrite Hf. done.
  - intros (t' & [= <-] & _ & Hall). by rewrite Hf in Hall.
Qed.

(** Every document, read in turn, states the count. *)
Fixpoint claims_hold {W} `{!GateHost W} (claims : list (string * rx)) (total : Z) (w : W) : Prop :=
  match claims with
  | [] => True
  | (path, pat) :: claims =>
      let '(text, w) := gh_read_file path w in count_right total text pat ∧ claims_hold claims total w
  end.

Lemma check_counts_zero {W} `{!GateHost W} claims total (s : gate_state W) :
  ∃ n s', check_counts claims total s = Ret n s' ∧ 0 ≤ n ∧ g_log s' = g_log s ∧
    (n = 0 ↔ claims_hold claims total (g_world s)).
Proof.
  revert s. induction claims as [|[path pat] claims IH]; intros s; cbn [check_counts claims_hold].
  { exists 0, s. done. }
  rewrite run_bind. unfold sys. destruct (gh_read_file path (g_world s)) as [text w].
  destruct (IH (GateState w (g_log s))) as (n & s' & Hrun & Hn & Hl & Hiff). rewrite run_bind, Hrun.
  destruct (count_failures_zero total text pat) as [H0 Hc].
  exists (count_failures total text pat + n), s'. split_and!; [done|lia|done|].
  rewrite <- Hc. cbn [g_world] in Hiff. rewrite <- Hiff. lia.
Qed.

(** ** The self-check ends *)

Section clock.
Context {W : Type} `{!GateHost W, !CheckHost W, !GateClock W}.
Abbreviation M := (eff (gate_state W) gate_error).
Abbreviation settles_at := (settles_at no_fuel).
Abbreviation in_fuel := (in_fuel no_fuel).

(** A step that returns, and does not turn the clock back behind [c]. *)
Definition onward {A} (m : M A) : Prop :=
  ∀ c, triple (λ s, c ≤ clk (g_world s)) m (λ _ s, c ≤ clk (g_world s)) (λ _ _, False).

Lemma onward_ret {A} (a : A) : onward (mret a).
Proof. by intros c s Hs. Qed.
Lemma onward_bind {A B} (m : M A) (f : A → M B) : onward m → (∀ a, onward (f a)) → onward (m ≫= f).
Proof. intros Hm Hf c. eapply triple_bind; [apply Hm|]. intros a. apply Hf. Qed.
Lemma onward_sys {A} (f : W → A * W) : (∀ w, clk w ≤ clk (f w).2) → onward (sys f).
Proof. intros Hf c s Hs. unfold sys. pose proof (Hf (g_world s)). destruct (f (g_world s)). cbn in *. lia. Qed.
Lemma onward_sys_do (f : W → W) : (∀ w, clk w ≤ clk (f w)) → onward (sys_do f).
Proof. intros Hf c s Hs. cbn. pose proof (Hf (g_world s)). lia. Qed.
Lemma onward_note e : onward (note e).
Proof. by intros c s Hs. Qed.
Lemma onward_now : onward (sys gh_now).
Proof. apply onward_sys. intros w. pose proof (clk_reads w). lia. Qed.
Lemma onward_drain fh : onward (drain (W:=W) fh).
Proof.
  apply onward_bind; [apply onward_sys, clk_read|]. intros t.
  apply onward_bind; [apply onward_sys_do, clk_remove|]. intros u. apply onward_ret.
Qed.

Lemma onward_reap running results timeout : onward (reap running results timeout).
Proof.
  revert results. induction running as [|sl running IH]; intros results; cbn [reap]; [apply onward_ret|].
  apply onward_bind; [apply onward_sys, clk_poll|]. intros rc.
  apply onward_bind; [apply onward_now|]. intros now. destruct (_ && _).
  - apply onward_bind; [apply onward_sys_do, clk_kill|]. intros u.
    apply onward_bind; [apply onward_sys, clk_wait|]. intros b.
    apply onward_bind; [apply onward_drain|]. intros out. apply onward_bind; [apply onward_note|]. intros u'. apply IH.
  - destruct rc as [rc|].
    + apply onward_bind; [apply onward_drain|]. intros out. apply onward_bind; [apply onward_note|]. intros u. apply IH.
    + apply onward_bind; [apply IH|]. intros r. apply onward_ret.
Qed.

Lemma throwaway_drive_settles start limit timeout running results s :
  settles_at (λ fuel, drive fuel start limit timeout running results) s.
Proof.
  remember (Z.to_nat (limit * 1000 - (clk (g_world s) - start))) as k eqn:Hk.
  revert running results s Hk. induction k as [k IH] using lt_wf_ind; intros running results s Hk.
  destruct running as [|sl running]; [exists 0%nat, (Ret ([], results) s); split; [done|]; by intros []|].
  apply settles_at_succ. cbn [drive].
  pose proof (clk_reads (g_world s)) as Hr.
  assert (Hnow : ∀ B (f : Z → M B), (sys gh_now ≫= f) s =
    f (gh_now (g_world s)).1 (GateState (gh_now (g_world s)).2 (g_log s)))
    by (intros B f; rewrite run_bind; unfold sys; by destruct (gh_now (g_world s))).
  destruct (gh_now (g_world s)) as [now w]; cbn [fst snd] in *.
  destruct (Z.ltb_spec (now - start) (limit * 1000)) as [Hlt|Hge].
  2: { exists 0%nat, (Ret (sl :: running, results) (GateState w (g_log s))). split; [done|]. intros fuel _.
       rewrite Hnow. by rewrite (proj2 (Z.ltb_ge _ _)). }
  set (s1 := GateState w (g_log s)). pose proof (onward_reap (sl :: running) results (Some timeout) (clk w) s1) as Hreap.
  destruct (reap (sl :: running) results (Some timeout) s1) as [r s2|e s2] eqn:Hrun; [|by destruct (Hreap ltac:(done))].
  specialize (Hreap ltac:(done)). pose proof (clk_sleep 200 (g_world s2)) as Hsleep.
  set (s3 := GateState (gh_sleep 200 (g_world s2)) (g_log s2)).
  assert (Hless : (Z.to_nat (limit * 1000 - (clk (g_world s3) - start)) < k)%nat) by (subst k; cbn [g_world s3]; lia).
  destruct (IH _ Hless r.1 r.2 s3 eq_refl) as (n & o & Ho & Hn).
  exists n, o. split; [done|]. intros fuel Hf. rewrite Hnow, (proj2 (Z.ltb_lt _ _)) by done. cbn [negb].
  fold s1. rewrite run_bind, Hrun, run_bind. by apply Hn.
Qed.

Lemma throwaway_settles name path limit timeout s :
  settles_at (λ fuel, throwaway fuel name path limit timeout) s.
Proof.
  apply settles_at_then; [apply launch_in_fuel|]. intros sl s1 _.
  apply settles_at_then; [apply sys_in_fuel|]. intros start s2 _.
  apply settles_at_bind; [apply throwaway_drive_settles|]. intros _ r s3 _. by apply settles_at_const.
Qed.

Lemma kill_all_in_fuel running (n : Z) (s : gate_state W) : in_fuel ((kill_all running;; mret n) s).
Proof.
  pose proof (kill_then running n (λ _ _, True) (λ _ _, False) I s) as Hk.
  by destruct ((kill_all running;; mret n) s); [|destruct Hk as (? & _ & [])].
Qed.

Lemma chatty_settles path s : settles_at (λ fuel, check_chatty fuel path) s.
Proof.
  apply settles_at_bind; [apply throwaway_settles|]. intros _ [[|sl l] [[rc out]|]] s1 _; apply settles_at_const;
    cbn [fst snd]; try apply kill_all_in_fuel. by destruct (rc =? 0).
Qed.

Lemma hang_settles path s : settles_at (λ fuel, check_hang fuel path) s.
Proof.
  apply settles_at_bind; [apply throwaway_settles|]. intros _ r s1 _.
  apply settles_at_then; [apply sys_in_fuel|]. intros now s2 _.
  destruct r as [[|sl l] [[rc out]|]]; apply settles_at_const; cbn [fst snd]; try apply kill_all_in_fuel.
  destruct (rc =? 0); [done|]. by destruct (contains "KILLED" out).
Qed.

(** The files and directories are no source of the model's own error either. *)
Context (mkdtemp_error : ∀ w w', gk_mkdtemp w ≠ Raise NoFuel w')
        (write_error : ∀ path text w w', gk_write path text w ≠ Raise NoFuel w')
        (chdir_error : ∀ path w w', gk_chdir path w ≠ Raise NoFuel w').

Lemma finally_in_fuel {A} (m : M A) (last : M unit) (s : gate_state W) :
  in_fuel (m s) → (∀ s, in_fuel (last s)) → in_fuel (finally m last s).
Proof.
  intros Hm Hl. unfold finally. destruct (m s) as [a s1|e s1]; specialize (Hl s1); by destruct (last s1).
Qed.

Lemma check_restore_in_fuel td s : in_fuel (check_restore (W:=W) td s).
Proof.
  apply in_fuel_bind; [apply sys_in_fuel|]. intros saved s1. apply in_fuel_bind; [|done].
  apply finally_in_fuel; [|by intros; apply sys_eff_in_fuel; auto].
  apply in_fuel_bind; [by apply sys_eff_in_fuel; auto|]. intros _ s2.
  apply in_fuel_bind; [by apply sys_eff_in_fuel; auto|]. intros _ s3.
  apply in_fuel_bind; [apply restore_in_fuel|]. intros why s4.
  apply in_fuel_bind; [by apply sys_eff_in_fuel; auto|]. intros _ s5.
  by apply in_fuel_bind; [apply restore_in_fuel|].
Qed.

Lemma self_check_settles s : settles_at (λ fuel, self_check (W:=W) fuel) s.
Proof.
  apply settles_at_then; [by apply sys_eff_in_fuel; auto|]. intros td s1 _.
  apply settles_at_then; [by apply sys_eff_in_fuel; auto|]. intros _ s2 _.
  apply settles_at_then; [by apply sys_eff_in_fuel; auto|]. intros _ s3 _.
  apply settles_at_bind; [apply chatty_settles|]. intros _ f1 s4 _.
  apply settles_at_bind; [apply hang_settles|]. intros _ f2 s5 _.
  apply settles_at_const. apply in_fuel_bind; [apply check_restore_in_fuel|]. intros f3 s6.
  destruct (check_counts_zero COUNT_CLAIMS (len TESTS + len SERIAL_TESTS) s6) as (n & s7 & Hrun & _).
  by rewrite run_bind, Hrun.
Qed.
End clock.

Module SelfCheck.
(** C8. The self-check passes, with exit code 0 and not 1, exactly if the suite that writes two megabytes was started
    and ended by itself with exit code 0, the one that hangs was started and was killed, a first restore
    of the build failed (a command failed or the program was missing) and a second one succeeded, and every
    document states the number of suites that the lists hold.  The gate tells a kill by the note in the
    output, so this asks that the hanging suite, a script that only sleeps, does not print such a note
    itself; without that, a pass still shows that it did not end with exit code 0. *)
Theorem self_check_verdict {W} `{!GateHost W, !CheckHost W} fuel (s s' : gate_state W) rc :
  self_check fuel s = Ret rc s' →
  ∃ chatty hang bad good w, g_log s' = g_log s ++ chatty ++ hang ++ bad ++ good ∧ (rc = 0 ∨ rc = 1) ∧
    let rest := ran_to "chatty" (Exited 0) chatty ∧ bad_restore bad ∧ good = good_restore ∧
                claims_hold COUNT_CLAIMS 57 w in
    (hang_silent → rc = 0 ↔ rest ∧ ran_to "hang" Killed hang) ∧
    (rc = 0 → rest ∧ ∃ how, ran_to "hang" how hang ∧ how ≠ Exited 0) ∧
    (rest ∧ ran_to "hang" Killed hang → rc = 0).
Proof.
  unfold self_check. rewrite run_bind. unfold sys_eff at 1. destruct (gk_mkdtemp (g_world s)) as [td w0|]; [|done].
  rewrite run_bind. unfold sys_eff at 1. cbn [g_world]. destruct (gk_write _ CHATTY w0) as [? w1|]; [|done].
  rewrite run_bind. unfold sys_eff at 1. cbn [g_world]. destruct (gk_write _ HANG w1) as [? w2|]; [|done].
  set (s0 := GateState w2 (g_log s)).
  change (GateState w2 _) with s0. rewrite run_bind.
  pose proof (chatty_adds fuel (td +:+ "/chatty.py") s0) as H1.
  destruct (check_chatty fuel _ s0) as [f1 s1|]; [|done]. destruct H1 as (t1 & L1 & H1).
  rewrite run_bind. pose proof (hang_adds fuel (td +:+ "/hang.py") s1) as H2.
  destruct (check_hang fuel _ s1) as [f2 s2|]; [|done]. destruct H2 as (t2 & L2 & H2).
  rewrite run_bind. pose proof (check_restore_adds td s2) as H3.
  destruct (check_restore td s2) as [f3 s3|]; [|done]. destruct H3 as (tr & L3 & t3 & t4 & -> & Hf3 & H3).
  rewrite run_bind. change (len TESTS + len SERIAL_TESTS) with 57.
  destruct (check_counts_zero COUNT_CLAIMS 57 s3) as (n & s4 & Hrun & Hn & L4 & H4). rewrite Hrun.
  cbn. intros [= <- <-]. exists t1, t2, t3, t4, (g_world s3).
  split; [by rewrite L4, L3, L2, L1, <- !app_assoc|].
  split; [destruct (_ =? 0); auto|]. cbv zeta.
  set (rc := if f1 + f2 + f3 + n =? 0 then 0 else 1).
  assert (Hpass : rc = 0 → (ran_to "chatty" (Exited 0) t1 ∧ bad_restore t3 ∧ t4 = good_restore ∧
      claims_hold COUNT_CLAIMS 57 (g_world s3)) ∧ ∃ how, ran_to "hang" how t2 ∧ how ≠ Exited 0 ∧ (hang_silent → how = Killed)).
  { unfold rc. destruct (Z.eqb_spec (f1 + f2 + f3 + n) 0) as [Hsum|]; [|done]. intros _.
    destruct H1 as [[-> ?]|[-> _]]; [|lia]. destruct H2 as [[-> ?]|[-> _]]; [|lia].
    assert (f3 = 0) as H30 by lia. assert (n = 0) as H40 by lia.
    apply H3 in H30 as [? ?]. apply H4 in H40. done. }
  match goal with |- _ ∧ _ ∧ ?back => assert (Hback : back) end.
  { intros ((Hc & Hb & Hg & Hd) & Hk). destruct H1 as [[-> _]|[_ ?]]; [|done].
    destruct H2 as [[-> _]|[_ ?]]; [|done]. unfold rc. rewrite (proj2 H3), (proj2 H4) by done. done. }
  split_and!; [|naive_solver|done]. intros Hq. split; [|done].
  intros (Hrest & how & Hr & _ & Hk)%Hpass. by rewrite (Hk Hq) in Hr.
Qed.

(** The self-check ends whatever its suites do. *)
Theorem self_check_ends {W} `{!GateHost W, !CheckHost W, !GateClock W} s :
  (∀ w w', gk_mkdtemp (W:=W) w ≠ Raise NoFuel w') →
  (∀ path text w w', gk_write (W:=W) path text w ≠ Raise NoFuel w') →
  (∀ path w w', gk_chdir (W:=W) path w ≠ Raise NoFuel w') →
  settles_at no_fuel (λ fuel, self_check (W:=W) fuel) s.
Proof. intros. by apply self_check_settles. Qed.

(** ** A system on which the self-check passes *)

(** A clock, the working directory's makefile, and the two suites: process 1 ends, process 2 does not. *)
#[export] Instance small_host : GateHost (Z * Z * bool) := {|
  gh_popen s _ w := let '(t, n, mk) := w in Ret (Handles n n) (t, n + 1, mk);
  gh_poll p w := (if p =? 1 then Some 0 else None, w);
  gh_kill _ w := w;
  gh_wait _ _ w := (true, w);
  gh_read _ w := (Ok "x", w);
  gh_remove _ w := w;
  gh_now w := (w.1.1, w);
  gh_sleep ms w := let '(t, n, mk) := w in (t + Z.max 0 ms, n, mk);
  gh_run cmd w := Ret (Completed (if bool_decide (cmd = ["make"]) && negb w.2 then 2 else 0) "" "no") w;
  gh_exists _ w := (true, w);
  gh_read_file path w := (Some "All 57 suites, must pass (57 suites)", w);
  gh_sha256 _ w := (None, w);
|}.
#[export] Instance small_check : CheckHost (Z * Z * bool) := {|
  gk_mkdtemp w := Ret "/tmp/g" w;
  gk_write path text w := Ret tt (w.1, if bool_decide (text = GOOD_MAKEFILE) then true else false);
  gk_getcwd w := ("/", w);
  gk_chdir _ w := Ret tt w;
  gk_skip_build := false;
|}.
Definition small_run : outcome (gate_state (Z * Z * bool)) gate_error Z := self_check 200 (GateState (0, 1, false) []).

Lemma self_check_verdict_witness :
  ∃ s', small_run = Ret 0 s' ∧ ∃ chatty hang bad good, g_log s' = [] ++ chatty ++ hang ++ bad ++ good ∧
    ran_to "chatty" (Exited 0) chatty ∧ bad_restore bad ∧ good = good_restore ∧ ran_to "hang" Killed hang.
Proof.
  assert (Hrun : ∃ s', self_check 200 (GateState (0, 1, false) []) = Ret 0 s') by (eexists; vm_compute; reflexivity).
  destruct Hrun as [s' Hrun]. exists s'. split; [exact Hrun|].
  pose proof (self_check_verdict 200 (GateState (0, 1, false) []) s' 0 Hrun) as Hspec.
  destruct Hspec as (chatty & hang & bad & good & w & Hl & _ & Hok & _).
  assert (Hsilent : hang_silent) by (intros path h w' _; vm_compute; reflexivity).
  destruct (proj1 (Hok Hsilent) eq_refl) as [(Hc & Hb & Hg & _) Hk].
  exists chatty, hang, bad, good. split; [exact Hl|]. split; [exact Hc|]. split; [exact Hb|]. split; [exact Hg|exact Hk].
Defined.
End SelfCheck.
