(* ===== verification/RigConst.v ===== *)
(** * The constants of the hardware rig (tools/ip65_hw_checks.py)

    The addresses of the rig's segment are read from the helper script that raises it, or pinned
    where no helper is installed.  The file system is the class [Helper]; text is ASCII. *)

From S2P Require Export PyRegex PyDict.

Inductive read_failure := FileMissing | ReadFailed (why : string).

(** The environment's RRNET_RIG_HELPER, and [Path(path).read_text()]. *)
Class Helper := {
  hp_env : option string;
  hp_read : string → res read_failure string;
}.

(** [RigConstError] for a helper that cannot be read or has stopped defining a name; the
    [KeyError] of a name that is not pinned; the [OSError] of an interface file; the [ValueError]
    of an address that is not hexadecimal. *)
Inductive const_error :=
| Unreadable (path why : string)
| NoLongerDefines (path name : string)
| NotPinned (name : string)
| IfaceUnreadable (why : string)
| NotHex (s : string).
Definition missing_const (e : const_error) : bool :=
  match e with Unreadable _ _ | NoLongerDefines _ _ => true | _ => false end.

Definition RIG_PINNED : list (string * string) :=
  [("HOST_IP", "10.0.66.1"); ("C64_MAC", "00:0e:3a:64:64:64"); ("C64_IP", "10.0.66.200");
   ("TEST_HOST", "www.foo.invalid"); ("PIDFILE", "/var/run/c64-harness/rrnet-dnsmasq.pid");
   ("LEASEFILE", "/var/run/c64-harness/rrnet-dnsmasq.leases");
   ("LOGFILE", "/var/log/c64-harness/rrnet-dnsmasq.log");
   ("IFACEFILE", "/var/run/c64-harness/rrnet.iface"); ("RRNET_NIC_MAC", "a0:ce:c8:dd:f4:f9")].
Definition RIG_POOL_PINNED : string * string := ("10.0.66.10", "10.0.66.60").
Definition REDACTED_MAC : string := "02:00:00:00:00:00".

(** ** What a helper publishes *)

Definition name_char (c : ascii) : bool := is_upper c || is_digit c || bool_decide (c = "_"%char).
Definition value_char (c : ascii) : bool :=
  negb (space_char c || bool_decide (c ∈ ["#"%char; "'"%char; ascii_of_nat 34; "$"%char])).

Definition ASSIGNMENT : rx :=
  RSeq RBol (RSeq (RGroup 1 (RSeq (RChar is_upper) (RStar (RChar name_char)))) (RSeq (RLit "=")
    (RSeq (RGroup 2 (RPlus (RChar value_char))) (RSeq (RStar (RChar space_char)) REol)))).

Definition dotted_char (c : ascii) : bool := is_digit c || bool_decide (c = "."%char).
Definition DHCP_RANGE : rx :=
  RSeq (RLit "--dhcp-range=") (RSeq (RGroup 1 (RPlus (RChar dotted_char))) (RSeq (RLit ",")
    (RSeq (RGroup 2 (RPlus (RChar dotted_char))) (RLit ",")))).

Definition published (text : string) : list (string * string) :=
  let consts := dict_of ((λ m, (group 1 m, group 2 m)) <$> finditer ASSIGNMENT text) in
  match rx_search DHCP_RANGE text with
  | Some m => dict_set "--dhcp-range" (group 1 m +:+ "," +:+ group 2 m) consts
  | None => consts
  end.

Definition pinned (name : string) : res const_error string :=
  match assoc name RIG_PINNED with Some v => Ok v | None => Err (NotPinned name) end.

(** ** The module's constants *)

Record module_consts := ModuleConsts {
  mc_error : option const_error;
  mc_host_ip : string;
  mc_c64_ip : string;
  mc_c64_mac : bytes;
  mc_subnet : string;
}.

Definition MODULE_CONSTS : list string := ["HOST_IP"; "C64_IP"; "C64_MAC"].

Section helper.
Context `{!Helper}.

Definition RRNET_RIG_UP : string :=
  default "/usr/local/libexec/c64-harness/rrnet-rig-up.sh" hp_env.

Definition read_rig_helper (path : string) : res const_error (option (list (string * string))) :=
  match hp_read path with
  | Err FileMissing => Ok None
  | Err (ReadFailed why) => Err (Unreadable path why)
  | Ok text => Ok (Some (published text))
  end.

Definition rig_const (name path : string) : res const_error string :=
  helper ← read_rig_helper path;
  match helper with
  | None => pinned name
  | Some consts =>
      match assoc name consts with
      | Some v => Ok v
      | None => Err (NoLongerDefines path name)
      end
  end.

(** [re.fullmatch(r"[a-z]+[0-9]+", name)] *)
Definition IFACE_NAME : rx := RSeq (RPlus (RChar is_lower)) (RPlus (RChar is_digit)).

Definition rig_iface (path : option string) : res const_error (option string) :=
  path ← match path with
         | Some p => if decide (p = "") then rig_const "IFACEFILE" RRNET_RIG_UP else Ok p
         | None => rig_const "IFACEFILE" RRNET_RIG_UP
         end;
  match hp_read path with
  | Err FileMissing => Ok None
  | Err (ReadFailed why) => Err (IfaceUnreadable why)
  | Ok text => let name := strip text in Ok (if rx_full IFACE_NAME name then Some name else None)
  end.

(** The loop that tries every constant, up to the first that cannot be had. *)
Fixpoint helper_error (names : list string) : res const_error (option const_error) :=
  match names with
  | [] => Ok None
  | name :: names =>
      match rig_const name RRNET_RIG_UP with
      | Ok _ => helper_error names
      | Err e => if missing_const e then Ok (Some e) else Err e
      end
  end.

Definition module_const (error : option const_error) (name : string) : res const_error string :=
  match error with Some _ => pinned name | None => rig_const name RRNET_RIG_UP end.

(** What the import of the module computes; [s.rsplit(".", 1)[0]] is all of a text without a
    dot. *)
Definition module_import : res const_error module_consts :=
  error ← helper_error MODULE_CONSTS;
  host_ip ← module_const error "HOST_IP";
  c64_ip ← module_const error "C64_IP";
  mac ← module_const error "C64_MAC";
  match fromhex (List.filter (λ c, negb (bool_decide (c = ":"%char))) (chars mac)) with
  | None => Err (NotHex mac)
  | Some c64_mac =>
      let '(net, dotted, _) := rpartition "." host_ip in
      Ok (ModuleConsts error host_ip c64_ip c64_mac ((if dotted then net else host_ip) +:+ ".0"))
  end.
End helper.

(** ** The Mac's side of the cable *)

Inductive mac_note := NoEtherLine | Redacted (published : string) | Agree | NoNote.
Inductive mac_problem := WrongNic (published observed : string).

Definition resolve_host_mac (published : string) (observed : option string) :
    option string * option mac_problem * mac_note :=
  let pub := lower published in
  match observed with
  | None => (Some pub, None, NoEtherLine)
  | Some observed =>
      let obs := lower observed in
      if decide (obs = REDACTED_MAC) then (Some pub, None, Redacted pub)
      else if decide (obs = pub) then (Some pub, None, Agree)
      else (None, Some (WrongNic pub obs), NoNote)
  end.

Example published_ex :
  published (lines_text ["#!/bin/sh"; "HOST_IP=10.0.66.1"; "  INDENTED=no"; "QUOTED='x'"; "C64_IP=10.0.66.200";
    "HOST_IP=10.0.66.2"; "dnsmasq --dhcp-range=10.0.66.10,10.0.66.60,255.255.255.0,1h"])
  = [("HOST_IP", "10.0.66.2"); ("C64_IP", "10.0.66.200"); ("--dhcp-range", "10.0.66.10,10.0.66.60")].
Proof. by vm_compute. Qed.
