(* ===== verification/RigConstThms.v ===== *)
(** * The constants of the hardware rig: the properties

    A helper's assignments read back as written, a name it does not publish is an error and never
    the pin, and the module's constants come from one source. *)

From S2P Require Export RegexThms RigConst.
#[local] Set Warnings "-clear-no-such-hyp".

(** ** Scanning a text for matches *)

(** The fuel of a scan does not matter, as long as it exceeds the length of the text. *)
Lemma scan_fuel r fuel fuel' p l :
  (length l < fuel)%nat → (length l < fuel')%nat → scan_rx fuel r p l = scan_rx fuel' r p l.
Proof.
  revert fuel' p l. induction fuel as [|fuel IH]; intros [|fuel'] p l H H'; try lia.
  cbn [scan_rx].
  assert (Hnext : match l with [] => [] | c :: l' => scan_rx fuel r (Some c) l' end
                  = match l with [] => [] | c :: l' => scan_rx fuel' r (Some c) l' end).
  { destruct l as [|c l]; [done|]. cbn in H, H'. apply IH; lia. }
  destruct (run_rx r (spot_at p l)) as [|s' others]; [done|]. f_equal.
  destruct (Nat.ltb_spec (length (sp_rest s')) (length l)); [|done]. apply IH; lia.
Qed.

Section scan.
Context (r : rx).

(** The matches from a position on. *)
Definition scan (p : option ascii) (l : list ascii) : list spot := scan_rx (S (length l)) r p l.

Lemma scan_skip p c l : run_rx r (spot_at p (c :: l)) = [] → scan p (c :: l) = scan (Some c) l.
Proof. unfold scan. intros H. cbn [scan_rx length]. by rewrite H. Qed.

Lemma scan_hit p l s' others :
  run_rx r (spot_at p l) = s' :: others → (length (sp_rest s') < length l)%nat →
  scan p l = s' :: scan (sp_prev s') (sp_rest s').
Proof.
  intros H Hlt. unfold scan at 1. cbn [scan_rx]. rewrite H, (proj2 (Nat.ltb_lt _ _)) by done.
  f_equal. apply scan_fuel; lia.
Qed.
End scan.

(** What a repeated class can leave of a text. *)
Lemma star_spots f s s' :
  s' ∈ run_rx (RStar (RChar f)) s →
  ∃ w, sp_rest s = w ++ sp_rest s' ∧ Forall (λ c, f c = true) w ∧ sp_groups s' = sp_groups s ∧
       sp_prev s' = match last w with Some c => Some c | None => sp_prev s end.
Proof.
  cbn [run_rx]. set (star := fix star (fuel : nat) (s : spot) : list spot := _).
  generalize (length (sp_rest s)) as fuel. intros fuel. revert s.
  induction fuel as [|fuel IH]; intros s; cbn [star].
  - intros ->%list_elem_of_singleton. by exists [].
  - rewrite elem_of_app, list_elem_of_singleton. intros [Hin| ->]; [|by exists []].
    apply list_elem_of_bind in Hin as (s1 & Hin & Hs1). cbn [run_rx] in Hs1.
    destruct s as [p [|c l] g]; cbn [sp_rest sp_groups sp_prev] in *; [by apply elem_of_nil in Hs1|].
    destruct (f c) eqn:Hc; [|by apply elem_of_nil in Hs1].
    apply list_elem_of_singleton in Hs1 as ->. cbn [sp_rest sp_groups] in *.
    case_match; [|by apply elem_of_nil in Hin]. apply IH in Hin as (w & Hw & Hf & Hg & Hp).
    cbn [sp_rest sp_groups sp_prev] in *. exists (c :: w). rewrite Hw, Hg, Hp.
    split_and!; [done|by constructor|done|]. destruct w as [|d w]; [done|]. rewrite !last_cons.
    by destruct (last w).
Qed.

(** A repeated class, then the end of a line: there is a success, and it stands behind characters
    of the class only. *)
Lemma star_eol f p l g :
  from_option (λ c, bool_decide (c = newline)) true (head l) = true →
  ∃ w p' l' others, run_rx (RSeq (RStar (RChar f)) REol) (Spot p l g) = Spot p' l' g :: others ∧
    l = w ++ l' ∧ Forall (λ c, f c = true) w ∧ p' = match last w with Some c => Some c | None => p end.
Proof.
  intros Hl.
  assert (Hall : ∀ s', s' ∈ run_rx (RSeq (RStar (RChar f)) REol) (Spot p l g) →
    s' ∈ run_rx (RStar (RChar f)) (Spot p l g)).
  { intros s' (s1 & Hin & Hs1)%list_elem_of_bind. cbn [run_rx] in Hin.
    destruct (sp_rest s1) as [|c l1]; [by apply list_elem_of_singleton in Hin as ->|].
    case_decide; [by apply list_elem_of_singleton in Hin as ->|by apply elem_of_nil in Hin]. }
  assert (Hself : Spot p l g ∈ run_rx (RSeq (RStar (RChar f)) REol) (Spot p l g)).
  { apply list_elem_of_bind. exists (Spot p l g). split.
    - cbn [run_rx sp_rest]. destruct l as [|c l]; [by left|]. cbn in Hl. apply bool_decide_eq_true in Hl.
      rewrite decide_True by done. by left.
    - cbn [run_rx]. generalize (length (sp_rest (Spot p l g))) as n. intros [|n]; [by left|].
      apply elem_of_app. right. by left. }
  destruct (run_rx (RSeq (RStar (RChar f)) REol) (Spot p l g)) as [|s' others] eqn:Hrun; [by apply elem_of_nil in Hself|].
  destruct (star_spots f _ s' (Hall s' ltac:(by left))) as (w & Hw & Hf & Hg & Hp). destruct s' as [p' l' g'].
  cbn [sp_rest sp_groups sp_prev] in *. subst g'. by exists w, p', l', others.
Qed.

(** ** The lines of a helper *)

Inductive helper_line := Assigned (name value : string) | Other (text : string).
Definition helper_line_text (h : helper_line) : string :=
  match h with Assigned name value => name +:+ "=" +:+ value | Other text => text end.
Definition assignments (ls : list helper_line) : list (string * string) :=
  omap (λ h, match h with Assigned name value => Some (name, value) | Other _ => None end) ls.

(** A name of capitals, a bare value; any other line does not begin with a capital letter. *)
Definition const_name (s : string) : Prop :=
  from_option is_upper false (head (chars s)) = true ∧ Forall (λ c, name_char c = true) (chars s).
Definition bare_value (s : string) : Prop :=
  chars s ≠ [] ∧ Forall (λ c, value_char c = true) (chars s).
Definition helper_line_ok (h : helper_line) : Prop :=
  match h with
  | Assigned name value => const_name name ∧ bare_value value
  | Other text => (newline ∉ chars text) ∧ from_option is_upper false (head (chars text)) = false
  end.

Definition bol (p : option ascii) : bool := from_option (λ c, bool_decide (c = newline)) true p.

Lemma no_assignment p l :
  (bol p = false ∨ from_option is_upper false (head l) = false) → run_rx ASSIGNMENT (spot_at p l) = [].
Proof.
  unfold ASSIGNMENT, spot_at, bol. intros H. cbn [run_rx sp_prev mbind list_bind].
  destruct p as [c|]; [destruct (decide (c = newline)) as [->|Hc]|]; cbn [mbind list_bind app].
  2: done.
  all: destruct l as [|d l]; cbn in *; [done|]; destruct H as [H|H]; [by try rewrite bool_decide_eq_true_2 in H|by rewrite H].
Qed.

Lemma newline_space : space_char newline = true ∧ is_upper newline = false ∧ value_char newline = false.
Proof. by vm_compute. Qed.
Lemma space_not_upper c : space_char c = true → is_upper c = false.
Proof.
  unfold space_char, is_upper, in_range.
  rewrite !orb_true_iff, !andb_true_iff, andb_false_iff, !Z.leb_le, !Z.leb_gt, !Z.eqb_eq. lia.
Qed.

(** No match begins at a blank, nor inside a line, nor on a line that does not begin with a capital. *)
Lemma skip_spaces p w l :
  Forall (λ c, space_char c = true) w →
  scan ASSIGNMENT p (w ++ l) = scan ASSIGNMENT (match last w with Some c => Some c | None => p end) l.
Proof.
  intros Hw. revert p. induction Hw as [|c w Hc Hw IH]; intros p; [done|]. cbn [app].
  rewrite scan_skip, IH by (apply no_assignment; right; by apply space_not_upper).
  destruct w as [|d w]; [done|]. rewrite !last_cons. by destruct (last w).
Qed.

Lemma skip_inside p l rest :
  bol p = false → newline ∉ l → ∃ p', scan ASSIGNMENT p (l ++ rest) = scan ASSIGNMENT p' rest.
Proof.
  intros Hp Hl. revert p Hp. induction l as [|c l IH]; intros p Hp; [by exists p|].
  apply not_elem_of_cons in Hl as [Hc Hl]. cbn [app]. rewrite scan_skip by (apply no_assignment; by left).
  apply IH; [done|]. cbn. by apply bool_decide_eq_false.
Qed.

Lemma skip_newline p rest : scan ASSIGNMENT p (newline :: rest) = scan ASSIGNMENT (Some newline) rest.
Proof. apply scan_skip, no_assignment. by right. Qed.

Lemma other_line p l rest :
  newline ∉ l → from_option is_upper false (head l) = false →
  scan ASSIGNMENT p (l ++ newline :: rest) = scan ASSIGNMENT (Some newline) rest.
Proof.
  intros Hl Hh. destruct l as [|c l]; [apply skip_newline|]. apply not_elem_of_cons in Hl as [Hc Hl].
  cbn [app]. rewrite scan_skip by (apply no_assignment; by right).
  destruct (skip_inside (Some c) l (newline :: rest)) as [p' ->]; [cbn; by apply bool_decide_eq_false|done|].
  apply skip_newline.
Qed.

(** A first success, and what comes behind it. *)
Lemma first_then r r' l m g g' (Q : spot → Prop) :
  first r l m g g' → (∀ p, ∃ s' others, run_rx r' (Spot p m g') = s' :: others ∧ Q s') →
  ∀ p, ∃ s' others, run_rx (RSeq r r') (Spot p l g) = s' :: others ∧ Q s'.
Proof.
  intros Hr Hr' p. destruct (Hr p) as (p' & others & Heq), (Hr' p') as (s' & more & Hs & HQ).
  cbn [run_rx]. rewrite Heq. cbn [mbind list_bind]. rewrite Hs. by eexists _, _.
Qed.

Lemma assigned_line p name value rest :
  bol p = true → const_name name → bare_value value →
  ∃ s', group 1 s' = name ∧ group 2 s' = value ∧
    scan ASSIGNMENT p (chars (name +:+ "=" +:+ value) ++ newline :: rest)
    = s' :: scan ASSIGNMENT (Some newline) rest.
Proof.
  intros Hp [Hhead Hname] [Hne Hvalue].
  set (Q s' := sp_groups s' = [(2%nat, chars value); (1%nat, chars name)] ∧
    ∃ w, newline :: rest = w ++ sp_rest s' ∧ Forall (λ c, space_char c = true) w ∧
         (w ≠ [] → sp_prev s' = last w)).
  assert (Hrun : ∀ p, ∃ s' others, run_rx (RSeq (RGroup 1 (RSeq (RChar is_upper) (RStar (RChar name_char))))
    (RSeq (RLit "=") (RSeq (RGroup 2 (RPlus (RChar value_char))) (RSeq (RStar (RChar space_char)) REol))))
    (Spot p (chars name ++ chars "=" ++ chars value ++ newline :: rest) []) = s' :: others ∧ Q s').
  { apply (first_then _ _ _ (chars "=" ++ chars value ++ newline :: rest) _ [(1%nat, chars name)]).
    { apply first_group. destruct Hname as [|c cs Hc Hcs]; [done|].
      eapply first_seq; [by apply first_char|by apply first_star]. }
    apply (first_then _ _ _ (chars value ++ newline :: rest) _ [(1%nat, chars name)]); [apply first_lit|].
    apply (first_then _ _ _ (newline :: rest) _ [(2%nat, chars value); (1%nat, chars name)]);
      [apply first_group, first_plus; [done|done|apply newline_space]|].
    intros p'. destruct (star_eol space_char p' (newline :: rest) [(2%nat, chars value); (1%nat, chars name)])
      as (w & q & l' & others & Hrun & Hw & Hf & Hq); [by apply bool_decide_eq_true|].
    eexists _, _. split; [exact Hrun|]. split; [done|]. exists w. split_and!; [done|done|].
    intros Hwne. cbn [sp_prev]. rewrite Hq. by destruct w as [|c w _] using rev_ind; [|rewrite last_snoc]. }
  destruct (Hrun p) as (s' & others & Hs & Hg & w & Hw & Hf & Hprev). exists s'.
  unfold group. rewrite Hg. split_and!; [apply str_chars..|]. rewrite !chars_app, <- !app_assoc.
  rewrite (scan_hit _ _ _ s' others).
  - f_equal. rewrite <- (skip_newline None rest), Hw, skip_spaces by done.
    destruct w as [|c w _] using rev_ind; [|rewrite Hprev by (by destruct w); by rewrite last_snoc].
    cbn [last app] in *. by rewrite <- Hw, !skip_newline.
  - unfold ASSIGNMENT, spot_at. cbn [run_rx sp_prev]. unfold bol in Hp. cbn [run_rx] in Hs.
    destruct p as [c|]; [cbn in Hp; apply bool_decide_eq_true in Hp; rewrite decide_True by done|];
      cbn [mbind list_bind]; rewrite app_nil_r; exact Hs.
  - apply (f_equal length) in Hw. rewrite length_app in Hw. cbn [length] in Hw. rewrite !length_app.
    cbn [length chars String.list_ascii_of_string]. lia.
Qed.

Lemma scan_lines ls p :
  bol p = true → Forall helper_line_ok ls →
  (λ m, (group 1 m, group 2 m)) <$> scan ASSIGNMENT p (chars (lines_text (helper_line_text <$> ls)))
  = assignments ls.
Proof.
  intros Hp Hls. revert p Hp. induction Hls as [|h ls Hh Hls IH]; intros p Hp.
  - unfold scan. cbn [lines_text foldr fmap list_fmap chars String.list_ascii_of_string length scan_rx].
    by rewrite no_assignment by (by right).
  - rewrite fmap_cons, chars_lines_text. destruct h as [name value|text].
    + destruct Hh as [Hn Hv].
      destruct (assigned_line p name value (chars (lines_text (helper_line_text <$> ls))) Hp Hn Hv)
        as (s' & H1 & H2 & Hs).
      cbn [helper_line_text]. rewrite Hs, fmap_cons, H1, H2. cbn [fst snd].
      change (assignments (Assigned name value :: ls)) with ((name, value) :: assignments ls).
      f_equal. by apply IH.
    + destruct Hh as [Hn Hu]. cbn [helper_line_text]. rewrite other_line by done. by apply IH.
Qed.

(** What a name is given last is what a helper publishes for it. *)
Lemma assoc_published name ls :
  Forall helper_line_ok ls → name ≠ "--dhcp-range" →
  assoc name (published (lines_text (helper_line_text <$> ls))) = assoc name (rev (assignments ls)).
Proof.
  intros Hls Hn. unfold published, finditer.
  change (scan_rx _ ASSIGNMENT None ?l) with (scan ASSIGNMENT None l). rewrite scan_lines by done.
  destruct (rx_search _ _); [|apply assoc_dict_of].
  rewrite assoc_dict_set, decide_False by done. apply assoc_dict_of.
Qed.

(** ** The module's constants *)

(** The constants all come from one source. *)
Definition comes_from (source : string → option string) (mc : module_consts) : Prop :=
  source "HOST_IP" = Some (mc_host_ip mc) ∧ source "C64_IP" = Some (mc_c64_ip mc) ∧
  ∃ mac, source "C64_MAC" = Some mac ∧
         fromhex (List.filter (λ c, negb (bool_decide (c = ":"%char))) (chars mac)) = Some (mc_c64_mac mc).
Definition from_pins (name : string) : option string := assoc name RIG_PINNED.

Section rig.
Context `{!Helper}.

Definition from_helper (name : string) : option string :=
  match hp_read RRNET_RIG_UP with Ok text => assoc name (published text) | Err _ => None end.

(** Where a constant is looked up. *)
Lemma rig_const_cases name :
  rig_const name RRNET_RIG_UP =
  match hp_read RRNET_RIG_UP with
  | Err FileMissing => pinned name
  | Err (ReadFailed why) => Err (Unreadable RRNET_RIG_UP why)
  | Ok _ => match from_helper name with
            | Some v => Ok v
            | None => Err (NoLongerDefines RRNET_RIG_UP name)
            end
  end.
Proof. unfold rig_const, read_rig_helper, from_helper. by destruct (hp_read RRNET_RIG_UP) as [text|[|why]]. Qed.
End rig.

(** The three pins. *)
Lemma pins_known :
  pinned "HOST_IP" = Ok "10.0.66.1" ∧ pinned "C64_IP" = Ok "10.0.66.200" ∧
  pinned "C64_MAC" = Ok "00:0e:3a:64:64:64".
Proof. by vm_compute. Qed.

Module RigConsts.
Section rig.
Context `{!Helper}.

(** A constant is the pin only where no helper is installed.  Of an installed helper it is the
    last value the helper's lines give to the name, and an error when they give none or the helper
    cannot be read. *)
Theorem rig_const_exact (name path : string) (ls : list helper_line) :
  (hp_read path = Err FileMissing → rig_const name path = pinned name) ∧
  (∀ why, hp_read path = Err (ReadFailed why) → rig_const name path = Err (Unreadable path why)) ∧
  (Forall helper_line_ok ls → name ≠ "--dhcp-range" →
   hp_read path = Ok (lines_text (helper_line_text <$> ls)) →
   rig_const name path = match assoc name (rev (assignments ls)) with
                         | Some v => Ok v
                         | None => Err (NoLongerDefines path name)
                         end).
Proof.
  unfold rig_const, read_rig_helper. split_and!.
  - by intros ->.
  - by intros why ->.
  - intros Hls Hn ->. cbn [mbind res_bind]. by rewrite assoc_published.
Qed.

(** The constants of the module never mix two sources: without an error they are all the
    helper's, or all the pins where none is installed; with an error, which is one of the helper's,
    they are all the pins.  The import of the module raises only for a published address of the C64
    that is not hexadecimal. *)
Theorem module_consts_one_source :
  match module_import with
  | Ok mc =>
      match mc_error mc with
      | None => (hp_read RRNET_RIG_UP = Err FileMissing ∧ comes_from from_pins mc) ∨
                comes_from from_helper mc
      | Some e => missing_const e = true ∧ comes_from from_pins mc ∧
                  ¬ ∃ mc', comes_from from_helper mc'
      end
  | Err e => ∃ mac, e = NotHex mac ∧ from_helper "C64_MAC" = Some mac ∧
             fromhex (List.filter (λ c, negb (bool_decide (c = ":"%char))) (chars mac)) = None
  end.
Proof.
  unfold module_import, MODULE_CONSTS, comes_from. cbn [helper_error]. rewrite !rig_const_cases.
  assert (Hunread : (∀ text, hp_read RRNET_RIG_UP ≠ Ok text) → ∀ name, from_helper name = None).
  { intros Hno name. unfold from_helper. destruct (hp_read RRNET_RIG_UP) as [text|]; [by destruct (Hno text)|done]. }
  destruct (hp_read RRNET_RIG_UP) as [text|[|why]] eqn:Hread.
  - destruct (from_helper "HOST_IP") as [host|] eqn:H1; [|cbn; split_and!; naive_solver].
    destruct (from_helper "C64_IP") as [c64|] eqn:H2; [|cbn; split_and!; naive_solver].
    destruct (from_helper "C64_MAC") as [mac|] eqn:H3; [|cbn; split_and!; naive_solver].
    cbn [mbind res_bind module_const]. rewrite !rig_const_cases, Hread, H1, H2, H3.
    cbn [mbind res_bind]. destruct (fromhex _) as [c64_mac|] eqn:Hm; [|by exists mac].
    destruct (rpartition _ _) as [[net dotted] ?]. right. cbn. naive_solver.
  - rewrite !(proj1 pins_known), !(proj1 (proj2 pins_known)), !(proj2 (proj2 pins_known)). cbn [mbind res_bind module_const]. rewrite !rig_const_cases, Hread, !(proj1 pins_known), !(proj1 (proj2 pins_known)), !(proj2 (proj2 pins_known)).
    cbn. left. naive_solver.
  - cbn [mbind res_bind missing_const module_const]. rewrite !(proj1 pins_known), !(proj1 (proj2 pins_known)), !(proj2 (proj2 pins_known)). cbn.
    split; [done|split; [naive_solver|]]. intros (mc' & Hhost & _). by rewrite Hunread in Hhost.
Qed.

(** The address taken for the Mac's side of the cable is never any but the published one; the
    two that are at hand are reported as different exactly when a real address was observed, and it
    is another than the published. *)
Theorem resolve_host_mac_exact (pub : string) (observed : option string) :
  let '(mac, problem, note) := resolve_host_mac pub observed in
  (mac = None ∨ mac = Some (lower pub)) ∧ (mac = None ↔ is_Some problem) ∧
  (is_Some problem ↔ ∃ obs, observed = Some obs ∧ lower obs ≠ REDACTED_MAC ∧ lower obs ≠ lower pub) ∧
  (note = Agree ↔ lower <$> observed = Some (lower pub) ∧ lower pub ≠ REDACTED_MAC).
Proof.
  unfold resolve_host_mac, is_Some. destruct observed as [obs|]; cbn; [repeat case_decide|]; cbn.
  all: naive_solver congruence.
Qed.
End rig.

(** A helper on which every name of the module stands. *)
Definition demo_lines : list helper_line :=
  [Other "#!/bin/sh"; Assigned "HOST_IP" "10.0.67.1"; Other ""; Assigned "C64_IP" "10.0.67.200";
   Assigned "C64_MAC" "00:0e:3a:64:64:65"; Assigned "HOST_IP" "10.0.68.1"; Other "exec dnsmasq"].
Definition demo_helper : Helper := {|
  hp_env := None;
  hp_read := λ _, Ok (lines_text (helper_line_text <$> demo_lines));
|}.

Example demo_constants :
  @module_import demo_helper =
    Ok (ModuleConsts None "10.0.68.1" "10.0.67.200" [0; 14; 58; 100; 100; 101] "10.0.68.0").
Proof. by vm_compute. Qed.
End RigConsts.
