(* ===== verification/Provenance.v ===== *)
(** * What a run was made of (tools/ip65_hw_checks.py)

    The stamp of a run: the commit, the state of the worktree, and the files it loaded with their
    hashes.  What git, the file system and the clock answer is the class [RunHost]; a path is the
    text of a [Path]; text is ASCII. *)

From S2P Require Export PyRegex PyHashlib PyDict.

(** [rh_git] gives the exit code and the output of git in a directory, [None] when it cannot be run
    or times out; [rh_read] and [rh_mtime] give the text of an [OSError] on the right.
    [rh_resolve] gives absolute paths. *)
Class RunHost := {
  rh_git : string → list string → option (Z * string);
  rh_read : string → res string bytes;
  rh_mtime : string → res string string;
  rh_resolve : string → string;
}.

Inductive loaded :=
| Loaded (path sha256 : string) (size : Z) (mtime : string) (repo_relative : option string)
| NotLoaded (path error : string).

Record stamp := Stamp {
  st_repo : option string;
  st_commit : option string;
  st_dirty : option bool;
  st_dirty_files : list string;
  st_untracked : list string;
  st_loaded_untracked : list string;
  st_loaded : list loaded;
  st_loaded_outside_repo : list string;
  st_loaded_modified : list string;
  st_note : string;
}.

(** An answer that is there and not the empty text. *)
Definition truthy (s : option string) : bool :=
  match s with Some s => negb (bool_decide (s = "")) | None => false end.

(** The pieces of [s.split("->")]. *)
Fixpoint split_arrow (l acc : list ascii) : list (list ascii) :=
  match l with
  | [] => [rev acc]
  | a :: l' =>
      match l' with
      | b :: r =>
          if bool_decide (a = "-"%char) && bool_decide (b = ">"%char) then rev acc :: split_arrow r []
          else split_arrow l' (a :: acc)
      | [] => [rev (a :: acc)]
      end
  end.

(** The name on a line of [git status --porcelain], of a rename the target. *)
Definition porcelain_name (line : string) : string :=
  let name := strip (str (drop 3 (chars line))) in
  if contains "->" name then strip (str (default [] (last (split_arrow (chars name) [])))) else name.

(** The names of the untracked files, or those of all others. *)
Definition status_names (untracked : bool) (porcelain : string) : list string :=
  omap (λ line,
    let name := porcelain_name line in
    if decide (name = "") then None
    else if Bool.eqb (startswith "??" line) untracked then Some name else None)
    (splitlines porcelain).

(** [p.relative_to(root)] for absolute paths, [None] for a [ValueError]. *)
Definition relative_to (p root : string) : option string :=
  if decide (p = root) then Some "."
  else
    let dir := if decide (root = "/") then root else root +:+ "/" in
    if startswith dir p then Some (str (drop (length (chars dir)) (chars p))) else None.

(** [rel == u or rel.startswith(u.rstrip("/") + "/")] *)
Definition at_or_under (rel u : string) : bool :=
  bool_decide (rel = u) ||
  startswith (str (rstrip (λ c, bool_decide (c = "/"%char)) (chars u)) +:+ "/") rel.

Definition no_commit_note : string :=
  "not a git repository, or git unavailable -- this output cannot be tied to a commit".

Section host.
Context `{!RunHost}.

(** Only the newlines at the end are taken off. *)
Definition git (repo : string) (args : list string) : option string :=
  r ← rh_git repo args;
  if r.1 =? 0 then Some (str (rstrip (λ c, bool_decide (c = newline)) (chars r.2))) else None.

Definition load (toplevel : option string) (p : string) : loaded :=
  match rh_read p with
  | Err e => NotLoaded p e
  | Ok data =>
      match rh_mtime p with
      | Err e => NotLoaded p e
      | Ok mtime =>
          Loaded p (hex_bytes (Sha256.digest data)) (len data) mtime
            (match toplevel with
             | Some top => if truthy toplevel then relative_to (rh_resolve p) (rh_resolve top) else None
             | None => None
             end)
      end
  end.

(** What of a loaded file goes into the lists: its path when it is outside the repository, its
    name there when it is changed or untracked. *)
Definition outside_of (toplevel : option string) (e : loaded) : option string :=
  match e with
  | Loaded p _ _ _ None => if truthy toplevel then Some p else None
  | _ => None
  end.
Definition modified_of (changed : list string) (e : loaded) : option string :=
  match e with
  | Loaded _ _ _ _ (Some rel) => if bool_decide (rel ∈ changed) then Some rel else None
  | _ => None
  end.
Definition untracked_of (untracked : list string) (e : loaded) : option string :=
  match e with
  | Loaded _ _ _ _ (Some rel) => if existsb (at_or_under rel) untracked then Some rel else None
  | _ => None
  end.

Definition provenance (paths : list string) (root : string) : stamp :=
  let commit := git root ["rev-parse"; "--short"; "HEAD"] in
  let toplevel := git root ["rev-parse"; "--show-toplevel"] in
  let porcelain := if truthy commit then git root ["status"; "--porcelain"] else None in
  let changed := sort_unique (status_names false (default "" porcelain)) in
  let untracked := sort_unique (status_names true (default "" porcelain)) in
  let entries := load toplevel <$> paths in
  {| st_repo := toplevel;
     st_commit := commit;
     st_dirty := (λ s, negb (bool_decide (strip s = ""))) <$> porcelain;
     st_dirty_files := changed;
     st_untracked := untracked;
     st_loaded_untracked := omap (untracked_of untracked) entries;
     st_loaded := entries;
     st_loaded_outside_repo := omap (outside_of toplevel) entries;
     st_loaded_modified := omap (modified_of changed) entries;
     st_note := if truthy commit then "" else no_commit_note |}.
End host.

(** ** The stamp as lines *)

Definition show (s : option string) : string := default "None" s.

Definition worktree_state (s : stamp) : string :=
  let tracked := len (st_dirty_files s) in
  let untracked_n := len (st_untracked s) in
  match st_dirty s with
  | None => "worktree state UNKNOWN"
  | Some _ =>
      if negb (tracked =? 0) then
        "DIRTY (" +:+ dec tracked +:+ " tracked paths modified"
        +:+ (if negb (untracked_n =? 0) then ", " +:+ dec untracked_n +:+ " untracked)" else ")")
      else if negb (untracked_n =? 0) then
        "tracked tree CLEAN (" +:+ dec untracked_n +:+ " untracked paths)"
      else "CLEAN"
  end.

(** [repo_relative or path] *)
Definition loaded_line (e : loaded) : string :=
  match e with
  | NotLoaded path error => "  loaded !! " +:+ path +:+ ": " +:+ error
  | Loaded path sha size mtime rel =>
      "  loaded " +:+ (if truthy rel then default "" rel else path)
      +:+ "  sha256=" +:+ str (take 16 (chars sha)) +:+ " bytes=" +:+ dec size +:+ " mtime=" +:+ mtime
  end.

Definition format_provenance (s : stamp) : list string :=
  [if truthy (st_commit s)
   then "provenance: " +:+ show (st_commit s) +:+ " " +:+ worktree_state s +:+ "   repo=" +:+ show (st_repo s)
   else "provenance: NO COMMIT -- " +:+ st_note s]
  ++ (loaded_line <$> st_loaded s)
  ++ ((λ p, "  !! " +:+ p +:+ " is OUTSIDE " +:+ show (st_repo s)
            +:+ " -- this run did not load the repo's copy") <$> st_loaded_outside_repo s)
  ++ ((λ rel, "  !! " +:+ rel +:+ " is MODIFIED in the worktree -- this run is NOT of "
              +:+ show (st_commit s)) <$> st_loaded_modified s)
  ++ ((λ rel, "  !! " +:+ rel +:+ " is UNTRACKED -- it is not in " +:+ show (st_commit s) +:+ " at all")
      <$> st_loaded_untracked s).

Example status_names_ex :
  status_names false (lines_text [" M tools/x.py"; "R  old.txt -> new.txt"; "?? cache/"])
  = ["tools/x.py"; "new.txt"].
Proof. by vm_compute. Qed.
