(* ===== verification/ProvenanceThms.v ===== *)
(** * What a run was made of: the properties

    What git prints of a worktree is read back, the first line of the stamp says how it stands, and
    an input of the run that is not the commit's is reported. *)

From S2P Require Export RegexThms Provenance.
#[local] Set Warnings "-clear-no-such-hyp".

(** ** A worktree as git prints it *)

(** A path as git prints it: as it is, or in quotes with what is special in it escaped.  Either way it stays in its
    line and no blank stands at its ends; one with an arrow in it is left out. *)
Definition ends_shown (l : list ascii) : Prop :=
  from_option space_char false (head l) = false ∧ from_option space_char false (last l) = false.
Definition printed_path (s : string) : Prop :=
  chars s ≠ [] ∧ ends_shown (chars s) ∧ Forall (λ c, line_break c = false) (chars s) ∧ contains "->" s = false.

Inductive change :=
| Changed (x y : ascii) (path : string)
| Renamed (x y : ascii) (old new : string)
| Untracked (path : string).
Definition status_line (c : change) : string :=
  match c with
  | Changed x y path => String x (String y (" " +:+ path))
  | Renamed x y old new => String x (String y (" " +:+ old +:+ " -> " +:+ new))
  | Untracked path => "?? " +:+ path
  end.
Definition change_name (c : change) : string :=
  match c with Changed _ _ path | Untracked path => path | Renamed _ _ _ new => new end.
Definition is_untracked (c : change) : bool := match c with Untracked _ => true | _ => false end.

(** The code of a change is two characters, not those of an untracked file. *)
Definition change_code (x y : ascii) : Prop :=
  line_break x = false ∧ line_break y = false ∧ x ≠ "?"%char.
Definition change_ok (c : change) : Prop :=
  match c with
  | Changed x y path => change_code x y ∧ printed_path path
  | Renamed x y old new => change_code x y ∧ printed_path old ∧ printed_path new
  | Untracked path => printed_path path
  end.

(** The printed paths of the changes that are untracked, or of those that are not. *)
Definition names_of (untracked : bool) (cs : list change) : list string :=
  change_name <$> List.filter (λ c, Bool.eqb (is_untracked c) untracked) cs.

(** ** Names *)

Definition no_arrow (l : list ascii) : Prop := ¬ occurs (chars "->") l.

Lemma contains_no_arrow s : contains "->" s = false ↔ no_arrow (chars s).
Proof. unfold no_arrow, contains. rewrite <- py_in_spec. by destruct (py_in _ _). Qed.

Lemma occurs_behind {A} (pat pre l : list A) : occurs pat l → occurs pat (pre ++ l).
Proof.
  intros (i & Hi & a & b & -> & Hl). exists (len pre + i). split; [pose proof (len_nonneg pre); lia|].
  exists (pre ++ a), b. by rewrite <- app_assoc, len_app, Hl.
Qed.

Lemma split_arrow_none l acc : no_arrow l → split_arrow l acc = [rev acc ++ l].
Proof.
  revert acc. induction l as [|a l IH]; intros acc Hno; [by rewrite app_nil_r|].
  assert (Hl : no_arrow l) by (intros Ho; apply Hno; by apply (occurs_behind _ [a])).
  cbn [split_arrow]. destruct l as [|b r]; [done|].
  case_bool_decide as Ha; [case_bool_decide as Hb|]; cbn [andb].
  - destruct Hno. subst. exists 0. split; [done|]. by exists [], r.
  - rewrite IH by done. cbn [rev]. by rewrite <- app_assoc.
  - rewrite IH by done. cbn [rev]. by rewrite <- app_assoc.
Qed.

Lemma split_arrow_cons l acc : split_arrow l acc ≠ [].
Proof.
  revert acc. induction l as [|a l IH]; intros acc; [done|]. cbn [split_arrow].
  destruct l as [|b r]; [done|]. destruct (_ && _); [done|apply IH].
Qed.

(** The last piece is what stands behind the last arrow. *)
Lemma split_arrow_last pre new acc :
  no_arrow (" "%char :: new) → last (split_arrow (pre ++ chars " -> " ++ new) acc) = Some (" "%char :: new).
Proof.
  intros Hno. remember (length pre) as n eqn:Hn. revert pre acc Hn.
  induction (lt_wf n) as [n _ IH]; intros pre acc ->.
  destruct pre as [|a pre].
  - change (split_arrow ([] ++ chars " -> " ++ new) acc)
      with (rev (" "%char :: acc) :: split_arrow (" "%char :: new) []).
    by rewrite last_cons, split_arrow_none.
  - cbn [app split_arrow]. destruct pre as [|b pre].
    + cbn [app chars String.list_ascii_of_string].
      rewrite (bool_decide_eq_false_2 (" "%char = ">"%char)), andb_false_r by done.
      exact (IH 0%nat ltac:(cbn; lia) [] _ eq_refl).
    + cbn [app]. destruct (_ && _).
      * rewrite last_cons. by rewrite (IH (length pre) ltac:(cbn; lia) pre _ eq_refl).
      * exact (IH (S (length pre)) ltac:(cbn; lia) (b :: pre) _ eq_refl).
Qed.

(** Stripping takes the blanks around a text whose ends are not blank. *)
Lemma drop_while_app {A} (f : A → bool) w l : Forall (λ x, f x = true) w → drop_while f (w ++ l) = drop_while f l.
Proof. induction 1 as [|x w Hx Hw IH]; [done|]. cbn. by rewrite Hx. Qed.
Lemma drop_while_head {A} (f : A → bool) l : from_option f false (head l) = false → drop_while f l = l.
Proof. destruct l as [|x l]; [done|]. cbn. by intros ->. Qed.

Lemma strip_between w l :
  Forall (λ c, space_char c = true) w → from_option space_char false (head l) = false →
  from_option space_char false (last l) = false → strip (str (w ++ l)) = str l.
Proof.
  intros Hw Hh Hl. unfold strip. rewrite chars_str, drop_while_app, drop_while_head by done. f_equal.
  unfold rstrip. rewrite drop_while_head; [apply rev_involutive|].
  destruct l as [|c l _] using rev_ind; [done|]. rewrite rev_app_distr. cbn [rev app head]. by rewrite last_snoc in Hl.
Qed.

Lemma strip_spaced n s :
  ends_shown (chars s) → strip (str (replicate n " "%char ++ chars s)) = s.
Proof.
  intros []. rewrite strip_between; [apply str_chars| |done..].
  by apply Forall_replicate.
Qed.

Lemma porcelain_name_plain x y z path :
  printed_path path → porcelain_name (String x (String y (String z path))) = path.
Proof.
  intros (Hne & Hs & _ & Ha). unfold porcelain_name.
  change (str (drop 3 (chars (String x (String y (String z path))))))
    with (str (replicate 0 " "%char ++ chars path)).
  by rewrite strip_spaced, Ha.
Qed.

Lemma head_app_ne {A} (l k : list A) : l ≠ [] → head (l ++ k) = head l.
Proof. by destruct l. Qed.

Lemma porcelain_name_renamed x y z old new :
  printed_path old → printed_path new →
  porcelain_name (String x (String y (String z (old +:+ " -> " +:+ new)))) = new.
Proof.
  intros (Hne & Hs & _ & Ha) (Hne' & Hs' & _ & Ha'). unfold porcelain_name.
  change (str (drop 3 (chars (String x (String y (String z (old +:+ " -> " +:+ new)))))))
    with (str (chars (old +:+ " -> " +:+ new))).
  rewrite !chars_app. pose proof (proj1 Hs) as Hh. pose proof (proj2 Hs') as Hl.
  rewrite <- (app_nil_l (chars old ++ _)), strip_between; [|done| |].
  - replace (contains "->" _) with true; [rewrite chars_str, split_arrow_last|].
    + exact (strip_spaced 1 new Hs').
    + intros (i & Hi & a & b & Heq & Hlen). apply contains_no_arrow in Ha'. apply Ha'.
      destruct a as [|c a]; [done|]. injection Heq as <- ->. exists (len a). split; [apply len_nonneg|]. by exists a, b.
    + symmetry. apply py_in_spec. rewrite chars_str. apply occurs_behind.
      exists 1. split; [done|]. by exists [" "%char], (" "%char :: chars new).
  - by rewrite head_app_ne.
  - rewrite app_assoc, last_app. by destruct (chars new) as [|c l _] using rev_ind; [|rewrite last_snoc in *].
Qed.

Lemma status_line_name c : change_ok c → porcelain_name (status_line c) = change_name c.
Proof.
  destruct c as [x y path|x y old new|path]; cbn [change_ok status_line change_name].
  - intros [_ Hp]. by apply porcelain_name_plain.
  - intros (_ & Ho & Hn). by apply porcelain_name_renamed.
  - intros Hp. exact (porcelain_name_plain "?" "?" " " path Hp).
Qed.

Lemma status_line_untracked c : change_ok c → startswith "??" (status_line c) = is_untracked c.
Proof.
  destruct c as [x y path|x y old new|path]; [intros [(_ & _ & Hx) _]|intros [(_ & _ & Hx) _]|done];
    cbn; by rewrite bool_decide_eq_false_2.
Qed.

Lemma status_line_plain c :
  change_ok c → Forall (λ c, line_break c = false) (chars (status_line c)) ∧
  ∃ l d, chars (status_line c) = l ++ [d] ∧ line_break d = false.
Proof.
  assert (Hgen : ∀ l, l ≠ [] → Forall (λ c, line_break c = false) l →
    Forall (λ c, line_break c = false) l ∧ ∃ k d, l = k ++ [d] ∧ line_break d = false).
  { intros l Hne Hl. split; [done|]. destruct l as [|d k _] using rev_ind; [done|].
    apply Forall_app in Hl as [_ Hd]. apply Forall_cons in Hd as [Hd _]. by exists k, d. }
  destruct c as [x y path|x y old new|path]; cbn [change_ok status_line]; intros H; apply Hgen; try done.
  - destruct H as [(Hx & Hy & _) (_ & _ & Hp & _)]. by repeat constructor.
  - destruct H as ((Hx & Hy & _) & (_ & _ & Ho & _) & (_ & _ & Hn & _)).
    change (chars _) with ([x; y; " "%char] ++ chars (old +:+ " -> " +:+ new)). rewrite !chars_app, !Forall_app.
    by split_and!; [repeat constructor| |repeat constructor|].
  - destruct H as (_ & _ & Hp & _). by repeat constructor.
Qed.

Lemma chars_lines_snoc ts t :
  chars (lines_text (ts ++ [t])) = chars (lines_text ts) ++ chars t ++ [newline].
Proof.
  induction ts as [|t' ts IH].
  - change ([] ++ [t]) with [t]. by rewrite chars_lines_text.
  - change ((t' :: ts) ++ [t]) with (t' :: (ts ++ [t])). rewrite !chars_lines_text, IH.
    by rewrite <- ?app_assoc, ?app_comm_cons, <- ?app_assoc.
Qed.

Lemma status_line_ends c : ∃ pre, chars (status_line c) = pre ++ chars (change_name c).
Proof.
  destruct c as [x y path|x y old new|path]; cbn [status_line change_name].
  - by exists [x; y; " "%char].
  - exists ([x; y; " "%char] ++ chars old ++ chars " -> ").
    change (chars (String x (String y (" " +:+ old +:+ " -> " +:+ new))))
      with ([x; y; " "%char] ++ chars (old +:+ " -> " +:+ new)).
    by rewrite !chars_app, <- !app_assoc.
  - by exists (chars "?? ").
Qed.

(** What git printed, without the newline at its end. *)
Definition status_text (cs : list change) : string :=
  str (rstrip (λ c, bool_decide (c = newline)) (chars (lines_text (status_line <$> cs)))).

Lemma status_text_snoc cs c :
  change_ok c →
  status_text (cs ++ [c]) = str (chars (lines_text (status_line <$> cs)) ++ chars (status_line c)).
Proof.
  intros Hc. destruct (status_line_plain c Hc) as (Hplain & l & d & Hl & Hd).
  assert (Hne : d ≠ newline) by (intros ->; done).
  unfold status_text. rewrite fmap_app. cbn [fmap list_fmap]. rewrite chars_lines_snoc. f_equal.
  unfold rstrip. rewrite app_assoc, rev_app_distr, Hl. cbn [rev app drop_while].
  rewrite bool_decide_eq_true_2 by done. rewrite app_assoc, rev_app_distr. cbn [rev app drop_while].
  rewrite bool_decide_eq_false_2 by done. cbn [rev]. by rewrite rev_involutive.
Qed.

(** Its lines. *)
Lemma status_lines cs : Forall change_ok cs → splitlines (status_text cs) = status_line <$> cs.
Proof.
  intros Hcs. destruct cs as [|c cs _] using rev_ind; [done|].
  apply Forall_app in Hcs as [Hcs Hc]. apply Forall_cons in Hc as [Hc _].
  destruct (status_line_plain c Hc) as (Hplain & l & d & Hl & Hd).
  rewrite status_text_snoc, fmap_app by done. cbn [fmap list_fmap].
  unfold splitlines. rewrite chars_str, lines_chars_text, lines_chars_last; [|done| |].
  - rewrite fmap_app. f_equal; [|cbn; by rewrite str_chars].
    generalize (status_line <$> cs) as ts. intros ts. induction ts as [|t ts IH]; [done|].
    by rewrite !fmap_cons, str_chars, IH.
  - rewrite Hl. by destruct l.
  - apply Forall_fmap. eapply Forall_impl; [exact Hcs|]. intros c' Hc'. apply (status_line_plain c' Hc').
Qed.

Lemma change_name_plain c : change_ok c → printed_path (change_name c).
Proof. destruct c; cbn [change_ok change_name]; tauto. Qed.

Lemma status_names_read b cs :
  Forall change_ok cs →
  status_names b (status_text cs) = names_of b cs.
Proof.
  intros Hcs. unfold status_names, names_of. rewrite status_lines by done.
  induction Hcs as [|c cs Hc Hcs IH]; [done|]. cbn [fmap list_fmap omap list_omap List.filter].
  rewrite status_line_name, status_line_untracked by done.
  assert (change_name c ≠ "").
  { intros Hnil. destruct (change_name_plain c Hc) as [Hne _]. by rewrite Hnil in Hne. }
  rewrite decide_False by done. destruct (Bool.eqb _ _); [|exact IH].
  cbn [fmap list_fmap]. f_equal. exact IH.
Qed.

(** ** The stamp *)

Lemma rstrip_newline l : newline ∉ l → rstrip (λ c, bool_decide (c = newline)) (l ++ [newline]) = l.
Proof.
  intros Hl. unfold rstrip. rewrite rev_app_distr. cbn [rev app drop_while].
  rewrite bool_decide_eq_true_2 by done. rewrite drop_while_head; [apply rev_involutive|].
  destruct l as [|c l _] using rev_ind; [done|]. rewrite rev_app_distr. cbn.
  apply bool_decide_eq_false. intros ->. apply Hl, elem_of_app. right. by left.
Qed.

(** Only blanks strip to nothing. *)
Lemma drop_while_nil {A} (f : A → bool) l : drop_while f l = [] → Forall (λ x, f x = true) l.
Proof. intros Hd. destruct (drop_while_suffix f l) as (k & Hl & Hk). rewrite Hd, app_nil_r in Hl. by subst. Qed.
Lemma strip_nil s : strip s = "" → Forall (λ c, space_char c = true) (chars s).
Proof.
  unfold strip, rstrip. intros Hs%(f_equal chars). rewrite chars_str in Hs.
  change (chars "") with (@nil ascii) in Hs. apply (f_equal (@rev ascii)) in Hs. rewrite rev_involutive in Hs.
  apply drop_while_nil, Forall_rev in Hs. rewrite rev_involutive in Hs.
  destruct (drop_while_suffix space_char (chars s)) as (k & -> & Hk). by apply Forall_app.
Qed.

Lemma status_text_blank cs :
  Forall change_ok cs →
  bool_decide (strip (status_text cs) = "") = bool_decide (cs = []).
Proof.
  intros Hcs. apply bool_decide_ext. split; [|by intros ->]. intros Hs%strip_nil.
  destruct cs as [|c cs _] using rev_ind; [done|]. exfalso.
  apply Forall_app in Hcs as [_ Hc]. apply Forall_cons in Hc as [Hc _].
  rewrite status_text_snoc, chars_str in Hs by done. apply Forall_app in Hs as [_ Hs].
  destruct (status_line_ends c) as [pre Hpre]. rewrite Hpre in Hs. apply Forall_app in Hs as [_ Hs].
  destruct (change_name_plain c Hc) as (Hne & [Hp _] & _).
  destruct (chars (change_name c)) as [|d l]; [done|]. apply Forall_cons in Hs as [Hd _]. cbn in Hp. congruence.
Qed.

Lemma omap_nil {A B} (f : A → option B) l : omap f l = [] ↔ Forall (λ x, f x = None) l.
Proof.
  induction l as [|x l IH]; [done|]. rewrite Forall_cons, <- IH. cbn. destruct (f x); naive_solver.
Qed.

Section host.
Context `{!RunHost}.

(** Git knows the commit and the top of the worktree, and the worktree has these changes. *)
Record worktree (root commit top : string) (cs : list change) : Prop := Worktree {
  wt_commit : rh_git root ["rev-parse"; "--short"; "HEAD"] = Some (0, line_of commit);
  wt_top : rh_git root ["rev-parse"; "--show-toplevel"] = Some (0, line_of top);
  wt_status : rh_git root ["status"; "--porcelain"] = Some (0, lines_text (status_line <$> cs));
  wt_words : commit ≠ "" ∧ top ≠ "" ∧ (newline ∉ chars commit) ∧ (newline ∉ chars top);
  wt_changes : Forall change_ok cs;
}.

Lemma git_line root args s :
  rh_git root args = Some (0, line_of s) → newline ∉ chars s → git root args = Some s.
Proof.
  intros Hg Hs. unfold git. rewrite Hg. cbn [mbind option_bind fst snd]. change (0 =? 0) with true. cbv iota. f_equal.
  unfold line_of. rewrite chars_app. change (chars (String newline "")) with [newline].
  by rewrite rstrip_newline, str_chars.
Qed.

Lemma provenance_worktree paths root commit top cs :
  worktree root commit top cs →
  let s := provenance paths root in
  st_commit s = Some commit ∧ st_repo s = Some top ∧ st_dirty s = Some (negb (bool_decide (cs = []))) ∧
  st_dirty_files s = sort_unique (names_of false cs) ∧ st_untracked s = sort_unique (names_of true cs) ∧
  st_loaded s = load (Some top) <$> paths ∧
  st_loaded_outside_repo s = omap (outside_of (Some top)) (load (Some top) <$> paths) ∧
  st_loaded_modified s = omap (modified_of (sort_unique (names_of false cs))) (load (Some top) <$> paths) ∧
  st_loaded_untracked s = omap (untracked_of (sort_unique (names_of true cs))) (load (Some top) <$> paths).
Proof.
  intros [Hc Ht Hs (Hcn & Htn & Hcl & Htl) Hcs].
  unfold provenance. rewrite (git_line _ _ _ Hc Hcl), (git_line _ _ _ Ht Htl). cbn [truthy].
  rewrite bool_decide_eq_false_2 by done. 
  cbn [negb st_commit st_repo st_dirty st_dirty_files st_untracked st_loaded st_loaded_outside_repo
    st_loaded_modified st_loaded_untracked].
  unfold git. rewrite Hs. cbn [mbind option_bind fst snd]. change (0 =? 0) with true. cbv iota.
  change (str (rstrip _ (chars (lines_text (status_line <$> cs))))) with (status_text cs).
  cbn [fmap option_fmap option_map default]. unfold id.
  by rewrite !status_names_read, status_text_blank.
Qed.
End host.

(** The worktree in words: how many paths differ from the commit, and how many it does not know. *)
Definition state_in_words (cs : list change) : string :=
  match length (remove_dups (names_of false cs)), length (remove_dups (names_of true cs)) with
  | O, O => "CLEAN"
  | O, n => "tracked tree CLEAN (" +:+ dec (Z.of_nat n) +:+ " untracked paths)"
  | m, O => "DIRTY (" +:+ dec (Z.of_nat m) +:+ " tracked paths modified)"
  | m, n => "DIRTY (" +:+ dec (Z.of_nat m) +:+ " tracked paths modified, " +:+ dec (Z.of_nat n) +:+ " untracked)"
  end.

(** A loaded file that no line warns of: inside the repository, its name not among the printed ones of the
    changed files, nor at or under a printed one that is untracked. *)
Definition input_clean (cs : list change) (e : loaded) : Prop :=
  match e with
  | NotLoaded _ _ => True
  | Loaded _ _ _ _ None => False
  | Loaded _ _ _ _ (Some rel) =>
      (rel ∉ names_of false cs) ∧ ∀ u, u ∈ names_of true cs → at_or_under rel u = false
  end.

Lemma input_clean_spec top cs e :
  top ≠ "" →
  outside_of (Some top) e = None ∧ modified_of (sort_unique (names_of false cs)) e = None ∧
  untracked_of (sort_unique (names_of true cs)) e = None ↔ input_clean cs e.
Proof.
  intros Ht. destruct e as [p sha size mtime [rel|]|]; cbn [outside_of modified_of untracked_of input_clean truthy].
  - pose proof (sort_unique_elem rel (names_of false cs)) as Hin.
    assert (Hex : existsb (at_or_under rel) (sort_unique (names_of true cs)) = false ↔
      ∀ u, u ∈ names_of true cs → at_or_under rel u = false).
    { rewrite <- not_true_iff_false, existsb_exists. split.
      - intros Hno u Hu. apply not_true_iff_false. intros Ha. apply Hno. exists u.
        by rewrite <- list_elem_of_In, sort_unique_elem.
      - intros Hall (u & Hu & Ha). rewrite <- list_elem_of_In, sort_unique_elem in Hu. by rewrite Hall in Ha. }
    rewrite <- Hex. case_bool_decide; destruct (existsb _ _); split; intros ?; destruct_and?;
      repeat split; try done; tauto.
  - rewrite bool_decide_eq_false_2 by done. naive_solver.
  - naive_solver.
Qed.

Module Stamps.
Section host.
Context `{!RunHost}.

(** What git prints of a worktree is read back: the changed paths, of a rename the new one, and
    the untracked ones; and the first line of the stamp names the commit together with the state of
    the worktree, in the numbers of these paths. *)
Theorem stamp_tells_worktree (root commit top : string) (cs : list change) (paths : list string) :
  worktree root commit top cs →
  let s := provenance paths root in
  (∀ p, p ∈ st_dirty_files s ↔ p ∈ names_of false cs) ∧ (∀ p, p ∈ st_untracked s ↔ p ∈ names_of true cs) ∧
  head (format_provenance s) =
    Some ("provenance: " +:+ commit +:+ " " +:+ state_in_words cs +:+ "   repo=" +:+ top).
Proof.
  intros Hw s. destruct (provenance_worktree paths _ _ _ _ Hw) as (Hc & Hr & Hd & Hf & Hu & _).
  destruct Hw as [_ _ _ (Hcn & _) _]. fold s in Hc, Hr, Hd, Hf, Hu. rewrite Hf, Hu.
  split_and!; [intros p; apply sort_unique_elem..|].
  unfold format_provenance. rewrite Hc, Hr. cbn [truthy show default head app]. rewrite bool_decide_eq_false_2 by done.
  cbn [negb]. do 4 f_equal. unfold worktree_state, state_in_words. rewrite Hd, Hf, Hu. unfold len.
  rewrite !length_sort_unique.
  by destruct (length (remove_dups (names_of false cs))), (length (remove_dups (names_of true cs))).
Qed.

(** C39. Where git answers, the stamp has no line beyond the first and those of the inputs exactly when every input
    that was read lies in the repository and its name there is neither among the changed names as git
    prints them nor at or under an untracked one as printed.  Where git prints the names as they are, that is
    exactly when every input is the commit's; a changed input whose name git quotes passes without a
    line, as [quoted_input_unnoticed] shows.  Names with an arrow in them are left out. *)
Theorem stamp_warns_of_inputs (root commit top : string) (cs : list change) (paths : list string) :
  worktree root commit top cs →
  length (format_provenance (provenance paths root)) = S (length paths) ↔
  Forall (λ p, input_clean cs (load (Some top) p)) paths.
Proof.
  intros Hw. destruct (provenance_worktree paths _ _ _ _ Hw) as (_ & _ & _ & _ & _ & Hl & Ho & Hm & Hu).
  destruct Hw as [_ _ _ (_ & Htn & _) _]. unfold format_provenance.
  rewrite !length_app, !length_fmap, Hl, Ho, Hm, Hu, length_fmap. cbn [length].
  change (λ p, input_clean cs (load (Some top) p)) with (input_clean cs ∘ load (Some top)).
  rewrite <- Forall_fmap. generalize (load (Some top) <$> paths) as es. intros es.
  transitivity (omap (outside_of (Some top)) es = [] ∧ omap (modified_of (sort_unique (names_of false cs))) es = [] ∧
    omap (untracked_of (sort_unique (names_of true cs))) es = []).
  { rewrite <- !length_zero_iff_nil. lia. }
  rewrite !omap_nil, <- !Forall_and. apply Forall_iff. intros e. by apply input_clean_spec.
Qed.
End host.

(** Git quotes a path that holds a blank. *)
Definition quoted (s : string) : string :=
  String (ascii_of_nat 34) (s +:+ String (ascii_of_nat 34) "").

(** A repository with changed files, one of them quoted, and an untracked directory. *)
Definition demo_host (status : string) : RunHost := {|
  rh_git := λ _ args, match args with
    | ["rev-parse"; "--short"; "HEAD"] => Some (0, line_of "4be92f7")
    | ["rev-parse"; "--show-toplevel"] => Some (0, line_of "/repo")
    | _ => Some (0, status)
    end;
  rh_read := λ p, Ok (bytes_of_string p);
  rh_mtime := λ _, Ok "2026-10-21T12:00:00";
  rh_resolve := id;
|}.
Definition demo_changes : list change :=
  [Changed " " "M" "tools/x.py"; Renamed "R" " " "old.txt" "new.txt"; Changed " " "M" (quoted "tools/a b.py");
   Untracked "cache/"].
Definition demo_inputs : list string := ["/repo/tools/x.py"; "/repo/cache/y"; "/tmp/z"; "/repo/Makefile"].

Lemma demo_worktree :
  @worktree (demo_host (lines_text (status_line <$> demo_changes))) "." "4be92f7" "/repo" demo_changes.
Proof.
  assert (Hplain : ∀ s, bool_decide (printed_path s) = true → printed_path s) by (intros s; apply bool_decide_eq_true).
  constructor; [done..| |].
  - split_and!; [done..| |]; apply (bool_decide_unpack _); by vm_compute.
  - repeat constructor; try done; apply Hplain; by vm_compute.
Qed.

Lemma stamp_tells_worktree_witness :
  head (format_provenance (@provenance (demo_host (lines_text (status_line <$> demo_changes))) demo_inputs ".")) =
  Some "provenance: 4be92f7 DIRTY (3 tracked paths modified, 1 untracked)   repo=/repo".
Proof. exact (proj2 (proj2 (stamp_tells_worktree _ _ _ _ demo_inputs demo_worktree))). Defined.

Lemma stamp_warns_of_inputs_witness :
  length (format_provenance (@provenance (demo_host (lines_text (status_line <$> demo_changes))) ["/repo/Makefile"; "/repo/tools/a b.py"] "."))
  = 3%nat.
Proof.
  apply (stamp_warns_of_inputs _ _ _ _ ["/repo/Makefile"; "/repo/tools/a b.py"] demo_worktree). repeat constructor.
  all: first [apply (bool_decide_unpack _); by vm_compute|idtac].
  all: intros u Hu; change (u ∈ ["cache/"]) in Hu; by apply list_elem_of_singleton in Hu as ->.
Defined.

(** The quoted text is no name of a file, so the input is changed and no line says so. *)
Example quoted_input_unnoticed :
  let s := @provenance (demo_host (line_of (" M " +:+ quoted "tools/a b.py"))) ["/repo/tools/a b.py"] "." in
  st_dirty_files s = [quoted "tools/a b.py"] ∧ st_loaded_modified s = [] ∧ length (format_provenance s) = 2%nat.
Proof. by vm_compute. Qed.
End Stamps.
