(* ===== verification/RigText.v ===== *)
(** * What the ethernet rig reads (tools/vice_eth_rig.py)

    The texts the rig looks at: rows of tcpdump, the linker's maps and configuration, and what
    [ifconfig], [netstat], [networksetup], [pgrep] and [lsof] print.  Text is ASCII. *)

From S2P Require Export PyRegex PyDict.

Definition number (s : string) : Z := default 0 (parse_int 10 s).
Definition hex_number (s : string) : Z := default 0 (parse_int 16 s).

Definition digits1 : rx := RPlus (RChar is_digit).
Definition blanks : rx := RStar (RChar space_char).
Definition blanks1 : rx := RPlus (RChar space_char).
Definition words1 : rx := RPlus (RChar is_word).
Definition any_star : rx := RStar (RChar is_any).
Definition not_char (c : ascii) : ascii → bool := λ c', negb (bool_decide (c' = c)).

(** A sequence of patterns. *)
Definition RAll (l : list rx) : rx := foldr RSeq REps l.

(** ** Rows of tcpdump *)

Record udp_rec := UdpRec {
  u_src : string;
  u_sport : Z;
  u_dst : string;
  u_dport : Z;
  u_length : Z;
}.
#[export] Instance udp_rec_eq_dec : EqDecision udp_rec.
Proof. solve_decision. Defined.

(** [\d+\.\d+\.\d+\.\d+] *)
Definition dotted : rx :=
  RAll [digits1; RLit "."; digits1; RLit "."; digits1; RLit "."; digits1].

Definition TCPDUMP_UDP : rx :=
  RAll [RLit "IP "; RGroup 1 dotted; RLit "."; RGroup 2 digits1; RLit " > ";
        RGroup 3 dotted; RLit "."; RGroup 4 digits1; RLit ": UDP, length "; RGroup 5 digits1].
Definition TCPDUMP_FRAG_Q : rx :=
  RAll [RLit "IP "; RGroup 1 dotted; RLit " > "; RGroup 2 dotted; RLit ": ";
        RAlt (RLit "udp") (RAlt (RLit "ip-proto-17") (RLit "ip-proto-udp")); RWordEdge].
Definition TCPDUMP_V_FLAGS : rx :=
  RAll [RLit "flags ["; RGroup 1 (RStar (RChar (not_char "]"))); RLit "]"].
Definition TCPDUMP_V_OFFSET : rx := RAll [RLit "offset "; RGroup 1 digits1].

Inductive row := UdpRow (r : udp_rec) | FragRow (line : string).
#[export] Instance row_eq_dec : EqDecision row.
Proof. solve_decision. Defined.

(** [line.rstrip()] *)
Definition rstrip_line (s : string) : string := str (rstrip space_char (chars s)).

Definition classify_tcpdump_line (line : string) : option row :=
  match rx_search TCPDUMP_UDP line with
  | Some m => Some (UdpRow (UdpRec (group 1 m) (number (group 2 m)) (group 3 m)
                              (number (group 4 m)) (number (group 5 m))))
  | None =>
      let more := match rx_search TCPDUMP_V_FLAGS line with
                  | Some fl => contains "+" (group 1 fl)
                  | None => false
                  end in
      let later := match rx_search TCPDUMP_V_OFFSET line with
                   | Some off => 0 <? number (group 1 off)
                   | None => false
                   end in
      if more || later then Some (FragRow (rstrip_line line))
      else if bool_decide (is_Some (rx_search TCPDUMP_FRAG_Q line)) then Some (FragRow (rstrip_line line))
      else if contains "ip-proto-17" line || contains "frag" line then Some (FragRow (rstrip_line line))
      else None
  end.

Definition CLASSIFIER_CASES : list (string * option string) :=
  [("12:03:01.548844 IP 10.0.65.130.51820 > 10.0.65.1.39351: UDP, length 1472", Some "udp");
   ("12:02:57.162390 IP 10.0.65.1.46341 > 10.0.65.130.51820: UDP, length 1452", Some "udp");
   ("12:03:04.572762 IP 10.0.65.130 > 10.0.65.1: udp", Some "frag");
   ("12:03:04.572762 IP 10.0.65.130 > 10.0.65.1: ip-proto-17", Some "frag");
   ("12:03:04.5 IP (tos 0x0, ttl 64, id 4, offset 0, flags [+], proto UDP (17), length 1500)",
    Some "frag");
   ("12:03:04.5 IP (tos 0x0, ttl 64, id 4, offset 1480, flags [none], proto UDP (17), length 20)",
    Some "frag");
   ("12:03:04.5 IP (tos 0x0, ttl 64, id 4, offset 0, flags [DF], proto UDP (17), length 1500)", None);
   ("12:03:04.5 IP (tos 0x0, ttl 64, id 4, offset 0, flags [none], proto UDP (17), length 90)", None);
   ("tcpdump: listening on feth1, link-type EN10MB (Ethernet)", None);
   ("12:03:04.5 ARP, Request who-has 10.0.65.130 tell 10.0.65.1", None)].

Definition kind_of (r : option row) : option string :=
  match r with Some (UdpRow _) => Some "udp" | Some (FragRow _) => Some "frag" | None => None end.

(** The failures, as tags with the lines. *)
Definition selftest_classifier : list (string * string) :=
  mjoin ((λ c : string * option string,
    let got := classify_tcpdump_line c.1 in
    (if bool_decide (kind_of got = c.2) then [] else [("classifier", c.1)])
    ++ match got with
       | Some (UdpRow r) => if u_length r <=? 0 then [("length", c.1)] else []
       | _ => []
       end) <$> CLASSIFIER_CASES)
  ++ match head CLASSIFIER_CASES ≫= λ c, classify_tcpdump_line c.1 with
     | Some (UdpRow r) =>
         if bool_decide (r = UdpRec "10.0.65.130" 51820 "10.0.65.1" 39351 1472) then []
         else [("fields", "")]
     | _ => [("fields", "")]
     end.

Example classifier_passes_its_selftest : selftest_classifier = [].
Proof. by vm_compute. Qed.

(** What the tap's pump keeps of a line: every line, the datagrams, the fragments. *)
Record tap := Tap { tp_raw : list string; tp_records : list udp_rec; tp_frags : list string }.
Definition pump_line (t : tap) (line : string) : tap :=
  match classify_tcpdump_line line with
  | Some (UdpRow r) => Tap (tp_raw t ++ [rstrip_line line]) (tp_records t ++ [r]) (tp_frags t)
  | Some (FragRow _) => Tap (tp_raw t ++ [rstrip_line line]) (tp_records t)
                          (tp_frags t ++ [rstrip_line line])
  | None => Tap (tp_raw t ++ [rstrip_line line]) (tp_records t) (tp_frags t)
  end.
Definition pump (lines : list string) : tap := foldl pump_line (Tap [] [] []) lines.

(** [src is None or r.src == src], and so on. *)
Definition wanted {A} `{EqDecision A} (want : option A) (x : A) : bool :=
  match want with None => true | Some w => bool_decide (x = w) end.
Definition tap_udp (t : tap) (src dst : option string) (dport : option Z) : list udp_rec :=
  List.filter (λ r, wanted src (u_src r) && wanted dst (u_dst r) && wanted dport (u_dport r))
    (tp_records t).
Definition tap_fragments (t : tap) : Z := len (tp_frags t).

(** ** The linker's maps *)

Definition hex6 : rx := RTimes 6 (RChar is_hex_any).
Definition token : rx := RPlus (RChar is_nonspace).

(** [^(\S+)\s+([0-9A-Fa-f]{6})\s+([0-9A-Fa-f]{6})\s+([0-9A-Fa-f]{6})\s] *)
Definition SEG_ROW : rx :=
  RAll [RBol; RGroup 1 token; blanks1; RGroup 2 hex6; blanks1; RGroup 3 hex6; blanks1;
        RGroup 4 hex6; RChar space_char].

Inductive map_error := NoSection (what : string) | NothingParsed (what : string).

(** The rows behind the header; [out] is what was read so far. *)
Fixpoint seg_rows (lines : list string) (out : list (string * (Z * Z))) : list (string * (Z * Z)) :=
  match lines with
  | [] => out
  | line :: lines =>
      let blank := bool_decide (strip line = "") in
      if startswith "Name" line || startswith "---" line || blank then
        if negb (bool_decide (out = [])) && blank then out else seg_rows lines out
      else
        match rx_match SEG_ROW line with
        | None => out
        | Some m =>
            let size := hex_number (group 4 m) in
            seg_rows lines
              (if size =? 0 then out
               else dict_set (group 1 m) (hex_number (group 2 m), hex_number (group 3 m)) out)
        end
  end.

(** The lines from the first that is [s] on, without it. *)
Fixpoint lines_after (s : string) (lines : list string) : option (list string) :=
  match lines with
  | [] => None
  | line :: lines => if decide (line = s) then Some lines else lines_after s lines
  end.

Definition parse_map_segments (text : string) : res map_error (list (string * (Z * Z))) :=
  match lines_after "Segment list:" (splitlines text) with
  | None => Err (NoSection "Segment list:")
  | Some lines =>
      match seg_rows lines [] with
      | [] => Err (NothingParsed "segments")
      | out => Ok out
      end
  end.

(** [^Exports list by name:[^\n]*\n(.*?)^\S[^\n]*:[^\n]*$], dots and lines as in [re.S | re.M] *)
Definition EXPORTS : rx :=
  RAll [RBol; RLit "Exports list by name:"; any_star; RChar (λ c, bool_decide (c = newline));
        RGroup 1 (RLazy (RChar (λ _, true))); RBol; RChar is_nonspace; any_star; RLit ":";
        any_star; REol].
(** [(\S+)\s+([0-9A-Fa-f]{6})\s+[A-Z]{2,3}\b] *)
Definition EXPORT_ROW : rx :=
  RAll [RGroup 1 token; blanks1; RGroup 2 hex6; blanks1; RTimes 2 (RChar is_upper);
        RUpTo 1 (RChar is_upper); RWordEdge].

Definition parse_map_exports (text : string) : res map_error (list (string * Z)) :=
  match rx_search EXPORTS text with
  | None => Err (NoSection "Exports list by name:")
  | Some m =>
      match dict_of ((λ r, (group 1 r, hex_number (group 2 r))) <$> finditer EXPORT_ROW (group 1 m)) with
      | [] => Err (NothingParsed "exports")
      | out => Ok out
      end
  end.

Definition MAP_SAMPLE : string := lines_text
  ["Segment list:";
   "-------------";
   "Name                   Start     End    Size  Align";
   "----------------------------------------------------";
   "CODE                  000801  0032EE  002AEE  00001";
   "BSS                   00A000  00AF3F  000F40  00001";
   "NOTHING               000002  000001  000000  00001";
   "";
   "Exports list by name:";
   "---------------------";
   "arp_ip                    00A007 RLA    arp_lookup                00208D RLA    ";
   "cfg_gateway               00325A RLA    cfg_ip                    003252 RLA    ";
   "";
   "Exports list by value:";
   "----------------------";
   "arp_lookup                00208D RLA    cfg_ip                    003252 RLA    "].

Definition MAP_WANT : list (string * Z) :=
  [("arp_ip", 0xA007); ("arp_lookup", 0x208D); ("cfg_gateway", 0x325A); ("cfg_ip", 0x3252)].

(** The failures, as tags with the names. *)
Definition selftest_map_parsers : list (string * string) :=
  match parse_map_exports MAP_SAMPLE with
  | Err _ => [("parse_map_exports raised", "")]
  | Ok exports =>
      mjoin ((λ w : string * Z, if bool_decide (assoc w.1 exports = Some w.2) then []
                                else [("parse_map_exports", w.1)]) <$> MAP_WANT)
      ++ (if (length exports =? length MAP_WANT)%nat then [] else [("a row carries TWO", "")])
      ++ match parse_map_segments MAP_SAMPLE with
         | Err _ => [("parse_map_segments raised", "")]
         | Ok segs =>
             (if bool_decide (assoc "BSS" segs = Some (0xA000, 0xAF3F)) then [] else [("BSS", "")])
             ++ (if bool_decide (assoc "NOTHING" segs = None) then [] else [("NOTHING", "")])
         end
  end.

Example map_parsers_pass_their_selftest : selftest_map_parsers = [].
Proof. by vm_compute. Qed.

(** ** The linker's configuration *)

(** [^<block>\s*\{(.*?)^\}], dots and lines as in [re.S | re.M] *)
Definition CFG_BLOCK (block : string) : rx :=
  RAll [RBol; RLit block; blanks; RLit "{"; RGroup 1 (RLazy (RChar (λ _, true))); RBol; RLit "}"].
(** A word, a colon, and everything up to the last semicolon of the line. *)
Definition CFG_ROW : rx :=
  RAll [RGroup 1 words1; blanks; RLit ":"; blanks; RGroup 2 any_star; RLit ";"].
(** [\btype\s*=\s*(\w+)] *)
Definition CFG_TYPE : rx :=
  RAll [RWordEdge; RLit "type"; blanks; RLit "="; blanks; RGroup 1 words1].
(** [\b<name>\s*=\s*\$([0-9A-Fa-f]+)] *)
Definition CFG_HEX (name : string) : rx :=
  RAll [RWordEdge; RLit name; blanks; RLit "="; blanks; RLit "$"; RGroup 1 (RPlus (RChar is_hex_any))].

(** The rows of a block: name and attributes. *)
Definition cfg_rows (body : string) : list (string * string) :=
  omap (λ line,
    let line := strip (partition "#" line).1.1 in
    (λ m, (group 1 m, group 2 m)) <$> rx_match CFG_ROW line) (splitlines body).

Definition parse_cfg_segment_types (text : string) : res map_error (list (string * string)) :=
  match rx_search (CFG_BLOCK "SEGMENTS") text with
  | None => Err (NoSection "SEGMENTS")
  | Some m =>
      match dict_of (omap (λ r, (λ t, (r.1, group 1 t)) <$> rx_search CFG_TYPE r.2) (cfg_rows (group 1 m))) with
      | [] => Err (NothingParsed "segment types")
      | types => Ok types
      end
  end.

Definition parse_cfg_memory (text : string) : res map_error (list (string * (Z * Z))) :=
  match rx_search (CFG_BLOCK "MEMORY") text with
  | None => Err (NoSection "MEMORY")
  | Some m =>
      Ok (dict_of (omap (λ r,
        s ← rx_search (CFG_HEX "start") r.2;
        z ← rx_search (CFG_HEX "size") r.2;
        let start := hex_number (group 1 s) in
        Some (r.1, (start, start + hex_number (group 1 z) - 1))) (cfg_rows (group 1 m))))
  end.

Example cfg_memory_ex :
  parse_cfg_memory (lines_text ["MEMORY {"; "  # a comment"; "  MAIN: file = %O, start = $0801, size = $97FF;";
    "  ZP: start = $0002, size = $001A; # more"; "}"; "SEGMENTS {"; "  CODE: load = MAIN, type = ro;"; "}"])
  = Ok [("MAIN", (0x0801, 0x9FFF)); ("ZP", (0x0002, 0x001B))].
Proof. by vm_compute. Qed.
Example cfg_types_ex :
  parse_cfg_segment_types (lines_text ["SEGMENTS {"; "  CODE: load = MAIN, type = ro;"; "  BSS : load = MAIN, type=bss;"; "}"])
  = Ok [("CODE", "ro"); ("BSS", "bss")].
Proof. by vm_compute. Qed.
