(* ===== verification/RigHost.v ===== *)
(** * The preflight of the ethernet rig (tools/vice_eth_rig.py)

    What has to hold of the host before a suite may use the rig: VICE's own gate, the
    interfaces, the DHCP server, other emulators.  What the host answers, each command once,
    is the class [Host]; a problem is a tag with the values its text interpolates. *)

From S2P Require Export RigText.

(** What opening a file and reading it gives; [Undecodable] is a [UnicodeDecodeError]. *)
Inductive opened := Text (s : string) | Denied | Unreadable | Undecodable.
(** [os.kill(pid, 0)] *)
Inductive signalled := Delivered | NotPermitted | NoProcess.

(** [h_run] is the exit code and the standard output of a command; [h_run_bounded] is [None] when
    it cannot be run in time; the last ones are the harness package's. *)
Class Host := {
  h_platform : string;
  h_pid : Z;
  h_env : string → option string;
  h_exists : string → bool;
  h_open : string → opened;
  h_signal : Z → signalled;
  h_run : list string → Z * string;
  h_run_bounded : list string → option (Z * string);
  vice_binary_supports_ethernet : string → bool;
  driver_requires_root : string → bool;
  rawnet_capability : string → bool;
  bpf_permissions : string → bool;
  bpf_node_openable : bool;
  effective_driver_name : string → string;
}.

Definition HOST_IP : string := "10.0.65.1".
Definition HOST_IFACE : string := "feth1".
Definition ETH_IFACE : string := "feth0".
Definition DNSMASQ_PIDFILE : string := "/var/run/c64-harness/dnsmasq.pid".
Definition REDACTED_MAC : string := "02:00:00:00:00:00".
Definition BRIDGED_NIC_MAC : string := "c0:56:27:b1:16:38".
Definition ALLOW_UNELEVATED_ENV : string := "VICE_ETHERNET_ALLOW_UNELEVATED".

(** [s.split()] *)
Fixpoint words_chars (l acc : list ascii) : list (list ascii) :=
  match l with
  | [] => match acc with [] => [] | _ => [rev acc] end
  | c :: l => if space_char c
              then match acc with [] => words_chars l [] | _ => rev acc :: words_chars l [] end
              else words_chars l (c :: acc)
  end.
Definition words (s : string) : list string := str <$> words_chars (chars s) [].

(** [s.isdigit()] *)
Definition isdigit (s : string) : bool :=
  negb (bool_decide (s = "")) && forallb is_digit (chars s).

Example words_ex : words "  default  10.0.0.1 UGSc en5 " = ["default"; "10.0.0.1"; "UGSc"; "en5"].
Proof. by vm_compute. Qed.

(** ** [ifconfig] *)

Record iface := Iface {
  if_up : bool;
  if_running : bool;
  if_mtu : option Z;
  if_ether : option string;
  if_inet : option (string * Z);
  if_active : option bool;
  if_media : option string;
}.

Definition tabbed (s : string) : rx :=
  RAll [RChar (λ c, bool_decide (c = newline)); RChar (λ c, code c =? 9); RLit s].

Definition FLAGS : rx :=
  RAll [RLit "flags="; digits1; RLit "<"; RGroup 1 (RStar (RChar (not_char ">"))); RLit ">"].
Definition MTU : rx := RAll [RWordEdge; RLit "mtu "; RGroup 1 digits1].
Definition ETHER : rx :=
  RAll [RWordEdge; RLit "ether ";
        RGroup 1 (RTimes 17 (RChar (λ c, is_digit c || in_range 97 102 c || bool_decide (c = ":"%char))))].
Definition INET : rx :=
  RAll [tabbed "inet "; RGroup 1 dotted; RLit " netmask ";
        RGroup 2 (RAll [RLit "0x"; RPlus (RChar (λ c, is_digit c || in_range 97 102 c))])].
Definition STATUS : rx := RAll [tabbed "status: "; RGroup 1 words1].
Definition MEDIA : rx := RAll [tabbed "media: "; RGroup 1 any_star].

Definition parse_iface (t : string) : iface :=
  let flags := match rx_search FLAGS t with Some m => split_on "," (group 1 m) | None => [] end in
  Iface (bool_decide ("UP" ∈ flags)) (bool_decide ("RUNNING" ∈ flags))
    ((λ m, number (group 1 m)) <$> rx_search MTU t)
    (group 1 <$> rx_search ETHER t)
    ((λ m, (group 1 m, hex_number (group 2 m))) <$> rx_search INET t)
    ((λ m, bool_decide (group 1 m = "active")) <$> rx_search STATUS t)
    ((λ m, strip (group 1 m)) <$> rx_search MEDIA t).

Example ifconfig_ex :
  parse_iface (lines_text ["en5: flags=8863<UP,BROADCAST,SMART,RUNNING,SIMPLEX,MULTICAST> mtu 1500";
    str [ascii_of_nat 9] +:+ "ether c0:56:27:b1:16:38 ";
    str [ascii_of_nat 9] +:+ "inet 192.168.2.40 netmask 0xffffff00 broadcast 192.168.2.255";
    str [ascii_of_nat 9] +:+ "media: autoselect (1000baseT <full-duplex>)";
    str [ascii_of_nat 9] +:+ "status: active"])
  = Iface true true (Some 1500) (Some "c0:56:27:b1:16:38") (Some ("192.168.2.40", 0xFFFFFF00))
      (Some true) (Some "autoselect (1000baseT <full-duplex>)").
Proof. by vm_compute. Qed.

(** ** [networksetup] *)

(** One line of [networksetup -listallhardwareports]: the rows, the port and the device in hand. *)
Definition port_line (s : list (string * string * option string) * option string * option string)
    (line : string) : list (string * string * option string) * option string * option string :=
  let '(rows, port, dev) := s in
  let '(key, _, val) := partition ":" line in
  let val := strip val in
  if bool_decide (key = "Hardware Port") then (rows, Some val, None)
  else match bool_decide (key = "Device"), port with
  | true, Some p => (rows ++ [(p, val, None)], Some p, Some val)
  | _, _ =>
      match bool_decide (key = "Ethernet Address"), dev, port, rev rows with
      | true, Some d, Some p, _ :: before => (rev before ++ [(p, d, Some (lower val))], None, None)
      | _, _, _, _ => s
      end
  end.
Definition port_rows (text : string) : list (string * string * option string) :=
  (foldl port_line ([], None, None) (splitlines text)).1.1.

Definition resolve_bridged_iface (mac : string) (table : list (string * string * option string)) :
    string + reason :=
  if bool_decide (table = []) then inr ("could not read networksetup", [])
  else
  let want := lower mac in
  if bool_decide (want = REDACTED_MAC) then inr ("the masking placeholder", [PStr REDACTED_MAC])
  else
  let hits := omap (λ r, if bool_decide (r.2 = Some want) then Some r.1.2 else None) table in
  match hits with
  | [dev] => inl dev
  | _ :: _ => inr ("several hardware ports carry it", [PInt (len hits); PStr want; PList (PStr <$> hits)])
  | [] =>
      let masked := omap (λ r, if bool_decide (r.2 = Some REDACTED_MAC) then Some r.1.2 else None) table in
      inr ("no hardware port carries it", [PStr want; PList (PStr <$> masked)])
  end.

Section host.
Context `{!Host}.

Definition hardware_port_table : list (string * string * option string) :=
  match h_run_bounded ["networksetup"; "-listallhardwareports"] with
  | None => []
  | Some (rc, out) => port_rows (if rc =? 0 then out else "")
  end.
(** Device to port name. *)
Definition hardware_ports : list (string * string) :=
  dict_of ((λ r, (r.1.2, r.1.1)) <$> hardware_port_table).

(** Why [iface] may be Wi-Fi. *)
Definition wifi_problem (iface : string) (ports : list (string * string)) : option reason :=
  if bool_decide (ports = []) then Some ("cannot tell whether it is Wi-Fi", [PStr iface])
  else match assoc iface ports with
  | Some port => if bool_decide (lower port ∈ ["wi-fi"; "airport"])
                 then Some ("a Wi-Fi port", [PStr iface; PStr port]) else None
  | None => None
  end.

(** ** VICE's own gate *)

Definition unelevated_allowed : bool :=
  bool_decide (strip (default "" (h_env ALLOW_UNELEVATED_ENV)) = "1").

Definition vice_rawnet_problems (vice_bin driver : string) : list reason :=
  if negb (h_exists vice_bin) then [("missing", [PStr vice_bin])]
  else
  (if vice_binary_supports_ethernet vice_bin then [] else [("built without raw-network support", [PStr vice_bin])])
  ++ (if driver_requires_root driver && negb (rawnet_capability vice_bin) && negb unelevated_allowed
      then [("capability gate", [PStr (effective_driver_name driver); PStr vice_bin;
                                 PBool (bpf_permissions vice_bin)])]
      else []).

Definition libpcap_node_note : option reason :=
  if negb unelevated_allowed then None
  else if bpf_node_openable then None
  else Some ("no /dev/bpf node opens", [PStr ALLOW_UNELEVATED_ENV]).

(** ** Other processes *)

(** [pgrep -fl] prints a process per line. *)
Definition pgrep (pattern : string) : list string := splitlines (h_run ["pgrep"; "-fl"; pattern]).2.

Definition process_cwd (pid : Z) : option string :=
  (λ l, str (from 1 (chars l))) <$>
    List.find (startswith "n") (splitlines (h_run ["lsof"; "-a"; "-p"; dec pid; "-d"; "cwd"; "-Fn"]).2).

Definition WORKTREE : rx := RAll [RLit ".claude/worktrees/"; RGroup 1 (RPlus (RChar (not_char "/")))].
Definition worktree_of (path : option string) : option string :=
  p ← path; group 1 <$> rx_search WORKTREE p.

Record vice_proc := ViceProc {
  vp_pid : Z;
  vp_cwd : option string;
  vp_worktree : option string;
  vp_argv : string;
}.

Definition vice_of_line (line : string) : option vice_proc :=
  let '(head, _, argv) := partition " " (strip line) in
  if negb (isdigit head) then None
  else
  let pid := number head in
  let cwd := process_cwd pid in
  Some (ViceProc pid cwd (match worktree_of cwd with
                          | Some wt => Some wt
                          | None => worktree_of (Some argv)
                          end) argv).
Definition vice_on_iface (iface : string) : list vice_proc :=
  omap vice_of_line (pgrep ("ethernetioif " +:+ iface)).

(** [os.path.basename] *)
Definition basename (p : string) : string := (rpartition "/" p).2.

Definition vice_holders (iface : string) : list string :=
  List.filter (λ line,
    let '(pid, _, cmd) := partition " " line in
    isdigit pid && negb (number pid =? h_pid)
    && startswith "x64" (basename (default "" (head (words cmd))))) (pgrep ("ethernetioif " +:+ iface)).

Definition describe_conflict (procs : list vice_proc) (iface : string) : string :=
  join (String newline "")
    (["another VICE is already bound to " +:+ iface +:+ " -- every ip65 build uses the same default MAC, so a second instance is a live duplicate-MAC node on the segment:"]
     ++ ((λ p, "      pid " +:+ dec (vp_pid p) +:+ "  (" +:+
            match vp_worktree p with
            | Some wt => "worktree " +:+ wt
            | None => "cwd " +:+ match vp_cwd p with
                                 | Some c => if bool_decide (c = "") then "unknown" else c
                                 | None => "unknown"
                                 end
            end +:+ ")") <$> procs)
     ++ ["      That process belongs to another lane. Do NOT kill it, and never `pkill x64sc`: wait for the rig, or coordinate with whoever owns that worktree."]).

Definition dnsmasq_alive : bool :=
  let by_name :=
    let r := h_run ["pgrep"; "-f"; "dnsmasq.*--interface=" +:+ HOST_IFACE] in
    (r.1 =? 0) && negb (bool_decide (strip r.2 = "")) in
  match h_open DNSMASQ_PIDFILE with
  | Denied => true
  | Unreadable | Undecodable => by_name
  | Text s =>
      match parse_int 10 (strip s) with
      | None => by_name
      | Some pid =>
          match h_signal pid with
          | Delivered | NotPermitted => true
          | NoProcess => by_name
          end
      end
  end.

(** [--interface[= ](\S+)] *)
Definition INTERFACE : rx :=
  RAll [RLit "--interface"; RChar (λ c, bool_decide (c = "="%char) || bool_decide (c = " "%char));
        RGroup 1 token].
Definition dnsmasq_interfaces : list string :=
  mjoin ((λ line, group 1 <$> finditer INTERFACE line) <$> pgrep "dnsmasq").

Definition selftest_dnsmasq_probe : list reason :=
  let running := List.filter (contains "dnsmasq") (pgrep "dnsmasq") in
  if bool_decide (running = []) then [("UNEXERCISED", [])]
  else if bool_decide (dnsmasq_interfaces = []) then [("no --interface found", PStr <$> running)]
  else [].

(** ** The two preflights *)

Definition iface_status (name : string) : option iface :=
  let r := h_run ["ifconfig"; name] in
  if r.1 =? 0 then Some (parse_iface r.2) else None.

(** A default route over [iface], by its first IPv4 gateway. *)
Definition default_gateway (name : string) : option string :=
  head (omap (λ line,
    match words line with
    | f0 :: f1 :: f2 :: f3 :: rest =>
        if bool_decide (f0 = "default") && bool_decide (last (words line) = Some name) && rx_full dotted f1
        then Some f1 else None
    | _ => None
    end) (splitlines (h_run ["netstat"; "-rn"; "-f"; "inet"]).2)).

Definition rig_problems (vice_bin : string) : list reason :=
  if negb (bool_decide (h_platform = "darwin")) then [("not macOS", [])]
  else
  vice_rawnet_problems vice_bin "pcap"
  ++ option_list libpcap_node_note
  ++ (if (h_run ["ifconfig"; ETH_IFACE]).1 =? 0 then [] else [("missing", [PStr ETH_IFACE])])
  ++ (let r := h_run ["ifconfig"; HOST_IFACE] in
      if negb (r.1 =? 0) || negb (contains ("inet " +:+ HOST_IP +:+ " ") r.2)
      then [("missing or not at", [PStr HOST_IFACE; PStr HOST_IP])] else [])
  ++ (let procs := vice_on_iface ETH_IFACE in
      if bool_decide (len procs = 0) then [] else [("conflict", [PStr (describe_conflict procs ETH_IFACE)])])
  ++ (if dnsmasq_alive then [] else [("rig dnsmasq not running", [])]).

Definition lan_problems (name : string) (st : iface) : list reason :=
  (if if_up st && if_running st then [] else [("not UP+RUNNING", [PStr name])])
  ++ (if bool_decide (if_active st = Some false) then [("no link", [PStr name])] else [])
  ++ (if bool_decide (if_ether st = None) then [("not an ethernet interface", [PStr name])] else [])
  ++ option_list (wifi_problem name hardware_ports)
  ++ match if_inet st with
     | None => [("no IPv4 address", [PStr name])]
     | Some (ip, mask) =>
         (if mask =? 0xFFFFFFFF then [("a /32", [PStr name])] else [])
         ++ (if startswith "169.254." ip then [("only link-local", [PStr name; PStr ip])] else [])
     end.

Definition bridged_problems (name vice_bin : string) : list reason :=
  if negb (bool_decide (h_platform = "darwin")) then [("not macOS", [])]
  else
  vice_rawnet_problems vice_bin "pcap"
  ++ option_list libpcap_node_note
  ++ match iface_status name with
     | None => [("does not exist", [PStr name])]
     | Some st =>
         lan_problems name st
         ++ (if bool_decide (default_gateway name = None) then [("no default gateway", [PStr name])] else [])
         ++ (if bool_decide (name ∈ dnsmasq_interfaces) then [("the rig's dnsmasq is bound to it", [PStr name])]
             else [])
         ++ (let procs := vice_on_iface name in
             if bool_decide (len procs = 0) then [] else [("conflict", [PStr (describe_conflict procs name)])])
     end.

Definition describe_bridged (name : string) : reason :=
  match iface_status name with
  | None => ("bridged", [PStr name])
  | Some st =>
      ("bridged", [PStr name; of_opt (PStr ∘ fst) (if_inet st); of_opt (PInt ∘ snd) (if_inet st);
         of_opt (λ e, if bool_decide (e = REDACTED_MAC) then PStr "<masked by macOS>" else PStr e) (if_ether st);
         of_opt PInt (if_mtu st); of_opt PStr (if_media st); of_opt PStr (default_gateway name)])
  end.

(** [sys.exit(77)] with the problems, or [None] to go on. *)
Definition SKIP_EXIT : Z := 77.
Definition skip_if_rig_down (vice_bin : string) : option (Z * list reason) :=
  match rig_problems vice_bin with [] => None | ps => Some (SKIP_EXIT, ps) end.
Definition skip_if_bridged_rig_down (name vice_bin : string) : option (Z * list reason) :=
  match bridged_problems name vice_bin with [] => None | ps => Some (SKIP_EXIT, ps) end.
End host.
