(* ===== verification/RigThms.v ===== *)
(** * The ethernet rig: the properties

    A row of tcpdump is classified with its fields, the segments of a map read back, which
    interface carries the bridged adapter, and what a preflight without problems shows. *)

From S2P Require Export RegexThms RigHost.
#[local] Set Warnings "-clear-no-such-hyp".

(** ** Searching behind a prefix *)

Lemma first_all_nil l g : first (RAll []) l l g g.
Proof. apply first_eps. Qed.

Lemma first_all_cons r rs l m rest g g' g'' :
  first r l m g g' → first (RAll rs) m rest g' g'' → first (RAll (r :: rs)) l rest g g''.
Proof. apply first_seq. Qed.

Lemma first_digits z rest g :
  0 ≤ z → from_option is_digit false (head rest) = false →
  first digits1 (chars (dec z) ++ rest) rest g g.
Proof.
  intros Hz Hrest. destruct (dec_digits z Hz) as (Hd & _ & Hne). by apply first_plus.
Qed.

(** What a search finds from here on: the groups of the match. *)
Definition found (r : rx) (l : list ascii) (o : option (list (nat * list ascii))) : Prop :=
  ∀ p fuel, (length l < fuel)%nat → sp_groups <$> head (scan_rx fuel r p l) = o.

Lemma rx_search_found r s o : found r (chars s) o → sp_groups <$> rx_search r s = o.
Proof. intros Hf. apply Hf. lia. Qed.

Lemma found_none r s : found r (chars s) None → rx_search r s = None.
Proof. intros Hf%rx_search_found. by destruct (rx_search r s). Qed.

Lemma found_group r s g :
  found r (chars s) (Some g) → ∃ m, rx_search r s = Some m ∧ sp_groups m = g.
Proof. intros Hf%rx_search_found. destruct (rx_search r s) as [m|]; [|done]. by exists m; injection Hf. Qed.

Lemma found_here r l rest g : first r l rest [] g → found r l (Some g).
Proof.
  intros Hfirst p [|fuel] Hf; [lia|]. destruct (Hfirst p) as (p' & others & Heq).
  cbn [scan_rx]. unfold spot_at. by rewrite Heq.
Qed.

Lemma found_char r c l o :
  (∀ p, run_rx r (spot_at p (c :: l)) = []) → found r l o → found r (c :: l) o.
Proof.
  intros Hno Hf p [|fuel] Hfuel; [cbn in Hfuel; lia|]. cbn [scan_rx]. rewrite Hno.
  apply Hf. cbn in Hfuel. lia.
Qed.

(** A pattern that begins with the literal character [c]. *)
Definition starts (c : ascii) (r : rx) : Prop :=
  ∀ p l, head l ≠ Some c → run_rx r (spot_at p l) = [].

Lemma starts_lit c s rs : starts c (RAll (RLit (String c s) :: rs)).
Proof.
  intros p [|c' l] Hne; [done|]. unfold RAll, RLit. cbn.
  rewrite bool_decide_eq_false_2; [done|]. intros ->. by apply Hne.
Qed.

Lemma found_nil c r : starts c r → found r [] None.
Proof. intros Hs p [|fuel] Hf; [cbn in Hf; lia|]. cbn [scan_rx]. by rewrite Hs. Qed.

Lemma found_skip c r pre l o : starts c r → c ∉ pre → found r l o → found r (pre ++ l) o.
Proof.
  intros Hs. induction pre as [|x pre IH]; [done|]. intros [Hx Hpre]%not_elem_of_cons Hf.
  apply found_char; [|by apply IH]. intros p. apply Hs. cbn. congruence.
Qed.

(** ** A row of tcpdump *)

Lemma first_dotted ip rest g :
  length ip = 4%nat → Forall (λ b, 0 ≤ b) ip → from_option is_digit false (head rest) = false →
  first dotted (chars (fmt_ip ip) ++ rest) rest g g.
Proof.
  intros Hlen Hip Hrest. destruct ip as [|a [|b [|c [|d [|]]]]]; try done.
  rewrite !Forall_cons in Hip. destruct Hip as (Ha & Hb & Hc & Hd & _).
  change (fmt_ip [a; b; c; d]) with (dec a +:+ "." +:+ dec b +:+ "." +:+ dec c +:+ "." +:+ dec d).
  rewrite !chars_app, <- !app_assoc. unfold dotted.
  repeat (eapply first_all_cons; [first [apply first_lit|apply first_digits; done]|]).
  apply first_all_nil.
Qed.

(** [IP src.sport > dst.dport: UDP, length n] *)
Definition udp_row (src : bytes) (sport : Z) (dst : bytes) (dport n : Z) : string :=
  "IP " +:+ fmt_ip src +:+ "." +:+ dec sport +:+ " > " +:+ fmt_ip dst +:+ "." +:+ dec dport
  +:+ ": UDP, length " +:+ dec n.

Lemma first_row src sport dst dport n rest :
  length src = 4%nat → length dst = 4%nat → Forall (λ b, 0 ≤ b) (src ++ dst ++ [sport; dport; n]) →
  from_option is_digit false (head rest) = false →
  first TCPDUMP_UDP (chars (udp_row src sport dst dport n) ++ rest) rest []
    [(5%nat, chars (dec n)); (4%nat, chars (dec dport)); (3%nat, chars (fmt_ip dst));
     (2%nat, chars (dec sport)); (1%nat, chars (fmt_ip src))].
Proof.
  intros Hs Hd Hall Hrest. rewrite !Forall_app, !Forall_cons in Hall.
  destruct Hall as (Hsrc & Hdst & Hsp & Hdp & Hn & _).
  unfold udp_row. rewrite !chars_app, <- !app_assoc. unfold TCPDUMP_UDP.
  repeat (eapply first_all_cons;
    [first [apply first_lit|apply first_group, first_dotted; done|apply first_group, first_digits; done]|]).
  apply first_all_nil.
Qed.

Lemma number_dec z : 0 ≤ z → number (dec z) = z.
Proof. intros Hz. unfold number. by rewrite parse_dec. Qed.

(** A text that does not hold [pat] from here on. *)
Lemma py_in_char (pat : list ascii) c l :
  starts_with pat (c :: l) = false → py_in pat l = false → py_in pat (c :: l) = false.
Proof.
  unfold py_in. rewrite !bool_decide_eq_false, <- !eq_None_not_Some. cbn [first_match].
  by intros -> ->.
Qed.

Lemma py_in_skip (x : ascii) pat pre l :
  x ∉ pre → py_in (x :: pat) l = false → py_in (x :: pat) (pre ++ l) = false.
Proof.
  induction pre as [|c pre IH]; [done|]. intros [Hx Hpre]%not_elem_of_cons Hl.
  apply py_in_char; [|by apply IH]. cbn. by rewrite bool_decide_eq_false_2.
Qed.

(** The timestamp in front of a row. *)
Definition stamp_char (c : ascii) : Prop := is_digit c = true ∨ c ∈ chars ":. ".

Lemma stamp_without x (pre : list ascii) :
  is_digit x = false → x ∉ chars ":. " → Forall stamp_char pre → x ∉ pre.
Proof. intros Hd Hx Hpre Hin. rewrite Forall_forall in Hpre. destruct (Hpre x Hin); [congruence|done]. Qed.

Lemma dec_skips x z : is_digit x = false → x ≠ "-"%char → x ∉ chars (dec z).
Proof.
  intros Hd Hm. apply dec_without; [done|]. unfold is_digit, in_range, code in Hd.
  rewrite andb_false_iff, !Z.leb_gt in Hd. lia.
Qed.

(** The header tcpdump prints with [-v]. *)
Definition verbose_row (ttl id off : Z) (flags : string) (n : Z) : string :=
  "IP (tos 0x0, ttl " +:+ dec ttl +:+ ", id " +:+ dec id +:+ ", offset " +:+ dec off
  +:+ ", flags [" +:+ flags +:+ "], proto UDP (17), length " +:+ dec n +:+ ")".
Definition ip_flags : list string := ["none"; "+"; "DF"; "+, DF"; "rsvd"].

Ltac skipped := first
  [ apply stamp_without; [reflexivity|by apply (bool_decide_unpack _)|assumption]
  | by apply dec_skips ].
Ltac skim := repeat first
  [ progress cbn [chars String.list_ascii_of_string app]
  | apply found_char; [intros ?; reflexivity|]
  | eapply found_skip; [apply starts_lit|skipped|]
  | eapply found_nil, starts_lit
  | apply py_in_char; [reflexivity|]
  | apply py_in_skip; [skipped|]
  | reflexivity ].

Lemma verbose_chars pre ttl id off flags n :
  chars (str pre +:+ verbose_row ttl id off flags n) =
  pre ++ chars "IP (tos 0x0, ttl " ++ chars (dec ttl) ++ chars ", id " ++ chars (dec id)
  ++ chars ", offset " ++ chars (dec off) ++ chars ", flags [" ++ chars flags
  ++ chars "], proto UDP (17), length " ++ chars (dec n) ++ chars ")".
Proof. unfold verbose_row. rewrite !chars_app, chars_str. done. Qed.

Lemma verbose_not_quiet pre ttl id off flags n :
  Forall stamp_char pre → flags ∈ ip_flags →
  rx_search TCPDUMP_UDP (str pre +:+ verbose_row ttl id off flags n) = None ∧
  rx_search TCPDUMP_FRAG_Q (str pre +:+ verbose_row ttl id off flags n) = None ∧
  contains "ip-proto-17" (str pre +:+ verbose_row ttl id off flags n) = false ∧
  contains "frag" (str pre +:+ verbose_row ttl id off flags n) = false.
Proof.
  intros Hpre Hflags. unfold contains.
  repeat split; try apply found_none; rewrite verbose_chars.
  all: repeat (apply elem_of_cons in Hflags as [->|Hflags]); [..|by apply not_elem_of_nil in Hflags].
  all: unfold TCPDUMP_UDP, TCPDUMP_FRAG_Q.
  all: skim.
Qed.

(** ** The segments of a map *)

Lemma first_hex6 l rest g :
  length l = 6%nat → Forall (λ c, is_hex_any c = true) l → first hex6 (l ++ rest) rest g g.
Proof.
  intros Hlen Hl. unfold hex6. revert Hlen. generalize 6%nat as n. intros n <-.
  induction Hl as [|c l Hc Hl IH]; [apply first_eps|].
  eapply first_seq; [by apply first_char|exact IH].
Qed.

(** A segment: name, first and last address, size. *)
Record segment := Segment { sg_name : string; sg_start : Z; sg_end : Z; sg_size : Z }.

Definition seg_ok (e : segment) : Prop :=
  chars (sg_name e) ≠ [] ∧ Forall (λ c, space_char c = false) (chars (sg_name e)) ∧
  startswith "Name" (sg_name e) = false ∧ startswith "---" (sg_name e) = false ∧
  0 ≤ sg_start e < 16 ^ 6 ∧ 0 ≤ sg_end e < 16 ^ 6 ∧ 0 ≤ sg_size e < 16 ^ 6.

(** The row the linker prints, the name padded to a column. *)
Definition seg_line (e : segment) : string :=
  sg_name e +:+ str (replicate (S (21 - length (chars (sg_name e)))) " "%char)
  +:+ hex_pad true 6 (sg_start e) +:+ "  " +:+ hex_pad true 6 (sg_end e) +:+ "  "
  +:+ hex_pad true 6 (sg_size e) +:+ "  00001".

Lemma hex_size_le z n : (0 < n)%nat → 0 ≤ z < 16 ^ Z.of_nat n → (hex_size z ≤ n)%nat.
Proof.
  intros Hn Hz. unfold hex_size. destruct (Z.eqb_spec z 0) as [->|Hne]; [lia|].
  assert (Z.log2 z < 4 * Z.of_nat n).
  { apply Z.log2_lt_pow2; [lia|]. rewrite Z.pow_mul_r by lia. change (2 ^ 4) with 16. lia. }
  pose proof (Z.div_lt_upper_bound (Z.log2 z) 4 (Z.of_nat n)). pose proof (Z.log2_nonneg z). lia.
Qed.

Lemma hex_pad6 z :
  0 ≤ z < 16 ^ 6 →
  length (chars (hex_pad true 6 z)) = 6%nat ∧ Forall (λ c, is_hex_any c = true) (chars (hex_pad true 6 z)) ∧
  hex_number (hex_pad true 6 z) = z.
Proof.
  intros Hz. unfold hex_pad at 1 2. rewrite !chars_str. split_and!.
  - rewrite length_hex_low. pose proof (hex_size_le z 6 ltac:(lia) Hz). lia.
  - eapply Forall_impl; [apply hex_low_digits|]. intros c (d & Hd & ->).
    exact (do_hex _ (hex_digit_ok d Hd)).
  - unfold hex_number. by rewrite parse_hex_pad by lia.
Qed.

Lemma first_blanks1 n rest g :
  (0 < n)%nat → from_option space_char false (head rest) = false →
  first blanks1 (replicate n " "%char ++ rest) rest g g.
Proof.
  intros Hn Hrest. apply first_plus; [destruct n; [lia|done]| |done]. by apply Forall_replicate.
Qed.

Lemma hex_head l rest :
  l ≠ [] → Forall (λ c, is_hex_any c = true) l → from_option space_char false (head (l ++ rest)) = false.
Proof.
  intros Hne Hl. destruct Hl as [|c l Hc Hl]; [done|]. cbn.
  unfold is_hex_any, is_digit, in_range, space_char in *.
  rewrite !orb_true_iff, !andb_true_iff, !Z.leb_le in Hc.
  rewrite !orb_false_iff, !andb_false_iff, !Z.leb_gt, !Z.eqb_neq. lia.
Qed.

Lemma first_seg e :
  seg_ok e →
  ∃ p g, rx_match SEG_ROW (seg_line e) = Some (Spot p (chars " 00001") g) ∧
    group 1 (Spot p (chars " 00001") g) = sg_name e ∧
    hex_number (group 2 (Spot p (chars " 00001") g)) = sg_start e ∧
    hex_number (group 3 (Spot p (chars " 00001") g)) = sg_end e ∧
    hex_number (group 4 (Spot p (chars " 00001") g)) = sg_size e.
Proof.
  intros (Hne & Hname & _ & _ & Hs & He & Hz).
  destruct (hex_pad6 _ Hs) as (Ls & Fs & Vs), (hex_pad6 _ He) as (Le & Fe & Ve), (hex_pad6 _ Hz) as (Lz & Fz & Vz).
  assert (Hnil : ∀ z, length (chars (hex_pad true 6 z)) = 6%nat → chars (hex_pad true 6 z) ≠ [])
    by (intros z Hl Hn; by rewrite Hn in Hl).
  set (g := [(4%nat, chars (hex_pad true 6 (sg_size e))); (3%nat, chars (hex_pad true 6 (sg_end e)));
             (2%nat, chars (hex_pad true 6 (sg_start e))); (1%nat, chars (sg_name e))]).
  assert (Hfirst : first (RAll (tail [RBol; RGroup 1 token; blanks1; RGroup 2 hex6; blanks1; RGroup 3 hex6;
      blanks1; RGroup 4 hex6; RChar space_char])) (chars (seg_line e)) (chars " 00001") [] g).
  { unfold seg_line. rewrite !chars_app, chars_str. cbn [tail].
    change (chars "  00001") with (" "%char :: chars " 00001").
    change (chars "  ") with (replicate 2 " "%char).
    eapply first_all_cons; [apply first_group, first_plus; [done| |done]|].
    { eapply Forall_impl; [exact Hname|]. intros c Hc. unfold is_nonspace. by rewrite Hc. }
    eapply first_all_cons; [apply first_blanks1; [lia|by apply hex_head; [apply Hnil|]]|].
    eapply first_all_cons; [by apply first_group, first_hex6|].
    eapply first_all_cons; [apply first_blanks1; [lia|by apply hex_head; [apply Hnil|]]|].
    eapply first_all_cons; [by apply first_group, first_hex6|].
    eapply first_all_cons; [apply first_blanks1; [lia|by apply hex_head; [apply Hnil|]]|].
    eapply first_all_cons; [by apply first_group, first_hex6|].
    eapply first_all_cons; [by apply first_char|]. apply first_all_nil. }
  destruct (Hfirst None) as (p & others & Heq). exists p, g. split_and!.
  - unfold rx_match, SEG_ROW, spot_at. cbn [tail] in Heq.
    change (RAll (RBol :: ?l)) with (RSeq RBol (RAll l)). cbn [run_rx sp_prev mbind list_bind].
    rewrite app_nil_r. unfold RAll in *. cbn [foldr] in *. by rewrite Heq.
  - unfold group. cbn. by rewrite str_chars.
  - unfold group. cbn. by rewrite str_chars.
  - unfold group. cbn. by rewrite str_chars.
  - unfold group. cbn. by rewrite str_chars.
Qed.

(** What is read of the rows. *)
Definition kept (es : list segment) : list (string * (Z * Z)) :=
  omap (λ e, if sg_size e =? 0 then None else Some (sg_name e, (sg_start e, sg_end e))) es.

(** A line that the loop over the rows passes over while nothing was read. *)
Definition header_line (s : string) : Prop :=
  startswith "Name" s = true ∨ startswith "---" s = true ∨ strip s = "".

Lemma seg_rows_header lines rest :
  Forall header_line lines → seg_rows (lines ++ rest) [] = seg_rows rest [].
Proof.
  induction 1 as [|s lines Hs Hls IH]; [done|]. cbn [app seg_rows].
  replace (startswith "Name" s || startswith "---" s || bool_decide (strip s = "")) with true; [done|].
  destruct Hs as [-> |[-> | ->]]; by rewrite ?orb_true_r.
Qed.

Lemma starts_with_word p l r :
  Forall (λ c, space_char c = false) p → starts_with p (l ++ " "%char :: r) = starts_with p l.
Proof.
  intros Hp. revert l. induction Hp as [|c p Hc Hp IH]; intros [|x l]; [done..| |].
  - cbn. rewrite bool_decide_eq_false_2 by (intros ->; by vm_compute in Hc). done.
  - cbn. by rewrite IH.
Qed.

Lemma strip_head c l : space_char c = false → strip (str (c :: l)) ≠ "".
Proof.
  intros Hc Hs. unfold strip in Hs. rewrite chars_str in Hs. cbn [drop_while] in Hs. rewrite Hc in Hs.
  unfold rstrip in Hs.
  destruct (drop_while_suffix space_char (rev (c :: l))) as (k & Hk & Hall).
  destruct (drop_while space_char (rev (c :: l))) as [|x d] eqn:Hd.
  - rewrite app_nil_r in Hk. rewrite <- Hk, Forall_forall in Hall.
    rewrite (Hall c) in Hc; [done|]. apply list_elem_of_In. rewrite <- in_rev. by left.
  - apply (f_equal chars) in Hs. rewrite chars_str in Hs. cbn in Hs. by destruct (rev d).
Qed.

Lemma plain_of_space c : space_char c = false → line_break c = false.
Proof.
  unfold space_char, line_break. rewrite !orb_false_iff, !andb_false_iff, !Z.leb_gt, !Z.eqb_neq. lia.
Qed.

Lemma hex_any_plain l : Forall (λ c, is_hex_any c = true) l → Forall (λ c, line_break c = false) l.
Proof.
  intros Hl. eapply Forall_impl; [exact Hl|]. intros c Hc. apply plain_of_space.
  apply (hex_head [c] []); [done|]. by constructor.
Qed.

Lemma seg_line_plain e : seg_ok e → Forall (λ c, line_break c = false) (chars (seg_line e)).
Proof.
  intros (_ & Hname & _ & _ & Hs & He & Hz). unfold seg_line.
  rewrite !chars_app, chars_str, !Forall_app. split_and!.
  - eapply Forall_impl; [exact Hname|]. apply plain_of_space.
  - by apply Forall_replicate.
  - by apply hex_any_plain, hex_pad6.
  - by repeat constructor.
  - by apply hex_any_plain, hex_pad6.
  - by repeat constructor.
  - by apply hex_any_plain, hex_pad6.
  - by repeat constructor.
Qed.

Lemma seg_line_row e :
  seg_ok e →
  startswith "Name" (seg_line e) = false ∧ startswith "---" (seg_line e) = false ∧ strip (seg_line e) ≠ "".
Proof.
  intros (Hne & Hname & HN & HD & _).
  assert (Hline : ∃ r, chars (seg_line e) = chars (sg_name e) ++ " "%char :: r).
  { unfold seg_line. rewrite !chars_app, chars_str. cbn [replicate app]. by eexists. }
  destruct Hline as [r Hline]. unfold startswith in *. rewrite Hline.
  rewrite !starts_with_word by (repeat constructor). split_and!; [done..|].
  rewrite <- (str_chars (seg_line e)), Hline.
  destruct (chars (sg_name e)) as [|c l]; [done|]. apply Forall_cons in Hname as [Hc _]. by apply strip_head.
Qed.

Lemma seg_rows_row e rest out :
  seg_ok e → sg_name e ∉ out.*1 → seg_rows (seg_line e :: rest) out = seg_rows rest (out ++ kept [e]).
Proof.
  intros He Hfresh. destruct (seg_line_row e He) as (HN & HD & HS).
  destruct (first_seg e He) as (p & g & Hm & H1 & H2 & H3 & H4).
  cbn [seg_rows]. rewrite HN, HD, bool_decide_eq_false_2 by done. cbn [orb]. rewrite Hm, H1, H2, H3, H4.
  cbn. destruct (sg_size e =? 0); [by rewrite app_nil_r|]. by rewrite dict_set_fresh.
Qed.

Lemma kept_names es : sublist (kept es).*1 (sg_name <$> es).
Proof.
  induction es as [|e es IH]; [constructor|]. cbn. destruct (sg_size e =? 0); cbn; by constructor.
Qed.

Lemma seg_rows_rows es rest out :
  Forall seg_ok es → NoDup (out.*1 ++ (sg_name <$> es)) →
  seg_rows ((seg_line <$> es) ++ rest) out = seg_rows rest (out ++ kept es).
Proof.
  intros Hes. revert out. induction Hes as [|e es He Hes IH]; intros out Hnd.
  - cbn. by rewrite app_nil_r.
  - cbn [fmap list_fmap app]. cbn in Hnd. rewrite NoDup_app in Hnd.
    destruct Hnd as (Ho & Hdis & (Hen & Hnd)%NoDup_cons).
    rewrite seg_rows_row by (try done; intros Hin; by apply (Hdis _ Hin); left).
    rewrite IH.
    + rewrite <- app_assoc. by destruct e as [? ? ? []].
    + rewrite fmap_app, <- app_assoc, NoDup_app. split; [done|]. split.
      * intros x Hx Hin. apply (Hdis x Hx). apply elem_of_app in Hin as [Hin|Hin]; [|by right].
        apply (sublist_subseteq _ _ (kept_names [e])) in Hin. cbn in Hin.
        apply list_elem_of_singleton in Hin as ->. by left.
      * apply NoDup_app. split; [|split; [|done]].
        -- eapply sublist_NoDup; [|apply (kept_names [e])]. apply NoDup_singleton.
        -- intros x Hin. apply (sublist_subseteq _ _ (kept_names [e])) in Hin.
           apply list_elem_of_singleton in Hin as ->. done.
Qed.

Lemma lines_after_skip s pre rest : s ∉ pre → lines_after s (pre ++ s :: rest) = Some rest.
Proof.
  induction pre as [|x pre IH]; intros Hs; cbn; [by rewrite decide_True|].
  apply not_elem_of_cons in Hs as [Hne Hs]. rewrite decide_False by done. by apply IH.
Qed.

(** What a verbose header holds for the two searches that decide about fragments. *)
Lemma verbose_fields pre ttl id off flags n :
  Forall stamp_char pre → 0 ≤ off → flags ∈ ip_flags →
  ∃ m m', rx_search TCPDUMP_V_FLAGS (str pre +:+ verbose_row ttl id off flags n) = Some m ∧
    group 1 m = flags ∧
    rx_search TCPDUMP_V_OFFSET (str pre +:+ verbose_row ttl id off flags n) = Some m' ∧
    number (group 1 m') = off.
Proof.
  intros Hpre Hoff Hflags.
  assert (Hf : found TCPDUMP_V_FLAGS (chars (str pre +:+ verbose_row ttl id off flags n))
                 (Some [(1%nat, chars flags)])).
  { rewrite verbose_chars. unfold TCPDUMP_V_FLAGS. skim.
    eapply found_here.
    eapply first_all_cons; [apply (first_lit "flags [")|].
    eapply first_all_cons; [apply first_group, first_star; [|done]|].
    { repeat (apply elem_of_cons in Hflags as [->|Hflags]); [..|by apply not_elem_of_nil in Hflags].
      all: by repeat constructor. }
    eapply first_all_cons; [apply (first_lit "]")|apply first_all_nil]. }
  assert (Ho : found TCPDUMP_V_OFFSET (chars (str pre +:+ verbose_row ttl id off flags n))
                 (Some [(1%nat, chars (dec off))])).
  { rewrite verbose_chars. unfold TCPDUMP_V_OFFSET. skim. eapply found_here.
    eapply first_all_cons; [apply (first_lit "offset ")|].
    eapply first_all_cons; [by apply first_group, first_digits|apply first_all_nil]. }
  destruct (found_group _ _ _ Hf) as (m & Hm & Gm), (found_group _ _ _ Ho) as (m' & Hm' & Gm').
  exists m, m'. unfold group. rewrite Gm, Gm'. cbn. rewrite !str_chars. split_and!; [done..|].
  by apply number_dec.
Qed.

Lemma plus_in_flags flags : flags ∈ ip_flags → contains "+" flags = bool_decide (flags ∈ ["+"; "+, DF"]).
Proof. intros Hflags. repeat (apply elem_of_cons in Hflags as [->|Hflags]); [by vm_compute..|by apply not_elem_of_nil in Hflags]. Qed.

Lemma quiet_row_found pre src sport dst dport n tl :
  Forall stamp_char pre → length src = 4%nat → length dst = 4%nat →
  Forall (λ b, 0 ≤ b) (src ++ dst ++ [sport; dport; n]) →
  from_option is_digit false (head tl) = false →
  classify_tcpdump_line (str pre +:+ udp_row src sport dst dport n +:+ str tl) =
    Some (UdpRow (UdpRec (fmt_ip src) sport (fmt_ip dst) dport n)).
Proof.
  intros Hpre Hs Hd Hall Htl.
  assert (Hf : found TCPDUMP_UDP (chars (str pre +:+ udp_row src sport dst dport n +:+ str tl)) (Some
    [(5%nat, chars (dec n)); (4%nat, chars (dec dport)); (3%nat, chars (fmt_ip dst));
     (2%nat, chars (dec sport)); (1%nat, chars (fmt_ip src))])).
  { rewrite !chars_app, !chars_str. eapply found_skip; [apply starts_lit|skipped|].
    eapply found_here. by apply first_row. }
  destruct (found_group _ _ _ Hf) as (m & Hm & Gm). unfold classify_tcpdump_line. rewrite Hm.
  unfold group. rewrite Gm. cbn. rewrite !str_chars.
  rewrite !Forall_app, !Forall_cons in Hall. destruct Hall as (_ & _ & ? & ? & ? & _).
  by rewrite !number_dec.
Qed.

(** A row of a capture: a datagram as [-q] shows it, or a header as [-v] does. *)
Inductive seen :=
| Quiet (stamp : list ascii) (src : bytes) (sport : Z) (dst : bytes) (dport n : Z) (tl : list ascii)
| Verbose (stamp : list ascii) (ttl id off : Z) (flags : string) (n : Z).

Definition shown (s : seen) : string :=
  match s with
  | Quiet pre src sport dst dport n tl => str pre +:+ udp_row src sport dst dport n +:+ str tl
  | Verbose pre ttl id off flags n => str pre +:+ verbose_row ttl id off flags n
  end.
Definition seen_ok (s : seen) : Prop :=
  match s with
  | Quiet pre src sport dst dport n tl =>
      Forall stamp_char pre ∧ length src = 4%nat ∧ length dst = 4%nat ∧
      Forall (λ b, 0 ≤ b) (src ++ dst ++ [sport; dport; n]) ∧
      from_option is_digit false (head tl) = false
  | Verbose pre _ _ off flags _ => Forall stamp_char pre ∧ 0 ≤ off ∧ flags ∈ ip_flags
  end.
Definition datagram_of (s : seen) : option udp_rec :=
  match s with
  | Quiet _ src sport dst dport n _ => Some (UdpRec (fmt_ip src) sport (fmt_ip dst) dport n)
  | Verbose _ _ _ _ _ _ => None
  end.
(** A piece of a fragmented datagram: more follow, or it does not begin the datagram. *)
Definition torn (s : seen) : bool :=
  match s with
  | Quiet _ _ _ _ _ _ _ => false
  | Verbose _ _ _ off flags _ => (0 <? off) || bool_decide (flags ∈ ["+"; "+, DF"])
  end.

Lemma classify_seen s :
  seen_ok s →
  classify_tcpdump_line (shown s) =
    match datagram_of s with
    | Some r => Some (UdpRow r)
    | None => if torn s then Some (FragRow (rstrip_line (shown s))) else None
    end.
Proof.
  destruct s as [pre src sport dst dport n tl|pre ttl id off flags n]; cbn [datagram_of seen_ok torn].
  - intros (? & ? & ? & ? & ?). by apply quiet_row_found.
  - intros (Hpre & Hoff & Hflags). unfold classify_tcpdump_line. cbn [shown].
    destruct (verbose_not_quiet pre ttl id off flags n) as (-> & -> & -> & ->); [done..|].
    destruct (verbose_fields pre ttl id off flags n) as (m & m' & -> & -> & -> & ->); [done..|].
    rewrite plus_in_flags by done. rewrite orb_comm.
    by destruct ((0 <? off) || bool_decide (flags ∈ ["+"; "+, DF"])).
Qed.

Lemma pump_snoc lines l : pump (lines ++ [l]) = pump_line (pump lines) l.
Proof. unfold pump. by rewrite foldl_app. Qed.

Lemma masked_none mac (table : list (string * string * option string)) (hits : list string) :
  hits = omap (λ r, if bool_decide (r.2 = Some mac) then Some r.1.2 else None) table →
  ∀ dev, dev ∈ hits ↔ ∃ port, (port, dev, Some mac) ∈ table.
Proof.
  intros -> dev. rewrite list_elem_of_omap. split.
  - intros ([[port d] m] & Hin & Heq). cbn in Heq. case_bool_decide; [|done]. naive_solver.
  - intros [port Hin]. eexists. split; [exact Hin|]. cbn. by rewrite bool_decide_eq_true_2.
Qed.

(** A block of [networksetup -listallhardwareports]. *)
Definition port_block (r : string * string * string) : list string :=
  ["Hardware Port: " +:+ r.1.1; "Device: " +:+ r.1.2; "Ethernet Address: " +:+ r.2; ""].
Definition port_ok (r : string * string * string) : Prop :=
  Forall (λ s, strip (" " +:+ s) = s ∧ Forall (λ c, line_break c = false) (chars s)) [r.1.1; r.1.2; r.2].
Definition port_row (r : string * string * string) : string * string * option string :=
  (r.1.1, r.1.2, Some (lower r.2)).

Lemma partition_key key val :
  ":"%char ∉ chars key → partition ":" (key +:+ ":" +:+ val) = (key, true, val).
Proof.
  intros Hkey. unfold partition. rewrite !chars_app.
  assert (Hp : partition_chars ":" (chars key ++ chars ":" ++ chars val) = (chars key, true, chars val)).
  { revert Hkey. induction (chars key) as [|c l IH]; intros Hkey; [done|].
    apply not_elem_of_cons in Hkey as [Hne Hl]. cbn [app partition_chars].
    rewrite decide_False by done. by rewrite (IH Hl). }
  rewrite Hp. by rewrite !str_chars.
Qed.

Lemma port_line_port rows port dev p :
  strip (" " +:+ p) = p → port_line (rows, port, dev) ("Hardware Port: " +:+ p) = (rows, Some p, None).
Proof.
  intros Hp. change ("Hardware Port: " +:+ p) with ("Hardware Port" +:+ ":" +:+ (" " +:+ p)).
  unfold port_line. rewrite partition_key, Hp by (by apply (bool_decide_unpack _)). done.
Qed.

Lemma port_line_device rows p dev d :
  strip (" " +:+ d) = d →
  port_line (rows, Some p, dev) ("Device: " +:+ d) = (rows ++ [(p, d, None)], Some p, Some d).
Proof.
  intros Hd. change ("Device: " +:+ d) with ("Device" +:+ ":" +:+ (" " +:+ d)).
  unfold port_line. rewrite partition_key, Hd by (by apply (bool_decide_unpack _)). done.
Qed.

Lemma port_line_address rows r p d m :
  strip (" " +:+ m) = m →
  port_line (rows ++ [r], Some p, Some d) ("Ethernet Address: " +:+ m)
  = (rows ++ [(p, d, Some (lower m))], None, None).
Proof.
  intros Hm. change ("Ethernet Address: " +:+ m) with ("Ethernet Address" +:+ ":" +:+ (" " +:+ m)).
  unfold port_line. rewrite partition_key, Hm by (by apply (bool_decide_unpack _)).
  rewrite rev_app_distr. cbn [rev app]. by rewrite rev_involutive.
Qed.

Lemma port_block_read r rows port dev :
  port_ok r →
  foldl port_line (rows, port, dev) (port_block r) = (rows ++ [port_row r], None, None).
Proof.
  destruct r as [[p d] m]. unfold port_ok. rewrite !Forall_cons. cbn [fst snd].
  intros ((Hp & _) & (Hd & _) & (Hm & _) & _). unfold port_block, port_row. cbn [foldl fst snd].
  by rewrite port_line_port, port_line_device, port_line_address.
Qed.

Lemma port_blocks_read rs rows :
  Forall port_ok rs →
  (foldl port_line (rows, None, None) (concat (port_block <$> rs))).1.1 = rows ++ (port_row <$> rs).
Proof.
  intros Hrs. revert rows. induction Hrs as [|r rs Hr Hrs IH]; intros rows.
  - cbn. by rewrite app_nil_r.
  - cbn [fmap list_fmap concat]. rewrite foldl_app, port_block_read by done.
    rewrite IH. by rewrite <- app_assoc.
Qed.

Lemma ports_read_back rs :
  Forall port_ok rs → port_rows (lines_text (concat (port_block <$> rs))) = port_row <$> rs.
Proof.
  intros Hrs. unfold port_rows, lines_text. rewrite splitlines_lines.
  - by apply port_blocks_read.
  - apply Forall_concat, Forall_fmap. eapply Forall_impl; [exact Hrs|].
    intros [[p d] m]. unfold port_ok, port_block. cbn. rewrite !Forall_cons.
    intros ((_ & ?) & (_ & ?) & (_ & ?) & _). rewrite !chars_app, !Forall_app.
    split_and!; try done; by repeat constructor.
Qed.

(** The devices of the rows that carry [mac]. *)
Definition carriers (mac : string) (table : list (string * string * option string)) : list string :=
  omap (λ r, if bool_decide (r.2 = Some mac) then Some r.1.2 else None) table.

Lemma resolve_inl mac table dev :
  resolve_bridged_iface mac table = inl dev ↔ lower mac ≠ REDACTED_MAC ∧ carriers (lower mac) table = [dev].
Proof.
  unfold resolve_bridged_iface. fold (carriers (lower mac) table).
  destruct table as [|r table]; [split; [done|by intros [_ [=]]]|].
  rewrite bool_decide_eq_false_2 by done. case_bool_decide as Hm; [naive_solver|].
  destruct (carriers _ _) as [|d [|d' l]]; naive_solver.
Qed.

Lemma carriers_one mac table dev :
  carriers mac table = [dev] ↔
  ∃ before port after, table = before ++ (port, dev, Some mac) :: after ∧
    (∀ r, r ∈ before ++ after → r.2 ≠ Some mac).
Proof.
  unfold carriers. split.
  - induction table as [|[[p d] m] table IH]; [done|]. cbn. case_bool_decide as Hm.
    + intros [= -> Hrest]. exists [], p, table. cbn in Hm. subst m. split; [done|].
      intros r Hr Heq. cut (r.1.2 ∈ @nil string); [by intros ?%not_elem_of_nil|].
      rewrite <- Hrest. apply list_elem_of_omap. exists r. split; [done|]. by rewrite bool_decide_eq_true_2.
    + intros Hrest. destruct (IH Hrest) as (b & port & a & -> & Hno).
      exists ((p, d, m) :: b), port, a. split; [done|]. intros r [->|Hr]%elem_of_cons; [done|by apply Hno].
  - assert (Hnone : ∀ l : list (string * string * option string), (∀ r, r ∈ l → r.2 ≠ Some mac) →
      omap (λ r, if bool_decide (r.2 = Some mac) then Some r.1.2 else None) l = []).
    { induction l as [|r l IH]; intros Hl; [done|]. cbn. rewrite bool_decide_eq_false_2 by (apply Hl; by left).
      apply IH. intros r' Hr'. apply Hl. by right. }
    intros (b & port & a & -> & Hno). rewrite omap_app. cbn.
    rewrite bool_decide_eq_true_2 by done.
    rewrite !Hnone; [done| |]; intros r Hr; apply Hno, elem_of_app; auto.
Qed.

Lemma if_nil {A} (b : bool) (l : list A) : l ≠ [] → (if b then [] else l) = [] ↔ b = true.
Proof. destruct b; naive_solver. Qed.
Lemma if_nil_not {A} (b : bool) (l : list A) : l ≠ [] → (if b then l else []) = [] ↔ b = false.
Proof. destruct b; naive_solver. Qed.
Lemma option_list_nil {A} (o : option A) : option_list o = [] ↔ o = None.
Proof. by destruct o. Qed.
Lemma none_is_nil {A} (l : list A) : len l = 0 ↔ l = [].
Proof. unfold len. destruct l; [done|]. cbn. split; [lia|done]. Qed.

(** What VICE asks of the host. *)
Definition rawnet_ready `{!Host} (vice_bin : string) : Prop :=
  h_exists vice_bin = true ∧ vice_binary_supports_ethernet vice_bin = true ∧
  (driver_requires_root "pcap" = true → rawnet_capability vice_bin = false → unelevated_allowed = true) ∧
  (unelevated_allowed = true → bpf_node_openable = true).

Lemma rawnet_ready_iff `{!Host} vice_bin :
  vice_rawnet_problems vice_bin "pcap" = [] ∧ libpcap_node_note = None ↔ rawnet_ready vice_bin.
Proof.
  unfold vice_rawnet_problems, libpcap_node_note, rawnet_ready.
  destruct (h_exists vice_bin); cbn [negb]; [|naive_solver].
  rewrite app_nil, if_nil, if_nil_not by done.
  destruct (vice_binary_supports_ethernet vice_bin), (driver_requires_root "pcap"),
    (rawnet_capability vice_bin), unelevated_allowed, bpf_node_openable; naive_solver.
Qed.

(** What makes an interface a place on the LAN. *)
Record on_lan `{!Host} (name : string) (st : iface) : Prop := OnLan {
  ol_running : if_up st = true ∧ if_running st = true;
  ol_link : if_active st ≠ Some false;
  ol_ether : if_ether st ≠ None;
  ol_wired : hardware_ports ≠ [] ∧
             ∀ port, assoc name hardware_ports = Some port → lower port ∉ ["wi-fi"; "airport"];
  ol_inet : ∃ ip mask, if_inet st = Some (ip, mask) ∧ mask ≠ 0xFFFFFFFF ∧ startswith "169.254." ip = false;
}.

Lemma wifi_none name ports :
  wifi_problem name ports = None ↔
  ports ≠ [] ∧ ∀ port, assoc name ports = Some port → lower port ∉ ["wi-fi"; "airport"].
Proof.
  unfold wifi_problem. case_bool_decide; [naive_solver|].
  destruct (assoc name ports) as [port|]; [|naive_solver]. case_bool_decide; naive_solver.
Qed.

Lemma lan_problems_nil `{!Host} name st : lan_problems name st = [] ↔ on_lan name st.
Proof.
  unfold lan_problems. rewrite !app_nil, if_nil, !if_nil_not, option_list_nil, wifi_none by done.
  rewrite andb_true_iff, !bool_decide_eq_false.
  assert (Hinet : match if_inet st with
      | None => [("no IPv4 address", [PStr name])]
      | Some (ip, mask) =>
          (if mask =? 0xFFFFFFFF then [("a /32", [PStr name])] else [])
          ++ (if startswith "169.254." ip then [("only link-local", [PStr name; PStr ip])] else [])
      end = [] ↔
    ∃ ip mask, if_inet st = Some (ip, mask) ∧ mask ≠ 0xFFFFFFFF ∧ startswith "169.254." ip = false).
  { destruct (if_inet st) as [[ip mask]|]; [|naive_solver].
    rewrite app_nil, !if_nil_not, Z.eqb_neq by done. naive_solver. }
  rewrite Hinet. split; [intros (? & ? & ? & ? & ?); by constructor|by intros []].
Qed.

(** A host whose interface en5 is on the LAN, for the witnesses. *)
Definition demo_host (unreadable_pidfile : bool) : Host := {|
  h_platform := "darwin";
  h_pid := 700;
  h_env := λ _, None;
  h_exists := λ _, true;
  h_open := λ _, if unreadable_pidfile then Denied else Unreadable;
  h_signal := λ _, NoProcess;
  h_run := λ cmd,
    match cmd with
    | ["ifconfig"; "en5"] => (0, lines_text
        ["en5: flags=8863<UP,BROADCAST,SMART,RUNNING,SIMPLEX,MULTICAST> mtu 1500";
         str [ascii_of_nat 9] +:+ "ether c0:56:27:b1:16:38 ";
         str [ascii_of_nat 9] +:+ "inet 192.168.2.40 netmask 0xffffff00 broadcast 192.168.2.255"])
    | "netstat" :: _ => (0, lines_text ["default 192.168.2.1 UGScg en5"])
    | _ => (1, "")
    end;
  h_run_bounded := λ _, Some (0, lines_text (concat (port_block <$>
    [("Wi-Fi", "en0", "3c:22:fb:00:00:01"); ("USB LAN", "en5", "C0:56:27:B1:16:38")])));
  vice_binary_supports_ethernet := λ _, true;
  driver_requires_root := λ _, false;
  rawnet_capability := λ _, false;
  bpf_permissions := λ _, false;
  bpf_node_openable := true;
  effective_driver_name := id;
|}.

Example demo_bridged_ready : @skip_if_bridged_rig_down (demo_host false) "en5" "x64sc" = None.
Proof. by vm_compute. Qed.
Example demo_wifi_refused :
  @skip_if_bridged_rig_down (demo_host false) "en0" "x64sc" = Some (77, [("does not exist", [PStr "en0"])]).
Proof. by vm_compute. Qed.

(** A capture: a whole datagram, a last piece, an unfragmented header. *)
Definition demo_rows : list seen :=
  [Quiet (chars "12:03:01.548 ") [10; 0; 65; 130] 51820 [10; 0; 65; 1] 39351 1472 [];
   Verbose (chars "12:03:04.5 ") 64 4 1480 "none" 20; Verbose (chars "12:03:04.6 ") 64 5 0 "DF" 90].
Definition demo_segments : list segment :=
  [Segment "CODE" 0x801 0x32EE 0x2AEE; Segment "NOTHING" 2 1 0; Segment "BSS" 0xA000 0xAF3F 0xF40].
Definition demo_ports : list (string * string * string) :=
  [("Wi-Fi", "en0", "3c:22:fb:00:00:01"); ("USB 10/100 LAN", "en5", "C0:56:27:B1:16:38")].

Lemma demo_rows_ok : Forall seen_ok demo_rows.
Proof.
  assert (Hst : ∀ l, Forall (λ c, is_digit c || bool_decide (c ∈ chars ":. ") = true) l → Forall stamp_char l).
  { intros l Hl. eapply Forall_impl; [exact Hl|]. intros c Hc. unfold stamp_char.
    by rewrite orb_true_iff, bool_decide_eq_true in Hc. }
  unfold demo_rows. rewrite !Forall_cons. cbn [seen_ok]. split_and!; try constructor.
  all: first [apply Hst; by apply (bool_decide_unpack _)|by apply (bool_decide_unpack _)].
Qed.

Lemma demo_segments_ok : Forall seg_ok demo_segments.
Proof. repeat constructor; try done; by apply (bool_decide_unpack _). Qed.

Lemma demo_ports_ok : Forall port_ok demo_ports.
Proof. unfold port_ok. apply (bool_decide_unpack _). by vm_compute. Qed.

Module Rig.

(** What the tap keeps of a capture is exact: fed the rows tcpdump prints, its records are the
    datagrams of the whole rows in order, with the addresses, the ports and the length they show,
    and it counts as fragments exactly the headers of torn datagrams (more to follow, or not at
    the start), never an unfragmented one; every line is kept raw. *)
Theorem tap_reads_capture rows :
  Forall seen_ok rows →
  let t := pump (shown <$> rows) in
  tp_records t = omap datagram_of rows ∧
  tap_fragments t = len (List.filter torn rows) ∧
  tp_raw t = rstrip_line ∘ shown <$> rows ∧
  ∀ src dst dport r, r ∈ tap_udp t src dst dport ↔
    r ∈ omap datagram_of rows ∧ (∀ a, src = Some a → u_src r = a) ∧
    (∀ a, dst = Some a → u_dst r = a) ∧ (∀ p, dport = Some p → u_dport r = p).
Proof.
  intros Hrows t.
  assert (Hpump : tp_records t = omap datagram_of rows ∧ len (tp_frags t) = len (List.filter torn rows) ∧
                  tp_raw t = rstrip_line ∘ shown <$> rows).
  { unfold t. induction rows as [|s rows IH] using rev_ind; [done|].
    apply Forall_app in Hrows as [Hrows [Hs _]%Forall_cons]. destruct (IH Hrows) as (Hr & Hf & Hw).
    rewrite !fmap_app, omap_app, List.filter_app, len_app.
    change (shown <$> [s]) with [shown s]. rewrite pump_snoc.
    unfold pump_line. rewrite classify_seen by done. rewrite <- Hr, <- Hf, <- Hw.
    destruct s as [|? ? ? off flags ?]; cbn [datagram_of torn List.filter omap list_omap].
    - split_and!; [done| |done]. unfold tp_frags at 1. change (len (@nil seen)) with 0. lia.
    - destruct ((0 <? off) || bool_decide (flags ∈ ["+"; "+, DF"])); cbn [tp_records tp_frags tp_raw];
        rewrite ?app_nil_r, ?len_app; split_and!; try done. change (len (@nil seen)) with 0. lia. }
  destruct Hpump as (Hr & Hf & Hw). split_and!; [done..|]. intros src dst dport r.
  assert (Hwant : ∀ A (H : EqDecision A) (o : option A) x, wanted o x = true ↔ ∀ a, o = Some a → x = a).
  { intros A ? [w|] x; cbn; [rewrite bool_decide_eq_true|]; naive_solver. }
  unfold tap_udp. rewrite list_elem_of_In, List.filter_In, <- list_elem_of_In, Hr.
  rewrite !andb_true_iff, !Hwant. naive_solver.
Qed.

Lemma tap_reads_capture_witness :
  tp_records (pump (shown <$> demo_rows)) = [UdpRec "10.0.65.130" 51820 "10.0.65.1" 39351 1472] ∧
  tap_fragments (pump (shown <$> demo_rows)) = 1.
Proof.
  destruct (tap_reads_capture demo_rows demo_rows_ok) as (Hr & Hf & _).
  rewrite Hr, Hf. split; vm_compute; reflexivity.
Defined.

(** The segments of a linker's map read back: from a map whose segment list holds the rows
    of segments with distinct names, ended by a blank line, exactly those of non-zero size are read,
    in order, with their first and last addresses, whatever stands before the list and behind it. *)
Theorem segments_roundtrip pre header es tl :
  Forall (λ s, Forall (λ c, line_break c = false) (chars s)) (pre ++ header ++ tl) →
  "Segment list:" ∉ pre → Forall header_line header → Forall seg_ok es → NoDup (sg_name <$> es) →
  kept es ≠ [] →
  parse_map_segments (lines_text (pre ++ "Segment list:" :: header ++ (seg_line <$> es) ++ "" :: tl))
  = Ok (kept es).
Proof.
  intros Hlines Hpre Hheader Hes Hnd Hkept. rewrite !Forall_app in Hlines.
  destruct Hlines as (Lpre & Lheader & Ltl). unfold parse_map_segments, lines_text.
  rewrite splitlines_lines.
  - rewrite lines_after_skip by done. rewrite seg_rows_header by done. rewrite seg_rows_rows by done.
    cbn [app seg_rows]. rewrite bool_decide_eq_true_2 by done. rewrite orb_true_r.
    rewrite bool_decide_eq_false_2 by done. cbn [negb andb]. by destruct (kept es).
  - rewrite Forall_app, Forall_cons, !Forall_app, Forall_cons, Forall_fmap. split_and!; try done.
    + by repeat constructor.
    + eapply Forall_impl; [exact Hes|]. apply seg_line_plain.
Qed.

Lemma segments_roundtrip_witness :
  parse_map_segments (lines_text (["Modules list:"] ++ "Segment list:" :: ["-------------"; "Name  Start  End"]
    ++ (seg_line <$> demo_segments) ++ "" :: ["Exports list by name:"]))
  = Ok [("CODE", (0x801, 0x32EE)); ("BSS", (0xA000, 0xAF3F))].
Proof.
  apply segments_roundtrip; [by apply (bool_decide_unpack _)| | |exact demo_segments_ok| |done].
  - by apply (bool_decide_unpack _).
  - constructor; [right; left; reflexivity|]. constructor; [left; reflexivity|constructor].
  - by apply (bool_decide_unpack _).
Defined.

(** Which interface carries the bridged adapter is decided from its address: on what networksetup
    prints, the answer is a device exactly when one port alone carries the address, letter case
    aside, and the address is not the placeholder of a masked one. *)
Theorem bridged_iface_unique mac rs dev :
  Forall port_ok rs →
  resolve_bridged_iface mac (port_rows (lines_text (concat (port_block <$> rs)))) = inl dev ↔
  lower mac ≠ REDACTED_MAC ∧
  ∃ before port addr after, rs = before ++ (port, dev, addr) :: after ∧ lower addr = lower mac ∧
    ∀ r, r ∈ before ++ after → lower r.2 ≠ lower mac.
Proof.
  intros Hrs. rewrite resolve_inl, ports_read_back, carriers_one by done. apply and_iff_compat_l. split.
  - intros (b & port & a & Heq & Hno).
    apply fmap_app_inv in Heq as (b' & a' & -> & Ha & ->).
    destruct a' as [|[[p d] m] a']; [done|]. cbn in Ha. unfold port_row in Ha. cbn in Ha.
    injection Ha as <- <- Hm ->. exists b', port, m, a'. split_and!; [done..|].
    intros r Hr Heq. apply (Hno (port_row r)); [|cbn; congruence].
    rewrite <- fmap_app. by apply list_elem_of_fmap_2.
  - intros (b & port & addr & a & -> & Hm & Hno).
    exists (port_row <$> b), port, (port_row <$> a). rewrite fmap_app, <- Hm. split; [done|]. intros r. rewrite <- fmap_app.
    intros (r' & -> & Hr')%list_elem_of_fmap [= Heq]. apply (Hno r' Hr'). congruence.
Qed.

Lemma bridged_iface_unique_witness :
  resolve_bridged_iface BRIDGED_NIC_MAC (port_rows (lines_text (concat (port_block <$> demo_ports)))) = inl "en5".
Proof.
  apply (bridged_iface_unique BRIDGED_NIC_MAC demo_ports "en5" demo_ports_ok). split; [discriminate|].
  exists [("Wi-Fi", "en0", "3c:22:fb:00:00:01")], "USB 10/100 LAN", "C0:56:27:B1:16:38", [].
  split; [reflexivity|]. split; [reflexivity|].
  intros r Hr Heq. apply list_elem_of_singleton in Hr. subst r. vm_compute in Heq. discriminate.
Defined.

(** C35. A suite goes on in bridged mode exactly when the host is ready for it: VICE with raw network
    access it may use, an interface up with link, MAC and a real IPv4 address that is known not to be
    Wi-Fi, a default gateway over it, the rig's own DHCP server elsewhere and no other emulator on it;
    otherwise it ends as skipped.  On the private rig the same holds of its own interfaces. *)
Theorem preflight_exact `{!Host} name vice_bin :
  (skip_if_bridged_rig_down name vice_bin = None ↔
     h_platform = "darwin" ∧ rawnet_ready vice_bin ∧
     ∃ st, iface_status name = Some st ∧ on_lan name st ∧ default_gateway name ≠ None ∧
       (name ∉ dnsmasq_interfaces) ∧ vice_on_iface name = []) ∧
  (skip_if_rig_down vice_bin = None ↔
     h_platform = "darwin" ∧ rawnet_ready vice_bin ∧ (h_run ["ifconfig"; ETH_IFACE]).1 = 0 ∧
     (h_run ["ifconfig"; HOST_IFACE]).1 = 0 ∧
     contains ("inet " +:+ HOST_IP +:+ " ") (h_run ["ifconfig"; HOST_IFACE]).2 = true ∧
     vice_on_iface ETH_IFACE = [] ∧ dnsmasq_alive = true) ∧
  (∀ rc ps, skip_if_bridged_rig_down name vice_bin = Some (rc, ps) ∨ skip_if_rig_down vice_bin = Some (rc, ps) →
     rc = 77 ∧ ps ≠ []).
Proof.
  assert (Hb : skip_if_bridged_rig_down name vice_bin = None ↔ bridged_problems name vice_bin = [])
    by (unfold skip_if_bridged_rig_down; by destruct (bridged_problems name vice_bin)).
  assert (Hr : skip_if_rig_down vice_bin = None ↔ rig_problems vice_bin = [])
    by (unfold skip_if_rig_down; by destruct (rig_problems vice_bin)).
  rewrite Hb, Hr.
  split_and!; [..|intros rc ps; unfold skip_if_bridged_rig_down, skip_if_rig_down; destruct (bridged_problems name vice_bin), (rig_problems vice_bin); naive_solver].
  - unfold bridged_problems. case_bool_decide as Hp; cbn [negb]; [|naive_solver].
    rewrite !app_nil, option_list_nil, <- rawnet_ready_iff.
    destruct (iface_status name) as [st|]; [|naive_solver].
    rewrite !app_nil, !if_nil, !if_nil_not, lan_problems_nil by done.
    rewrite !bool_decide_eq_false, bool_decide_eq_true, none_is_nil. naive_solver.
  - unfold rig_problems. case_bool_decide as Hp; cbn [negb]; [|naive_solver].
    rewrite !app_nil, option_list_nil, !if_nil, !if_nil_not, bool_decide_eq_true, none_is_nil by done.
    rewrite orb_false_iff, !negb_false_iff, !Z.eqb_eq, <- rawnet_ready_iff. naive_solver.
Qed.

(** The rig's DHCP server is reported alive without any evidence of a process when its pidfile
    exists but may not be read, although the code takes the error for one of the signal. *)
Theorem unreadable_pidfile_is_alive :
  let H := demo_host true in
  dnsmasq_alive = true ∧ (∀ pid, h_signal pid = NoProcess) ∧ pgrep "dnsmasq" = [] ∧
  let H := demo_host false in dnsmasq_alive = false.
Proof. by vm_compute. Qed.

End Rig.
