(* ===== verification/RigVice.v ===== *)
(** * VICE behind its binary monitor (tools/vice_eth_rig.py)

    Waiting for the boot and the network, pressing a key, reading memory, parking the CPU, and the
    emulator as a resource.  Every command of the monitor stops the CPU until it is resumed; the
    monitor, the process and the clock are the class [Vice], every use of them is recorded. *)

From S2P Require Export Settle Discipline C64Input RigHost.

Definition BOOT_TIMEOUT : spec_float := float_of_Z 180.
Definition DHCP_TIMEOUT : spec_float := float_of_Z 120.
Definition NET_FAIL_NEEDLES : list string := ["NET INIT FAILED"; "DHCP FAILED"; "LISTEN FAILED"].

(** [vm_poll] is [None] while the process runs; [vm_wait] is [wait_for_stopped]; [vm_screen] is
    the text of the harness's screen grid. *)
Class Vice (W : Type) := {
  vm_read : Z → Z → eff W string bytes;
  vm_write : Z → bytes → eff W string unit;
  vm_resume : eff W string unit;
  vm_pc : eff W string Z;
  vm_set_checkpoint : Z → eff W string Z;
  vm_wait : spec_float → eff W string unit;
  vm_delete_checkpoint : Z → eff W string unit;
  vm_screen : eff W string string;
  vm_start : eff W string unit;
  vm_poll : W → option Z;
  vm_stop : eff W string unit;
  vm_connect : eff W string unit;
  vm_close : eff W string unit;
  vm_release : eff W string unit;
  vm_now : W → spec_float * W;
  vm_sleep : Z → W → W;
}.

Inductive rig_error :=
| RigOutOfFuel
| RigNoLabel (name : string)
| RigEmptyRead
| NotAscii
| Monitor (what : string)
| SystemExit (rc : Z)
| NotParked (pc : Z)
| ExitedEarly
| BootReuFault (why : reason)
| Unreachable
| BadValue
| CheckFailed
| ZeroDivision.

(** A use of the monitor or of the process, with what it gave; [Refused] is one that raised. *)
Inductive event :=
| Got (addr : Z) (l : bytes)
| Put (addr : Z) (l : bytes)
| Resumed
| SawPc (pc : Z)
| CheckpointSet (addr id : Z)
| Waited
| CheckpointDeleted (id : Z)
| SawScreen (text : string)
| Slept (ms : Z)
| Started
| Stopped
| Connected
| Closed
| Released
| Called (addr : Z)
| Refused.

Record rig_state (W : Type) := RigState { r_world : W; r_log : list event }.
Arguments RigState {W} r_world r_log.
Arguments r_world {W} s : rename.
Arguments r_log {W} s : rename.

Section vice.
Context {W : Type} `{!Vice W}.
Abbreviation M := (eff (rig_state W) rig_error).
Abbreviation label_map := (list (string * Z)).

(** One use, recorded; a write that fails may have had its effect. *)
Definition use {A} (m : eff W string A) (shown : A → event) (failed : event) : M A := λ s,
  match m (r_world s) with
  | Ret a w => Ret a (RigState w (r_log s ++ [shown a]))
  | Raise e w => Raise (Monitor e) (RigState w (r_log s ++ [failed]))
  end.

Definition read (addr n : Z) : M bytes := use (vm_read addr n) (Got addr) Refused.
Definition write (addr : Z) (l : bytes) : M unit := use (vm_write addr l) (λ _, Put addr l) (Put addr l).
Definition resume : M unit := use vm_resume (λ _, Resumed) Refused.
Definition read_pc : M Z := use vm_pc SawPc Refused.
Definition set_checkpoint (addr : Z) : M Z := use (vm_set_checkpoint addr) (CheckpointSet addr) Refused.
Definition wait_for_stopped (timeout : spec_float) : M unit := use (vm_wait timeout) (λ _, Waited) Refused.
(** A deletion that fails is recorded as one all the same. *)
Definition delete_checkpoint (id : Z) : M unit :=
  use (vm_delete_checkpoint id) (λ _, CheckpointDeleted id) (CheckpointDeleted id).
Definition screen_text : M string := text ← use vm_screen SawScreen Refused; mret (upper text).
Definition now : M spec_float := λ s, let '(t, w) := vm_now (r_world s) in Ret t (RigState w (r_log s)).
Definition sleep (ms : Z) : M unit := λ s,
  Ret tt (RigState (vm_sleep ms (r_world s)) (r_log s ++ [Slept ms])).

Definition rig_label (L : label_map) (name : string) : M Z :=
  match assoc name L with Some v => mret v | None => raise (RigNoLabel name) end.

(** ** Waiting *)

(** [while time.monotonic() < deadline: x = body(); if x: return x; resume; sleep], and what
    comes behind the loop. *)
Fixpoint until {A B} (fuel : nat) (deadline : spec_float) (body : A → M (B + A)) (pause : Z) (acc : A) : M (B + A) :=
  match fuel with
  | O => raise RigOutOfFuel
  | S fuel =>
      t ← now;
      if negb (flt t deadline) then mret (inr acc) else
      r ← body acc;
      match r with
      | inl b => mret (inl b)
      | inr acc => resume;; (sleep pause;; until fuel deadline body pause acc)
      end
  end.

Definition wait_boot_ready (fuel : nat) (L : label_map) (timeout : spec_float) : M bool :=
  addr ← rig_label L "boot_ready";
  t ← now;
  r ← until fuel (fadd t timeout)
        (λ _, l ← read addr 1; mret (if bool_decide (l = [1]) then inl tt else inr tt)) 1000 tt;
  mret (match r with inl _ => true | inr _ => false end).

(** [tr.read_memory(KBD_COUNT, 1)[0]] *)
Definition queue_count : M Z :=
  l ← read KBD_COUNT 1;
  match l with b :: _ => mret b | [] => raise RigEmptyRead end.

Definition drained (fuel : nat) (timeout : spec_float) : M bool :=
  t ← now;
  r ← until fuel (fadd t timeout)
        (λ _, b ← queue_count; mret (if b =? 0 then inl tt else inr tt)) 100 tt;
  mret (match r with inl _ => true | inr _ => false end).

(** [char.encode("ascii")] *)
Definition ascii_bytes (s : string) : M bytes :=
  let l := code <$> chars s in
  if forallb (λ c, c <? 128) l then mret l else raise NotAscii.

Definition press_key (fuel : nat) (char : string) (timeout : spec_float) : M bool :=
  ready ← drained fuel timeout;
  if negb ready then mret false else
  l ← ascii_bytes char;
  write KBD_BUFFER l;;
  write KBD_COUNT [1];;
  resume;;
  drained fuel timeout.

(** [tr.read_memory(addr, n)] in pieces of at most 256; a negative length is asked for at once. *)
Fixpoint read_pieces (fuel : nat) (addr remaining : Z) (out : bytes) : M bytes :=
  if remaining =? 0 then mret out else
  match fuel with
  | O => raise RigOutOfFuel
  | S fuel =>
      let n := Z.min 256 remaining in
      l ← read addr n;
      read_pieces fuel (addr + n) (remaining - n) (out ++ l)
  end.
Definition read_span (start end_ : Z) : M bytes :=
  let remaining := end_ - start + 1 in
  read_pieces (S (Z.to_nat (remaining / 256))) start remaining [].

Inductive net_outcome := NetOk | NetFailed (needle : string) | NetTimeout.
#[global] Instance net_outcome_eq_dec : EqDecision net_outcome.
Proof. solve_decision. Defined.

Definition wait_net_initialized (fuel : nat) (L : label_map) (timeout : spec_float) : M (net_outcome * string) :=
  addr ← rig_label L "net_initialized";
  t ← now;
  r ← until fuel (fadd t timeout)
        (λ _, l ← read addr 1;
              if bool_decide (l = [1]) then (text ← screen_text; mret (inl (NetOk, text)))
              else (text ← screen_text;
                    match List.filter (λ n, contains n text) NET_FAIL_NEEDLES with
                    | n :: _ => mret (inl (NetFailed n, text))
                    | [] => mret (inr text)
                    end)) 2000 "";
  mret (match r with inl x => x | inr text => (NetTimeout, text) end).

(** The seconds it took. *)
Definition boot_and_net_init (fuel : nat) (L : label_map) (boot_timeout dhcp_timeout : spec_float) : M spec_float :=
  t0 ← now;
  booted ← wait_boot_ready fuel L boot_timeout;
  if negb booted then (_ ← screen_text; raise (SystemExit 1)) else
  _ ← now;
  pressed ← press_key fuel "I" (float_of_Z 15);
  if negb pressed then raise (SystemExit 1) else
  r ← wait_net_initialized fuel L dhcp_timeout;
  if negb (bool_decide (r.1 = NetOk)) then raise (SystemExit 1) else
  t ← now;
  mret (fsub t t0).

(** ** Parking, and the address *)

Definition park_outside_net (L : label_map) (timeout : spec_float) : M unit :=
  pc ← read_pc;
  main_loop ← rig_label L "main_loop";
  if pc =? main_loop then mret tt else
  cp ← set_checkpoint main_loop;
  finally (resume;; wait_for_stopped timeout) (delete_checkpoint cp);;
  pc ← read_pc;
  if pc =? main_loop then mret tt else raise (NotParked pc).

Definition c64_ip (L : label_map) : M string :=
  base ← rig_label L "ip65_blob_start";
  ptr ← read (base + 32) 2;
  match ptr with
  | lo :: hi :: _ => l ← read (Z.lor lo (hi ≪ 8)) 4; mret (join "." (dec <$> l))
  | _ => raise RigEmptyRead
  end.

(** ** The emulator as a resource *)

Fixpoint connect_loop (fuel : nat) (deadline : spec_float) : M unit :=
  match fuel with
  | O => raise RigOutOfFuel
  | S fuel =>
      t ← now;
      if negb (flt t deadline) then raise Unreachable else
      ok ← catch_any (use vm_connect (λ _, Connected) Refused;; mret true) (λ _, mret false);
      if (ok : bool) then mret tt else
      exited ← gets (λ s, bool_decide (vm_poll (r_world s) = None));
      if negb exited then raise ExitedEarly else
      sleep 250;; connect_loop fuel deadline
  end.
Definition connect (fuel : nat) (timeout : spec_float) : M unit :=
  t ← now; connect_loop fuel (fadd t timeout).

Definition enter (fuel : nat) : M unit :=
  use vm_start (λ _, Started) Refused;;
  connect fuel (float_of_Z 30).
(** [__exit__] behind a successful [__enter__]; [own] is whether the port was allocated here. *)
Definition leave (own : bool) : M unit :=
  catch_any (use vm_close (λ _, Closed) Closed) (λ _, mret tt);;
  use vm_stop (λ _, Stopped) Stopped;;
  (if own then use vm_release (λ _, Released) Released else mret tt).
(** [with EthVice(...) as v: body] *)
Definition with_vice {A} (fuel : nat) (own : bool) (body : M A) : M A :=
  enter fuel;;
  finally body (leave own).

(** ** The keyboard helpers of the hardware tools, over VICE *)

Definition as_input {A} (m : M A) : eff (rig_state W) input_error A := λ s,
  match m s with
  | Ret a s' => Ret a s'
  | Raise (Monitor e) s' => Raise (TransportError e) s'
  | Raise _ s' => Raise (TransportError "") s'
  end.

(** [ResumingTransport]: the CPU runs on after every command. *)
#[global] Instance resuming : Transport (rig_state W) := {|
  tr_read addr n := as_input (data ← read addr n; (resume;; mret data));
  tr_write addr l := as_input (write addr l;; resume);
  tr_now s := let '(t, w) := vm_now (r_world s) in (t, RigState w (r_log s));
  tr_sleep ms s := RigState (vm_sleep ms (r_world s)) (r_log s ++ [Slept ms]);
|}.
End vice.
