(* ===== verification/RigViceThms.v ===== *)
(** * VICE behind its binary monitor: the properties

    No waiting loop sleeps with the CPU stopped, the network comes up only after the boot, the key and
    the marker were seen, the loops end, parking leaves no checkpoint, reading in pieces is exact, and
    what becomes of the emulator when it cannot be entered. *)

From S2P Require Export RigVice InputThms.
#[local] Set Warnings "-clear-no-such-hyp".

(** ** The CPU *)

(** Whether the CPU runs; a breach is a pause while it is stopped. *)
Definition cpu_step (running : bool) (e : event) : option bool :=
  match e with
  | Slept _ => if running then Some true else None
  | Resumed | Started => Some true
  | Got _ _ | Put _ _ | SawPc _ | CheckpointSet _ _ | Waited | CheckpointDeleted _ | SawScreen _ | Called _ | Refused =>
      Some false
  | Stopped | Connected | Closed | Released => Some running
  end.

(** The queue of the keyboard, as the events show it. *)
Definition access_of (e : event) : option access :=
  match e with
  | Got addr l => Some (IRead addr l)
  | Put addr l => Some (IWrite addr l)
  | _ => None
  end.
Definition key_step (q : queue) (e : event) : option queue :=
  match access_of e with Some a => queue_step q a | None => Some q end.
Definition puts (tr : list event) : list (Z * bytes) := writes (omap access_of tr).

Lemma puts_app tr tr' : puts (tr ++ tr') = puts tr ++ puts tr'.
Proof. unfold puts. by rewrite omap_app, writes_app. Qed.

Section use.
Context {W : Type} `{!Vice W} {Q : Type} (step : Q → event → option Q).
Abbreviation M := (eff (rig_state W) rig_error).
Abbreviation obeys := (obeys r_log step).

Lemma obeys_use {A} (P : Q → Prop) (m : eff W string A) shown failed R :
  (∀ q a, P q → ∃ q', step q (shown a) = Some q' ∧ R a q' [shown a]) →
  (∀ q, P q → is_Some (step q failed)) →
  obeys P (use m shown failed) R.
Proof.
  intros Hs Hf s q Hq. unfold use. destruct (m (r_world s)) as [a w|e w]; cbn.
  - destruct (Hs q a Hq) as (q' & Hstep & HR). exists [shown a], q'. done.
  - destruct (Hf q Hq) as [q' Hstep]. by exists [failed], q'.
Qed.

Lemma obeys_now {B} P (f : spec_float → M B) R : (∀ t, obeys P (f t) R) → obeys P (now ≫= f) R.
Proof.
  apply obeys_silent. intros s q Hq. unfold now. destruct (vm_now (r_world s)) as [t w].
  exists [], q. cbn. by rewrite app_nil_r.
Qed.

Lemma obeys_label {B} L name P (f : Z → M B) R :
  (∀ v, obeys P (f v) R) → obeys P (rig_label L name ≫= f) R.
Proof.
  apply obeys_silent. intros s q Hq. unfold rig_label. destruct (assoc name L); exists [], q; cbn; by rewrite app_nil_r.
Qed.

(** One round after the other; [G] is what a round that ends the loop shows. *)
Lemma obeys_until {A B} P (body : A → M (B + A)) (G : B → Q → list event → Prop) (N : list event → Prop)
    fuel deadline pause acc :
  N [] → (∀ tr tr', N tr → N tr' → N (tr ++ tr')) → N [Resumed; Slept pause] →
  (∀ q, P q → ∃ q', run_log step q [Resumed; Slept pause] = Some q' ∧ P q') →
  (∀ q, P q → is_Some (step q Resumed) ∧ is_Some (step q Refused)) →
  (∀ acc, obeys P (body acc)
     (λ r q tr, P q ∧ N tr ∧ match r with inl b => G b q tr | inr _ => True end)) →
  obeys P (until fuel deadline body pause acc)
    (λ r q tr, P q ∧ N tr ∧
       match r with inl b => ∃ tr1 tr2, tr = tr1 ++ tr2 ∧ G b q tr2 | inr _ => True end).
Proof.
  intros Hnil Happ Hpause Hgo Hres Hbody. revert acc. induction fuel as [|fuel IH]; intros acc; cbn [until];
    [apply obeys_raise|].
  apply obeys_now. intros t. destruct (negb _); [by apply obeys_ret|].
  eapply obeys_bind; [apply Hbody|]. intros [b|acc'] tr.
  - apply obeys_ret. intros q (HP & HN & HG). rewrite app_nil_r. split_and!; [done|done|].
    exists [], tr. done.
  - intros s q (HP & HN & _). rewrite run_bind. unfold resume, use.
    destruct (vm_resume (r_world s)) as [[] w|e w]; cbn [r_log].
    + rewrite run_bind. unfold sleep. cbn [r_log r_world].
      destruct (Hgo q HP) as (q' & Hrun & HP').
      specialize (IH acc' (RigState (vm_sleep pause w) ((r_log s ++ [Resumed]) ++ [Slept pause])) q' HP').
      destruct (until _ _ _ _ _ _) as [r s'|e s']; cbn [r_log] in IH; rewrite <- app_assoc in IH; cbn [app] in IH.
      * destruct IH as (tr' & q'' & Hl & Hr & HP'' & HN' & HG).
        exists ([Resumed; Slept pause] ++ tr'), q''. rewrite Hl, <- app_assoc, run_log_app, Hrun.
        split_and!; [done|done|done|by apply Happ; [|apply Happ]|].
        destruct r; [|done]. destruct HG as (tr1 & tr2 & -> & HG).
        exists (tr ++ [Resumed; Slept pause] ++ tr1), tr2. by rewrite <- !app_assoc.
      * destruct IH as (tr' & q'' & Hl & Hr).
        exists ([Resumed; Slept pause] ++ tr'), q''. by rewrite Hl, <- app_assoc, run_log_app, Hrun.
    + destruct (Hres q HP) as [_ [q' Hq']]. by exists [Refused], q'.
Qed.
End use.

Section cpu.
Context {W : Type} `{!Vice W}.
Abbreviation M := (eff (rig_state W) rig_error).

(** From wherever the CPU is, no pause meets it stopped. *)
Definition unstarved {A} (m : M A) : Prop := remains r_log cpu_step (λ _, True) m.

Lemma unstarved_ret {A} (a : A) : unstarved (mret a).
Proof. apply remains_ret. Qed.
Lemma unstarved_raise {A} e : unstarved (raise (A:=A) e).
Proof. apply remains_raise. Qed.
Lemma unstarved_bind {A B} (m : M A) (f : A → M B) :
  unstarved m → (∀ a, unstarved (f a)) → unstarved (m ≫= f).
Proof. apply remains_bind. Qed.
Lemma unstarved_now : unstarved now.
Proof.
  intros s q _. unfold now. destruct (vm_now _). exists [], q. cbn. by rewrite app_nil_r.
Qed.
Lemma unstarved_label L name : unstarved (rig_label L name).
Proof. unfold rig_label. destruct (assoc name L); [apply unstarved_ret|apply unstarved_raise]. Qed.

Lemma unstarved_use {A} (m : eff W string A) shown failed :
  (∀ q a, is_Some (cpu_step q (shown a))) → (∀ q, is_Some (cpu_step q failed)) → unstarved (use m shown failed).
Proof. intros Hs Hf. apply obeys_use; [|auto]. intros q a _. destruct (Hs q a) as [q' ?]. eauto. Qed.

Lemma unstarved_read addr n : unstarved (read addr n).
Proof. by apply unstarved_use. Qed.
Lemma unstarved_write addr l : unstarved (write addr l).
Proof. by apply unstarved_use. Qed.
Lemma unstarved_resume : unstarved resume.
Proof. by apply unstarved_use. Qed.
Lemma unstarved_screen : unstarved screen_text.
Proof. apply unstarved_bind; [by apply unstarved_use|]. intros. apply unstarved_ret. Qed.
Lemma unstarved_ascii s : unstarved (ascii_bytes s).
Proof. unfold ascii_bytes. destruct (forallb _ _); [apply unstarved_ret|apply unstarved_raise]. Qed.
End cpu.
Create HintDb rig discriminated.
#[export] Hint Resolve unstarved_ret unstarved_raise unstarved_now unstarved_label unstarved_read
  unstarved_write unstarved_resume unstarved_screen unstarved_ascii : rig.

(** Step by step through a program without pauses of its own. *)
Ltac awake := repeat first
  [ solve [eauto with rig]
  | apply unstarved_bind; [|intros ?]
  | match goal with |- unstarved (match ?x with _ => _ end) => destruct x end ].

Section cpu_loops.
Context {W : Type} `{!Vice W}.
Abbreviation M := (eff (rig_state W) rig_error).

Lemma unstarved_until {A B} fuel deadline (body : A → M (B + A)) pause acc :
  (∀ acc, unstarved (body acc)) → unstarved (until fuel deadline body pause acc).
Proof.
  intros Hbody. eapply obeys_conseq.
  - eapply (obeys_until _ (λ _, True) body (λ _ _ _, True) (λ _, True)); [done..| | |].
    + intros q _. by exists true.
    + intros q _. by split; eexists.
    + intros acc'. eapply obeys_conseq; [apply Hbody|done|]. intros [] q tr _; done.
  - done.
  - done.
Qed.
#[local] Hint Resolve unstarved_until : rig.

Lemma boot_unstarved fuel L timeout : unstarved (wait_boot_ready (W:=W) fuel L timeout).
Proof. unfold wait_boot_ready. awake. apply unstarved_until. intros. awake. Qed.
Lemma drained_unstarved fuel timeout : unstarved (drained (W:=W) fuel timeout).
Proof.
  unfold drained. awake. apply unstarved_until. intros. unfold queue_count. awake.
Qed.
#[local] Hint Resolve boot_unstarved drained_unstarved : rig.
Lemma press_unstarved fuel c timeout : unstarved (RigVice.press_key (W:=W) fuel c timeout).
Proof. unfold RigVice.press_key. awake. Qed.
Lemma net_unstarved fuel L timeout : unstarved (wait_net_initialized (W:=W) fuel L timeout).
Proof. unfold wait_net_initialized. awake. apply unstarved_until. intros. awake. Qed.
#[local] Hint Resolve press_unstarved net_unstarved : rig.
Lemma net_init_unstarved fuel L bt dt : unstarved (boot_and_net_init (W:=W) fuel L bt dt).
Proof. unfold boot_and_net_init. awake. Qed.
End cpu_loops.

Section resuming.
Context {W : Type} `{!Vice W}.
Abbreviation M := (eff (input_state (rig_state W)) input_error).

(** From a running CPU to a running CPU, no pause meeting it stopped. *)
Definition stays_running {A} (m : M A) : Prop :=
  remains (λ s, r_log (i_world s)) cpu_step (λ r, r = true) m.

Lemma running_ret {A} (a : A) : stays_running (mret a).
Proof. apply remains_ret. Qed.
Lemma running_raise {A} e : stays_running (raise (A:=A) e).
Proof. apply remains_raise. Qed.
Lemma running_bind {A B} (m : M A) (f : A → M B) :
  stays_running m → (∀ a, stays_running (f a)) → stays_running (m ≫= f).
Proof. apply remains_bind. Qed.

Lemma running_now : stays_running monotonic.
Proof.
  intros s q ->. unfold monotonic. cbn. destruct (vm_now _). exists [], true. cbn. by rewrite app_nil_r.
Qed.
Lemma running_sleep ms : stays_running (sleep_ms ms).
Proof. intros s q ->. by exists [Slept ms], true. Qed.

(** An adapted command, as a step of the driver. *)
Lemma adapted {A} (m : eff (rig_state W) rig_error A) :
  obeys r_log cpu_step (λ _, True) m (λ _ r _, r = true) →
  obeys r_log cpu_step (λ _, True) (as_input m) (λ _ r _, r = true).
Proof.
  intros Hm s q Hq. specialize (Hm s q Hq). unfold as_input.
  destruct (m s) as [a s'|[] s']; exact Hm.
Qed.

Lemma resumed_after {A B} (m : eff W string A) shown failed (f : A → B) :
  (∀ q a, is_Some (cpu_step q (shown a))) → (∀ q, is_Some (cpu_step q failed)) →
  obeys r_log cpu_step (λ _, True) (a ← use m shown failed; (resume;; mret (f a))) (λ _ r _, r = true).
Proof.
  intros Hs Hf. eapply obeys_bind; [by apply unstarved_use|]. cbv beta. intros a tr.
  eapply obeys_bind with (R := λ _ r _, r = true).
  - apply obeys_use; [intros q u _; by exists true|by intros; eexists].
  - intros u tr'. by apply obeys_ret.
Qed.

Lemma running_read addr n : stays_running (read_memory addr n).
Proof.
  intros s q _. unfold read_memory. cbn [tr_read resuming].
  pose proof (adapted _ (resumed_after (vm_read addr n) (Got addr) Refused id
    ltac:(done) ltac:(done)) (i_world s) q I) as Hm.
  cbn [id] in Hm. unfold read. destruct (as_input _ (i_world s)); exact Hm.
Qed.

Lemma running_write addr l : stays_running (write_memory addr l).
Proof.
  intros s q _. unfold write_memory. cbn [tr_write resuming].
  pose proof (adapted _ (resumed_after (vm_write addr l) (λ _, Put addr l) (Put addr l) id
    ltac:(done) ltac:(done)) (i_world s) q I) as Hm.
  cbn [id] in Hm. unfold write.
  assert (Heq : as_input (use (vm_write addr l) (λ _, Put addr l) (Put addr l);; resume) (i_world s)
    = as_input (a ← use (vm_write addr l) (λ _, Put addr l) (Put addr l); (resume;; mret a)) (i_world s)).
  { unfold as_input. rewrite !run_bind. destruct (use _ _ _ _) as [[] s1|]; [|done].
    rewrite run_bind. by destruct (resume s1) as [[] ?|]. }
  rewrite Heq. destruct (as_input _ (i_world s)); exact Hm.
Qed.

Lemma running_label L name : stays_running (label L name).
Proof. unfold label. destruct (assoc name L); [apply running_ret|apply running_raise]. Qed.
End resuming.
#[export] Hint Resolve running_ret running_raise running_now running_sleep running_read running_write
  running_label : rig.
Ltac runs := repeat first
  [ solve [eauto with rig]
  | apply running_bind; [|intros ?]
  | match goal with |- stays_running (match ?x with _ => _ end) => destruct x end ].

Section helpers.
Context {W : Type} `{!Vice W}.

Lemma running_poll fuel deadline addr test pause :
  stays_running (W:=W) (poll fuel deadline addr test pause).
Proof. induction fuel as [|fuel IH]; cbn [poll]; [runs|]. unfold peek. runs. Qed.
#[local] Hint Resolve running_poll : rig.
Lemma running_drained fuel timeout : stays_running (W:=W) (wait_drained fuel timeout).
Proof. unfold wait_drained, poll_for. runs. Qed.
Lemma running_enqueue chunk : stays_running (W:=W) (enqueue chunk).
Proof. unfold enqueue. runs. Qed.
#[local] Hint Resolve running_drained running_enqueue : rig.
Lemma running_press fuel key timeout : stays_running (W:=W) (C64Input.press_key fuel key timeout).
Proof. unfold C64Input.press_key. runs. Qed.
Lemma running_text fuel text timeout : stays_running (W:=W) (type_text fuel text timeout).
Proof.
  unfold type_text. induction (blocks _ _) as [|c l IH]; cbn [type_chunks]; runs.
Qed.
Lemma running_blocks addr chunks : stays_running (W:=W) (write_blocks addr chunks).
Proof. revert addr. induction chunks; intros; cbn [write_blocks]; runs. Qed.
#[local] Hint Resolve running_press running_text running_blocks : rig.
Lemma running_message fuel n text timeout : stays_running (W:=W) (send_message fuel n text timeout).
Proof. unfold send_message. runs. Qed.
Lemma running_dma fuel n text L timeout : stays_running (W:=W) (send_message_dma fuel n text L timeout).
Proof. unfold send_message_dma. runs. Qed.
Lemma running_rekey fuel addr v timeout : stays_running (W:=W) (rekey fuel addr v timeout).
Proof. unfold rekey, wait_while_state, wait_for_state, poll_for. runs. Qed.
End helpers.

(** ** The keyboard and the marker *)

Definition key_run := run_log key_step.

Section typing.
Context {W : Type} `{!Vice W}.
Abbreviation M := (eff (rig_state W) rig_error).
Abbreviation keyed := (obeys r_log key_step).

(** The last thing seen is that byte at that address. *)
Definition saw_byte (addr v : Z) (tr : list event) : Prop := last tr = Some (Got addr [v]).

Lemma saw_byte_app addr v tr tr' : saw_byte addr v tr' → saw_byte addr v (tr ++ tr').
Proof.
  unfold saw_byte. destruct tr' as [|a tr' _] using rev_ind; [done|].
  by rewrite app_assoc, !last_snoc.
Qed.

(** Reading a byte keeps an idle queue idle. *)
Lemma key_read addr n :
  keyed idle (read (W:=W) addr n)
    (λ l q tr, idle q ∧ tr = [Got addr l] ∧ (addr = KBD_COUNT → head l = Some 0 → q = Empty)).
Proof.
  apply obeys_use; [|by intros q Hq; eexists]. intros q l Hq. unfold key_step. cbn [access_of queue_step].
  destruct (Z.eqb_spec addr KBD_COUNT); [|eexists; naive_solver].
  destruct l as [|v l]; [eexists; split_and!; [done|by left|done|done]|].
  destruct (decide (v = 0)) as [->|Hv]; [eexists; split_and!; [done|by right|done|done]|].
  exists Unknown. split_and!; [by destruct v|by left|done|]. by intros _ [= ->].
Qed.

Lemma key_until {A B} (body : A → M (B + A)) (G : B → queue → list event → Prop) fuel deadline pause acc :
  (∀ acc, keyed idle (body acc)
     (λ r q tr, idle q ∧ puts tr = [] ∧ match r with inl b => G b q tr | inr _ => True end)) →
  keyed idle (until fuel deadline body pause acc)
    (λ r q tr, idle q ∧ puts tr = [] ∧
       match r with inl b => ∃ tr1 tr2, tr = tr1 ++ tr2 ∧ G b q tr2 | inr _ => True end).
Proof.
  apply (obeys_until key_step idle body G (λ tr, puts tr = [])); try done.
  - intros tr tr' Ht Ht'. by rewrite puts_app, Ht, Ht'.
  - intros q Hq. by exists q.
Qed.

Lemma boot_keyed fuel L timeout :
  keyed idle (wait_boot_ready (W:=W) fuel L timeout)
    (λ b q tr, idle q ∧ puts tr = [] ∧
       (b = true → ∃ addr, assoc "boot_ready" L = Some addr ∧ saw_byte addr 1 tr)).
Proof.
  unfold wait_boot_ready. unfold rig_label. destruct (assoc "boot_ready" L) as [addr|]; [|apply obeys_raise].
  change (mret addr ≫= ?f) with (f addr). cbv beta. apply obeys_now. intros t.
  eapply obeys_bind; [apply (key_until _ (λ _ _ tr, saw_byte addr 1 tr))|].
  - intros _. eapply obeys_bind; [apply key_read|]. intros l tr. apply obeys_ret.
    intros q (Hi & -> & _). rewrite app_nil_r. split_and!; [done|done|]. by case_bool_decide as Hl; [subst l|].
  - intros r tr. apply obeys_ret. intros q (Hi & Hp & Hr). rewrite app_nil_r. split_and!; [done|done|].
    intros Hb. destruct r as [u|]; [|done]. destruct Hr as (tr1 & tr2 & -> & Hs).
    exists addr. split; [done|]. by apply saw_byte_app.
Qed.

Lemma count_keyed :
  keyed idle (queue_count (W:=W)) (λ b q tr, idle q ∧ puts tr = [] ∧ (b = 0 → q = Empty)).
Proof.
  unfold queue_count. eapply obeys_bind; [apply key_read|]. intros [|b l] tr; [apply obeys_raise|].
  apply obeys_ret. intros q (Hi & -> & He). split_and!; [done|done|]. intros ->. by apply He.
Qed.

Lemma drained_keyed fuel timeout :
  keyed idle (drained (W:=W) fuel timeout)
    (λ b q tr, idle q ∧ puts tr = [] ∧ (b = true → q = Empty)).
Proof.
  unfold drained. apply obeys_now. intros t.
  eapply obeys_bind; [apply (key_until _ (λ _ q _, q = Empty))|].
  - intros _. eapply obeys_bind; [apply count_keyed|].
    intros b tr. apply obeys_ret. intros q (Hi & Hp & He). rewrite app_nil_r.
    split_and!; [done|done|]. destruct (Z.eqb_spec b 0); [by apply He|done].
  - intros r tr. apply obeys_ret. intros q (Hi & Hp & Hr). rewrite app_nil_r. split_and!; [done|done|].
    intros Hb. destruct r as [u|]; [|done]. by destruct Hr as (tr1 & tr2 & -> & Hs).
Qed.

Lemma key_screen : keyed idle (screen_text (W:=W)) (λ _ q tr, idle q ∧ ∃ text, tr = [SawScreen text]).
Proof.
  unfold screen_text. eapply obeys_bind.
  - apply (obeys_use _ _ _ _ _ (λ _ q tr, idle q ∧ ∃ text, tr = [SawScreen text])); [|by intros q Hq; eexists].
    intros q text Hq. exists q. eauto.
  - intros text tr. apply obeys_ret. intros q H. by rewrite app_nil_r.
Qed.

Definition pressed (c : ascii) : list (Z * bytes) := [(KBD_BUFFER, [code c]); (KBD_COUNT, [1])].

(** Two writes that put one character into an empty queue, and on. *)
Lemma key_put c :
  keyed (λ q, q = Empty)
    (write (W:=W) KBD_BUFFER [code c];; (write KBD_COUNT [1];; resume))
    (λ _ q tr, idle q ∧ puts tr = pressed c).
Proof.
  eapply obeys_bind.
  { apply (obeys_use _ _ _ _ _ (λ _ q tr, q = Filled 1 ∧ tr = [Put KBD_BUFFER [code c]]));
      intros q; [intros u ->|intros ->]; by eexists. }
  cbv beta. intros u tr. eapply obeys_bind.
  { apply (obeys_use _ _ _ _ _ (λ _ q tr', q = Unknown ∧ tr = [Put KBD_BUFFER [code c]] ∧ tr' = [Put KBD_COUNT [1]]));
      intros q; [intros u' [-> ->]|intros [-> ->]]; by eexists. }
  cbv beta. intros u' tr'.
  apply (obeys_use _ _ _ _ _ (λ _ q tr'', idle q ∧ puts (tr ++ tr' ++ tr'') = pressed c));
    intros q; [intros u'' (-> & -> & ->)|intros (-> & -> & ->)]; eexists; [|done].
  split; [done|]. split; [by left|done].
Qed.

Lemma press_keyed fuel c timeout :
  keyed idle (RigVice.press_key (W:=W) fuel (String c "") timeout)
    (λ b q tr, idle q ∧ (puts tr = [] ∧ b = false ∨ puts tr = pressed c) ∧ (b = true → q = Empty)).
Proof.
  unfold RigVice.press_key. eapply obeys_bind; [apply drained_keyed|]. intros b tr. destruct b; cbn [negb].
  2:{ apply obeys_ret. intros q (Hi & Hp & _). rewrite app_nil_r. split_and!; [done|by left|done]. }
  unfold ascii_bytes. destruct (forallb _ _); [|apply obeys_raise].
  change (mret ?l ≫= ?f) with (f l). cbv beta.
  eapply (obeys_pre _ (λ q, q = Empty) (puts tr = [])); [by intros q (_ & Hp & Hq); split; [apply Hq|]|]. intros Hp.
  assert (Hassoc : ∀ s,
    (write (W:=W) KBD_BUFFER (code <$> chars (String c ""));;
     (write KBD_COUNT [1];; (resume;; drained fuel timeout))) s
    = ((write KBD_BUFFER [code c];; (write KBD_COUNT [1];; resume));; drained fuel timeout) s).
  { intros s. rewrite !run_bind. change (code <$> chars (String c "")) with [code c].
    destruct (write KBD_BUFFER [code c] s) as [u s1|]; [|done]. rewrite !run_bind.
    destruct (write KBD_COUNT [1] s1) as [u' s2|]; [|done]. by rewrite run_bind. }
  eapply obeys_ext; [exact Hassoc|]. eapply obeys_bind; [apply key_put|]. cbv beta. intros u tr'.
  eapply (obeys_pre _ idle (puts tr' = pressed c)); [done|]. intros Hp'.
  eapply obeys_conseq; [apply drained_keyed|done|]. intros b q tr'' (Hi & Hp'' & He).
  rewrite !puts_app, Hp, Hp', Hp''. split_and!; [done|by right|done].
Qed.

Lemma net_keyed fuel L timeout :
  keyed idle (wait_net_initialized (W:=W) fuel L timeout)
    (λ r q tr, idle q ∧ puts tr = [] ∧
       (r.1 = NetOk → ∃ addr tr' text, assoc "net_initialized" L = Some addr ∧
          tr = tr' ++ [Got addr [1]; SawScreen text])).
Proof.
  unfold wait_net_initialized, rig_label. destruct (assoc "net_initialized" L) as [addr|]; [|apply obeys_raise].
  change (mret addr ≫= ?f) with (f addr). cbv beta. apply obeys_now. intros t.
  eapply obeys_bind.
  { apply (key_until _ (λ r _ tr, r.1 = NetOk → ∃ text, tr = [Got addr [1]; SawScreen text])). intros acc.
    eapply obeys_bind; [apply key_read|]. intros l tr.
    eapply (obeys_pre _ idle (tr = [Got addr l])); [by intros q (? & ? & _)|]. intros ->.
    case_bool_decide as Hl; [subst l|].
    - eapply obeys_bind; [apply key_screen|]. intros text tr'. apply obeys_ret.
      intros q (Hi & text' & ->). split_and!; [done|done|]. intros _. by exists text'.
    - eapply obeys_bind; [apply key_screen|]. intros text tr'.
      destruct (List.filter _ _); apply obeys_ret; intros q (Hi & text' & ->); by split_and!. }
  intros r tr. apply obeys_ret. intros q (Hi & Hp & Hr). rewrite app_nil_r. split_and!; [done|done|].
  destruct r as [r|text]; [|done]. intros Hok. destruct Hr as (tr1 & tr2 & -> & Hs).
  destruct (Hs Hok) as [text ->]. by exists addr, tr1, text.
Qed.
End typing.

(** ** The loops end *)

(** A clock under which no deadline is further away than a number of pauses; no command moves it
    back. *)
Class ViceClock W `{!Vice W} := {
  waits : spec_float → W → nat;
  waits_now : ∀ d w, (waits d (vm_now w).2 ≤ waits d w)%nat;
  waits_before : ∀ d w, flt (vm_now w).1 d = true → (0 < waits d (vm_now w).2)%nat;
  waits_sleep : ∀ d w ms, 0 < ms → (waits d (vm_sleep ms w) ≤ pred (waits d w))%nat;
  waits_read : ∀ d w a n l w', vm_read a n w = Ret l w' → (waits d w' ≤ waits d w)%nat;
  waits_resume : ∀ d w u w', vm_resume w = Ret u w' → (waits d w' ≤ waits d w)%nat;
  waits_screen : ∀ d w t w', vm_screen w = Ret t w' → (waits d w' ≤ waits d w)%nat;
  waits_connect : ∀ d w e w', vm_connect w = Raise e w' → (waits d w' ≤ waits d w)%nat;
}.

Definition rig_fuel (e : rig_error) : bool :=
  match e with RigOutOfFuel => true | _ => false end.

Section ends.
Context {W : Type} `{!Vice W, !ViceClock W}.
Abbreviation M := (eff (rig_state W) rig_error).
Abbreviation in_fuel := (Settle.in_fuel rig_fuel).
Abbreviation settles := (Settle.settles rig_fuel).

Lemma use_in_fuel {A} (m : eff W string A) shown failed (s : rig_state W) : in_fuel (use m shown failed s).
Proof. unfold use. by destruct (m (r_world s)). Qed.
Lemma now_in_fuel (s : rig_state W) : in_fuel (now s).
Proof. unfold now. by destruct (vm_now _). Qed.
Lemma label_in_fuel L name (s : rig_state W) : in_fuel (rig_label L name s).
Proof. unfold rig_label. by destruct (assoc name L). Qed.
Lemma screen_in_fuel (s : rig_state W) : in_fuel (screen_text s).
Proof. unfold screen_text. apply in_fuel_bind; [apply use_in_fuel|done]. Qed.

(** A round of a loop: it needs no fuel and does not move the clock back. *)
Definition timely {A} (d : spec_float) (m : M A) : Prop :=
  ∀ s, in_fuel (m s) ∧ ∀ a s', m s = Ret a s' → (waits d (r_world s') ≤ waits d (r_world s))%nat.

Lemma timely_ret {A} d (a : A) : timely d (mret a).
Proof. intros s. split; [done|]. by intros ? ? [= _ <-]. Qed.
Lemma timely_raise {A} d e : rig_fuel e = false → timely d (raise (A:=A) e).
Proof. intros He s. split; [done|]. by intros ? ? [=]. Qed.
Lemma timely_bind {A B} d (m : M A) (f : A → M B) :
  timely d m → (∀ a, timely d (f a)) → timely d (m ≫= f).
Proof.
  intros Hm Hf s. destruct (Hm s) as [Hi Hw]. split.
  - apply in_fuel_bind; [done|]. intros a s'. apply Hf.
  - intros b s'. rewrite run_bind. destruct (m s) as [a s1|] eqn:Ha; [|done]. intros Hb.
    etrans; [exact (proj2 (Hf a s1) _ _ Hb)|by apply (Hw a)].
Qed.
Lemma timely_use {A} d (m : eff W string A) shown failed :
  (∀ w a w', m w = Ret a w' → (waits d w' ≤ waits d w)%nat) → timely d (use m shown failed).
Proof.
  intros Hm s. split; [apply use_in_fuel|]. intros a s'. unfold use.
  destruct (m (r_world s)) as [a' w|] eqn:Ha; [|done]. intros [= _ <-]. cbn. by apply (Hm _ a').  
Qed.
Lemma timely_read d addr n : timely d (read addr n).
Proof. apply timely_use. intros w l w'. apply waits_read. Qed.
Lemma timely_screen d : timely d screen_text.
Proof.
  apply timely_bind; [|intros; apply timely_ret]. apply timely_use. intros w l w'. apply waits_screen.
Qed.

Lemma until_settles {A B} deadline (body : A → M (B + A)) pause acc :
  0 < pause → (∀ acc, timely deadline (body acc)) → settles (λ fuel, until fuel deadline body pause acc).
Proof.
  intros Hpause Hbody s. remember (waits deadline (r_world s)) as k eqn:Hk.
  assert (Hle : (waits deadline (r_world s) ≤ k)%nat) by lia. clear Hk.
  revert s acc Hle. induction k as [|k IH]; intros s acc Hle.
  all: pose proof (waits_now deadline (r_world s)) as Hnow;
    pose proof (waits_before deadline (r_world s)) as Hbefore;
    destruct (vm_now (r_world s)) as [t w] eqn:Ht; cbn [fst snd] in *;
    assert (Hrun : ∀ f : spec_float → M (B + A), (now ≫= f) s = f t (RigState w (r_log s)))
      by (intros f; rewrite run_bind; unfold now; by rewrite Ht).
  all: apply settles_at_succ; cbn [until].
  all: destruct (flt t deadline) eqn:Hlt.
  1: specialize (Hbefore eq_refl); lia.
  2: { destruct (Hbody acc (RigState w (r_log s))) as [Hi Hw]. cbn [r_world] in Hw.
       destruct (body acc (RigState w (r_log s))) as [[b|acc'] s1|e s1] eqn:Hb.
       - exists 0%nat, (Ret (inl b) s1). split; [done|]. intros fuel _. rewrite Hrun, Hlt. cbn [negb].
         by rewrite run_bind, Hb.
       - specialize (Hw _ _ eq_refl). destruct (resume s1) as [[] s2|e s2] eqn:Hr.
         + assert (Hs2 : (waits deadline (r_world s2) ≤ waits deadline (r_world s1))%nat).
           { unfold resume, use in Hr. destruct (vm_resume (r_world s1)) as [u w2|] eqn:Hv; [|done].
             injection Hr as _ <-. cbn. by apply (waits_resume _ _ u). }
           pose proof (waits_sleep deadline (r_world s2) pause Hpause) as Hs.
           specialize (Hbefore eq_refl).
           destruct (IH (RigState (vm_sleep pause (r_world s2)) (r_log s2 ++ [Slept pause])) acc')
             as (n & o & Ho & Hn); [cbn; lia|].
           exists n, o. split; [done|]. intros fuel Hf. rewrite Hrun, Hlt. cbn [negb].
           rewrite run_bind, Hb, run_bind, Hr, run_bind. by apply Hn.
         + exists 0%nat, (Raise e s2). split.
           { pose proof (use_in_fuel vm_resume (λ _, Resumed) Refused s1) as Hi'.
             change (in_fuel (resume s1)) in Hi'. by rewrite Hr in Hi'. }
           intros fuel _. rewrite Hrun, Hlt. cbn [negb]. by rewrite run_bind, Hb, run_bind, Hr.
       - exists 0%nat, (Raise e s1). split; [done|]. intros fuel _. rewrite Hrun, Hlt. cbn [negb].
         by rewrite run_bind, Hb. }
  all: exists 0%nat, (Ret (inr acc) (RigState w (r_log s))); split; [done|]; intros fuel _;
    by rewrite Hrun, Hlt.
Qed.

Lemma settles_until {A B C} (deadline : spec_float) (body : A → M (B + A)) pause acc (f : B + A → M C) :
  0 < pause → (∀ acc, timely deadline (body acc)) → (∀ r s, in_fuel (f r s)) →
  settles (λ fuel, until fuel deadline body pause acc ≫= f).
Proof. intros. apply (settles_bind rig_fuel _ (λ _, f)); [by apply until_settles|]. intros r. by apply settles_const. Qed.

Lemma settles_use {A B} (m : M A) (f : nat → A → M B) :
  (∀ s, in_fuel (m s)) → (∀ a, settles (λ fuel, f fuel a)) → settles (λ fuel, m ≫= f fuel).
Proof. apply settles_then. Qed.

Lemma boot_settles L timeout : settles (λ fuel, wait_boot_ready (W:=W) fuel L timeout).
Proof.
  apply settles_use; [apply label_in_fuel|]. intros addr. apply settles_use; [apply now_in_fuel|]. intros t.
  apply settles_until; [done| |done]. intros _. apply timely_bind; [apply timely_read|]. intros. apply timely_ret.
Qed.
Lemma drained_settles timeout : settles (λ fuel, drained (W:=W) fuel timeout).
Proof.
  apply settles_use; [apply now_in_fuel|]. intros t. apply settles_until; [done| |done].
  intros _. apply timely_bind; [|intros; apply timely_ret]. apply timely_bind; [apply timely_read|].
  intros [|b l]; [by apply timely_raise|apply timely_ret].
Qed.
Lemma rig_press_settles c timeout : settles (λ fuel, RigVice.press_key (W:=W) fuel c timeout).
Proof.
  apply settles_guard; [apply drained_settles|].
  apply settles_use; [intros s; unfold ascii_bytes; by destruct (forallb _ _)|]. intros l.
  do 3 (apply settles_use; [apply use_in_fuel|]; intros _). apply drained_settles.
Qed.
Lemma net_settles L timeout : settles (λ fuel, wait_net_initialized (W:=W) fuel L timeout).
Proof.
  apply settles_use; [apply label_in_fuel|]. intros addr. apply settles_use; [apply now_in_fuel|]. intros t.
  apply settles_until; [done| |done]. intros _. apply timely_bind; [apply timely_read|]. intros l.
  case_bool_decide; (apply timely_bind; [apply timely_screen|]; intros text); [apply timely_ret|].
  destruct (List.filter _ _); apply timely_ret.
Qed.
Lemma net_init_settles L bt dt : settles (λ fuel, boot_and_net_init (W:=W) fuel L bt dt).
Proof.
  apply settles_use; [apply now_in_fuel|]. intros t0.
  apply settles_bind; [apply boot_settles|]. intros [|]; cbn [negb].
  2: { apply settles_const. intros s. apply in_fuel_bind; [apply screen_in_fuel|done]. }
  apply settles_use; [apply now_in_fuel|]. intros _.
  apply settles_bind; [apply rig_press_settles|]. intros [|]; cbn [negb]; [|by apply settles_const].
  apply settles_bind; [apply net_settles|]. intros r. destruct (negb _); [by apply settles_const|].
  apply settles_const. intros s. apply in_fuel_bind; [apply now_in_fuel|done].
Qed.
End ends.

(** ** Reading in pieces *)

Definition slice_of (m : Z → Z) (addr n : Z) : bytes :=
  (λ i, m (addr + Z.of_nat i)) <$> seq 0 (Z.to_nat n).

Lemma slice_of_app m addr a b :
  0 ≤ a → 0 ≤ b → slice_of m addr (a + b) = slice_of m addr a ++ slice_of m (addr + a) b.
Proof.
  intros Ha Hb. unfold slice_of. rewrite Z2Nat.inj_add, seq_app, fmap_app by done. f_equal.
  rewrite Nat.add_comm, <- fmap_add_seq, <- list_fmap_compose. apply list_fmap_ext. intros i x _.
  unfold compose. f_equal. lia.
Qed.
Lemma len_slice_of m addr n : 0 ≤ n → len (slice_of m addr n) = n.
Proof. intros Hn. unfold len, slice_of. rewrite length_fmap, length_seq. lia. Qed.

(** A read of 1 to 256 bytes. *)
Definition piece (e : event) : Prop := ∃ addr l, e = Got addr l ∧ 1 ≤ len l ≤ 256.

Section reading.
Context {W : Type} `{!Vice W} (mem : W → Z → Z).
(** Small reads give what the memory holds, and leave it. *)
Definition reads_memory : Prop := ∀ w addr n, 1 ≤ n ≤ 256 →
  ∃ w', vm_read addr n w = Ret (slice_of (mem w) addr n) w' ∧ mem w' = mem w.

Lemma read_pieces_exact fuel addr n out (s : rig_state W) :
  reads_memory → 0 ≤ n ≤ 256 * Z.of_nat fuel →
  ∃ s' tr, read_pieces fuel addr n out s = Ret (out ++ slice_of (mem (r_world s)) addr n) s' ∧
    mem (r_world s') = mem (r_world s) ∧ r_log s' = r_log s ++ tr ∧ Forall piece tr.
Proof.
  intros Hmem. revert addr n out s. induction fuel as [|fuel IH]; intros addr n out s Hn.
  - assert (n = 0) as -> by lia. exists s, []. cbn. by rewrite !app_nil_r.
  - cbn [read_pieces]. destruct (Z.eqb_spec n 0) as [->|Hne].
    { exists s, []. cbn. by rewrite !app_nil_r. }
    set (k := Z.min 256 n). destruct (Hmem (r_world s) addr k) as (w' & Hread & Hw); [lia|].
    rewrite run_bind. unfold read, use. rewrite Hread.
    destruct (IH (addr + k) (n - k) (out ++ slice_of (mem (r_world s)) addr k)
      (RigState w' (r_log s ++ [Got addr (slice_of (mem (r_world s)) addr k)])))
      as (s' & tr & Heq & Hs & Hl & Htr); [lia|]. cbn [r_world r_log] in *.
    exists s', ([Got addr (slice_of (mem (r_world s)) addr k)] ++ tr). rewrite Heq, Hs, Hl, Hw.
    split_and!; [|done|by rewrite <- !app_assoc|].
    + replace n with (k + (n - k)) at 2 by lia. rewrite slice_of_app by lia. by rewrite app_assoc.
    + constructor; [|done]. exists addr, (slice_of (mem (r_world s)) addr k). split; [done|].
      rewrite len_slice_of; lia.
Qed.
End reading.

(** ** Parking *)

Definition set_ids (tr : list event) : list Z :=
  omap (λ e, match e with CheckpointSet _ id => Some id | _ => None end) tr.
Definition deleted_ids (tr : list event) : list Z :=
  omap (λ e, match e with CheckpointDeleted id => Some id | _ => None end) tr.

(** What an outcome's log gained. *)
Definition grew {W A} (s : rig_state W) (o : outcome (rig_state W) rig_error A) (tr : list event) : Prop :=
  match o with Ret _ s' | Raise _ s' => r_log s' = r_log s ++ tr end.

Section parking.
Context {W : Type} `{!Vice W}.
Abbreviation M := (eff (rig_state W) rig_error).

Lemma use_cases {A} (m : eff W string A) shown failed (s : rig_state W) :
  (∃ a w, use m shown failed s = Ret a (RigState w (r_log s ++ [shown a]))) ∨
  (∃ e w, use m shown failed s = Raise (Monitor e) (RigState w (r_log s ++ [failed]))).
Proof. unfold use. destruct (m (r_world s)); eauto. Qed.

End parking.

(** ** A machine behind a monitor *)

(** The memory and the clock of [toy], the CPU waiting in its main loop at $1000; a pause empties the
    queue, sets the markers and moves the clock. *)
Definition markers : Z → Z := mem_write (mem_write (λ _, 0) (0x9000, [1])) (0x9001, [1]).
Definition toy_vice (reachable : bool) : Vice toy := {|
  vm_read addr n w := Ret (slice_of (toy_mem w) addr n) w;
  vm_write addr l w := Ret tt (Toy (mem_write (toy_mem w) (addr, l)) (toy_pauses w));
  vm_resume w := Ret tt w;
  vm_pc w := Ret (if (toy_pauses w =? 0)%nat then 0x1234 else 0x1000) w;
  vm_set_checkpoint _ w := Ret 7 w;
  vm_wait _ w := Ret tt (Toy (toy_mem w) (S (toy_pauses w)));
  vm_delete_checkpoint _ w := Ret tt w;
  vm_screen w := Ret "Network ready" w;
  vm_start w := Ret tt w;
  vm_poll _ := if reachable then None else Some 1;
  vm_stop w := Ret tt w;
  vm_connect w := if reachable then Ret tt w else Raise "refused" w;
  vm_close w := Ret tt w;
  vm_release w := Ret tt w;
  vm_now w := (if (toy_pauses w <? 100)%nat then S754_zero false else S754_infinity false, w);
  vm_sleep ms w := Toy (mem_write (toy_mem w) (KBD_COUNT, [0])) (S (toy_pauses w));
|}.

#[export] Instance toy_vice_clock b : @ViceClock toy (toy_vice b).
Proof.
  refine (@Build_ViceClock toy (toy_vice b) (λ _ w, 100 - toy_pauses w)%nat _ _ _ _ _ _ _).
  - done.
  - intros d w. cbn [vm_now toy_vice fst snd]. destruct (Nat.ltb_spec (toy_pauses w) 100); [lia|]. by destruct d as [[]|[]| |[] ? ?].
  - intros d w ms _. cbn. lia.
  - by intros d w a n l w' [= _ <-].
  - by intros d w u w' [= _ <-].
  - by intros d w t w' [= _ <-].
  - intros d w e w'. destruct b; [done|]. by intros [= _ <-].
Qed.

Definition toy_rig : rig_state toy := RigState (Toy markers 0) [].
Definition rig_labels : list (string * Z) :=
  [("boot_ready", 0x9000); ("net_initialized", 0x9001); ("main_loop", 0x1000); ("ip65_blob_start", 0x8000)].

Example toy_boots :
  let H := toy_vice true in
  match boot_and_net_init 50 rig_labels BOOT_TIMEOUT DHCP_TIMEOUT toy_rig with
  | Ret _ s => puts (r_log s) = pressed "I"%char
  | Raise _ _ => False
  end.
Proof. by vm_compute. Qed.
Example toy_parks :
  let H := toy_vice true in
  match park_outside_net rig_labels (seconds_of 10) toy_rig with
  | Ret _ s => r_log s = [SawPc 0x1234; CheckpointSet 0x1000 7; Resumed; Waited; CheckpointDeleted 7; SawPc 0x1000]
  | Raise _ _ => False
  end.
Proof. by vm_compute. Qed.

(** ** The emulator as a resource *)

(** Neither stopped nor its port given back. *)
Definition untouched (tr : list event) : Prop := Forall (λ e, e ≠ Stopped ∧ e ≠ Released) tr.

Lemma connect_loop_log {W} `{!Vice W} fuel d (s : rig_state W) :
  ∃ tr, grew s (connect_loop fuel d s) tr ∧ untouched tr ∧
    ∀ u s', connect_loop fuel d s = Ret u s' → last tr = Some Connected.
Proof.
  revert s. induction fuel as [|fuel IH]; intros s.
  { exists []. cbn. rewrite app_nil_r. split_and!; [done|constructor|done]. }
  cbn [connect_loop]. rewrite run_bind. unfold now. destruct (vm_now (r_world s)) as [t w].
  destruct (negb (flt t d)).
  { exists []. cbn. rewrite app_nil_r. split_and!; [done|constructor|done]. }
  rewrite run_bind. unfold catch_any. rewrite run_bind.
  destruct (use_cases vm_connect (λ _, Connected) Refused (RigState w (r_log s)))
    as [(u & w1 & ->)|(e & w1 & ->)]; cbn [r_log].
  { exists [Connected]. split_and!; [done|by repeat constructor|done]. }
  cbn [mret eff_ret]. rewrite run_bind. unfold gets. cbn [r_world].
  destruct (bool_decide (vm_poll w1 = None)); cbn [negb].
  2: { exists [Refused]. split_and!; [done|by repeat constructor|done]. }
  rewrite run_bind. unfold sleep. cbn [r_world r_log].
  destruct (IH (RigState (vm_sleep 250 w1) ((r_log s ++ [Refused]) ++ [Slept 250]))) as (tr & Hg & Hs & Hl).
  exists ([Refused; Slept 250] ++ tr). unfold grew in *. cbn [r_log] in Hg.
  destruct (connect_loop fuel d _) as [u s'|e' s']; rewrite Hg, <- !app_assoc;
    (split_and!; [done|by repeat constructor|]); [|done].
  intros u1 s1 Heq. by rewrite last_app, (Hl _ _ Heq).
Qed.

Module Emulator.
Section claims.
Context {W : Type} `{!Vice W}.

(** C20. VICE's monitor stops the CPU at every command, and no waiting loop of the rig starves the
    machine: whenever one of them pauses, the CPU was resumed after the last command; and the keyboard
    helpers of the hardware tools, run over the adapter that resumes after each command, find the
    CPU running at every pause and leave it running. *)
Theorem cpu_never_starved fuel :
  (∀ L timeout, unstarved (wait_boot_ready (W:=W) fuel L timeout)) ∧
  (∀ c timeout, unstarved (RigVice.press_key (W:=W) fuel c timeout)) ∧
  (∀ L timeout, unstarved (wait_net_initialized (W:=W) fuel L timeout)) ∧
  (∀ L bt dt, unstarved (boot_and_net_init (W:=W) fuel L bt dt)) ∧
  (∀ key timeout, stays_running (W:=W) (C64Input.press_key fuel key timeout)) ∧
  (∀ text timeout, stays_running (W:=W) (type_text fuel text timeout)) ∧
  (∀ n text timeout, stays_running (W:=W) (send_message fuel n text timeout)) ∧
  (∀ n text L timeout, stays_running (W:=W) (send_message_dma fuel n text L timeout)) ∧
  (∀ addr v timeout, stays_running (W:=W) (rekey fuel addr v timeout)).
Proof.
  split_and!; intros; [apply boot_unstarved|apply press_unstarved|apply net_unstarved|apply net_init_unstarved
    |apply running_press|apply running_text|apply running_message|apply running_dma|apply running_rekey].
Qed.

(** The network is reported up only when it came up in order: the marker of the boot was read as 1,
    then I was typed into a queue seen empty and was consumed, by the protocol of the queue, then the
    marker of the network was read as 1; nothing else was written.  Every other return is an exit with
    status 1 or an exception. *)
Theorem network_comes_up fuel L bt dt (s s' : rig_state W) t :
  boot_and_net_init fuel L bt dt s = Ret t s' →
  ∃ boot net tr1 tr2 tr3 text q,
    assoc "boot_ready" L = Some boot ∧ assoc "net_initialized" L = Some net ∧
    r_log s' = r_log s ++ tr1 ++ tr2 ++ tr3 ++ [Got net [1]; SawScreen text] ∧
    puts tr1 = [] ∧ saw_byte boot 1 tr1 ∧
    puts tr2 = pressed "I"%char ∧ idle q ∧ key_run q tr2 = Some Empty ∧ puts tr3 = [].
Proof.
  intros Hrun. unfold boot_and_net_init in Hrun. rewrite run_bind in Hrun.
  destruct (now s) as [t0 s0|] eqn:Hnow; [|done].
  assert (Hl0 : ∀ x (s1 s2 : rig_state W), now s1 = Ret x s2 → r_log s2 = r_log s1)
    by (intros x s1 s2; unfold now; destruct (vm_now _); intros [= _ <-]; done).
  apply Hl0 in Hnow.
  pose proof (boot_keyed fuel L bt s0 Unknown (or_introl eq_refl)) as H1.
  rewrite run_bind in Hrun. destruct (wait_boot_ready fuel L bt s0) as [[] s1|]; [| |done].
  2: { cbn [negb] in Hrun. rewrite run_bind in Hrun. by destruct (screen_text s1). }
  destruct H1 as (tr1 & q1 & Hs1 & _ & Hi1 & Hp1 & Hb1). destruct (Hb1 eq_refl) as (boot & Hboot & Hsaw).
  cbn [negb] in Hrun. rewrite run_bind in Hrun. destruct (now s1) as [t1 s2|] eqn:Hn1; [|done].
  apply Hl0 in Hn1.
  pose proof (obeys_traced _ _ _ _ _ (press_keyed fuel "I"%char (float_of_Z 15)) s2 q1 Hi1) as H2.
  rewrite run_bind in Hrun. destruct (RigVice.press_key _ _ _ s2) as [[] s3|]; [|done|done].
  destruct H2 as (tr2 & q2 & Hs2 & _ & (Hi2 & Hp2 & He2) & q0 & Hq0 & Hr2).
  rewrite (He2 eq_refl) in Hr2. destruct Hp2 as [[_ [=]]|Hp2].
  cbn [negb] in Hrun. pose proof (net_keyed fuel L dt s3 q2 Hi2) as H3.
  rewrite run_bind in Hrun. destruct (wait_net_initialized fuel L dt s3) as [[o text] s4|]; [|done].
  destruct H3 as (tr3 & q3 & Hs3 & _ & _ & Hp3 & Hb3). cbn [fst] in *.
  case_bool_decide as Ho; [|done]. destruct (Hb3 Ho) as (net & tr3' & text' & Hnet & ->).
  cbn [negb] in Hrun. rewrite run_bind in Hrun. destruct (now s4) as [t4 s5|] eqn:Hn4; [|done].
  apply Hl0 in Hn4. injection Hrun as <- <-.
  exists boot, net, tr1, tr2, tr3', text', q0. rewrite puts_app in Hp3. apply app_eq_nil in Hp3 as [Hp3 _].
  split_and!; try done. rewrite Hn4, Hs3, Hs2, Hn1, Hs1, Hnow. by rewrite <- !app_assoc.
Qed.

(** Parking the CPU outside the network loop leaves no checkpoint behind, whatever fails on the
    way: what was set is what was deleted; it succeeds only when the last thing read was the program
    counter at the top of the main loop, and touches nothing if the CPU stands there already. *)
Theorem parked L timeout (s : rig_state W) :
  ∃ tr, grew s (park_outside_net L timeout s) tr ∧ set_ids tr = deleted_ids tr ∧
    match park_outside_net L timeout s with
    | Ret _ _ => ∃ main, assoc "main_loop" L = Some main ∧ last tr = Some (SawPc main)
    | Raise (NotParked pc) _ => last tr = Some (SawPc pc) ∧ assoc "main_loop" L ≠ Some pc
    | Raise _ _ => True
    end ∧
    ∀ main, assoc "main_loop" L = Some main → head tr = Some (SawPc main) → tr = [SawPc main].
Proof.
  unfold park_outside_net, rig_label. rewrite run_bind. unfold read_pc, set_checkpoint, finally, resume,
    wait_for_stopped, delete_checkpoint.
  destruct (use_cases vm_pc SawPc Refused s) as [(pc & w & ->)|(e & w & ->)].
  2: { exists [Refused]. by split_and!. }
  destruct (assoc "main_loop" L) as [main|]; [|exists [SawPc pc]; by split_and!].
  change (mret main ≫= ?f) with (f main). cbv beta.
  destruct (Z.eqb_spec pc main) as [->|Hne].
  { exists [SawPc main]. split_and!; [done|done|by exists main|by intros m [= ->]]. }
  assert (Hhead : ∀ tr m, Some main = Some m → Some (SawPc pc) = Some (SawPc m) → tr = [SawPc m]) by congruence.
  rewrite run_bind.
  destruct (use_cases (vm_set_checkpoint main) (CheckpointSet main) Refused (RigState w (r_log s ++ [SawPc pc])))
    as [(cp & w1 & ->)|(e & w1 & ->)].
  2: { exists [SawPc pc; Refused]. cbn. rewrite <- app_assoc. split_and!; [done|done|done|intros; by apply Hhead]. }
  rewrite !run_bind.
  repeat match goal with
    | |- context [use ?m ?f ?x ?s'] =>
        destruct (use_cases m f x s') as [(? & ? & ->)|(? & ? & ->)]; cbv beta iota; rewrite ?run_bind
    end; cbn [r_log].
  all: try match goal with |- context [?a =? ?b] => destruct (Z.eqb_spec a b) as [Heq|] end.
  all: cbn [grew r_log mret eff_ret raise]; rewrite <- !app_assoc; eexists; (split; [reflexivity|]); cbn;
    split_and!; try done; try (intros; by apply Hhead).
  - subst. by exists main.
  - congruence.
Qed.
(** A span of memory is read whole: when the monitor gives what the memory holds, the answer is the
    memory from the first to the last address, both included, read in pieces of 1 to 256 bytes, and an
    empty span is read without any access. *)
Theorem read_span_exact (mem : W → Z → Z) start end_ (s : rig_state W) :
  reads_memory mem → start ≤ end_ + 1 →
  ∃ s' tr, read_span start end_ s = Ret (slice_of (mem (r_world s)) start (end_ - start + 1)) s' ∧
    len (slice_of (mem (r_world s)) start (end_ - start + 1)) = end_ - start + 1 ∧
    mem (r_world s') = mem (r_world s) ∧ r_log s' = r_log s ++ tr ∧ Forall piece tr ∧
    (start = end_ + 1 → tr = []).
Proof.
  intros Hmem Hspan. unfold read_span.
  destruct (read_pieces_exact mem (S (Z.to_nat ((end_ - start + 1) / 256))) start (end_ - start + 1) [] s Hmem)
    as (s' & tr & Heq & Hs & Hl & Htr).
  { pose proof (Z.div_mod (end_ - start + 1) 256). pose proof (Z.mod_pos_bound (end_ - start + 1) 256).
    pose proof (Z.div_pos (end_ - start + 1) 256). lia. }
  exists s', tr. split_and!; [exact Heq|apply len_slice_of; lia|done|done|done|].
  intros ->. replace (end_ - (end_ + 1) + 1) with 0 in Heq by lia. injection Heq as <-.
  destruct tr as [|e tr]; [done|]. apply (f_equal length) in Hl. rewrite length_app in Hl. cbn in Hl. lia.
Qed.

(** The emulator as a resource.  Entering it never stops it nor gives the port back, so when it cannot
    be reached it is left running with the port taken: the body is not run and nothing is cleaned up.
    Leaving it tries to stop it in every case, and gives the port back unless the stop failed. *)
Theorem emulator_entered_and_left fuel own {A} (body : eff (rig_state W) rig_error A) (s : rig_state W) :
  (∃ tr, grew s (enter fuel s) tr ∧ untouched tr ∧
     (∀ u s', enter fuel s = Ret u s' → head tr = Some Started ∧ last tr = Some Connected) ∧
     (∀ e s', enter fuel s = Raise e s' → with_vice fuel own body s = Raise e s')) ∧
  (∃ tr, grew s (leave own s) tr ∧ Stopped ∈ tr ∧
     ∀ u s', leave own s = Ret u s' → tr = [Closed; Stopped] ++ (if own then [Released] else [])).
Proof.
  split.
  - destruct (use_cases vm_start (λ _, Started) Refused s) as [(u & w & Hu)|(e & w & Hu)].
    2: { exists [Refused]. unfold with_vice, enter. rewrite !run_bind, Hu.
         split; [done|]. split; [repeat constructor; done|]. split; [done|by intros e1 s1 [= <- <-]]. }
    unfold with_vice, enter, connect. rewrite !run_bind, Hu, !run_bind. unfold now. cbn [r_world r_log].
    destruct (vm_now w) as [t w1]. destruct (connect_loop_log fuel (fadd t (float_of_Z 30)) (RigState w1 (r_log s ++ [Started])))
      as (tr & Hg & Hs & Hl). cbn [r_log] in Hg.
    exists ([Started] ++ tr). unfold grew in *. cbn [r_log] in Hg.
    destruct (connect_loop fuel _ _) as [u1 s1|e1 s1]; rewrite Hg, <- app_assoc; split_and!; try done; try (by repeat constructor).
    + intros u2 s2 [= <- <-]. split; [done|]. by rewrite last_app, (Hl _ _ eq_refl).
    + by intros e s2 [= <- <-].
  - unfold leave, catch_any. rewrite run_bind.
    destruct (use_cases vm_close (λ _, Closed) Closed s) as [(u & w & ->)|(e & w & ->)];
      cbn [mret eff_ret]; rewrite run_bind.
    all: match goal with |- context [use ?m ?f ?x ?s'] =>
        destruct (use_cases m f x s') as [(? & ? & ->)|(? & ? & ->)] end; cbn [r_log].
    all: destruct own; try match goal with |- context [use ?m ?f ?x ?s'] =>
        destruct (use_cases m f x s') as [(? & ? & ->)|(? & ? & ->)] end; cbn [r_log].
    all: cbn [grew r_log mret eff_ret]; rewrite <- !app_assoc; eexists; (split; [reflexivity|]);
      split; [set_solver|done].
Qed.
End claims.

Lemma network_comes_up_witness :
  let H := toy_vice true in
  ∃ s t, boot_and_net_init 50 rig_labels BOOT_TIMEOUT DHCP_TIMEOUT toy_rig = Ret t s ∧
  ∃ boot net, assoc "boot_ready" rig_labels = Some boot ∧ assoc "net_initialized" rig_labels = Some net.
Proof.
  intros H.
  assert (Hok : match boot_and_net_init 50 rig_labels BOOT_TIMEOUT DHCP_TIMEOUT toy_rig with
                | Ret _ _ => true | Raise _ _ => false end = true) by (vm_compute; reflexivity).
  destruct (boot_and_net_init 50 rig_labels BOOT_TIMEOUT DHCP_TIMEOUT toy_rig) as [t s|e s] eqn:Hrun; [|discriminate Hok].
  exists s, t. split; [reflexivity|].
  destruct (network_comes_up 50 rig_labels BOOT_TIMEOUT DHCP_TIMEOUT toy_rig s t Hrun)
    as (boot & net & ? & ? & ? & ? & ? & Hb & Hn & _). exists boot, net. split; assumption.
Defined.

Lemma read_span_exact_witness :
  let H := toy_vice true in
  ∃ s' tr, read_span 0x8FFF 0x9200 toy_rig = Ret (slice_of markers 0x8FFF 514) s' ∧ Forall piece tr.
Proof.
  intros H. destruct (read_span_exact toy_mem 0x8FFF 0x9200 toy_rig) as (s' & tr & Heq & _ & _ & _ & Htr & _).
  - intros w addr n _. exists w. split; reflexivity.
  - lia.
  - exists s', tr. split; [exact Heq|exact Htr].
Defined.

(** Every waiting loop of the rig ends, whatever the machine does: under a clock that moves on
    with every pause, from some amount of fuel on the outcome is the same and is not the one that stands
    for running out of fuel. *)
Theorem rig_waits_settle {W} `{!Vice W, !ViceClock W} L timeout timeout' c :
  Settle.settles rig_fuel (λ fuel, wait_boot_ready (W:=W) fuel L timeout) ∧
  Settle.settles rig_fuel (λ fuel, RigVice.press_key (W:=W) fuel c timeout) ∧
  Settle.settles rig_fuel (λ fuel, wait_net_initialized (W:=W) fuel L timeout) ∧
  Settle.settles rig_fuel (λ fuel, boot_and_net_init (W:=W) fuel L timeout timeout').
Proof. split_and!; [apply boot_settles|apply rig_press_settles|apply net_settles|apply net_init_settles]. Qed.

(** A run with an emulator that cannot be reached leaves it running: it was started and is neither
    stopped, nor is its port given back. *)
Theorem unreachable_emulator_leaks :
  let H := toy_vice false in
  match with_vice 50 true (mret tt) toy_rig with
  | Raise e s => e = ExitedEarly ∧ r_log s = [Started; Refused]
  | Ret _ _ => False
  end.
Proof. vm_compute. split; reflexivity. Qed.
End Emulator.
