(* ===== verification/ViceUtil.v ===== *)
(** * Waiting for a booted image, and the REU it needs (tools/vice_util.py)

    The size of VICE's REU is derived from the labels of the image; a boot counts only when the
    image reports no fault of its REU. *)

From S2P Require Export RigVice.

(** ** The REU an image needs *)

Inductive reu_error := BeyondLargest (banks need_kib : Z) | MaskDropped (name : string) | NoManifest.

Definition VICE_REU_SIZES_KIB : list Z := [128; 256; 512; 1024; 2048; 4096; 8192; 16384].
Definition REU_MANIFEST : list string :=
  ["LIB_X25519_REU_BANKS_USED"; "LIB_CHACHA20_POLY1305_REU_BANKS_USED"].

(** [z.bit_length()] *)
Definition bit_length (z : Z) : Z := if z =? 0 then 0 else Z.log2 (Z.abs z) + 1.

(** The banks the manifests of an image claim, when it has any. *)
Definition banks_of (L : list (string * Z)) : option Z :=
  match omap (λ n, assoc n L) REU_MANIFEST with
  | [] => None
  | masks => Some (foldl Z.lor 0 masks)
  end.

Definition vice_reu_args (L : list (string * Z)) : res reu_error (list string) :=
  match banks_of L with
  | Some banks =>
      if banks =? 0 then Ok [] else
      let need_kib := bit_length banks * 64 in
      match List.find (λ s, need_kib <=? s) VICE_REU_SIZES_KIB with
      | None => Err (BeyondLargest banks need_kib)
      | Some size => Ok ["-reu"; "-reusize"; dec size]
      end
  | None =>
      match List.filter (λ n, startswith "LIB_X25519_" n || startswith "LIB_CHACHA20_POLY1305_" n) L.*1 with
      | n :: _ => Err (MaskDropped n)
      | [] => Err NoManifest
      end
  end.

Example reu_512 : vice_reu_args [("LIB_X25519_REU_BANKS_USED", 0x3B)] = Ok ["-reu"; "-reusize"; "512"].
Proof. by vm_compute. Qed.
Example reu_none : vice_reu_args [("LIB_CHACHA20_POLY1305_REU_BANKS_USED", 0)] = Ok [].
Proof. by vm_compute. Qed.

(** ** Waiting *)

Section wait.
Context {W : Type} `{!Vice W}.
Abbreviation M := (eff (rig_state W) rig_error).

Definition binary_wait_for_text (fuel : nat) (needle : string) (timeout : spec_float) (pause : Z) :
    M (option string) :=
  t ← now;
  r ← until fuel (fadd t timeout)
        (λ _, text ← screen_text; mret (if contains (upper needle) text then inl text else inr tt)) pause tt;
  mret (match r with inl text => Some text | inr _ => None end).

(** What the bits of the fault byte say. *)
Definition fault_bits (val : Z) : list pv :=
  (if truthy (Z.land val 0x01) then [PStr "$01 settle spin timed out"] else [])
  ++ (if truthy (Z.land val 0x02) then [PStr "$02 $DF00 bit 5 seen"] else [])
  ++ (if truthy (Z.land val (Z.lnot 0x03))
      then [PInt (Z.land (Z.land val (Z.lnot 0x03)) 0xFF)] else []).

Definition advice (L : list (string * Z)) : pv :=
  match vice_reu_args L with
  | Ok args => PList (PStr <$> args)
  | Err (BeyondLargest banks need) => PList [PInt banks; PInt need]
  | Err (MaskDropped n) => PStr n
  | Err NoManifest => PStr "no manifest"
  end.

Definition refuse_reu_fault (L : list (string * Z)) : M unit :=
  match assoc "x25519_reu_fault" L with
  | None => raise (BootReuFault ("not in labels.txt", []))
  | Some addr =>
      l ← read addr 1;
      match l with
      | [] => raise RigEmptyRead
      | val :: _ =>
          if truthy val
          then raise (BootReuFault ("x25519_reu_fault", [PInt val; PList (fault_bits val); advice L]))
          else mret tt
      end
  end.

(** [b"\x01"], or [None] when the time is up. *)
Definition binary_wait_for_boot_ready (fuel : nat) (L : list (string * Z)) (timeout : spec_float) (pause : Z) :
    M bool :=
  t ← now;
  r ← until fuel (fadd t timeout)
        (λ _, addr ← rig_label L "boot_ready";
              l ← read addr 1;
              if bool_decide (l = [1]) then (refuse_reu_fault L;; mret (inl tt)) else mret (inr tt)) pause tt;
  mret (match r with inl _ => true | inr _ => false end).
End wait.
