(* ===== verification/ViceUtilThms.v ===== *)
(** * The REU of an image and the waits for it: the properties *)

From S2P Require Export ViceUtil RigViceThms.
#[local] Set Warnings "-clear-no-such-hyp".

(** A bank is claimed when its bit is set in the mask of one of the manifests. *)
Definition claims_bank (L : list (string * Z)) (i : Z) : Prop :=
  ∃ n mask, n ∈ REU_MANIFEST ∧ assoc n L = Some mask ∧ Z.testbit mask i = true.

Lemma testbit_foldl_lor l acc i :
  Z.testbit (foldl Z.lor acc l) i = Z.testbit acc i || existsb (λ m, Z.testbit m i) l.
Proof.
  revert acc. induction l as [|m l IH]; intros acc; cbn; [by rewrite orb_false_r|].
  by rewrite IH, Z.lor_spec, orb_assoc.
Qed.

Lemma claims_banks_of L banks i :
  banks_of L = Some banks → Z.testbit banks i = true ↔ claims_bank L i.
Proof.
  unfold banks_of, claims_bank. intros Hb.
  assert (banks = foldl Z.lor 0 (omap (λ n, assoc n L) REU_MANIFEST)) as ->
    by (by destruct (omap _ _); [|injection Hb as <-]).
  rewrite testbit_foldl_lor, Z.bits_0, orb_false_l, existsb_exists.
  setoid_rewrite <- list_elem_of_In. setoid_rewrite list_elem_of_omap. naive_solver.
Qed.

Lemma banks_of_None L : banks_of L = None ↔ ∀ n, n ∈ REU_MANIFEST → assoc n L = None.
Proof.
  unfold banks_of. split.
  - intros Hb n Hn. destruct (assoc n L) as [m|] eqn:Hm; [|done].
    assert (Hin : m ∈ omap (λ n, assoc n L) REU_MANIFEST) by (apply list_elem_of_omap; eauto).
    destruct (omap _ _); [by apply not_elem_of_nil in Hin|done].
  - intros Hall. cbn. rewrite !Hall; [done|by right; left|by left].
Qed.

Lemma foldl_lor_nonneg l acc : 0 ≤ acc → Forall (λ m, 0 ≤ m) l → 0 ≤ foldl Z.lor acc l.
Proof.
  intros Ha Hl. revert acc Ha. induction Hl as [|m l Hm Hl IH]; intros acc Ha; cbn; [done|].
  apply IH. by apply Z.lor_nonneg.
Qed.

(** The highest bit of a positive mask is the last bank that needs room. *)
Lemma bit_length_bound banks kib :
  0 < banks →
  bit_length banks * 64 ≤ kib ↔ ∀ i, 0 ≤ i → Z.testbit banks i = true → 64 * (i + 1) ≤ kib.
Proof.
  intros Hb. unfold bit_length. rewrite (proj2 (Z.eqb_neq _ _)), Z.abs_eq by lia. split.
  - intros Hk i Hi Ht. assert (i ≤ Z.log2 banks); [|lia].
    destruct (Z.le_gt_cases i (Z.log2 banks)) as [|Hgt]; [done|]. by rewrite Z.bits_above_log2 in Ht by lia.
  - intros Hall. specialize (Hall (Z.log2 banks) (Z.log2_nonneg _) (Z.bit_log2 _ Hb)). lia.
Qed.

(** The first element that passes, of an ascending list. *)
Lemma find_least (f : Z → bool) l s :
  StronglySorted Z.le l → List.find f l = Some s → s ∈ l ∧ f s = true ∧ ∀ s', s' ∈ l → f s' = true → s ≤ s'.
Proof.
  intros Hsort. induction Hsort as [|x l Hsort IH Hall]; [done|]. cbn. destruct (f x) eqn:Hx.
  - intros [= ->]. split_and!; [by left|done|]. intros s' [->|Hs']%elem_of_cons _; [done|].
    rewrite Forall_forall in Hall. by apply Hall.
  - intros Hf. destruct (IH Hf) as (Hin & Hs & Hmin). split_and!; [by right|done|].
    intros s' [->|Hs']%elem_of_cons Hf'; [congruence|by apply Hmin].
Qed.

Lemma sizes_sorted : StronglySorted Z.le VICE_REU_SIZES_KIB.
Proof. repeat constructor; lia. Qed.

(** A size that holds every claimed bank, of 64 KiB each. *)
Definition covers (L : list (string * Z)) (kib : Z) : Prop := ∀ i, 0 ≤ i → claims_bank L i → 64 * (i + 1) ≤ kib.

Section waits.
Context {W : Type} `{!Vice W}.

Lemma refuse_unstarved L : unstarved (refuse_reu_fault (W:=W) L).
Proof.
  unfold refuse_reu_fault. destruct (assoc _ L); [|awake]. awake.
Qed.

Lemma text_unstarved fuel needle timeout pause : unstarved (binary_wait_for_text (W:=W) fuel needle timeout pause).
Proof. unfold binary_wait_for_text. awake. apply unstarved_until. intros. awake. Qed.
Lemma ready_unstarved fuel L timeout pause : unstarved (binary_wait_for_boot_ready (W:=W) fuel L timeout pause).
Proof.
  unfold binary_wait_for_boot_ready. awake. apply unstarved_until. intros.
  apply unstarved_bind; [awake|]. intros. apply unstarved_bind; [awake|]. intros.
  case_bool_decide; [|awake]. apply unstarved_bind; [apply refuse_unstarved|]. intros. awake.
Qed.

Context `{!ViceClock W}.

Lemma timely_refuse d L : timely d (refuse_reu_fault (W:=W) L).
Proof.
  unfold refuse_reu_fault. destruct (assoc _ L); [|by apply timely_raise].
  apply timely_bind; [apply timely_read|]. intros [|v l]; [by apply timely_raise|].
  destruct (truthy v); [by apply timely_raise|apply timely_ret].
Qed.
Lemma timely_label d L name : timely d (rig_label (W:=W) L name).
Proof. unfold rig_label. destruct (assoc name L); [apply timely_ret|by apply timely_raise]. Qed.

Lemma text_settles needle timeout pause :
  0 < pause → Settle.settles rig_fuel (λ fuel, binary_wait_for_text (W:=W) fuel needle timeout pause).
Proof.
  intros Hp. apply settles_use; [apply now_in_fuel|]. intros t. apply settles_until; [done| |done]. intros _.
  apply timely_bind; [apply timely_screen|]. intros. apply timely_ret.
Qed.
Lemma ready_settles L timeout pause :
  0 < pause → Settle.settles rig_fuel (λ fuel, binary_wait_for_boot_ready (W:=W) fuel L timeout pause).
Proof.
  intros Hp. apply settles_use; [apply now_in_fuel|]. intros t. apply settles_until; [done| |done]. intros _.
  apply timely_bind; [apply timely_label|]. intros addr. apply timely_bind; [apply timely_read|]. intros l.
  case_bool_decide; [|apply timely_ret]. apply timely_bind; [apply timely_refuse|]. intros. apply timely_ret.
Qed.
End waits.

Section trusted.
Context {W : Type} `{!Vice W}.

Lemma refuse_keyed L :
  obeys r_log key_step idle (refuse_reu_fault (W:=W) L)
    (λ _ q tr, idle q ∧ ∃ fault l, assoc "x25519_reu_fault" L = Some fault ∧ tr = [Got fault (0 :: l)]).
Proof.
  unfold refuse_reu_fault. destruct (assoc _ L) as [fault|]; [|apply obeys_raise].
  eapply obeys_bind; [apply key_read|]. intros [|v l] tr; [apply obeys_raise|].
  destruct (truthy v) eqn:Hv; [apply obeys_raise|]. apply obeys_ret. intros q (Hi & -> & _).
  unfold truthy in Hv. apply negb_false_iff, Z.eqb_eq in Hv as ->. split; [done|]. by exists fault, l.
Qed.

(** A boot that was accepted: the marker read as 1 and, next and last, the fault byte as 0. *)
Definition accepted_boot (L : list (string * Z)) (tr : list event) : Prop :=
  ∃ ready fault l, assoc "boot_ready" L = Some ready ∧ assoc "x25519_reu_fault" L = Some fault ∧
    tr = [Got ready [1]; Got fault (0 :: l)].

Lemma ready_keyed fuel L timeout pause :
  obeys r_log key_step idle (binary_wait_for_boot_ready (W:=W) fuel L timeout pause)
    (λ b q tr, idle q ∧ puts tr = [] ∧ (b = true → ∃ tr1 tr2, tr = tr1 ++ tr2 ∧ accepted_boot L tr2)).
Proof.
  unfold binary_wait_for_boot_ready. apply obeys_now. intros t.
  eapply obeys_bind; [apply (key_until _ (λ _ _ tr, accepted_boot L tr))|].
  - intros _. unfold rig_label. destruct (assoc "boot_ready" L) as [ready|] eqn:Hready; [|apply obeys_raise].
    change (mret ready ≫= ?f) with (f ready). cbv beta.
    eapply obeys_bind; [apply key_read|]. intros l tr.
    eapply (obeys_pre _ idle (tr = [Got ready l])); [by intros q (? & ? & _)|]. intros ->.
    case_bool_decide as Hl; [subst l|by apply obeys_ret].
    eapply obeys_bind; [apply refuse_keyed|]. intros u tr'. apply obeys_ret.
    intros q (Hi & fault & l & Hf & ->). split_and!; [done|done|]. by exists ready, fault, l.
  - intros r tr. apply obeys_ret. intros q (Hi & Hp & Hr). rewrite app_nil_r. split_and!; [done|done|].
    intros Hb. by destruct r as [u|].
Qed.
End trusted.

(** An image that claims banks 3 to 5, and its machine. *)
Definition demo_image : list (string * Z) :=
  [("boot_ready", 0x9000); ("x25519_reu_fault", 0x9100); ("LIB_X25519_REU_BANKS_USED", 0x3B);
   ("LIB_CHACHA20_POLY1305_REU_BANKS_USED", 0x04)].

Module Images.

(** The REU a suite attaches is the right one: none exactly when the manifests claim no bank, else
    the smallest size VICE has in which every claimed bank of 64 KiB lies; it is refused exactly when
    a claimed bank lies beyond the largest one, or when no manifest is there to derive it from. *)
Theorem reu_size_exact L :
  (∀ n mask, n ∈ REU_MANIFEST → assoc n L = Some mask → 0 ≤ mask) →
  match vice_reu_args L with
  | Ok [] => banks_of L ≠ None ∧ ∀ i, ¬ claims_bank L i
  | Ok args => ∃ kib, args = ["-reu"; "-reusize"; dec kib] ∧ kib ∈ VICE_REU_SIZES_KIB ∧ covers L kib ∧
                 (∃ i, claims_bank L i) ∧ ∀ kib', kib' ∈ VICE_REU_SIZES_KIB → covers L kib' → kib ≤ kib'
  | Err (BeyondLargest _ _) => ∃ i, 256 ≤ i ∧ claims_bank L i
  | Err (MaskDropped n) => banks_of L = None ∧ n ∈ L.*1
  | Err NoManifest => banks_of L = None
  end.
Proof.
  intros Hnn. unfold vice_reu_args. destruct (banks_of L) as [banks|] eqn:Hb.
  2: { destruct (List.filter _ _) as [|n ns] eqn:Hf; [done|]. split; [done|].
       assert (Hin : In n (n :: ns)) by by left. rewrite <- Hf in Hin.
       apply List.filter_In in Hin as [Hin _]. by apply list_elem_of_In. }
  assert (Hbit : ∀ i, Z.testbit banks i = true ↔ claims_bank L i) by (intros i; by apply claims_banks_of).
  assert (Hpos : 0 ≤ banks).
  { unfold banks_of in Hb. destruct (omap _ _) as [|m ms] eqn:Ho; [done|]. injection Hb as <-.
    apply (foldl_lor_nonneg (m :: ms)); [lia|]. rewrite <- Ho. apply Forall_forall. intros m' Hm'.
    apply list_elem_of_omap in Hm' as (n & Hn & Hm'). by eapply Hnn. }
  destruct (Z.eqb_spec banks 0) as [->|Hne].
  { split; [done|]. intros i Hc. apply Hbit in Hc. by rewrite Z.bits_0 in Hc. }
  assert (Hcov : ∀ kib, (bit_length banks * 64 <=? kib) = true ↔ covers L kib).
  { intros kib. rewrite Z.leb_le, bit_length_bound by lia. unfold covers. by setoid_rewrite Hbit. }
  assert (Hsome : ∃ i, claims_bank L i).
  { exists (Z.log2 banks). apply Hbit, Z.bit_log2. lia. }
  destruct (List.find _ _) as [kib|] eqn:Hf.
  - apply (find_least _ _ _ sizes_sorted) in Hf as (Hin & Hk & Hmin). exists kib.
    split_and!; [done|done|by apply Hcov|done|]. intros kib' Hin' Hc. apply Hmin; [done|by apply Hcov].
  - exists (Z.log2 banks). split; [|apply Hbit, Z.bit_log2; lia].
    pose proof (List.find_none _ _ Hf 16384 ltac:(cbn; tauto)) as Hlast. cbv beta in Hlast.
    apply Z.leb_gt in Hlast. unfold bit_length in Hlast.
    rewrite (proj2 (Z.eqb_neq _ _)), Z.abs_eq in Hlast by lia. lia.
Qed.

Lemma reu_size_exact_witness :
  vice_reu_args demo_image = Ok ["-reu"; "-reusize"; dec 512] ∧
  ∃ kib, ["-reu"; "-reusize"; dec 512] = ["-reu"; "-reusize"; dec kib] ∧ covers demo_image kib.
Proof.
  pose proof (reu_size_exact demo_image) as H.
  assert (Heq : vice_reu_args demo_image = Ok ["-reu"; "-reusize"; dec 512]) by (vm_compute; reflexivity).
  rewrite Heq in H. split; [reflexivity|].
  destruct H as (kib & Hk & _ & Hc & _).
  - intros n mask Hn Hm. apply elem_of_cons in Hn as [->|Hn]; [vm_compute in Hm; injection Hm as <-; lia|].
    apply list_elem_of_singleton in Hn as ->. vm_compute in Hm. injection Hm as <-. lia.
  - exists kib. split; [exact Hk|exact Hc].
Defined.

(** A boot is only accepted from an image whose REU reports no fault: when the wait says yes, the last
    things read were the marker as 1 and then the fault byte as 0, and nothing was written; the
    pauses of both waits meet a running CPU, and both end. *)
Theorem boot_accepted_without_fault {W} `{!Vice W} L timeout pause needle :
  (∀ fuel (s s' : rig_state W), binary_wait_for_boot_ready fuel L timeout pause s = Ret true s' →
     ∃ tr tr', r_log s' = r_log s ++ tr ++ tr' ∧ puts (tr ++ tr') = [] ∧ accepted_boot L tr') ∧
  (∀ fuel, unstarved (binary_wait_for_boot_ready (W:=W) fuel L timeout pause) ∧
           unstarved (binary_wait_for_text (W:=W) fuel needle timeout pause)) ∧
  (ViceClock W → 0 < pause →
     Settle.settles rig_fuel (λ fuel, binary_wait_for_boot_ready (W:=W) fuel L timeout pause) ∧
     Settle.settles rig_fuel (λ fuel, binary_wait_for_text (W:=W) fuel needle timeout pause)).
Proof.
  split_and!.
  - intros fuel s s' Hrun. pose proof (ready_keyed fuel L timeout pause s Unknown (or_introl eq_refl)) as H.
    rewrite Hrun in H. destruct H as (tr & q & Hl & _ & _ & Hp & Hb). destruct (Hb eq_refl) as (tr1 & tr2 & -> & Ha).
    by exists tr1, tr2.
  - intros fuel. split; [apply ready_unstarved|apply text_unstarved].
  - intros Hclock Hp. split; [by apply ready_settles|by apply text_settles].
Qed.

End Images.
