(* ===== verification/TodRun.v ===== *)
(** * The clock and timer routines of the benchmarks, executed

    The time-of-day routines of tools/bench_vic_blank.py and the timer subroutine of
    tools/bench_fe_ops.py, run by the 6502 interpreter.  The clock chip is a device behind the
    interpreter's I/O window. *)

From S2P Require Export BenchStubs.

Definition TOD_START : Z := 0xC030.
Definition TOD_READ : Z := 0xC050.
Definition TIMER_ADDR : Z := 0x0350.

(** ** Instructions on a device *)

Section exec.
Context {D : Type} `{IODevice D}.
Implicit Types s : cpu D.

Lemma rd_dev s k v d :
  in_io k s = true → io_read k (cpu_dev s) = Ret v d → rd k s = Ret (u8 v) (set_dev d s).
Proof.
  intros Hio Hv. unfold rd. rewrite bind_run. unfold gets. rewrite Hio, bind_run.
  unfold on_dev. by rewrite Hv.
Qed.

Lemma wr_dev s k v d :
  in_io k s = true → io_write k (u8 v) (cpu_dev s) = Ret tt d → wr k v s = Ret tt (set_dev d s).
Proof.
  intros Hio Hv. unfold wr. rewrite bind_run. unfold gets. rewrite Hio. unfold on_dev. by rewrite Hv.
Qed.

Lemma exec_LDA_dev s lo hi v d :
  code_at s (cpu_pc s) [0xAD; lo; hi] → cpu_pc s + 3 < 65536 →
  in_io (Z.lor lo (hi ≪ 8)) s = true → io_read (Z.lor lo (hi ≪ 8)) (cpu_dev s) = Ret v d →
  step s = Ret tt (after 3 4 (set_a (u8 v) (zn (u8 v) (set_dev d s)))).
Proof.
  intros (Hop & Hlo & Hhi & _) Hpc Hio Hv. pose proof (proj1 (proj1 Hop)) as H0.
  rewrite (step_ram s _ LDA ABS 4 Hop) by done.
  cbn [ops]. unfold op_LDA, operand.
  rewrite !bind_run, (addr_abs s _ _ lo hi), decoded_pc
    by first [lia | rewrite ?decoded_pc by lia; done].
  rewrite (rd_dev _ _ v d) by done.
  unfold setzn, after, zn, modify, mret, eff_ret. rewrite !bind_run. pc_done.
Qed.

Lemma exec_STA_dev s lo hi d :
  code_at s (cpu_pc s) [0x8D; lo; hi] → cpu_pc s + 3 < 65536 →
  in_io (Z.lor lo (hi ≪ 8)) s = true →
  io_write (Z.lor lo (hi ≪ 8)) (u8 (cpu_a s)) (cpu_dev s) = Ret tt d →
  step s = Ret tt (after 3 4 (set_dev d s)).
Proof.
  intros (Hop & Hlo & Hhi & _) Hpc Hio Hv. pose proof (proj1 (proj1 Hop)) as H0.
  rewrite (step_ram s _ STA ABS 4 Hop) by done.
  cbn [ops]. unfold op_STA.
  rewrite !bind_run, (addr_abs s _ _ lo hi), decoded_pc
    by first [lia | rewrite ?decoded_pc by lia; done].
  unfold gets. rewrite bind_run, (wr_dev _ _ _ d) by done. unfold after. pc_done.
Qed.

Lemma exec_AND_imm s v :
  code_at s (cpu_pc s) [0x29; v] → cpu_pc s + 2 < 65536 →
  step s = Ret tt (after 2 2 (set_a (Z.land (cpu_a s) v) (zn (Z.land (cpu_a s) v) s))).
Proof.
  intros (Hop & Hv & _) Hpc. pose proof (proj1 (proj1 Hop)) as H0.
  rewrite (step_ram s _ AND IMM 2 Hop) by done.
  cbn [ops]. unfold op_AND, operand, gets. rewrite !bind_run, addr_imm, decoded_pc by lia.
  rewrite (rd_ram s _ _ v Hv) by side.
  unfold setzn, after, zn, modify, mret, eff_ret. rewrite !bind_run. pc_done.
Qed.
End exec.

(** ** Straight-line code *)

Section straight.
Context {D : Type} `{IODevice D}.
Implicit Types s : cpu D.

(** [k] steps over [n] bytes of code, and on nothing else, that leave the stack pointer alone. *)
Record goes (k : nat) (n : Z) s s' : Prop := Goes {
  go_run : run k s = Some s';
  go_pc : cpu_pc s' = cpu_pc s + n;
  go_sp : cpu_sp s' = cpu_sp s;
  go_window : same_window s s';
  go_length : 0 ≤ n;
  go_off : ∀ a, a < cpu_pc s ∨ cpu_pc s + n ≤ a → visits a k s = 0;
}.

Lemma goes_trans k1 k2 n1 n2 s1 s2 s3 :
  goes k1 n1 s1 s2 → goes k2 n2 s2 s3 → goes (k1 + k2) (n1 + n2) s1 s3.
Proof.
  intros [Hr1 Hp1 Hs1 [Hl1 Hh1] Hn1 Ho1] [Hr2 Hp2 Hs2 [Hl2 Hh2] Hn2 Ho2]. constructor.
  - by rewrite (run_app _ _ _ s2).
  - lia.
  - congruence.
  - split; congruence.
  - lia.
  - intros a Ha. rewrite (visits_app _ _ _ _ s2), Ho1, Ho2 by (done || lia). done.
Qed.

Lemma goes_step n s s' :
  step s = Ret tt s' → cpu_pc s' = cpu_pc s + n → cpu_sp s' = cpu_sp s → same_window s s' → 0 < n →
  goes 1 n s s'.
Proof.
  intros Hs ? ? ? ?. constructor; [cbn; by rewrite Hs|done..|lia|].
  intros a Ha. rewrite (visits_step _ _ _ _ Hs), (proj2 (Z.eqb_neq _ _)); [done|lia].
Qed.

Lemma in_io_window s s' k : same_window s s' → in_io k s' = in_io k s.
Proof. intros [Hl Hh]. unfold in_io. by rewrite Hl, Hh. Qed.

(** The part of the code that starts [n] bytes on stands there still. *)
Lemma code_part s s' base n m bs part :
  code_at s base bs → take m (drop n bs) = part → same_window s s' →
  (∀ k, base ≤ k < base + Z.of_nat (length bs) → cpu_mem s' !! k = cpu_mem s !! k) →
  code_at s' (base + Z.of_nat n) part.
Proof. intros Hc <- Hw Hm. apply code_at_take, code_at_drop. by eapply code_at_agree. Qed.

(** [lda dev; sta r]: a byte of the device into RAM. *)
Lemma copy_dev s lo hi rlo rhi v d :
  code_at s (cpu_pc s) [0xAD; lo; hi; 0x8D; rlo; rhi] → cpu_pc s + 6 < 65536 → byte rlo → byte rhi →
  in_io (Z.lor lo (hi ≪ 8)) s = true → in_io (Z.lor rlo (rhi ≪ 8)) s = false →
  io_read (Z.lor lo (hi ≪ 8)) (cpu_dev s) = Ret v d →
  ∃ s', goes 2 6 s s' ∧ cpu_dev s' = d ∧
        cpu_mem s' = <[Z.lor rlo (rhi ≪ 8) := u8 v]> (cpu_mem s).
Proof.
  intros Hcode Hpc Brlo Brhi Hio Hram Hv.
  pose proof (exec_LDA_dev s lo hi v d (code_at_take _ _ _ 3 Hcode) ltac:(lia) Hio Hv) as H1.
  set (s1 := after 3 4 _) in H1.
  assert (Hc : code_at s1 (cpu_pc s1) [0x8D; rlo; rhi]).
  { apply (code_part s s1 (cpu_pc s) 3 3 _ _ Hcode); done. }
  pose proof (exec_STA_abs s1 rlo rhi Hc ltac:(cbn; lia) Brlo Brhi Hram) as H2.
  eexists. split; [eapply (goes_trans 1 1 3 3)|].
  - by apply (goes_step 3 s s1).
  - apply goes_step; [exact H2|done..].
  - split; [done|]. cbn. by rewrite u8_small by apply u8_byte.
Qed.

(** [sta dev]: the accumulator to the device. *)
Lemma put_dev s lo hi d :
  code_at s (cpu_pc s) [0x8D; lo; hi] → cpu_pc s + 3 < 65536 →
  in_io (Z.lor lo (hi ≪ 8)) s = true →
  io_write (Z.lor lo (hi ≪ 8)) (u8 (cpu_a s)) (cpu_dev s) = Ret tt d →
  ∃ s', goes 1 3 s s' ∧ cpu_dev s' = d ∧ cpu_mem s' = cpu_mem s ∧ cpu_a s' = cpu_a s.
Proof.
  intros Hc Hpc Hio Hw. eexists. split; [eapply goes_step|].
  { by apply (exec_STA_dev s lo hi d). }
  all: done.
Qed.

(** [lda dev], [and #v], [lda #v]: only the accumulator, and the device that was read. *)
Lemma get_dev s lo hi v d :
  code_at s (cpu_pc s) [0xAD; lo; hi] → cpu_pc s + 3 < 65536 →
  in_io (Z.lor lo (hi ≪ 8)) s = true → io_read (Z.lor lo (hi ≪ 8)) (cpu_dev s) = Ret v d →
  ∃ s', goes 1 3 s s' ∧ cpu_dev s' = d ∧ cpu_mem s' = cpu_mem s ∧ cpu_a s' = u8 v.
Proof.
  intros Hc Hpc Hio Hv. eexists. split; [eapply goes_step|].
  { by apply (exec_LDA_dev s lo hi v d). }
  all: done.
Qed.
Lemma mask_a s v :
  code_at s (cpu_pc s) [0x29; v] → cpu_pc s + 2 < 65536 →
  ∃ s', goes 1 2 s s' ∧ cpu_dev s' = cpu_dev s ∧ cpu_mem s' = cpu_mem s ∧ cpu_a s' = Z.land (cpu_a s) v.
Proof.
  intros Hc Hpc. eexists. split; [eapply goes_step|].
  { by apply exec_AND_imm. }
  all: done.
Qed.
Lemma load_a s v :
  code_at s (cpu_pc s) [0xA9; v] → cpu_pc s + 2 < 65536 →
  ∃ s', goes 1 2 s s' ∧ cpu_dev s' = cpu_dev s ∧ cpu_mem s' = cpu_mem s ∧ cpu_a s' = v.
Proof.
  intros Hc Hpc. eexists. split; [eapply goes_step|].
  { by apply exec_LDA_imm. }
  all: done.
Qed.

(** [lda zp; sta r]: a byte of zero page into RAM. *)
Lemma copy_zp s zp rlo rhi v :
  code_at s (cpu_pc s) [0xA5; zp; 0x8D; rlo; rhi] → cpu_pc s + 5 < 65536 → byte rlo → byte rhi →
  ram s zp v → in_io (Z.lor rlo (rhi ≪ 8)) s = false →
  ∃ s', goes 2 5 s s' ∧ cpu_mem s' = <[Z.lor rlo (rhi ≪ 8) := u8 v]> (cpu_mem s).
Proof.
  intros Hcode Hpc Brlo Brhi Hv Hram.
  pose proof (exec_LDA_zp s zp v (code_at_take _ _ _ 2 Hcode) ltac:(lia) Hv) as H1.
  set (s1 := after 2 3 _) in H1.
  assert (Hc : code_at s1 (cpu_pc s1) [0x8D; rlo; rhi]).
  { apply (code_part s s1 (cpu_pc s) 2 3 _ _ Hcode); done. }
  pose proof (exec_STA_abs s1 rlo rhi Hc ltac:(cbn; lia) Brlo Brhi Hram) as H2.
  eexists. split; [eapply (goes_trans 1 1 2 3)|].
  - by apply (goes_step 2 s s1).
  - apply goes_step; [exact H2|done..].
  - done.
Qed.

Lemma put_zp s zp :
  code_at s (cpu_pc s) [0x85; zp] → cpu_pc s + 2 < 65536 → byte zp → in_io zp s = false →
  ∃ s', goes 1 2 s s' ∧ cpu_mem s' = <[zp := u8 (cpu_a s)]> (cpu_mem s) ∧ cpu_a s' = cpu_a s.
Proof.
  intros Hc Hpc Hb Hio. eexists. split; [eapply goes_step|].
  { by apply (exec_STA_zp s zp). }
  all: done.
Qed.
Lemma top_word_agree s s' :
  cpu_sp s' = cpu_sp s → (∀ k, 0x100 ≤ k < 0x200 → cpu_mem s' !! k = cpu_mem s !! k) →
  top_word s' = top_word s.
Proof.
  intros Hs Hm. unfold top_word. rewrite Hs.
  pose proof (u8_byte (cpu_sp s + 1)) as H1. pose proof (u8_byte (u8 (cpu_sp s + 1) + 1)) as H2.
  unfold byte in *. by rewrite !Hm by lia.
Qed.

(** Behind the code an RTS: back to the caller. *)
Lemma goes_rts k n s s' :
  goes k n s s' → ram s' (cpu_pc s') 0x60 → (∀ j, 0x100 ≤ j < 0x200 → cpu_mem s' !! j = cpu_mem s !! j) →
  ∃ s'', run (k + 1) s = Some s'' ∧ cpu_dev s'' = cpu_dev s' ∧ cpu_mem s'' = cpu_mem s' ∧
         cpu_pc s'' = u16 (top_word s + 1) ∧ cpu_sp s'' = u8 (cpu_sp s + 2) ∧ same_window s s'' ∧
         ∀ a, a < cpu_pc s ∨ cpu_pc s + n < a → visits a (k + 1) s = 0.
Proof.
  intros [Hr Hp Hs [Hl Hh] Hn Ho] Hrts%exec_RTS Hm. eexists. split_and!.
  - rewrite (run_app k 1 s s') by done. cbn. by rewrite Hrts.
  - done.
  - done.
  - cbn. do 2 f_equal. by apply top_word_agree.
  - cbn. rewrite u8_succ2. congruence.
  - by split.
  - intros a Ha. rewrite (visits_app _ _ _ _ s') by done. rewrite (visits_step _ _ _ _ Hrts).
    rewrite Ho, (proj2 (Z.eqb_neq _ _)) by lia. done.
Qed.
End straight.

(** ** Reading the clock *)

Section read.
Context {D : Type} `{IODevice D}.
Implicit Types s : cpu D.

Definition tod_read_code : bytes :=
  [0xAD; 0x0B; 0xDC; 0x8D; 0x70; 0xC0; 0xAD; 0x0A; 0xDC; 0x8D; 0x71; 0xC0;
   0xAD; 0x09; 0xDC; 0x8D; 0x72; 0xC0; 0xAD; 0x08; 0xDC; 0x8D; 0x73; 0xC0; 0x60].
Lemma tod_read_built : build_tod_read = Some tod_read_code.
Proof. by vm_compute. Qed.

(** The registers of the clock are in the window, the routine and its result are not. *)
Definition tod_window s : Prop :=
  (∀ k, 0xDC08 ≤ k < 0xDC10 → in_io k s = true) ∧ (∀ k, STUB ≤ k < 0xC080 → in_io k s = false).

(** One register of the four. *)
Lemma tod_register s s0 n reg r v d :
  code_at s0 TOD_READ tod_read_code → tod_window s0 → same_window s0 s →
  (∀ k, TOD_READ ≤ k < TOD_READ + 25 → cpu_mem s !! k = cpu_mem s0 !! k) →
  cpu_pc s = TOD_READ + Z.of_nat n → (n + 6 ≤ 25)%nat →
  take 6 (drop n tod_read_code) = [0xAD; reg; 0xDC; 0x8D; r; 0xC0] →
  8 ≤ reg < 12 → 0x70 ≤ r < 0x74 → io_read (0xDC00 + reg) (cpu_dev s) = Ret v d →
  ∃ s', goes 2 6 s s' ∧ cpu_dev s' = d ∧ cpu_mem s' = <[0xC000 + r := u8 v]> (cpu_mem s).
Proof.
  intros Hcode [Hin Hout] Hw Hm Hpc Hn Hpart Hreg Hr Hv.
  assert (Hlo : Z.lor reg (0xDC ≪ 8) = 0xDC00 + reg).
  { assert (reg ∈ [8; 9; 10; 11]) as Hc by (rewrite !elem_of_cons; lia).
    clear -Hc. revert reg Hc. apply Forall_forall. by repeat constructor. }
  assert (Hrl : Z.lor r (0xC0 ≪ 8) = 0xC000 + r).
  { assert (r ∈ [0x70; 0x71; 0x72; 0x73]) as Hc by (rewrite !elem_of_cons; lia).
    clear -Hc. revert r Hc. apply Forall_forall. by repeat constructor. }
  rewrite <- Hlo in Hv. rewrite <- Hrl.
  apply (copy_dev s reg 0xDC r 0xC0 v d); try (unfold byte; lia).
  - rewrite Hpc. by apply (code_part s0 s TOD_READ n 6 tod_read_code).
  - rewrite Hpc. unfold TOD_READ. lia.
  - rewrite Hlo, (in_io_window s0) by done. apply Hin. lia.
  - rewrite Hrl, (in_io_window s0) by done. apply Hout. unfold STUB. lia.
  - done.
Qed.

(** The whole routine: four reads of the device in the order of the code, the four bytes in the
    result, and back to the caller. *)
Lemma tod_read_run s h m sc t d1 d2 d3 d4 :
  code_at s TOD_READ tod_read_code → cpu_pc s = TOD_READ → tod_window s →
  io_read 0xDC0B (cpu_dev s) = Ret h d1 → io_read 0xDC0A d1 = Ret m d2 →
  io_read 0xDC09 d2 = Ret sc d3 → io_read 0xDC08 d3 = Ret t d4 →
  ∃ s', run 9 s = Some s' ∧ cpu_dev s' = d4 ∧ cpu_pc s' = u16 (top_word s + 1) ∧
        cpu_sp s' = u8 (cpu_sp s + 2) ∧ same_window s s' ∧
        (∀ a, a < TOD_READ ∨ TOD_READ + 24 < a → visits a 9 s = 0) ∧
        cpu_mem s' = <[TOD_RESULT + 3 := u8 t]> (<[TOD_RESULT + 2 := u8 sc]>
          (<[TOD_RESULT + 1 := u8 m]> (<[TOD_RESULT := u8 h]> (cpu_mem s)))).
Proof.
  intros Hcode Hpc Hwin Hh Hm Hs Ht.
  assert (Hne : ∀ k v (M : gmap Z Z), TOD_RESULT ≤ k → ∀ j, j < TOD_RESULT → <[k := v]> M !! j = M !! j)
    by (intros; apply lookup_insert_ne; lia).
  destruct (tod_register s s 0 0x0B 0x70 h d1) as (s1 & [Hr1 Hp1 Hs1 Hw1] & Hd1 & Hm1);
    try (done || unfold TOD_READ; lia).
  rewrite <- Hd1 in Hm.
  destruct (tod_register s1 s 6 0x0A 0x71 m d2) as (s2 & [Hr2 Hp2 Hs2 Hw2] & Hd2 & Hm2);
    try (done || lia).
  { intros k Hk. rewrite Hm1, Hne; unfold TOD_READ, TOD_RESULT in *; lia || done. }
  rewrite <- Hd2 in Hs.
  destruct (tod_register s2 s 12 0x09 0x72 sc d3) as (s3 & [Hr3 Hp3 Hs3 Hw3] & Hd3 & Hm3);
    try (done || lia).
  { destruct Hw1, Hw2. split; congruence. }
  { intros k Hk. rewrite Hm2, Hm1, !Hne; unfold TOD_READ, TOD_RESULT in *; lia || done. }
  rewrite <- Hd3 in Ht.
  destruct (tod_register s3 s 18 0x08 0x73 t d4) as (s4 & [Hr4 Hp4 Hs4 Hw4] & Hd4 & Hm4);
    try (done || lia).
  { destruct Hw1, Hw2, Hw3. split; congruence. }
  { intros k Hk. rewrite Hm3, Hm2, Hm1, !Hne; unfold TOD_READ, TOD_RESULT in *; lia || done. }
  assert (Hmem : cpu_mem s4 = <[TOD_RESULT + 3 := u8 t]> (<[TOD_RESULT + 2 := u8 sc]>
          (<[TOD_RESULT + 1 := u8 m]> (<[TOD_RESULT := u8 h]> (cpu_mem s)))))
    by (by rewrite Hm4, Hm3, Hm2, Hm1).
  assert (Hsw : same_window s s4) by (destruct Hw1, Hw2, Hw3, Hw4; split; congruence).
  assert (Hsame : ∀ k, k < TOD_RESULT → cpu_mem s4 !! k = cpu_mem s !! k).
  { intros k Hk. rewrite Hmem, !Hne; lia || done. }
  assert (Hrts : ram s4 (cpu_pc s4) 0x60).
  { replace (cpu_pc s4) with (TOD_READ + Z.of_nat 24) by (unfold TOD_READ in *; lia).
    apply (code_part s s4 TOD_READ 24 1 tod_read_code [0x60] Hcode eq_refl Hsw).
    intros k Hk. apply Hsame. unfold TOD_READ, TOD_RESULT in *. cbn in Hk. lia. }
  assert (Hgo : goes 8 24 s s4).
  { apply (goes_trans 2 6 6 18 s s1); [done|]. apply (goes_trans 2 4 6 12 s1 s2); [done|].
    by apply (goes_trans 2 2 6 6 s2 s3). }
  destruct (goes_rts _ _ _ _ Hgo Hrts) as (s5 & Hr5 & Hd5 & Hm5 & Hp5 & Hs5 & Hw5 & Ho5).
  { intros k Hk. apply Hsame. unfold TOD_RESULT. lia. }
  exists s5. rewrite Hm5, Hd5. split_and!; try done. intros a Ha. apply Ho5. lia.
Qed.

(** ** Starting the clock *)

Definition tod_start_code : bytes :=
  [0xAD; 0x0F; 0xDC; 0x29; 0x7F; 0x8D; 0x0F; 0xDC; 0xA9; 0x00; 0x8D; 0x0B; 0xDC; 0x8D; 0x0A; 0xDC;
   0x8D; 0x09; 0xDC; 0x8D; 0x08; 0xDC; 0x60].
Lemma tod_start_built : build_tod_start = Some tod_start_code.
Proof. by vm_compute. Qed.

(** Where the routine has got to: [n] bytes of it executed, the memory as it was. *)
Definition started (k n : nat) s0 s : Prop := goes k (Z.of_nat n) s0 s ∧ cpu_mem s = cpu_mem s0.

Section start.
Context (s0 : cpu D).
Context (Hcode : code_at s0 TOD_START tod_start_code) (Hpc : cpu_pc s0 = TOD_START) (Hwin : tod_window s0).

Lemma start_part s k n m part :
  started k n s0 s → take m (drop n tod_start_code) = part → code_at s (cpu_pc s) part.
Proof.
  intros [[_ Hp _ Hw] Hm] Hpart. rewrite Hp, Hpc.
  apply (code_part s0 s TOD_START n m tod_start_code); [done..|]. intros. by rewrite Hm.
Qed.

Lemma started_more s s' k n k' n' :
  started k n s0 s → goes k' (Z.of_nat n') s s' → cpu_mem s' = cpu_mem s → started (k + k') (n + n') s0 s'.
Proof.
  intros [Hg Hm] Hg' Hm'. split; [|congruence]. rewrite Nat2Z.inj_add. by eapply goes_trans.
Qed.

Lemma start_room s k n : started k n s0 s → (n ≤ 22)%nat → cpu_pc s + 3 < 65536.
Proof. intros [[_ Hp _ _] _] Hn. rewrite Hp, Hpc. unfold TOD_START. lia. Qed.

(** One write to a register of the clock. *)
Lemma start_put s k n reg v d :
  started k n s0 s → (n ≤ 22)%nat → take 3 (drop n tod_start_code) = [0x8D; reg; 0xDC] →
  Z.lor reg (0xDC ≪ 8) = 0xDC00 + reg → 8 ≤ reg < 16 → u8 (cpu_a s) = v →
  io_write (0xDC00 + reg) v (cpu_dev s) = Ret tt d →
  ∃ s', started (k + 1) (n + 3) s0 s' ∧ cpu_dev s' = d ∧ cpu_a s' = cpu_a s.
Proof.
  intros Hs Hn Hp Hlo Hreg <- Hd. destruct (put_dev s reg 0xDC d) as (s' & G & D' & M & A).
  - by eapply start_part.
  - by eapply start_room.
  - rewrite Hlo. destruct Hs as [[_ _ _ Hw] _]. rewrite (in_io_window s0) by done. apply Hwin. lia.
  - by rewrite Hlo.
  - exists s'. split_and!; [by apply (started_more s)|done..].
Qed.

(** The routine: the control register read, written back without its top bit, then the four
    registers set to 0, hours first and tenths last. *)
Lemma tod_start_run c d0 d1 d2 d3 d4 d5 :
  io_read 0xDC0F (cpu_dev s0) = Ret c d0 → io_write 0xDC0F (Z.land (u8 c) 0x7F) d0 = Ret tt d1 →
  io_write 0xDC0B 0 d1 = Ret tt d2 → io_write 0xDC0A 0 d2 = Ret tt d3 →
  io_write 0xDC09 0 d3 = Ret tt d4 → io_write 0xDC08 0 d4 = Ret tt d5 →
  ∃ s', run 9 s0 = Some s' ∧ cpu_dev s' = d5 ∧ cpu_mem s' = cpu_mem s0 ∧
        cpu_pc s' = u16 (top_word s0 + 1) ∧ cpu_sp s' = u8 (cpu_sp s0 + 2) ∧ same_window s0 s' ∧
        (∀ a, a < TOD_START ∨ TOD_START + 22 < a → visits a 9 s0 = 0).
Proof.
  intros Hc W1 W2 W3 W4 W5.
  assert (S0 : started 0 0 s0 s0) by (split; [constructor; done || lia|done]).
  destruct (get_dev s0 0x0F 0xDC c d0) as (s1 & G1 & D1 & M1 & A1).
  { by apply (start_part s0 0 0 3). }
  { by eapply start_room, Nat.le_0_l. }
  { change (in_io 0xDC0F s0 = true). apply Hwin. lia. }
  { done. }
  pose proof (started_more _ _ 0 0 1 3 S0 G1 M1) as S1.
  destruct (mask_a s1 0x7F) as (s2 & G2 & D2 & M2 & A2).
  { by apply (start_part s1 _ _ 2 _ S1). }
  { pose proof (start_room _ _ _ S1 ltac:(lia)). lia. }
  pose proof (started_more _ _ _ _ 1 2 S1 G2 M2) as S2.
  assert (Hmask : byte (Z.land (u8 c) 0x7F)) by (apply byte_land; [apply u8_byte|unfold byte; lia]).
  destruct (start_put s2 _ _ 0x0F (Z.land (u8 c) 0x7F) d1 S2) as (s3 & S3 & D3 & A3);
    [cbn; lia|done|done|lia|by rewrite A2, A1, u8_small|by rewrite D2, D1|].
  destruct (load_a s3 0x00) as (s4 & G4 & D4 & M4 & A4).
  { by apply (start_part s3 _ _ 2 _ S3). }
  { pose proof (start_room _ _ _ S3 ltac:(cbn; lia)). lia. }
  pose proof (started_more _ _ _ _ 1 2 S3 G4 M4) as S4.
  destruct (start_put s4 _ _ 0x0B 0 d2 S4) as (s5 & S5 & D5 & A5);
    [cbn; lia|done|done|lia|by rewrite A4|by rewrite D4, D3|].
  destruct (start_put s5 _ _ 0x0A 0 d3 S5) as (s6 & S6 & D6 & A6);
    [cbn; lia|done|done|lia|by rewrite A5, A4|by rewrite D5|].
  destruct (start_put s6 _ _ 0x09 0 d4 S6) as (s7 & S7 & D7 & A7);
    [cbn; lia|done|done|lia|by rewrite A6, A5, A4|by rewrite D6|].
  destruct (start_put s7 _ _ 0x08 0 d5 S7) as (s8 & S8 & D8 & A8);
    [cbn; lia|done|done|lia|by rewrite A7, A6, A5, A4|by rewrite D7|].
  pose proof (start_part s8 _ _ 1 [0x60] S8 eq_refl) as Hrts. destruct S8 as [G8 M8].
  destruct (goes_rts _ _ _ _ G8 (proj1 Hrts)) as (s9 & R9 & D9 & M9 & P9 & Q9 & W9 & O9).
  { intros. by rewrite M8. }
  exists s9. rewrite D9, M9, D8, M8. split_and!; try done. intros a Ha. apply O9. rewrite Hpc. cbn. lia.
Qed.
End start.
End read.

(** ** The timer subroutine *)

Section timer.
Context {D : Type} `{IODevice D}.
Implicit Types s : cpu D.
Context (target : Z) (Htarget : word16 target).

Definition timer_code : bytes :=
  [0x78; 0xA9; 0x00; 0x85; 0xA0; 0x85; 0xA1; 0x85; 0xA2; 0x58; 0x20; u8 target; u8 (target ≫ 8);
   0x78; 0xA5; 0xA0; 0x8D; 0xC0; 0x03; 0xA5; 0xA1; 0x8D; 0xC1; 0x03; 0xA5; 0xA2; 0x8D; 0xC2; 0x03;
   0x58; 0x60].
Lemma timer_built : build_timer_subroutine target = Some timer_code.
Proof.
  unfold build_timer_subroutine, py_bytes. rewrite decide_True; [done|].
  repeat (apply Forall_cons; split; [first [apply u8_byte|by apply (bool_decide_unpack _); vm_compute]|]).
  constructor.
Qed.

(** The jiffy clock, most significant byte first. *)
Definition jiffies s : Z :=
  result_of (default 0 (cpu_mem s !! JIFFY_MSB)) (default 0 (cpu_mem s !! JIFFY_MID))
    (default 0 (cpu_mem s !! JIFFY_LSB)).
Definition result_ticks s : Z :=
  result_of (default 0 (cpu_mem s !! RESULT_ADDR)) (default 0 (cpu_mem s !! (RESULT_ADDR + 1)))
    (default 0 (cpu_mem s !! (RESULT_ADDR + 2))).

(** The addresses the subroutine itself writes. *)
Definition timer_scratch (k : Z) : Prop :=
  JIFFY_MSB ≤ k ≤ JIFFY_LSB ∨ 0x100 ≤ k < 0x200 ∨ RESULT_ADDR ≤ k < RESULT_ADDR + 3.

(** The subroutine, the clock and the result are RAM. *)
Definition timer_window s : Prop :=
  ∀ k, JIFFY_MSB ≤ k ≤ JIFFY_LSB ∨ TIMER_ADDR ≤ k < RESULT_ADDR + 3 → in_io k s = false.

Lemma flag_step s op name b :
  code_at s (cpu_pc s) [op] → cpu_pc s + 1 < 65536 → TABLE_get op = Some (name, IMP, 2) →
  (∀ t : cpu D, ops name IMP t = Ret tt (set_i b t)) →
  ∃ s', goes 1 1 s s' ∧ cpu_mem s' = cpu_mem s ∧ cpu_a s' = cpu_a s ∧ cpu_i s' = b.
Proof.
  intros [Hop _] Hpc Ht Hops. pose proof (exec_implied s op name 2 Hop Hpc Ht) as Hs. rewrite Hops in Hs.
  eexists. split; [eapply goes_step; [exact Hs|done..]|done].
Qed.

(** Running from a state in which the subroutine has got [b] bytes on. *)
Section run_timer.
Context (s0 : cpu D) (b : nat).
Context (Hcode : code_at s0 TIMER_ADDR timer_code) (Hpc : cpu_pc s0 = TIMER_ADDR + Z.of_nat b)
  (Hwin : timer_window s0).

(** [n] more bytes of it executed, nothing written but the jiffy clock and the result. *)
Definition timed (k n : nat) s : Prop :=
  goes k (Z.of_nat n) s0 s ∧
  mem_outside (λ a, JIFFY_MSB ≤ a ≤ JIFFY_LSB ∨ RESULT_ADDR ≤ a < RESULT_ADDR + 3) s0 s.

Lemma timed_part s k n m part :
  timed k n s → take m (drop (b + n) timer_code) = part → code_at s (cpu_pc s) part.
Proof.
  intros [[_ Hp _ Hw] Hm] Hpart. rewrite Hp, Hpc, <- Z.add_assoc, <- Nat2Z.inj_add.
  apply (code_part s0 s TIMER_ADDR (b + n) m timer_code); [done..|]. intros a Ha. apply Hm.
  unfold JIFFY_LSB, RESULT_ADDR, TIMER_ADDR in *. cbn in Ha. lia.
Qed.

Lemma timed_room s k n : timed k n s → (b + n ≤ 31)%nat → cpu_pc s + 6 < 65536.
Proof. intros [[_ Hp _ _] _] Hn. rewrite Hp, Hpc. unfold TIMER_ADDR. lia. Qed.

Lemma timed_more s s' k n k' n' :
  timed k n s → goes k' (Z.of_nat n') s s' →
  mem_outside (λ a, JIFFY_MSB ≤ a ≤ JIFFY_LSB ∨ RESULT_ADDR ≤ a < RESULT_ADDR + 3) s s' →
  timed (k + k') (n + n') s'.
Proof.
  intros [Hg Hm] Hg' Hm'. split; [rewrite Nat2Z.inj_add; by eapply goes_trans|].
  intros a Ha. by rewrite Hm', Hm.
Qed.

Lemma timed_window s k n a :
  timed k n s → JIFFY_MSB ≤ a ≤ JIFFY_LSB ∨ TIMER_ADDR ≤ a < RESULT_ADDR + 3 → in_io a s = false.
Proof. intros [[_ _ _ Hw] _] Ha. rewrite (in_io_window s0) by done. by apply Hwin. Qed.

Lemma timed_start : timed 0 0 s0.
Proof. split; [constructor; done || lia|done]. Qed.

(** [sei] or [cli]. *)
Lemma timed_flag s k n op name i :
  timed k n s → (b + n ≤ 30)%nat → take 1 (drop (b + n) timer_code) = [op] → TABLE_get op = Some (name, IMP, 2) →
  (∀ t : cpu D, ops name IMP t = Ret tt (set_i i t)) →
  ∃ s', timed (k + 1) (n + 1) s' ∧ cpu_mem s' = cpu_mem s ∧ cpu_a s' = cpu_a s ∧ cpu_i s' = i.
Proof.
  intros Hs Hn Hp Ht Hops. pose proof (timed_room _ _ _ Hs ltac:(lia)).
  destruct (flag_step s op name i) as (s' & G & M & A & I); [by eapply timed_part|lia|done..|].
  exists s'. split_and!; [|done..]. apply (timed_more s); [done..|]. intros a _. by rewrite M.
Qed.

(** [sta zp] on a byte of the jiffy clock. *)
Lemma timed_put s k n zp :
  timed k n s → (b + n ≤ 29)%nat → take 2 (drop (b + n) timer_code) = [0x85; zp] → JIFFY_MSB ≤ zp ≤ JIFFY_LSB →
  ∃ s', timed (k + 1) (n + 2) s' ∧ cpu_mem s' = <[zp := u8 (cpu_a s)]> (cpu_mem s) ∧ cpu_a s' = cpu_a s.
Proof.
  intros Hs Hn Hp Hzp. pose proof (timed_room _ _ _ Hs ltac:(lia)). pose proof Hzp as Hzp'.
  unfold JIFFY_MSB, JIFFY_LSB in Hzp'.
  destruct (put_zp s zp) as (s' & G & M & A);
    [by eapply timed_part|lia|unfold byte; lia|eapply timed_window; [done|by left]|].
  exists s'. split_and!; [|done..]. apply (timed_more s); [done..|]. intros a Ha. rewrite M.
  apply lookup_insert_ne. intros <-. apply Ha. by left.
Qed.

(** [lda zp; sta result] for a byte of the clock and one of the result. *)
Lemma timed_copy s k n i v :
  timed k n s → (b + n ≤ 26)%nat → 0 ≤ i < 3 →
  take 5 (drop (b + n) timer_code) = [0xA5; JIFFY_MSB + i; 0x8D; 0xC0 + i; 0x03] →
  v = default 0 (cpu_mem s !! (JIFFY_MSB + i)) →
  ∃ s', timed (k + 2) (n + 5) s' ∧ cpu_mem s' = <[RESULT_ADDR + i := u8 v]> (cpu_mem s).
Proof.
  intros Hs Hn Hi Hp Hv. pose proof (timed_room _ _ _ Hs ltac:(lia)).
  assert (Hr : Z.lor (0xC0 + i) (0x03 ≪ 8) = RESULT_ADDR + i).
  { assert (i ∈ [0; 1; 2]) as Hc by (rewrite !elem_of_cons; lia).
    clear -Hc. revert i Hc. apply Forall_forall. by repeat constructor. }
  destruct (copy_zp s (JIFFY_MSB + i) (0xC0 + i) 0x03 v) as (s' & G & M).
  - by eapply timed_part.
  - lia.
  - unfold byte. lia.
  - unfold byte. lia.
  - split; [unfold word16, JIFFY_MSB; lia|]. split; [|done]. eapply timed_window; [done|].
    unfold JIFFY_MSB, JIFFY_LSB. lia.
  - rewrite Hr. eapply timed_window; [done|]. unfold TIMER_ADDR, RESULT_ADDR. lia.
  - rewrite Hr in M. exists s'. split; [|done]. apply (timed_more s); [done..|]. intros a Ha. rewrite M.
    apply lookup_insert_ne. intros <-. apply Ha. right. lia.
Qed.
End run_timer.

(** Before the call: the clock cleared, with interrupts off, and interrupts on again. *)
Lemma timer_before s :
  code_at s TIMER_ADDR timer_code → cpu_pc s = TIMER_ADDR → timer_window s →
  ∃ s', timed s 6 10 s' ∧ (∀ k, JIFFY_MSB ≤ k ≤ JIFFY_LSB → cpu_mem s' !! k = Some 0) ∧ cpu_i s' = false.
Proof.
  intros Hcode Hpc Hwin. assert (Hpc0 : cpu_pc s = TIMER_ADDR + Z.of_nat 0) by lia.
  destruct (timed_flag s 0 Hcode Hpc0 s 0 0 0x78 SEI true (timed_start s 0)) as (s1 & S1 & M1 & A1 & _);
    [lia|done..|].
  destruct (load_a s1 0x00) as (s2 & G2 & _ & M2 & A2).
  { by apply (timed_part s 0 Hcode Hpc0 s1 _ _ 2 _ S1). }
  { pose proof (timed_room s 0 Hpc0 s1 _ _ S1 ltac:(lia)). lia. }
  pose proof (timed_more s s1 s2 _ _ 1 2 S1 G2 ltac:(intros a _; by rewrite M2)) as S2.
  destruct (timed_put s 0 Hcode Hpc0 Hwin s2 _ _ 0xA0 S2) as (s3 & S3 & M3 & A3);
    [cbn; lia|done|unfold JIFFY_MSB, JIFFY_LSB; lia|].
  destruct (timed_put s 0 Hcode Hpc0 Hwin s3 _ _ 0xA1 S3) as (s4 & S4 & M4 & A4);
    [cbn; lia|done|unfold JIFFY_MSB, JIFFY_LSB; lia|].
  destruct (timed_put s 0 Hcode Hpc0 Hwin s4 _ _ 0xA2 S4) as (s5 & S5 & M5 & A5);
    [cbn; lia|done|unfold JIFFY_MSB, JIFFY_LSB; lia|].
  destruct (timed_flag s 0 Hcode Hpc0 s5 _ _ 0x58 CLI false S5) as (s6 & S6 & M6 & _ & I6);
    [cbn; lia|done..|].
  exists s6. split_and!; [done| |done]. rewrite A4, A3, A2 in M5. rewrite A3, A2 in M4. rewrite A2 in M3.
  intros k Hk. rewrite M6, M5, M4, M3, !lookup_insert. unfold JIFFY_MSB, JIFFY_LSB in Hk.
  repeat case_decide; done || lia.
Qed.

(** After it: the clock copied to the result, and back to the caller. *)
Lemma timer_after s :
  code_at s TIMER_ADDR timer_code → cpu_pc s = TIMER_ADDR + 13 → timer_window s →
  (∀ k, JIFFY_MSB ≤ k ≤ JIFFY_LSB → byte (default 0 (cpu_mem s !! k))) →
  ∃ s', run 9 s = Some s' ∧ result_ticks s' = jiffies s ∧
        cpu_pc s' = u16 (top_word s + 1) ∧ cpu_sp s' = u8 (cpu_sp s + 2) ∧ same_window s s'.
Proof.
  intros Hcode Hpc Hwin Hb. assert (Hpc0 : cpu_pc s = TIMER_ADDR + Z.of_nat 13) by lia.
  destruct (timed_flag s 13 Hcode Hpc0 s 0 0 0x78 SEI true (timed_start s 0)) as (s1 & S1 & M1 & _ & _);
    [lia|done..|].
  destruct (timed_copy s 13 Hcode Hpc0 Hwin s1 _ _ 0 (default 0 (cpu_mem s !! JIFFY_MSB)) S1)
    as (s2 & S2 & M2); [cbn; lia|lia|done|by rewrite M1|].
  destruct (timed_copy s 13 Hcode Hpc0 Hwin s2 _ _ 1 (default 0 (cpu_mem s !! JIFFY_MID)) S2)
    as (s3 & S3 & M3); [cbn; lia|lia|done|by rewrite M2, M1, lookup_insert_ne|].
  destruct (timed_copy s 13 Hcode Hpc0 Hwin s3 _ _ 2 (default 0 (cpu_mem s !! JIFFY_LSB)) S3)
    as (s4 & S4 & M4); [cbn; lia|lia|done|by rewrite M3, M2, M1, !lookup_insert_ne|].
  destruct (timed_flag s 13 Hcode Hpc0 s4 _ _ 0x58 CLI false S4) as (s5 & S5 & M5 & _ & _);
    [cbn; lia|done..|].
  pose proof (timed_part s 13 Hcode Hpc0 s5 _ _ 1 [0x60] S5 eq_refl) as Hrts. destruct S5 as [G5 O5].
  destruct (goes_rts _ _ _ _ G5 (proj1 Hrts)) as (s6 & R6 & _ & M6 & P6 & Q6 & W6 & _).
  { intros a Ha. apply O5. unfold JIFFY_LSB, RESULT_ADDR. lia. }
  exists s6. split_and!; [done| |done..]. unfold result_ticks, jiffies.
  rewrite M6, M5, M4, M3, M2, M1.
  rewrite !lookup_insert, Z.add_0_r.
  repeat (rewrite decide_True by done || rewrite decide_False by done).
  cbn [default]. unfold id. rewrite !u8_small by (apply Hb; unfold JIFFY_MSB, JIFFY_MID, JIFFY_LSB; lia). done.
Qed.
End timer.
