(* ===== verification/TodThms.v ===== *)
(** * The clock and timer routines of the benchmarks: the properties

    What the clock routine stores decodes to the time at which it was entered, although the clock
    goes on; the start routine clears the clock; the timer subroutine reports the jiffies that pass
    while its target runs. *)

From S2P Require Export TodRun Mos6502Thms.

(** Tenths of a second in half a day. *)
Definition HALF_DAY : Z := 432000.

(** The hours register at a time of day in tenths: hours in BCD, bit 7 in the afternoon; the hour
    that begins a half day shows as 12, or as 0 when the clock was set so. *)
Definition hours_shown (x t : Z) : Z := Bench.to_bcd x + 128 * bool_Z (HALF_DAY <=? t).
Definition hours_register (t h : Z) : Prop :=
  ∃ x, 0 ≤ x ≤ 12 ∧ x mod 12 = t / 36000 mod 12 ∧ h = hours_shown x t.

(** What the clock chip is documented to do: reading the hours latches the time until the tenths are
    read, and it can be set through the same registers while bit 7 of the control register is off:
    the hours stop it, the tenths start it again. *)
Record tod_chip {D} `{IODevice D} (now : D → Z) (latched : D → option Z) : Prop := TodChip {
  tc_range : ∀ d, 0 ≤ now d < 2 * HALF_DAY;
  tc_hours : ∀ d, ∃ h d', io_read 0xDC0B d = Ret h d' ∧ hours_register (now d) h ∧ latched d' = Some (now d);
  tc_minutes : ∀ d t, latched d = Some t →
    ∃ d', io_read 0xDC0A d = Ret (Bench.to_bcd (t / 600 mod 60)) d' ∧ latched d' = Some t;
  tc_seconds : ∀ d t, latched d = Some t →
    ∃ d', io_read 0xDC09 d = Ret (Bench.to_bcd (t / 10 mod 60)) d' ∧ latched d' = Some t;
  tc_tenths : ∀ d t, latched d = Some t → ∃ d', io_read 0xDC08 d = Ret (t mod 10) d' ∧ latched d' = None;
  tc_control : ∀ d, ∃ c d', io_read 0xDC0F d = Ret c d';
  tc_set : ∀ d c, 0 ≤ c < 128 → ∃ d1 d2 d3 d4 d5,
    io_write 0xDC0F c d = Ret tt d1 ∧ io_write 0xDC0B 0 d1 = Ret tt d2 ∧ io_write 0xDC0A 0 d2 = Ret tt d3 ∧
    io_write 0xDC09 0 d3 = Ret tt d4 ∧ io_write 0xDC08 0 d4 = Ret tt d5 ∧ now d5 = 0;
}.

Lemma to_bcd_byte x : 0 ≤ x < 100 → byte (Bench.to_bcd x).
Proof. intros. unfold Bench.to_bcd, byte. Z.to_euclidean_division_equations. lia. Qed.

Lemma hours_byte t h : hours_register t h → byte h.
Proof.
  intros (x & Hx & _ & ->). unfold hours_shown, Bench.to_bcd, byte, bool_Z.
  case_match; Z.to_euclidean_division_equations; lia.
Qed.

(** The four registers of a time decode to it, but for the half of the day. *)
Lemma tod_registers t h :
  0 ≤ t < 2 * HALF_DAY → hours_register t h →
  tod_tenths h (Bench.to_bcd (t / 600 mod 60)) (Bench.to_bcd (t / 10 mod 60)) (t mod 10) = t mod HALF_DAY.
Proof.
  intros Ht (x & Hx & Hmod & ->). unfold HALF_DAY in *. unfold hours_shown.
  pose proof (Bench.tod_tenths_bcd x (t / 600 mod 60) (t / 10 mod 60) (t mod 10)
    (432000 <=? t) 0) as Hd. rewrite Z.mul_0_r, Z.add_0_r in Hd. unfold HALF_DAY. rewrite Hd, Hmod.
  - Z.to_euclidean_division_equations. lia.
  - lia.
  - apply Z.mod_pos_bound. lia.
  - apply Z.mod_pos_bound. lia.
  - apply Z.mod_pos_bound. lia.
  - lia.
Qed.

(** The value [read_tod_tenths] computes from the result of the routine. *)
Definition tod_result {D} (s : cpu D) : Z :=
  let m k := default 0 (cpu_mem s !! (TOD_RESULT + k)) in tod_tenths (m 0) (m 1) (m 2) (m 3).

Lemma tod_result_stored {D} (s s' : cpu D) h m sc t :
  cpu_mem s' = <[TOD_RESULT + 3 := t]> (<[TOD_RESULT + 2 := sc]>
    (<[TOD_RESULT + 1 := m]> (<[TOD_RESULT := h]> (cpu_mem s)))) →
  tod_result s' = tod_tenths h m sc t.
Proof.
  intros Hm. unfold tod_result. rewrite Hm, !lookup_insert.
  repeat (rewrite decide_True by done || rewrite decide_False by done). done.
Qed.

(** A use of the clock's registers. *)
Definition clock_io {D} `{IODevice D} (d d' : D) : Prop :=
  ∃ reg, 0xDC08 ≤ reg < 0xDC10 ∧ ((∃ v, io_read reg d = Ret v d') ∨ ∃ v, io_write reg v d = Ret tt d').

Lemma clock_read {D} `{IODevice D} reg d v (d' : D) :
  0xDC08 ≤ reg < 0xDC10 → io_read reg d = Ret v d' → clock_io d d'.
Proof. intros Hr Hd. exists reg. split; [done|left; by exists v]. Qed.
Lemma clock_write {D} `{IODevice D} reg d v (d' : D) :
  0xDC08 ≤ reg < 0xDC10 → io_write reg v d = Ret tt d' → clock_io d d'.
Proof. intros Hr Hd. exists reg. split; [done|right; by exists v]. Qed.

(** A routine of the clock, run from its entry at [base], [n] bytes long: back at its caller, nothing else
    executed, no memory changed but [P], no device used but the clock. *)
Record clock_call {D} `{IODevice D} (base n : Z) (P : Z → Prop) (s s' : cpu D) : Prop := ClockCall {
  cc_run : run 9 s = Some s';
  cc_pc : cpu_pc s' = u16 (top_word s + 1);
  cc_sp : cpu_sp s' = u8 (cpu_sp s + 2);
  cc_window : same_window s s';
  cc_off : ∀ a, a < base ∨ base + n ≤ a → visits a 9 s = 0;
  cc_mem : mem_outside P s s';
  cc_io : rtc clock_io (cpu_dev s) (cpu_dev s');
}.

(** What the clock routine stores decodes to the time at which the clock was first read. *)
Lemma snapshot_call {D} `{IODevice D} now latched (s : cpu D) :
  tod_chip now latched → code_at s TOD_READ tod_read_code → cpu_pc s = TOD_READ → tod_window s →
  ∃ s', clock_call TOD_READ 25 (λ k, TOD_RESULT ≤ k < TOD_RESULT + 4) s s' ∧
        tod_result s' = now (cpu_dev s) mod HALF_DAY.
Proof.
  intros Hchip Hcode Hpc Hwin. set (t := now (cpu_dev s)).
  pose proof (tc_range _ _ Hchip (cpu_dev s)) as Ht. fold t in Ht.
  destruct (tc_hours _ _ Hchip (cpu_dev s)) as (h & d1 & H1 & Hh & L1).
  destruct (tc_minutes _ _ Hchip d1 t L1) as (d2 & H2 & L2).
  destruct (tc_seconds _ _ Hchip d2 t L2) as (d3 & H3 & L3).
  destruct (tc_tenths _ _ Hchip d3 t L3) as (d4 & H4 & _).
  destruct (tod_read_run s _ _ _ _ d1 d2 d3 d4 Hcode Hpc Hwin H1 H2 H3 H4)
    as (s' & Hr & Hd & Hp & Hs & Hw & Ho & Hm).
  exists s'. split; [constructor; try done|].
  - intros a Ha. apply Ho. lia.
  - intros k Hk. rewrite Hm, !lookup_insert_ne; [done|lia..].
  - rewrite Hd. apply (rtc_l _ _ d1); [by eapply (clock_read 0xDC0B)|].
    apply (rtc_l _ _ d2); [by eapply (clock_read 0xDC0A)|].
    apply (rtc_l _ _ d3); [by eapply (clock_read 0xDC09)|]. apply rtc_once. by eapply (clock_read 0xDC08).
  - rewrite (tod_result_stored s s' _ _ _ _ Hm), <- (tod_registers t h Ht Hh).
    pose proof (Z.mod_pos_bound (t / 600) 60 ltac:(lia)). pose proof (Z.mod_pos_bound (t / 10) 60 ltac:(lia)).
    pose proof (Z.mod_pos_bound t 10 ltac:(lia)).
    rewrite !u8_small; [done|unfold byte; lia|apply to_bcd_byte; lia|apply to_bcd_byte; lia|by eapply hours_byte].
Qed.

(** The start routine leaves the clock at zero. *)
Lemma start_call {D} `{IODevice D} now latched (s : cpu D) :
  tod_chip now latched → code_at s TOD_START tod_start_code → cpu_pc s = TOD_START → tod_window s →
  ∃ s', clock_call TOD_START 23 (λ _, False) s s' ∧ now (cpu_dev s') = 0.
Proof.
  intros Hchip Hcode Hpc Hwin. destruct (tc_control _ _ Hchip (cpu_dev s)) as (c & d0 & Hc).
  assert (Hmask : 0 ≤ Z.land (u8 c) 0x7F < 128).
  { change 0x7F with (Z.ones 7). rewrite Z.land_ones by lia. apply Z.mod_pos_bound. lia. }
  destruct (tc_set _ _ Hchip d0 _ Hmask) as (d1 & d2 & d3 & d4 & d5 & W1 & W2 & W3 & W4 & W5 & Hnow).
  destruct (tod_start_run s Hcode Hpc Hwin c d0 d1 d2 d3 d4 d5 Hc W1 W2 W3 W4 W5)
    as (s' & Hr & Hd & Hm & Hp & Hs & Hw & Ho).
  exists s'. rewrite Hd. split; [constructor; try done|done].
  - intros a Ha. apply Ho. lia.
  - intros k _. by rewrite Hm.
  - rewrite Hd. apply (rtc_l _ _ d0); [by eapply (clock_read 0xDC0F)|].
    apply (rtc_l _ _ d1); [by eapply (clock_write 0xDC0F)|]. apply (rtc_l _ _ d2); [by eapply (clock_write 0xDC0B)|].
    apply (rtc_l _ _ d3); [by eapply (clock_write 0xDC0A)|]. apply (rtc_l _ _ d4); [by eapply (clock_write 0xDC09)|].
    apply rtc_once. by eapply (clock_write 0xDC08).
Qed.

(** The call: the six instructions before it, the JSR, and the state the target is entered in. *)
Lemma timer_call {D} `{IODevice D} target (s : cpu D) :
  word16 target → byte (cpu_sp s) → code_at s TIMER_ADDR (timer_code target) → cpu_pc s = TIMER_ADDR →
  timer_window s →
  ∃ s1, run 7 s = Some s1 ∧ cpu_pc s1 = target ∧ cpu_sp s1 = u8 (u8 (cpu_sp s - 1) - 1) ∧
    (∀ k, JIFFY_MSB ≤ k ≤ JIFFY_LSB → cpu_mem s1 !! k = Some 0) ∧ cpu_i s1 = false ∧ same_window s s1 ∧
    top_word s1 = TIMER_ADDR + 12 ∧
    (∀ k, k < JIFFY_MSB ∨ JIFFY_LSB < k → k < RESULT_ADDR ∨ RESULT_ADDR + 3 ≤ k →
          k ≠ 0x100 + cpu_sp s → k ≠ 0x100 + u8 (cpu_sp s - 1) → cpu_mem s1 !! k = cpu_mem s !! k).
Proof.
  intros Ht Hsp Hcode Hpc Hwin.
  destruct (timer_before target s Hcode Hpc Hwin) as (s0 & S0 & J0 & I0).
  assert (Hpc0 : cpu_pc s = TIMER_ADDR + Z.of_nat 0) by lia.
  pose proof (timed_part target s 0 Hcode Hpc0 s0 _ _ 3 _ S0 eq_refl) as Hjsr.
  pose proof (timed_room s 0 Hpc0 s0 _ _ S0 ltac:(lia)) as Hroom.
  destruct S0 as [[R0 P0 Q0 W0 _ _] M0].
  pose proof (exec_JSR s0 _ _ Hjsr ltac:(lia) ltac:(by rewrite Q0)) as Hstep.
  rewrite word16_split in Hstep by done. pose proof (u8_byte (cpu_sp s - 1)) as Hsp1. unfold byte in Hsp1, Hsp.
  set (s1 := set_pc _ _) in Hstep.
  assert (Hm : ∀ k, k ≠ 0x100 + cpu_sp s → k ≠ 0x100 + u8 (cpu_sp s - 1) → cpu_mem s1 !! k = cpu_mem s0 !! k).
  { intros k Hk Hk'. unfold s1, pushed. cbn. rewrite Q0. by rewrite !lookup_insert_ne. }
  exists s1. split_and!.
  - rewrite (run_app 6 1 s s0) by done. cbn. by rewrite Hstep.
  - done.
  - cbn. by rewrite Q0.
  - intros k Hk. rewrite Hm by (unfold JIFFY_LSB in Hk; lia). by apply J0.
  - done.
  - destruct W0. by split.
  - change (top_word (pushed (cpu_pc s0 + 2) (tick 6 s0)) = TIMER_ADDR + 12).
    rewrite top_word_pushed; [lia|cbn; rewrite Q0; exact Hsp|unfold word16, TIMER_ADDR in *; lia].
  - intros k Hj Hr Hk Hk'. rewrite Hm by done. apply M0. lia.
Qed.

(** What the routine that is timed promises: entered with the stack pointer [sp0] below a return
    address, it returns, the stub and its return address as they were, the jiffy clock a clock of
    bytes. *)
Definition timed_routine {D} `{IODevice D} (target sp0 : Z) (Inv : cpu D → Prop) : Prop :=
  ∀ s, Inv s → cpu_pc s = target → cpu_sp s = u8 (u8 (sp0 - 1) - 1) →
  ∃ n s', run n s = Some s' ∧ cpu_pc s' = u16 (top_word s + 1) ∧ cpu_sp s' = sp0 ∧ same_window s s' ∧
    (∀ k, TIMER_ADDR ≤ k < TIMER_ADDR + 31 ∨ k = 0x100 + u8 (sp0 + 1) ∨ k = 0x100 + u8 (sp0 + 2) →
          cpu_mem s' !! k = cpu_mem s !! k) ∧
    (∀ k, JIFFY_MSB ≤ k ≤ JIFFY_LSB → byte (default 0 (cpu_mem s' !! k))).

(** A chip that keeps that: the time in tenths, a tenth later after every read, and the latch. *)
Definition chip : Type := Z * option Z.
Definition chip_now (d : chip) : Z := d.1 mod (2 * HALF_DAY).
Definition chip_reg (reg t : Z) : Z :=
  if reg =? 0xDC0B then hours_shown (if t / 36000 mod 12 =? 0 then 12 else t / 36000 mod 12) t
  else if reg =? 0xDC0A then Bench.to_bcd (t / 600 mod 60)
  else if reg =? 0xDC09 then Bench.to_bcd (t / 10 mod 60) else if reg =? 0xDC08 then t mod 10 else 0.
Definition chip_shown (d : chip) : Z := default (chip_now d) d.2.
Definition chip_set (reg v t : Z) : Z :=
  if reg =? 0xDC0B then 36000 * v + t mod 36000
  else if reg =? 0xDC0A then t / 36000 * 36000 + 600 * v + t mod 600
  else if reg =? 0xDC09 then t / 600 * 600 + 10 * v + t mod 10
  else if reg =? 0xDC08 then t / 10 * 10 + v else t.
#[export] Instance chip_device : IODevice chip := {|
  io_read reg := λ d,
    let latch := if reg =? 0xDC0B then Some (chip_now d) else if reg =? 0xDC08 then None else d.2 in
    Ret (chip_reg reg (if reg =? 0xDC0B then chip_now d else chip_shown d)) (d.1 + 1, latch);
  io_write reg v := λ d, Ret tt (chip_set reg v (chip_now d), d.2);
|}.

(** Each register set to 0, hours first, leaves less than its unit on the clock. *)
Lemma chip_set_below u reg (x : Z) l l' :
  u = 36000 ∧ reg = 0xDC0B ∨ u = 600 ∧ reg = 0xDC0A ∨ u = 10 ∧ reg = 0xDC09 ∨ u = 1 ∧ reg = 0xDC08 →
  0 ≤ chip_now (x, l) < (if reg =? 0xDC0B then 2 * HALF_DAY else if reg =? 0xDC0A then 36000 else
                         if reg =? 0xDC09 then 600 else 10) →
  0 ≤ chip_now (chip_set reg 0 (chip_now (x, l)), l') < u.
Proof.
  generalize (chip_now (x, l)). intros t Hu Ht. unfold chip_now, HALF_DAY in *. cbn [fst].
  destruct Hu as [[-> ->]|[[-> ->]|[[-> ->]|[-> ->]]]]; cbn in Ht; unfold chip_set; cbn;
    Z.to_euclidean_division_equations; lia.
Qed.

Lemma chip_keeps : tod_chip chip_now (λ d : chip, d.2).
Proof.
  constructor.
  - intros d. apply Z.mod_pos_bound. done.
  - intros d. eexists _, _. split; [done|]. split; [|done].
    exists (if chip_now d / 36000 mod 12 =? 0 then 12 else chip_now d / 36000 mod 12).
    pose proof (Z.mod_pos_bound (chip_now d / 36000) 12 ltac:(lia)).
    split_and!; [case_match; lia..| |done].
    case_match; [|apply Z.mod_mod; lia]. symmetry. by apply Z.eqb_eq.
  - intros d t Ht. eexists. split; [unfold io_read; cbn; unfold chip_shown; by rewrite Ht|done].
  - intros d t Ht. eexists. split; [unfold io_read; cbn; unfold chip_shown; by rewrite Ht|done].
  - intros d t Ht. eexists. split; [unfold io_read; cbn; unfold chip_shown; by rewrite Ht|done].
  - intros d. by eexists _, _.
  - intros d c _. do 5 eexists. split_and!; [done..|].
    match goal with |- ?n = 0 => enough (0 ≤ n < 1) by lia end.
    apply (chip_set_below 1 0xDC08); [tauto|]. apply (chip_set_below 10 0xDC09); [tauto|].
    apply (chip_set_below 600 0xDC0A); [tauto|]. apply (chip_set_below 36000 0xDC0B); [tauto|].
    apply Z.mod_pos_bound. done.
Qed.

Module Clock.

(** C30. The clock routine of the blanking benchmark, executed, stores four bytes that decode to the
    time of day the clock showed when the routine first read it, whatever time passes between its
    reads, for every clock that latches the way the chip is documented to; the routine then returns
    to its caller with the stack popped. *)
Theorem tod_read_untorn {D} `{IODevice D} now latched code (s : cpu D) :
  tod_chip now latched → build_tod_read = Some code →
  code_at s TOD_READ code → cpu_pc s = TOD_READ → tod_window s →
  ∃ s', run 9 s = Some s' ∧ tod_result s' = now (cpu_dev s) mod HALF_DAY ∧
        cpu_pc s' = u16 (top_word s + 1) ∧ cpu_sp s' = u8 (cpu_sp s + 2).
Proof.
  intros Hchip Hb Hcode Hpc Hwin. rewrite tod_read_built in Hb. injection Hb as <-.
  destruct (snapshot_call now latched s Hchip Hcode Hpc Hwin) as (s' & [] & Hv). exists s'. split_and!; done.
Qed.

(** A tenth of a second before the first minute is over, with a tenth passing at each read: the
    minutes read 0 and the seconds 59 though the clock has passed them. *)
Definition clock_demo (pc : Z) (code : bytes) : cpu chip :=
  set_pc pc (init (list_to_map (zip (seqZ pc (Z.of_nat (length code))) code)) 0xDC00 0xE000 (599, None)).

Lemma clock_demo_window pc code : tod_window (clock_demo pc code).
Proof. split; intros k Hk; unfold in_io, clock_demo, STUB in *; cbn; lia. Qed.

Lemma tod_read_untorn_witness :
  ∃ s', run 9 (clock_demo TOD_READ tod_read_code) = Some s' ∧ tod_result s' = 599.
Proof.
  destruct (tod_read_untorn chip_now _ tod_read_code (clock_demo TOD_READ tod_read_code) chip_keeps)
    as (s' & Hr & Hv & _).
  - exact tod_read_built.
  - apply code_at_bool. by vm_compute.
  - reflexivity.
  - apply clock_demo_window.
  - exists s'. split; [exact Hr|]. rewrite Hv. by vm_compute.
Defined.

(** The start routine leaves the clock at zero and running, changes no memory and returns. *)
Theorem tod_start_clears {D} `{IODevice D} now latched code (s : cpu D) :
  tod_chip now latched → build_tod_start = Some code →
  code_at s TOD_START code → cpu_pc s = TOD_START → tod_window s →
  ∃ s', run 9 s = Some s' ∧ now (cpu_dev s') = 0 ∧ cpu_mem s' = cpu_mem s ∧
        cpu_pc s' = u16 (top_word s + 1) ∧ cpu_sp s' = u8 (cpu_sp s + 2).
Proof.
  intros Hchip Hb Hcode Hpc Hwin. rewrite tod_start_built in Hb. injection Hb as <-.
  destruct (start_call now latched s Hchip Hcode Hpc Hwin) as (s' & [] & Hn). exists s'. split_and!; try done.
  apply map_eq. intros k. apply cc_mem0. intros [].
Qed.

(** The timer subroutine of the field-arithmetic benchmark, executed, clears the jiffy clock,
    enables interrupts, runs its target once, and stores the clock as the target left it; the ticks
    read back are those, and the caller is returned to. *)
Theorem timer_measures_target {D} `{IODevice D} target code Inv (s : cpu D) :
  build_timer_subroutine target = Some code → word16 target → byte (cpu_sp s) →
  code_at s TIMER_ADDR code → cpu_pc s = TIMER_ADDR → timer_window s →
  timed_routine target (cpu_sp s) Inv →
  (∀ s', mem_outside timer_scratch s s' → same_window s s' →
         (∀ k, JIFFY_MSB ≤ k ≤ JIFFY_LSB → cpu_mem s' !! k = Some 0) → Inv s') →
  ∃ n s1 m s2 s3, run n s = Some s1 ∧ cpu_pc s1 = target ∧ jiffies s1 = 0 ∧ cpu_i s1 = false ∧
    run m s1 = Some s2 ∧ cpu_pc s2 = TIMER_ADDR + 13 ∧
    run 9 s2 = Some s3 ∧ result_ticks s3 = jiffies s2 ∧
    cpu_pc s3 = u16 (top_word s + 1) ∧ cpu_sp s3 = u8 (cpu_sp s + 2).
Proof.
  intros Hb Ht Hsp Hcode Hpc Hwin Hrt Hinv. rewrite (timer_built target) in Hb. injection Hb as <-.
  destruct (timer_call target s Ht Hsp Hcode Hpc Hwin) as (s1 & R1 & P1 & Q1 & J1 & I1 & W1 & T1 & M1).
  pose proof (u8_byte (cpu_sp s - 1)) as Hsp1. unfold byte in Hsp1. pose proof Hsp as Hsp'. unfold byte in Hsp'.
  destruct (Hrt s1) as (m & s2 & R2 & P2 & Q2 & W2 & M2 & B2); [apply Hinv; [|done..]|done|done|].
  { intros k Hk. unfold timer_scratch in Hk. apply M1; lia. }
  assert (Hw : same_window s s2) by (destruct W1, W2; split; congruence).
  assert (Hmem : ∀ k, TIMER_ADDR ≤ k < TIMER_ADDR + 31 ∨ k = 0x100 + u8 (cpu_sp s + 1) ∨ k = 0x100 + u8 (cpu_sp s + 2) →
    cpu_mem s2 !! k = cpu_mem s !! k).
  { intros k Hk. rewrite M2 by done.
    pose proof (u8_byte (cpu_sp s + 1)); pose proof (u8_byte (cpu_sp s + 2)).
    pose proof (u8_apart (cpu_sp s) 1 (-1) Hsp); pose proof (u8_apart (cpu_sp s) 2 (-1) Hsp).
    pose proof (u8_apart (cpu_sp s) 1 0 Hsp); pose proof (u8_apart (cpu_sp s) 2 0 Hsp).
    rewrite Z.add_0_r, (u8_small (cpu_sp s)) in * by done.
    replace (cpu_sp s + -1) with (cpu_sp s - 1) in * by lia.
    unfold byte, TIMER_ADDR, JIFFY_LSB, JIFFY_MSB, RESULT_ADDR in *. apply M1; lia. }
  assert (Hcode2 : code_at s2 TIMER_ADDR (timer_code target)).
  { apply (code_at_agree s); [done| |done]. intros k Hk. apply Hmem. cbn in Hk. lia. }
  assert (Hpc2 : cpu_pc s2 = TIMER_ADDR + 13) by (by rewrite P2, T1).
  destruct (timer_after target s2 Hcode2 Hpc2) as (s3 & R3 & E3 & P3 & Q3 & _).
  { intros k Hk. rewrite (in_io_window s) by done. by apply Hwin. }
  { done. }
  exists 7%nat, s1, m, s2, s3. split_and!; try done; [| |by rewrite Q3, Q2].
  { unfold jiffies. by rewrite !J1 by (unfold JIFFY_MSB, JIFFY_MID, JIFFY_LSB; lia). }
  rewrite P3. do 2 f_equal. unfold top_word. rewrite Q2, u8_succ2, !Hmem by tauto. done.
Qed.
Lemma tod_start_clears_witness :
  ∃ s', run 9 (clock_demo TOD_START tod_start_code) = Some s' ∧ chip_now (cpu_dev s') = 0.
Proof.
  destruct (tod_start_clears chip_now _ tod_start_code (clock_demo TOD_START tod_start_code) chip_keeps)
    as (s' & Hr & Hv & _).
  - exact tod_start_built.
  - apply code_at_bool. by vm_compute.
  - reflexivity.
  - apply clock_demo_window.
  - exists s'. split; [exact Hr|exact Hv].
Defined.

(** A target that returns at once. *)
Definition timer_demo_mem : gmap Z Z :=
  <[0xC100 := 0x60]> (list_to_map (zip (seqZ TIMER_ADDR 31) (timer_code 0xC100))).
Definition timer_demo : cpu unit := set_pc TIMER_ADDR (init timer_demo_mem 0xDC00 0xE000 tt).

Definition timer_demo_inv (s : cpu unit) : Prop :=
  ram s 0xC100 0x60 ∧ ∀ k, JIFFY_MSB ≤ k ≤ JIFFY_LSB → byte (default 0 (cpu_mem s !! k)).

Lemma timer_demo_routine : timed_routine 0xC100 (cpu_sp timer_demo) timer_demo_inv.
Proof.
  intros s [Hr Hb] Hpc Hsp. rewrite <- Hpc in Hr. apply exec_RTS in Hr as Hstep.
  eexists 1%nat, _. split_and!; [cbn; by rewrite Hstep|done| |done|done|done]. cbn. by rewrite Hsp.
Qed.

Lemma timer_measures_target_witness :
  ∃ n s1 m s2, run n timer_demo = Some s1 ∧ cpu_pc s1 = 0xC100 ∧ run m s1 = Some s2 ∧ cpu_pc s2 = TIMER_ADDR + 13.
Proof.
  destruct (timer_measures_target 0xC100 (timer_code 0xC100) timer_demo_inv timer_demo)
    as (n & s1 & m & s2 & _ & H1 & H2 & _ & _ & H3 & H4 & _).
  - by vm_compute.
  - unfold word16. lia.
  - by vm_compute.
  - apply code_at_bool. by vm_compute.
  - reflexivity.
  - intros k Hk. unfold in_io, timer_demo, JIFFY_MSB, JIFFY_LSB, TIMER_ADDR, RESULT_ADDR in *. cbn. lia.
  - exact timer_demo_routine.
  - intros s' Hm Hw Hz. split; [|intros k Hk; by rewrite Hz].
    apply (ram_agree timer_demo); [by vm_compute| |done]. apply Hm. unfold timer_scratch, JIFFY_LSB, RESULT_ADDR. lia.
  - exists n, s1, m, s2. split; [exact H1|]. split; [exact H2|]. split; [exact H3|exact H4].
Defined.

End Clock.
