(* ===== verification/BenchRun.v ===== *)
(** * The measuring runs of the benchmarks (tools/bench_vic_blank.py, tools/bench_fe_ops.py,
      tools/bench_vic_blank_handshake.py)

    The drivers around the machine code of [BenchStubs]: what they write to the emulated machine,
    what they call there and read back, and what they make of it.  The harness is the class [Vice]
    of [RigVice] and the class [BenchHost] below; texts that are printed are left out, the figures
    they show are the results. *)

From S2P Require Export TodRun ViceUtil.

(** [br_jsr] is the harness's [jsr] with its timeout in seconds, [br_load_code] its [load_code];
    [br_make] runs make and gives the exit status; [br_labels] reads the labels file; [br_enter],
    [br_acquire], [br_release] and [br_exit] are the instance manager; [br_randint] is the generator;
    [br_trial] is the trial generator of test_type2_slow.py. *)
Record trial := Trial {
  tr_c : bytes; tr_h : bytes; tr_ephem_priv : bytes; tr_static_priv : bytes; tr_static_pub : bytes;
  tr_resp_pub : bytes; tr_sender_idx : bytes; tr_type2_packet : bytes;
}.

Class BenchHost (W : Type) := {
  br_jsr : Z → Z → eff W string unit;
  br_load_code : Z → bytes → eff W string unit;
  br_make : eff W string Z;
  br_labels : eff W string (list (string * Z));
  br_enter : eff W string unit;
  br_acquire : eff W string unit;
  br_release : eff W string unit;
  br_exit : eff W string unit;
  br_randint : Z → Z → eff W string Z;
  br_trial : nat → eff W string trial;
}.

Section bench.
Context {W : Type} `{!Vice W} `{!BenchHost W}.
Abbreviation M := (eff (rig_state W) rig_error).

Definition jsr (addr timeout : Z) : M unit := use (br_jsr addr timeout) (λ _, Called addr) Refused.
Definition load_code (addr : Z) (code : bytes) : M unit :=
  use (br_load_code addr code) (λ _, Put addr code) (Put addr code).

(** A use of the host, which no event shows. *)
Definition host {A} (m : eff W string A) : M A := λ s,
  match m (r_world s) with
  | Ret a w => Ret a (RigState w (r_log s))
  | Raise e w => Raise (Monitor e) (RigState w (r_log s))
  end.

Definition or_bad {A} (o : option A) : M A :=
  match o with Some a => mret a | None => raise BadValue end.

(** [labels.address(name)] *)
Definition label_address (L : list (string * Z)) (name : string) : option Z := Pcap.assoc name L.

(** [read_bytes(transport, addr, 1)[0]] *)
Definition peek1 (addr : Z) : M Z :=
  l ← read addr 1;
  match l with v :: _ => mret v | [] => raise RigEmptyRead end.

(** ** bench_vic_blank.py *)

Definition tod_start : M unit := jsr TOD_START 10.

Definition read_tod_tenths : M Z :=
  jsr TOD_READ 10;;
  l ← read TOD_RESULT 4;
  match l with
  | [hr; mn; sc; tn] => mret (tod_tenths hr mn sc tn)
  | _ => raise BadValue
  end.

Definition set_blank (blanked : bool) : M Z :=
  cur ← peek1 VIC_CTRL1;
  let new := den_byte cur blanked in
  b ← or_bad (py_bytes [new]);
  write VIC_CTRL1 b;;
  mret new.

Definition time_run (target outer inner : Z) (blanked : bool) (timeout : Z) : M Z :=
  stub ← or_bad (build_loop_stub target outer inner);
  write STUB stub;;
  set_blank blanked;;
  tod_start;;
  jsr STUB timeout;;
  set_blank false;;
  read_tod_tenths.

Record measured := Measured {
  me_name : string; me_symbol : string; me_reps : Z; me_on : Z; me_off : Z;
  me_speedup : spec_float; me_saved_pct : spec_float;
}.

(** [a / b] of two integers *)
Definition ratio (a b : Z) : spec_float := fdiv (float_of_Z a) (float_of_Z b).

(** [None] for a routine that is skipped: its symbol is not there, or a leg is too short. *)
Definition bench (L : list (string * Z)) (name symbol : string) (outer inner : Z) (setup : option (M unit))
    (timeout : Z) : M (option measured) :=
  match label_address L symbol with
  | None => mret None
  | Some addr =>
      let reps := outer * inner in
      default (mret tt) setup;;
      on ← time_run addr outer inner false timeout;
      default (mret tt) setup;;
      off ← time_run addr outer inner true timeout;
      if (on <? 200) || (off <? 200) then mret None else
      let speedup := ratio on off in
      let saved := fdiv (fmul (float_of_Z 100) (float_of_Z (on - off))) (float_of_Z on) in
      mret (Some (Measured name symbol reps on off speedup saved))
  end.

(** [with ViceInstanceManager(config) as mgr: body] *)
Definition with_manager {A} (body : M A) : M A := host br_enter;; finally body (host br_exit).

Fixpoint bench_legs (L : list (string * Z)) (legs : list (string * string * Z * Z)) (setup : option (M unit))
    (timeout : Z) : M (list measured) :=
  match legs with
  | [] => mret []
  | (name, sym, o, i) :: legs =>
      r ← bench L name sym o i setup timeout;
      rs ← bench_legs L legs setup timeout;
      mret (option_list r ++ rs)
  end.

Definition SYMMETRIC : list (string * string * Z * Z) :=
  [("blake2s_compress", "blake2s_compress", 40, 200); ("chacha20_block", "chacha20_block", 20, 200);
   ("poly1305_block", "poly1305_block", 20, 200)].
Definition FIELD : list (string * string * Z * Z) :=
  [("fe25519_mul", "fe25519_mul", 20, 200); ("fe25519_sqr", "fe25519_sqr", 20, 200)].

Fixpoint seed_slots (L : list (string * Z)) (slots : list string) : M unit :=
  match slots with
  | [] => mret tt
  | slot :: slots =>
      match label_address L slot with Some a => write a (seqZ 1 32) | None => mret tt end;;
      seed_slots L slots
  end.
Definition seed_fe (L : list (string * Z)) : M unit := seed_slots L ["fe_src1"; "fe_src2"].

Definition seed_scalarmult (L : list (string * Z)) : M unit :=
  k ← rig_label L "x25_scalar"; write k (seqZ 0 32);;
  u ← rig_label L "x25_u"; write u (9 :: replicate 31 0);;
  c ← rig_label L "x25519_clamp"; jsr c 30.

(** What the summary shows: the largest and the smallest speedup, and the projection of the
    scalar multiplication in minutes; the mean is left out. *)
Record vic_report := VicReport {
  vr_results : list measured; vr_best : spec_float; vr_worst : spec_float;
  vr_projected : option (spec_float * spec_float);
}.
Definition py_max (x : spec_float) (l : list spec_float) : spec_float :=
  foldl (λ m y, if flt m y then y else m) x l.
Definition py_min (x : spec_float) (l : list spec_float) : spec_float :=
  foldl (λ m y, if flt y m then y else m) x l.

Definition summary (results : list measured) : option vic_report :=
  match results with
  | [] => None
  | r :: rs =>
      let minutes := fdiv (float_of_Z 43) (float_of_Z 10) in
      let sm := List.find (λ r, bool_decide (me_symbol r = "x25519_scalarmult")) results in
      Some (VicReport results (py_max (me_speedup r) (me_speedup <$> rs)) (py_min (me_speedup r) (me_speedup <$> rs))
        ((λ r, let d := fdiv minutes (me_speedup r) in (d, fsub minutes d)) <$> sm))
  end.

Definition install_clock : M unit :=
  start ← or_bad build_tod_start; write TOD_START start;;
  rd ← or_bad build_tod_read; write TOD_READ rd.

Definition sanity (L : list (string * Z)) : M Z :=
  tod_start;;
  target ← rig_label L "blake2s_compress";
  stub ← or_bad (build_loop_stub target 4 200);
  write STUB stub;;
  jsr STUB 600;;
  read_tod_tenths.

Definition vic_main (fuel : nat) (argv : list string) : M vic_report :=
  let quick := bool_decide ("--quick" ∈ argv) in
  rc ← host br_make;
  if negb (rc =? 0) then raise (SystemExit 1) else
  L ← host br_labels;
  with_manager (
    host br_acquire;;
    ready ← binary_wait_for_boot_ready fuel L (float_of_Z 180) 2000;
    if negb ready then raise (SystemExit 1) else
    install_clock;;
    probe ← sanity L;
    if probe <? 10 then raise (SystemExit 1) else
    sym ← bench_legs L SYMMETRIC None 1800;
    fe ← bench_legs L FIELD (Some (seed_fe L)) 1800;
    sm ← (if quick then mret []
          else bench_legs L [("x25519_scalarmult", "x25519_scalarmult", 1, 1)] (Some (seed_scalarmult L)) 7200);
    match summary (sym ++ fe ++ sm) with Some r => mret r | None => raise (SystemExit 1) end).

(** ** bench_fe_ops.py *)

Definition FE_P : Z := 2 ^ 255 - 19.
Definition SAFETY_LOOP_ADDR : Z := 0x0339.

Definition int_to_le32 (val : Z) : M bytes := or_bad (to_le 32 (val mod FE_P)).

Definition read_result_ticks : M Z :=
  data ← read RESULT_ADDR 3;
  match data with
  | d0 :: d1 :: d2 :: _ => mret (result_of d0 d1 d2)
  | _ => raise RigEmptyRead
  end.

(** The address of one label, in the cell another names. *)
Definition point (L : list (string * Z)) (cell to : string) : M unit :=
  c ← rig_label L cell;
  a ← rig_label L to;
  b ← or_bad (py_bytes [Z.land a 0xFF; Z.land (a ≫ 8) 0xFF]);
  write c b.

Definition run_timer (L : list (string * Z)) (routine : string) : M Z :=
  target ← rig_label L routine;
  code ← or_bad (build_timer_subroutine target);
  load_code TIMER_ADDR code;;
  jsr TIMER_ADDR 120;;
  read_result_ticks.

Definition put_operand (L : list (string * Z)) (slot : string) (v : Z) : M unit :=
  a ← rig_label L slot; b ← int_to_le32 v; write a b.

Definition bench_fe_mul (L : list (string * Z)) (a b : Z) : M Z :=
  put_operand L "fe25519_tmp1" a;;
  put_operand L "fe25519_tmp2" b;;
  point L "fe25519_src1" "fe25519_tmp1";;
  point L "fe25519_src2" "fe25519_tmp2";;
  point L "fe25519_dst" "fe25519_tmp3";;
  run_timer L "fe25519_mul".

Definition bench_fe_sqr (L : list (string * Z)) (a : Z) : M Z :=
  put_operand L "fe25519_tmp1" a;;
  point L "fe25519_src1" "fe25519_tmp1";;
  point L "fe25519_dst" "fe25519_tmp3";;
  run_timer L "fe25519_sqr".

(** The arguments after the program's name. *)
Fixpoint iterations_of (args : list string) (iterations : Z) : M Z :=
  match args with
  | [] => mret iterations
  | a :: args =>
      match args with
      | n :: rest =>
          if bool_decide (a = "--iterations")
          then n ← or_bad (parse_int 10 n); iterations_of rest n
          else iterations_of args iterations
      | [] => mret iterations
      end
  end.

Definition REQUIRED : list string :=
  ["fe25519_mul"; "fe25519_sqr"; "fe25519_tmp1"; "fe25519_tmp2"; "fe25519_tmp3"; "fe25519_src1"; "fe25519_src2";
   "fe25519_dst"].

Fixpoint times {A} (n : nat) (m : M A) : M (list A) :=
  match n with
  | O => mret []
  | S n => x ← m; xs ← times n m; mret (x :: xs)
  end.

(** [sum(l) / len(l)] *)
Definition average (l : list Z) : M spec_float :=
  if bool_decide (l = []) then raise ZeroDivision else mret (ratio (foldl Z.add 0 l) (Z.of_nat (length l))).

Record fe_report := FeReport {
  fr_mul : list Z; fr_sqr : list Z; fr_avg_mul : spec_float; fr_avg_sqr : spec_float;
  fr_total : spec_float; fr_seconds : spec_float;
}.

Definition fe_measure (L : list (string * Z)) (iterations : Z) : M fe_report :=
  mul ← times (Z.to_nat iterations)
    (a ← host (br_randint 1 (FE_P - 1)); b ← host (br_randint 1 (FE_P - 1)); bench_fe_mul L a b);
  avg_mul ← average mul;
  sqr ← times (Z.to_nat iterations) (a ← host (br_randint 1 (FE_P - 1)); bench_fe_sqr L a);
  avg_sqr ← average sqr;
  let total := fadd (fmul (float_of_Z 1031) avg_mul) (fmul (float_of_Z 763) avg_sqr) in
  mret (FeReport mul sqr avg_mul avg_sqr total (fdiv total (float_of_Z 60))).

Definition fe_main (fuel : nat) (args : list string) : M fe_report :=
  iterations ← iterations_of args 5;
  L ← host br_labels;
  if negb (forallb (λ n, bool_decide (is_Some (label_address L n))) REQUIRED) then raise (SystemExit 1) else
  with_manager (
    host br_acquire;;
    ready ← binary_wait_for_boot_ready fuel L (float_of_Z 180) 2000;
    if negb ready then raise (SystemExit 1) else
    write SAFETY_LOOP_ADDR [0x4C; 0x39; 0x03];;
    r ← fe_measure L iterations;
    host br_release;;
    mret r).

(** ** bench_vic_blank_handshake.py *)

Definition RTS_BYTE : Z := 0x60.

Fixpoint put_fields (L : list (string * Z)) (l : list (string * bytes)) : M unit :=
  match l with
  | [] => mret tt
  | (name, v) :: l => a ← rig_label L name; write a v;; put_fields L l
  end.

Definition load_trial (L : list (string * Z)) (t : trial) : M unit :=
  put_fields L
    [("hs_c", tr_c t); ("hs_h", tr_h t); ("hs_ephem_priv", tr_ephem_priv t); ("hs_static_priv", tr_static_priv t);
     ("hs_static_pub", tr_static_pub t); ("hs_resp_pub", tr_resp_pub t); ("hs_sender_idx", tr_sender_idx t);
     ("hs_preshared_key", replicate 32 0); ("wg_state", [1]); ("udp_recv_buf", tr_type2_packet t);
     ("udp_recv_len", [92; 0]); ("udp_recv_ready", [1])].

Definition time_type2 (L : list (string * Z)) (t : trial) : M (Z * Z) :=
  load_trial L t;;
  tod_start;;
  handler ← rig_label L "session_handle_packet"; jsr handler 25000;;
  tenths ← read_tod_tenths;
  cell ← rig_label L "wg_state"; state ← peek1 cell;
  mret (tenths, state).

(** A row of the table: the two legs' tenths, and whether both reached the active session. *)
Definition trial_row : Type := Z * Z * bool.

Definition run_trial (L : list (string * Z)) (boost : Z) (original : bytes) (i : nat) : M trial_row :=
  t ← host (br_trial i);
  write boost original;;
  on ← time_type2 L t;
  write boost [RTS_BYTE];;
  off ← time_type2 L t;
  write boost original;;
  now_there ← read boost 8;
  if negb (bool_decide (now_there = original)) then raise CheckFailed else
  mret (on.1, off.1, (on.2 =? 2) && (off.2 =? 2)).

Fixpoint run_trials (L : list (string * Z)) (boost : Z) (original : bytes) (n i : nat) : M (list trial_row) :=
  match n with
  | O => mret []
  | S n => r ← run_trial L boost original i; rs ← run_trials L boost original n (S i); mret (r :: rs)
  end.

Definition trials_of (argv : list string) : M Z :=
  match list_find (λ a, a = "--trials") argv with
  | None => mret 1
  | Some (i, _) => n ← or_bad (argv !! S i); or_bad (parse_int 10 n)
  end.

(** The totals of the legs, the share saved in per cent and the ratio. *)
Record handshake_report := HandshakeReport {
  hr_rows : list trial_row; hr_on : Z; hr_off : Z; hr_saved : spec_float; hr_ratio : spec_float;
}.

Definition totals (rows : list trial_row) : M handshake_report :=
  if negb (forallb snd rows) then raise (SystemExit 1) else
  let on := foldl Z.add 0 (rows.*1.*1) in
  let off := foldl Z.add 0 (rows.*1.*2) in
  if (off =? 0) || (on =? 0) then raise ZeroDivision else
  mret (HandshakeReport rows on off (fdiv (fmul (float_of_Z 100) (float_of_Z (off - on))) (float_of_Z off))
    (ratio off on)).

Definition handshake_main (fuel : nat) (argv : list string) : M handshake_report :=
  trials ← trials_of argv;
  L ← host br_labels;
  with_manager (
    host br_acquire;;
    ready ← binary_wait_for_boot_ready fuel L (float_of_Z 300) 2000;
    if negb ready then raise (SystemExit 1) else
    install_clock;;
    boost ← rig_label L "vic_boost_begin";
    original ← read boost 8;
    rows ← run_trials L boost original (Z.to_nat trials) 0;
    totals rows).
End bench.
