(* ===== verification/BenchRunThms.v ===== *)
(** * The measuring runs of the benchmarks: the properties

    A leg measures the time its routine took with the display as asked; a handshake trial stages the
    same trial twice, as shipped and with the blanking patched out, and puts the code back. *)

From S2P Require Export BenchRun TodThms ViceUtilThms.

Section inversion.
Context {W : Type} `{!Vice W} `{!BenchHost W}.
Abbreviation M := (eff (rig_state W) rig_error).

Lemma bind_ret {A B} (m : M A) (f : A → M B) s b s' :
  (m ≫= f) s = Ret b s' → ∃ a s1, m s = Ret a s1 ∧ f a s1 = Ret b s'.
Proof. rewrite run_bind. destruct (m s) as [a s1|]; [|done]. eauto. Qed.

Lemma use_ret {A} (m : eff W string A) shown failed s a s' :
  use m shown failed s = Ret a s' → r_log s' = r_log s ++ [shown a].
Proof. unfold use. destruct (m (r_world s)); [|done]. by intros [= -> <-]. Qed.

Lemma label_ret L name (s : rig_state W) a s' : rig_label L name s = Ret a s' → Pcap.assoc name L = Some a ∧ s' = s.
Proof. unfold rig_label. destruct (Pcap.assoc name L); [|done]. by intros [= -> ->]. Qed.

Lemma host_ret {A} (m : eff W string A) (s : rig_state W) a s' : host m s = Ret a s' → r_log s' = r_log s.
Proof. unfold host. destruct (m (r_world s)); [|done]. by intros [= -> <-]. Qed.

Lemma peek1_ret addr (s : rig_state W) v s' :
  peek1 addr s = Ret v s' → ∃ l, r_log s' = r_log s ++ [Got addr (v :: l)].
Proof.
  intros (l & s1 & Hr%use_ret & Hl)%bind_ret. destruct l as [|v' l]; [done|]. injection Hl as -> ->. by exists l.
Qed.

Lemma clock_ret (s : rig_state W) v s' :
  read_tod_tenths s = Ret v s' →
  ∃ hr mn sc tn, v = tod_tenths hr mn sc tn ∧
    r_log s' = r_log s ++ [Called TOD_READ; Got TOD_RESULT [hr; mn; sc; tn]].
Proof.
  intros ([] & s1 & H1%use_ret & (l & s2 & H2%use_ret & H3)%bind_ret)%bind_ret.
  destruct l as [|hr [|mn [|sc [|tn []]]]]; try done. injection H3 as <- ->.
  exists hr, mn, sc, tn. by rewrite H2, H1, <- app_assoc.
Qed.
End inversion.

(** ** A handshake trial *)

(** What [load_trial] writes where; the labels are all there. *)
Fixpoint staged (L : list (string * Z)) (l : list (string * bytes)) : option (list (Z * bytes)) :=
  match l with
  | [] => Some []
  | (name, v) :: l => a ← Pcap.assoc name L; r ← staged L l; Some ((a, v) :: r)
  end.
Definition put_events (l : list (Z * bytes)) : list event := (λ p, Put p.1 p.2) <$> l.

Definition trial_fields (t : trial) : list (string * bytes) :=
  [("hs_c", tr_c t); ("hs_h", tr_h t); ("hs_ephem_priv", tr_ephem_priv t); ("hs_static_priv", tr_static_priv t);
   ("hs_static_pub", tr_static_pub t); ("hs_resp_pub", tr_resp_pub t); ("hs_sender_idx", tr_sender_idx t);
   ("hs_preshared_key", replicate 32 0); ("wg_state", [1]); ("udp_recv_buf", tr_type2_packet t);
   ("udp_recv_len", [92; 0]); ("udp_recv_ready", [1])].

(** A leg: the trial staged, the clock cleared, the handler called, the clock read as [tenths] and the
    session's state as [state]. *)
Definition leg_log (L : list (string * Z)) (t : trial) (leg : Z * Z) (tr : list event) : Prop :=
  ∃ puts handler cell hr mn sc tn rest,
    staged L (trial_fields t) = Some puts ∧
    Pcap.assoc "session_handle_packet" L = Some handler ∧ Pcap.assoc "wg_state" L = Some cell ∧
    leg.1 = tod_tenths hr mn sc tn ∧
    tr = put_events puts ++ [Called TOD_START; Called handler; Called TOD_READ; Got TOD_RESULT [hr; mn; sc; tn];
                             Got cell (leg.2 :: rest)].

(** A trial: one leg on the code as it was, one with the routine that blanks returning at once, and the
    code put back and found so. *)
Definition trial_log (L : list (string * Z)) (boost : Z) (original : bytes) (r : trial_row) (tr : list event) : Prop :=
  ∃ t on off tr1 tr2,
    leg_log L t on tr1 ∧ leg_log L t off tr2 ∧ r = (on.1, off.1, (on.2 =? 2) && (off.2 =? 2)) ∧
    tr = Put boost original :: tr1 ++ Put boost [RTS_BYTE] :: tr2 ++ [Put boost original; Got boost original].

Section handshake.
Context {W : Type} `{!Vice W} `{!BenchHost W}.
Abbreviation M := (eff (rig_state W) rig_error).

Lemma put_fields_ret L l (s : rig_state W) u s' :
  put_fields L l s = Ret u s' → ∃ puts, staged L l = Some puts ∧ r_log s' = r_log s ++ put_events puts.
Proof.
  revert s. induction l as [|[name v] l IH]; intros s; cbn [put_fields staged].
  - intros [= _ <-]. exists []. by rewrite app_nil_r.
  - intros (a & s1 & [Ha ->]%label_ret & ([] & s2 & H2%use_ret & H3)%bind_ret)%bind_ret.
    destruct (IH _ H3) as (puts & Hp & Hl). exists ((a, v) :: puts). rewrite Ha. cbn. rewrite Hp. split; [done|].
    by rewrite Hl, H2, <- app_assoc.
Qed.

Lemma time_type2_ret L t (s : rig_state W) leg s' :
  time_type2 L t s = Ret leg s' → ∃ tr, r_log s' = r_log s ++ tr ∧ leg_log L t leg tr.
Proof.
  intros ([] & s1 & (puts & Hp & H1)%put_fields_ret & H)%bind_ret.
  apply bind_ret in H as ([] & s2 & H2%use_ret & H).
  apply bind_ret in H as (handler & s3 & [Hh ->]%label_ret & H).
  apply bind_ret in H as ([] & s3 & H3%use_ret & H).
  apply bind_ret in H as (tenths & s4 & (hr & mn & sc & tn & Hv & H4)%clock_ret & H).
  apply bind_ret in H as (cell & s5 & [Hc ->]%label_ret & H).
  apply bind_ret in H as (state & s5 & (rest & H5)%peek1_ret & H). injection H as <- <-.
  eexists. split; [by rewrite H5, H4, H3, H2, H1, <- !app_assoc|].
  exists puts, handler, cell, hr, mn, sc, tn, rest. done.
Qed.

Lemma run_trial_ret L boost original i (s : rig_state W) r s' :
  run_trial L boost original i s = Ret r s' → ∃ tr, r_log s' = r_log s ++ tr ∧ trial_log L boost original r tr.
Proof.
  intros (t & s1 & H1%host_ret & H)%bind_ret.
  apply bind_ret in H as ([] & s2 & H2%use_ret & H).
  apply bind_ret in H as (on & s3 & (tr1 & H3 & L1)%time_type2_ret & H).
  apply bind_ret in H as ([] & s4 & H4%use_ret & H).
  apply bind_ret in H as (off & s5 & (tr2 & H5 & L2)%time_type2_ret & H).
  apply bind_ret in H as ([] & s6 & H6%use_ret & H).
  apply bind_ret in H as (there & s7 & H7%use_ret & H).
  case_bool_decide as Hd; [|done]. subst there. injection H as <- <-.
  eexists. split; [by rewrite H7, H6, H5, H4, H3, H2, H1, <- !app_assoc|].
  by exists t, on, off, tr1, tr2.
Qed.

Lemma run_trials_ret L boost original n i (s : rig_state W) rows s' :
  run_trials L boost original n i s = Ret rows s' →
  ∃ trs, r_log s' = r_log s ++ concat trs ∧ length rows = n ∧ Forall2 (trial_log L boost original) rows trs.
Proof.
  revert i s rows s'. induction n as [|n IH]; intros i s rows s'; cbn [run_trials].
  - intros [= <- <-]. exists []. by rewrite app_nil_r.
  - intros (r & s1 & (tr & H1 & L1)%run_trial_ret & H)%bind_ret.
    apply bind_ret in H as (rs & s2 & (trs & H2 & Hn & L2)%IH & H). injection H as <- <-.
    exists (tr :: trs). split_and!; [by rewrite H2, H1, <- app_assoc|by cbn; rewrite Hn|by constructor].
Qed.

Lemma manager_ret {A} (body : M A) s a s' :
  with_manager body s = Ret a s' →
  ∃ s1 s2, body s1 = Ret a s2 ∧ r_log s1 = r_log s ∧ r_log s' = r_log s2.
Proof.
  intros ([] & s1 & H1%host_ret & H)%bind_ret. unfold finally in H.
  destruct (body s1) as [a' s2|e s2] eqn:Hb; destruct (host br_exit s2) as [u s3|e' s3] eqn:Hx; try done.
  injection H as -> ->. apply host_ret in Hx. by exists s1, s2.
Qed.

Lemma or_bad_ret {A} (o : option A) (s : rig_state W) a s' : or_bad o s = Ret a s' → o = Some a ∧ s' = s.
Proof. destruct o; [|done]. by intros [= -> ->]. Qed.

Lemma ready_ret fuel L timeout pause (s s' : rig_state W) :
  binary_wait_for_boot_ready fuel L timeout pause s = Ret true s' →
  ∃ tr tr', r_log s' = r_log s ++ tr ++ tr' ∧ accepted_boot L tr'.
Proof.
  intros Hr. pose proof (ready_keyed fuel L timeout pause s Unknown (or_introl eq_refl)) as H.
  rewrite Hr in H. destruct H as (tr & q & Hl & _ & _ & _ & Hb). destruct (Hb eq_refl) as (tr1 & tr2 & -> & Ha).
  by exists tr1, tr2.
Qed.

(** The routines of the clock, put in place. *)
Definition clock_installed : list event :=
  [Put TOD_START tod_start_code; Put TOD_READ tod_read_code].

Lemma install_clock_ret (s : rig_state W) u s' :
  install_clock s = Ret u s' → r_log s' = r_log s ++ clock_installed.
Proof.
  unfold install_clock. rewrite tod_start_built, tod_read_built.
  intros (c1 & s1 & [[= <-] ->]%or_bad_ret & H)%bind_ret.
  apply bind_ret in H as ([] & s2 & H2%use_ret & H).
  apply bind_ret in H as (c2 & s3 & [[= <-] ->]%or_bad_ret & H3%use_ret).
  by rewrite H3, H2, <- app_assoc.
Qed.

Lemma totals_ret rows (s : rig_state W) rep s' :
  totals rows s = Ret rep s' →
  s' = s ∧ hr_rows rep = rows ∧ Forall (λ r, r.2 = true) rows ∧ hr_on rep ≠ 0 ∧ hr_off rep ≠ 0 ∧
  hr_on rep = foldl Z.add 0 (rows.*1.*1) ∧ hr_off rep = foldl Z.add 0 (rows.*1.*2).
Proof.
  unfold totals. destruct (forallb snd rows) eqn:Hall; [|done]. cbn [negb].
  destruct (_ || _) eqn:Hz; [done|]. intros [= <- <-]. cbn.
  apply orb_false_iff in Hz as [Hoff%Z.eqb_neq Hon%Z.eqb_neq]. split_and!; try done.
  apply Forall_forall. intros r Hr. rewrite forallb_forall in Hall. apply Hall. by apply list_elem_of_In.
Qed.
End handshake.

(** ** A leg of the blanking benchmark *)

(** What the emulated machine promises the driver that measures [target]: its memory below the I/O area
    holds what was written, bit 4 of $D011 is the display's, and the three routines, installed, do what
    [Clock.tod_start_clears], [Clock.tod_read_untorn] and [Bench.loop_stub_calls] show of the code:
    they clear the clock, store the time it shows, and call the target as often as asked.  [called w]
    counts the calls of it; [ready w] is what it needs, which the driver's own doings leave. *)
Section machine.
Context {W : Type} `{!Vice W} `{!BenchHost W}.
Context (peek : W → Z → Z) (den : W → bool) (clock : W → Z).
Context (target : Z) (called : W → Z) (ready : W → Prop).

Definition plain (a n : Z) : Prop := 0 ≤ a ∧ 0 ≤ n ∧ a + n ≤ 0xD000.
(** The memory the benchmark takes. *)
Definition own (a n : Z) : Prop := STUB ≤ a ∧ 0 ≤ n ∧ a + n ≤ TOD_RESULT + 4.
Definition holds (w : W) (a : Z) (l : bytes) : Prop := ∀ i v, l !! i = Some v → peek w (a + Z.of_nat i) = v.
Definition stored (w w' : W) (a : Z) (l : bytes) : Prop :=
  holds w' a l ∧ ∀ k, k < a ∨ a + len l ≤ k → peek w' k = peek w k.
(** The routines of the clock. *)
Definition installed (w : W) : Prop := holds w TOD_START tod_start_code ∧ holds w TOD_READ tod_read_code.
(** Below the benchmark's own cells. *)
Definition same_code (w w' : W) : Prop := ∀ k, TOD_START ≤ k < TOD_RESULT → peek w' k = peek w k.
(** The target is where it was, and as often called. *)
Definition undisturbed (w w' : W) : Prop := called w' = called w ∧ (ready w → ready w').

Record timed_machine : Prop := TimedMachine {
  tm_write : ∀ w a l, plain a (len l) → is_bytes l → ready w →
    ∃ w', vm_write a l w = Ret tt w' ∧ stored w w' a l ∧ den w' = den w ∧ called w' = called w ∧
          (own a (len l) → ready w');
  tm_result : ∀ w, ready w → ∃ w', vm_read TOD_RESULT 4 w = Ret (peek w <$> seqZ TOD_RESULT 4) w' ∧ peek w' = peek w ∧
    undisturbed w w';
  tm_ctrl : ∀ w, ready w → ∃ c w', vm_read VIC_CTRL1 1 w = Ret [c] w' ∧ byte c ∧ Z.testbit c 4 = den w ∧
    peek w' = peek w ∧ undisturbed w w';
  tm_set_ctrl : ∀ w c, byte c → ready w → ∃ w', vm_write VIC_CTRL1 [c] w = Ret tt w' ∧ den w' = Z.testbit c 4 ∧
    peek w' = peek w ∧ undisturbed w w';
  tm_start : ∀ w, installed w → ready w → ∃ w', br_jsr TOD_START 10 w = Ret tt w' ∧ clock w' = 0 ∧ den w' = den w ∧
    (∀ k, 0x200 ≤ k < 0xD000 → peek w' k = peek w k) ∧ undisturbed w w';
  tm_snapshot : ∀ w, installed w → ready w → ∃ w', br_jsr TOD_READ 10 w = Ret tt w' ∧
    (let m k := peek w' (TOD_RESULT + k) in tod_tenths (m 0) (m 1) (m 2) (m 3) = clock w mod HALF_DAY) ∧
    same_code w w' ∧ undisturbed w w';
  tm_stub : ∀ w outer inner timeout code, build_loop_stub target outer inner = Some code →
    holds w STUB code → installed w → ready w → ∃ w', br_jsr STUB timeout w = Ret tt w' ∧ same_code w w' ∧
    called w' = called w + reps outer * reps inner ∧ ready w';
}.

Context (machine : timed_machine).
Abbreviation M := (eff (rig_state W) rig_error).

Lemma installed_same w w' : installed w → same_code w w' → installed w'.
Proof.
  intros [H1 H2] Hs.
  split; intros i v Hi; [rewrite <- (H1 i v Hi)|rewrite <- (H2 i v Hi)]; apply Hs; apply lookup_lt_Some in Hi;
    unfold TOD_START, TOD_READ, TOD_RESULT in *; cbn in Hi; lia.
Qed.

Lemma holds_same w w' a l : holds w a l → (∀ k, a ≤ k < a + len l → peek w' k = peek w k) → holds w' a l.
Proof.
  intros Hh Hs i v Hi. rewrite <- (Hh i v Hi). apply Hs. apply lookup_lt_Some in Hi. unfold len. lia.
Qed.

(** A use that succeeds. *)
Lemma use_run {A} (m : eff W string A) shown failed (s : rig_state W) a w :
  m (r_world s) = Ret a w → use m shown failed s = Ret a (RigState w (r_log s ++ [shown a])).
Proof. intros Hm. unfold use. by rewrite Hm. Qed.

(** The register that blanks the display, read and written back. *)
Definition blank_set (blanked : bool) (w w' : W) : Prop :=
  ∃ c w1, vm_read VIC_CTRL1 1 w = Ret [c] w1 ∧ vm_write VIC_CTRL1 [den_byte c blanked] w1 = Ret tt w'.

Lemma set_blank_run blanked (s : rig_state W) :
  ready (r_world s) → ∃ v s', set_blank blanked s = Ret v s' ∧ den (r_world s') = negb blanked ∧ peek (r_world s') = peek (r_world s) ∧
          undisturbed (r_world s) (r_world s') ∧ blank_set blanked (r_world s) (r_world s').
Proof.
  intros Hr. destruct (tm_ctrl machine (r_world s) Hr) as (c & w1 & H1 & Hc & _ & P1 & C1 & R1).
  assert (Hb : byte (den_byte c blanked)).
  { destruct blanked; unfold den_byte.
    - split; [apply Z.land_nonneg; unfold byte in Hc; lia|].
      apply (bits_below 8); [lia| |apply Z.land_nonneg; unfold byte in Hc; lia].
      intros i Hi. by rewrite Z.land_spec, (testbit_above 8 c).
    - apply byte_lor; [done|unfold byte, DEN_BIT; lia]. }
  assert (Hbit : Z.testbit (den_byte c blanked) 4 = negb blanked).
  { destruct blanked; unfold den_byte; rewrite ?Z.land_spec, ?Z.lor_spec; [|apply orb_true_r].
    apply andb_false_r. }
  destruct (tm_set_ctrl machine w1 _ Hb (R1 Hr)) as (w2 & H2 & D2 & P2 & C2 & R2).
  enough (∃ l, set_blank blanked s = Ret (den_byte c blanked) (RigState w2 l)) as [l Hs].
  { eexists _, _. split; [exact Hs|]. cbn. rewrite D2, P2. split_and!; [done..| |by exists c, w1].
    split; [by rewrite C2|tauto]. }
  eexists. unfold set_blank, peek1, read, write. rewrite !run_bind, (use_run _ _ _ _ _ _ H1).
  unfold py_bytes, mret, eff_ret. rewrite run_bind, decide_True by (by apply Forall_singleton). cbn [or_bad].
  unfold mret, eff_ret. rewrite run_bind.
  by rewrite (use_run (vm_write VIC_CTRL1 _) _ _ (RigState w1 _) _ _ H2).
Qed.

(** One leg, from the machine [w] to [w'], and its figure [v].  Every operation of the machine in between is
    named, so that no other machine state can stand for one of the run: the stub [code] is put in place
    and the display set as asked; the clock is cleared, and at zero, when the stub is called; the stub calls the
    target so often; the display is put on again and only then the clock is looked at, which gives [v]. *)
Definition leg (code : bytes) (timeout n : Z) (blanked : bool) (w : W) (v : Z) (w' : W) : Prop :=
  ∃ wa wb w1 w2 w3 w4,
    vm_write STUB code w = Ret tt wa ∧ blank_set blanked wa wb ∧ br_jsr TOD_START 10 wb = Ret tt w1 ∧
    (clock w1 = 0 ∧ den w1 = negb blanked ∧ called w1 = called w) ∧
    br_jsr STUB timeout w1 = Ret tt w2 ∧ called w2 = called w1 + n ∧
    blank_set false w2 w3 ∧ (den w3 = true ∧ called w3 = called w2) ∧
    br_jsr TOD_READ 10 w3 = Ret tt w4 ∧ v = clock w3 mod HALF_DAY ∧
    vm_read TOD_RESULT 4 w4 = Ret (peek w4 <$> seqZ TOD_RESULT 4) w' ∧ called w' = called w2.

Lemma leg_calls code timeout n blanked w v w' : leg code timeout n blanked w v w' → called w' = called w + n.
Proof. intros (? & ? & ? & ? & ? & ? & _ & _ & _ & (_ & _ & H1) & _ & H2 & _ & _ & _ & _ & _ & H3). lia. Qed.

(** The routines of the clock are there, and the target can be called. *)
Definition set_up (w : W) : Prop := installed w ∧ ready w.

Lemma set_up_same w w' : set_up w → same_code w w' → undisturbed w w' → set_up w'.
Proof. intros [Hi Hr] Hs [_ Hu]. split; [by eapply installed_same|by apply Hu]. Qed.

(** The driver's preparation: the routines of the clock put in place. *)
Lemma install_clock_run (s : rig_state W) :
  ready (r_world s) →
  ∃ s', install_clock s = Ret tt s' ∧ set_up (r_world s') ∧ called (r_world s') = called (r_world s).
Proof.
  intros Hr.
  destruct (tm_write machine (r_world s) TOD_START tod_start_code) as (w1 & H1 & [S1 F1] & _ & C1 & R1);
    [by vm_compute|by apply (bool_decide_unpack _); vm_compute|done|].
  specialize (R1 ltac:(by vm_compute)).
  destruct (tm_write machine w1 TOD_READ tod_read_code) as (w2 & H2 & [S2 F2] & _ & C2 & R2);
    [by vm_compute|by apply (bool_decide_unpack _); vm_compute|done|].
  specialize (R2 ltac:(by vm_compute)).
  eexists. split.
  - unfold install_clock. rewrite tod_start_built, tod_read_built. cbn [or_bad]. unfold mret, eff_ret.
    rewrite run_bind. unfold write. rewrite run_bind, (use_run _ _ _ _ _ _ H1), run_bind.
    rewrite (use_run _ _ _ (RigState w1 _) _ _ H2). reflexivity.
  - cbn [r_world]. split; [|congruence]. split; [split; [|done]|done].
    apply (holds_same w1); [done|]. intros k Hk. apply F2. left. change (len tod_start_code) with 23 in Hk.
    unfold TOD_START, TOD_READ in *. lia.
Qed.

(** Up to the call: the stub in place, the display as asked and the clock at zero. *)
Lemma time_run_before blanked code (s : rig_state W) :
  len code = 24 → is_bytes code → set_up (r_world s) →
  ∃ s', (write STUB code;; set_blank blanked;; tod_start) s = Ret tt s' ∧ set_up (r_world s') ∧
    holds (r_world s') STUB code ∧ (clock (r_world s') = 0 ∧ den (r_world s') = negb blanked ∧
    called (r_world s') = called (r_world s)) ∧
    ∃ wa wb, vm_write STUB code (r_world s) = Ret tt wa ∧ blank_set blanked wa wb ∧
      br_jsr TOD_START 10 wb = Ret tt (r_world s').
Proof.
  intros Hlen Hbytes Hs.
  destruct (tm_write machine (r_world s) STUB code) as (w1 & H1 & [S1 F1] & _ & C1 & R1).
  { rewrite Hlen. by vm_compute. }
  { done. }
  { apply Hs. }
  assert (U1 : set_up w1).
  { apply (set_up_same (r_world s)); [done|..].
    - intros k Hk. apply F1. rewrite Hlen. unfold STUB, TOD_START in *. lia.
    - split; [done|]. intros _. apply R1. rewrite Hlen. unfold own, STUB, TOD_RESULT. lia. }
  rewrite run_bind. unfold write. rewrite (use_run _ _ _ _ _ _ H1). set (s1 := RigState w1 _). rewrite run_bind.
  destruct (set_blank_run blanked s1 (proj2 U1)) as (c & s2 & -> & D2 & P2 & U2' & B2). cbn [r_world s1] in P2, U2', B2.
  assert (U2 : set_up (r_world s2)) by (apply (set_up_same w1); [done| |done]; intros k _; by rewrite P2).
  destruct (tm_start machine (r_world s2) (proj1 U2) (proj2 U2)) as (w3 & H3 & K3 & D3 & P3 & U3').
  unfold tod_start, jsr. rewrite (use_run _ _ _ _ _ _ H3). eexists. split; [reflexivity|]. cbn [r_world].
  split_and!; [| |done|congruence| |by exists w1, (r_world s2)].
  - apply (set_up_same (r_world s2)); [done| |done]. intros k Hk. apply P3. unfold TOD_START, TOD_RESULT in *. lia.
  - apply (holds_same w1); [done|]. intros k Hk. rewrite Hlen in Hk. rewrite P3, P2; [done|]. unfold STUB in *. lia.
  - destruct U2', U3'. congruence.
Qed.

Lemma time_run_leg outer inner blanked timeout code (s : rig_state W) :
  build_loop_stub target outer inner = Some code → set_up (r_world s) →
  ∃ v s', time_run target outer inner blanked timeout s = Ret v s' ∧ set_up (r_world s') ∧
          leg code timeout (reps outer * reps inner) blanked (r_world s) v (r_world s').
Proof.
  intros Hcode Hs.
  assert (Hlen : len code = 24 ∧ is_bytes code).
  { pose proof Hcode as Hb. unfold build_loop_stub in Hb. split; [|by eapply py_bytes_bytes].
    unfold py_bytes in Hb. case_decide; [|done]. by injection Hb as <-. }
  destruct (time_run_before blanked code s (proj1 Hlen) (proj2 Hlen) Hs) as (s3 & B3 & U3 & S3 & K3 & wa & wb & Wa & Wb & W3).
  destruct (tm_stub machine (r_world s3) outer inner timeout code Hcode S3 (proj1 U3) (proj2 U3))
    as (w4 & H4 & P4 & C4 & R4).
  set (s4 := RigState w4 (r_log s3 ++ [Called STUB])).
  assert (U4 : set_up w4) by (split; [by apply (installed_same (r_world s3)); [apply U3|]|done]).
  destruct (set_blank_run false s4 R4) as (c' & s5 & B5 & D5 & P5 & U5' & W5). cbn [r_world s4] in P5, U5', W5.
  assert (U5 : set_up (r_world s5)) by (apply (set_up_same w4); [done| |done]; intros k _; by rewrite P5).
  destruct (tm_snapshot machine (r_world s5) (proj1 U5) (proj2 U5)) as (w6 & H6 & V6 & P6 & U6').
  assert (U6 : set_up w6) by by eapply set_up_same.
  destruct (tm_result machine w6 (proj2 U6)) as (w7 & H7 & P7 & U7').
  assert (U7 : set_up w7) by (apply (set_up_same w6); [done| |done]; intros k _; by rewrite P7).
  eexists _, (RigState w7 _). cbn [r_world]. split_and!; [|done|].
  - unfold time_run. rewrite run_bind, Hcode. cbn [or_bad]. unfold mret at 1, eff_ret at 1.
    apply bind_ret in B3 as ([] & s1 & B1 & (c & s2 & B2 & B3)%bind_ret).
    rewrite run_bind, B1, run_bind, B2, run_bind, B3, run_bind. unfold jsr at 1. rewrite (use_run _ _ _ s3 _ _ H4).
    change (RigState w4 _) with s4. rewrite run_bind, B5. unfold read_tod_tenths, jsr. rewrite run_bind, (use_run _ _ _ _ _ _ H6), run_bind.
    unfold read. rewrite (use_run _ _ _ (RigState w6 _) _ _ H7). reflexivity.
  - destruct U5' as [C5 _], U6' as [C6 _], U7' as [C7 _].
    destruct K3 as (K3 & D3 & C3). exists wa, wb, (r_world s3), w4, (r_world s5), w6.
    split_and!; try done; congruence.
Qed.

(** A preparation that leaves the clock's routines and the target alone. *)
Definition harmless (m : M unit) : Prop :=
  ∀ s, set_up (r_world s) → ∃ s', m s = Ret tt s' ∧ set_up (r_world s').
End machine.

Section legs.
Context {W : Type} `{!Vice W} `{!BenchHost W}.
Context (peek : W → Z → Z) (den : W → bool) (clock : W → Z) (addr : Z) (called : W → Z) (ready : W → Prop).
Context (machine : timed_machine peek den clock addr called ready).

(** The machine before and after the preparation of a leg. *)
Definition prepared (setup : option (eff (rig_state W) rig_error unit)) (w w' : W) : Prop :=
  match setup with
  | None => w' = w
  | Some m => ∃ s s', m s = Ret tt s' ∧ r_world s = w ∧ r_world s' = w'
  end.

Lemma setup_run setup (s : rig_state W) :
  (∀ m, setup = Some m → harmless peek ready m) → set_up peek ready (r_world s) →
  ∃ s', default (mret tt) setup s = Ret tt s' ∧ set_up peek ready (r_world s') ∧
    prepared setup (r_world s) (r_world s').
Proof.
  destruct setup as [m|]; intros Hm Hs; [|by exists s]. destruct (Hm m eq_refl s Hs) as (s' & ? & ?).
  exists s'. split_and!; [done..|]. by exists s, s'.
Qed.

(** Two legs of the same routine, one with the display on and one without. *)
Lemma bench_run L name symbol outer inner setup timeout code (s : rig_state W) :
  Pcap.assoc symbol L = Some addr → build_loop_stub addr outer inner = Some code →
  0 < outer → 0 < inner → (∀ m, setup = Some m → harmless peek ready m) → set_up peek ready (r_world s) →
  ∃ on off w1 w1' w2 s',
    leg peek den clock called code timeout (outer * inner) false w1 on w1' ∧
    leg peek den clock called code timeout (outer * inner) true w2 off (r_world s') ∧
    bench L name symbol outer inner setup timeout s =
      Ret (if (on <? 200) || (off <? 200) then None
           else Some (Measured name symbol (outer * inner) on off (ratio on off)
                        (fdiv (fmul (float_of_Z 100) (float_of_Z (on - off))) (float_of_Z on)))) s' ∧
    set_up peek ready (r_world s') ∧ prepared setup (r_world s) w1 ∧ prepared setup w1' w2.
Proof.
  intros Hl Hcode Ho Hi Hset Hs.
  assert (Hn : reps outer * reps inner = outer * inner).
  { unfold reps. by rewrite !(proj2 (Z.eqb_neq _ 0)) by lia. }
  destruct (setup_run setup s Hset Hs) as (s1 & R1 & I1 & N1).
  destruct (time_run_leg _ _ _ _ _ _ machine outer inner false timeout code s1 Hcode I1) as (on & s2 & R2 & I2 & L1).
  destruct (setup_run setup s2 Hset I2) as (s3 & R3 & I3 & N3).
  destruct (time_run_leg _ _ _ _ _ _ machine outer inner true timeout code s3 Hcode I3) as (off & s4 & R4 & I4 & L2).
  rewrite Hn in L1, L2. exists on, off, (r_world s1), (r_world s2), (r_world s3), s4.
  split_and!; [done|done| |done..].
  unfold bench, label_address. rewrite Hl. rewrite run_bind, R1, run_bind, R2, run_bind, R3, run_bind, R4. by case_match.
Qed.
End legs.

(** ** A machine that keeps its promises *)

Record bench_world := BenchWorld {
  bw_ram : Z → Z; bw_ctrl : Z; bw_clock : Z; bw_calls : Z → Z;
}.
Definition bw_store (a : Z) (l : bytes) (w : bench_world) : bench_world :=
  BenchWorld (λ k, if (a <=? k) && (k <? a + len l) then default 0 (l !! Z.to_nat (k - a)) else bw_ram w k)
    (bw_ctrl w) (bw_clock w) (bw_calls w).
Definition bw_den (w : bench_world) : bool := Z.testbit (u8 (bw_ctrl w)) 4.
(** Work done: the calls counted, the time it takes. *)
Definition bw_work (a n dt : Z) (w : bench_world) : bench_world :=
  BenchWorld (bw_ram w) (bw_ctrl w) (bw_clock w + dt) (λ k, if k =? a then bw_calls w k + n else bw_calls w k).

Definition BOOST : Z := 0x9300.
Definition demo_labels : list (string * Z) :=
  [("boot_ready", 0x9000); ("x25519_reu_fault", 0x9100); ("vic_boost_begin", BOOST);
   ("session_handle_packet", 0x8000); ("blake2s_compress", 0x8100); ("wg_state", 0x9200); ("hs_c", 0x9400);
   ("hs_h", 0x9420); ("hs_ephem_priv", 0x9440); ("hs_static_priv", 0x9460); ("hs_static_pub", 0x9480);
   ("hs_resp_pub", 0x94A0); ("hs_sender_idx", 0x94C0); ("hs_preshared_key", 0x94E0); ("udp_recv_buf", 0x9500);
   ("udp_recv_len", 0x9600); ("udp_recv_ready", 0x9602)].

Definition bw_jsr (addr : Z) (w : bench_world) : bench_world :=
  if addr =? TOD_START then BenchWorld (bw_ram w) (bw_ctrl w) 0 (bw_calls w)
  else if addr =? TOD_READ then
    let t := bw_clock w mod HALF_DAY in
    bw_store TOD_RESULT
      [hours_shown (t / 36000 mod 12) t; Bench.to_bcd (t / 600 mod 60); Bench.to_bcd (t / 10 mod 60); t mod 10] w
  else if addr =? STUB then
    bw_work (Z.lor (bw_ram w (STUB + 11)) (bw_ram w (STUB + 12) ≪ 8))
      (reps (bw_ram w (STUB + 1)) * reps (bw_ram w (STUB + 6))) (if bw_den w then 213 else 200) w
  else bw_store 0x9200 [2] (bw_work addr 1 (if bw_ram w BOOST =? RTS_BYTE then 4628 else 4344) w).

#[export] Instance bench_vice : Vice bench_world := {|
  vm_read a n := λ w, Ret (if a =? VIC_CTRL1 then [u8 (bw_ctrl w)] else bw_ram w <$> seqZ a n) w;
  vm_write a l := λ w,
    Ret tt (if a =? VIC_CTRL1 then BenchWorld (bw_ram w) (default 0 (head l)) (bw_clock w) (bw_calls w)
            else bw_store a l w);
  vm_resume := mret tt; vm_pc := mret 0; vm_set_checkpoint _ := mret 0; vm_wait _ := mret tt;
  vm_delete_checkpoint _ := mret tt; vm_screen := mret ""; vm_start := mret tt; vm_poll _ := None;
  vm_stop := mret tt; vm_connect := mret tt; vm_close := mret tt; vm_release := mret tt;
  vm_now w := (float_of_Z 0, w); vm_sleep _ w := w;
|}.
#[export] Instance bench_host : BenchHost bench_world := {|
  br_jsr addr _ := λ w, Ret tt (bw_jsr addr w);
  br_load_code a l := λ w, Ret tt (bw_store a l w);
  br_make := mret 0; br_labels := mret demo_labels; br_enter := mret tt; br_acquire := mret tt;
  br_release := mret tt; br_exit := mret tt; br_randint a _ := mret a;
  br_trial i := mret (Trial [1] [2] [3] [4] [5] [6] [7] [8]);
|}.

Lemma bw_store_stored a l w : stored bw_ram w (bw_store a l w) a l.
Proof.
  split.
  - intros i v Hi. cbn. pose proof (lookup_lt_Some _ _ _ Hi). unfold len.
    destruct (Z.leb_spec a (a + Z.of_nat i)); [|lia]. destruct (Z.ltb_spec (a + Z.of_nat i) (a + Z.of_nat (length l))); [|lia].
    cbn. replace (Z.to_nat (a + Z.of_nat i - a)) with i by lia. by rewrite Hi.
  - intros k Hk. cbn. destruct (Z.leb_spec a k); [|done]. by destruct (Z.ltb_spec k (a + len l)); [lia|].
Qed.

Lemma bench_promises target :
  word16 target → timed_machine bw_ram bw_den bw_clock target (λ w, bw_calls w target) (λ _, True).
Proof.
  intros Ht. constructor; unfold undisturbed.
  - intros w a l (Ha & _ & Hl) _ _. eexists. split; [reflexivity|].
    assert ((a =? VIC_CTRL1) = false) as -> by (apply Z.eqb_neq; unfold VIC_CTRL1, len in *; lia).
    split_and!; [apply bw_store_stored|done..].
  - intros w _. by exists w.
  - intros w _. exists (u8 (bw_ctrl w)), w. split_and!; try done. apply u8_byte.
  - intros w c Hc _. eexists. split; [reflexivity|]. cbn. split_and!; try done. unfold bw_den. cbn. by rewrite u8_small.
  - intros w _ _. by eexists.
  - intros w _ _. eexists. split; [reflexivity|]. cbn [bw_jsr]. split_and!; try done.
    + pose proof (Z.mod_pos_bound (bw_clock w) HALF_DAY ltac:(done)) as Hc.
      pose proof (Z.mod_pos_bound (bw_clock w mod HALF_DAY / 36000) 12 ltac:(lia)).
      pose proof (tod_registers (bw_clock w mod HALF_DAY)
        (hours_shown (bw_clock w mod HALF_DAY / 36000 mod 12) (bw_clock w mod HALF_DAY)) ltac:(lia)) as Hr.
      rewrite Z.mod_mod in Hr by done. apply Hr.
      exists (bw_clock w mod HALF_DAY / 36000 mod 12). split_and!; [lia|lia|by rewrite Z.mod_mod|done].
    + intros k Hk. apply (bw_store_stored TOD_RESULT _ w). left. apply Hk.
  - intros w outer inner timeout code Hcode Hh _ _. eexists. split; [reflexivity|]. split; [done|]. split; [|done].
    unfold build_loop_stub, py_bytes in Hcode. case_decide; [|done]. injection Hcode as <-.
    pose proof (Hh 1%nat _ eq_refl) as H1. pose proof (Hh 6%nat _ eq_refl) as H6.
    pose proof (Hh 11%nat _ eq_refl) as H11. pose proof (Hh 12%nat _ eq_refl) as H12.
    change (bw_calls (bw_work (Z.lor (bw_ram w (STUB + Z.of_nat 11)) (bw_ram w (STUB + Z.of_nat 12) ≪ 8))
      (reps (bw_ram w (STUB + Z.of_nat 1)) * reps (bw_ram w (STUB + Z.of_nat 6))) (if bw_den w then 213 else 200) w) target
      = bw_calls w target + reps outer * reps inner).
    rewrite H1, H6, H11, H12. cbn [bw_work bw_calls].
    change (Z.land target 0xFF) with (u8 target). change (Z.land (target ≫ 8) 0xFF) with (u8 (target ≫ 8)).
    by rewrite word16_split, Z.eqb_refl.
Qed.

(** Booted, its memory expansion healthy; 200 tenths and more for the calls of a leg. *)
Definition bench_booted : bench_world :=
  BenchWorld (λ k, if k =? 0x9000 then 1 else if (BOOST <=? k) && (k <? BOOST + 8) then 0xA9 else 0) 0x1B 0 (λ _, 0).
Definition bench_ready : rig_state bench_world :=
  RigState (bw_store TOD_READ tod_read_code (bw_store TOD_START tod_start_code bench_booted)) [].

Lemma bench_ready_installed : installed bw_ram (r_world bench_ready).
Proof.
  split; intros i v Hi; do 25 (destruct i as [|i]; [first [done | by injection Hi as <-]|]); done.
Qed.

Module Benchmarks.

(** A line of the blanking benchmark compares the same work with the display on and off: on a machine
    that keeps its promises, a routine that is in the labels is called exactly the product of the two
    counts in each leg; each figure is the time the clock, cleared once the display was as the leg asks,
    shows when the calls are done and the display is on again; a line is printed exactly when both legs
    took twenty seconds, with their quotient and the share saved in binary64. *)
Theorem bench_compares_legs {W} `{!Vice W} `{!BenchHost W} peek den clock addr called ready L name symbol
    outer inner setup timeout code (s : rig_state W) :
  timed_machine peek den clock addr called ready →
  Pcap.assoc symbol L = Some addr → build_loop_stub addr outer inner = Some code →
  0 < outer → 0 < inner → (∀ m, setup = Some m → harmless peek ready m) → set_up peek ready (r_world s) →
  ∃ on off w1 w1' w2 r s',
    bench L name symbol outer inner setup timeout s = Ret r s' ∧
    prepared setup (r_world s) w1 ∧ prepared setup w1' w2 ∧
    leg peek den clock called code timeout (outer * inner) false w1 on w1' ∧
    leg peek den clock called code timeout (outer * inner) true w2 off (r_world s') ∧
    (r = None ↔ on < 200 ∨ off < 200) ∧
    (∀ m, r = Some m → me_reps m = outer * inner ∧ me_on m = on ∧ me_off m = off ∧
       me_speedup m = ratio on off ∧
       me_saved_pct m = fdiv (fmul (float_of_Z 100) (float_of_Z (on - off))) (float_of_Z on)).
Proof.
  intros Hm Hl Hc Ho Hi Hset Hs.
  destruct (bench_run _ _ _ _ _ _ Hm L name symbol outer inner setup timeout code s Hl Hc Ho Hi Hset Hs)
    as (on & off & w1 & w1' & w2 & s' & L1 & L2 & R & _ & P1 & P2).
  eexists on, off, w1, w1', w2, _, s'. split_and!; [exact R|done..| |].
  - destruct (on <? 200) eqn:Hon; [split; [left; lia|done]|].
    destruct (off <? 200) eqn:Hoff; cbn; [split; [right; lia|done]|]. split; [done|lia].
  - intros m. case_match; [done|]. by intros [= <-].
Qed.

Lemma bench_compares_legs_witness :
  ∃ on off r s', bench demo_labels "blake2s" "blake2s_compress" 40 200 None 1800 bench_ready = Ret r s' ∧
    (r = None ↔ on < 200 ∨ off < 200).
Proof.
  destruct (bench_compares_legs bw_ram bw_den bw_clock 0x8100 (λ w, bw_calls w 0x8100) (λ _, True) demo_labels "blake2s"
    "blake2s_compress" 40 200 None 1800 (default [] (build_loop_stub 0x8100 40 200)) bench_ready)
    as (on & off & w1 & w1' & w2 & r & s' & Hr & _ & _ & _ & _ & Hi & _).
  - apply bench_promises. unfold word16. lia.
  - reflexivity.
  - by vm_compute.
  - lia.
  - lia.
  - done.
  - split; [exact bench_ready_installed|done].
  - exists on, off, r, s'. split; [exact Hr|exact Hi].
Defined.

(** C32. The handshake benchmark compares like with like: when it prints its totals, a boot with a
    healthy memory expansion was accepted and the clock's routines installed; every row comes from one
    trial staged twice, the first leg on the code as it was read, the second with nothing changed but
    the first byte of the blanking routine, an RTS, and after each trial the code was put back and read
    back; the clock was cleared right before each call of the handler and read right after it, both
    legs of every row reached the active session, and the totals, none of them zero, are the sums. *)
Theorem handshake_report_exact {W} `{!Vice W} `{!BenchHost W} fuel argv (s : rig_state W) rep s' :
  handshake_main fuel argv s = Ret rep s' →
  ∃ L boost original waited boot trs,
    Pcap.assoc "vic_boost_begin" L = Some boost ∧ accepted_boot L boot ∧
    r_log s' = r_log s ++ waited ++ boot ++ clock_installed ++ Got boost original :: concat trs ∧
    Forall2 (trial_log L boost original) (hr_rows rep) trs ∧
    hr_rows rep ≠ [] ∧ Forall (λ r, r.2 = true) (hr_rows rep) ∧ hr_on rep ≠ 0 ∧ hr_off rep ≠ 0 ∧
    hr_on rep = foldl Z.add 0 ((hr_rows rep).*1.*1) ∧ hr_off rep = foldl Z.add 0 ((hr_rows rep).*1.*2).
Proof.
  intros (trials & s1 & H1 & H)%bind_ret.
  assert (s1 = s) as ->.
  { unfold trials_of in H1. destruct (list_find _ _) as [[i x]|]; [|by injection H1].
    apply bind_ret in H1 as (a & s2 & [_ ->]%or_bad_ret & [_ ->]%or_bad_ret). done. }
  apply bind_ret in H as (L & s2 & H2%host_ret & H).
  apply manager_ret in H as (s3 & s4 & H & H3 & H4).
  apply bind_ret in H as ([] & s5 & H5%host_ret & H).
  apply bind_ret in H as (ready & s6 & H6 & H). destruct ready; [|done].
  apply ready_ret in H6 as (waited & boot & H6 & Hboot).
  apply bind_ret in H as ([] & s7 & H7%install_clock_ret & H).
  apply bind_ret in H as (boost & s8 & [Hb ->]%label_ret & H).
  apply bind_ret in H as (original & s8 & H8%use_ret & H).
  apply bind_ret in H as (rows & s9 & (trs & H9 & _ & Htr)%run_trials_ret & H).
  apply totals_ret in H as (-> & Hrows & Hall & Hon & Hoff & Eon & Eoff). rewrite Hrows.
  exists L, boost, original, waited, boot, trs. split_and!; try done.
  - by rewrite H4, H9, H8, H7, H6, H5, H3, H2, <- !app_assoc.
  - intros ->. by rewrite Eon in Hon.
Qed.

Lemma handshake_report_exact_witness :
  ∃ rep s', handshake_main 1 ["--trials"; "2"] (RigState bench_booted []) = Ret rep s' ∧
    Forall (λ r, r.2 = true) (hr_rows rep) ∧ hr_on rep ≠ 0.
Proof.
  destruct (handshake_main 1 ["--trials"; "2"] (RigState bench_booted [])) as [rep s'|e s'] eqn:Hrun.
  - destruct (handshake_report_exact 1 ["--trials"; "2"] (RigState bench_booted []) rep s' Hrun)
      as (L & boost & original & waited & boot & trs & _ & _ & _ & _ & _ & Hall & Hon & _).
    exists rep, s'. split; [reflexivity|]. split; [exact Hall|exact Hon].
  - exfalso. assert (Hok : match handshake_main 1 ["--trials"; "2"] (RigState bench_booted []) with
                            | Ret _ _ => True | Raise _ _ => False end) by (vm_compute; exact I).
    rewrite Hrun in Hok. exact Hok.
Defined.

(** The preparation of the field-arithmetic legs writes no operands: the two labels it writes 32 bytes
    at are the pointer cells at $1E and $20 that bench_fe_ops.py fills with addresses.  Afterwards both
    operands are read at $0201 and the result is stored at $0403, in the screen, and nothing above $3F
    has changed. *)
Theorem seed_fe_overwrites_pointers {W} `{!Vice W} `{!BenchHost W} peek den clock target called L (s : rig_state W) :
  timed_machine peek den clock target called (λ _, True) →
  Pcap.assoc "fe_src1" L = Some 0x1E → Pcap.assoc "fe_src2" L = Some 0x20 →
  ∃ s', seed_fe L s = Ret tt s' ∧
    let m := peek (r_world s') in
    m 0x1E + 256 * m 0x1F = 0x0201 ∧ m 0x20 + 256 * m 0x21 = 0x0201 ∧ m 0x22 + 256 * m 0x23 = 0x0403 ∧
    ∀ k, 0x40 ≤ k → m k = peek (r_world s) k.
Proof.
  intros Hm H1 H2. unfold seed_fe, label_address. cbn [seed_slots]. unfold label_address. rewrite H1, H2.
  destruct (tm_write _ _ _ _ _ _ Hm (r_world s) 0x1E (seqZ 1 32)) as (w1 & W1 & [S1 F1] & _);
    [by vm_compute|by apply (bool_decide_unpack _); vm_compute|done|].
  destruct (tm_write _ _ _ _ _ _ Hm w1 0x20 (seqZ 1 32)) as (w2 & W2 & [S2 F2] & _);
    [by vm_compute|by apply (bool_decide_unpack _); vm_compute|done|].
  eexists. split.
  - rewrite run_bind. unfold write. rewrite (use_run _ _ _ _ _ _ W1), run_bind.
    rewrite (use_run _ _ _ (RigState w1 _) _ _ W2). reflexivity.
  - cbn [r_world]. change (len (seqZ 1 32)) with 32 in *.
    assert (P0 : peek w2 0x20 = 1) by exact (S2 0%nat _ eq_refl).
    assert (P1 : peek w2 0x21 = 2) by exact (S2 1%nat _ eq_refl).
    assert (P2 : peek w2 0x22 = 3) by exact (S2 2%nat _ eq_refl).
    assert (P3 : peek w2 0x23 = 4) by exact (S2 3%nat _ eq_refl).
    assert (Q0 : peek w2 0x1E = 1) by (rewrite F2 by lia; exact (S1 0%nat _ eq_refl)).
    assert (Q1 : peek w2 0x1F = 2) by (rewrite F2 by lia; exact (S1 1%nat _ eq_refl)).
    rewrite P0, P1, P2, P3, Q0, Q1. split_and!; [done..|].
    intros k Hk. rewrite F2, F1; [done|lia|lia].
Qed.

Lemma seed_fe_overwrites_pointers_witness :
  ∃ s', seed_fe [("fe_src1", 0x1E); ("fe_src2", 0x20)] bench_ready = Ret tt s' ∧
    bw_ram (r_world s') 0x22 + 256 * bw_ram (r_world s') 0x23 = 0x0403.
Proof.
  destruct (seed_fe_overwrites_pointers bw_ram bw_den bw_clock 0 (λ w, bw_calls w 0)
    [("fe_src1", 0x1E); ("fe_src2", 0x20)] bench_ready) as (s' & Hs & _ & _ & Hd & _).
  - by apply bench_promises.
  - reflexivity.
  - reflexivity.
  - exists s'. split; [exact Hs|exact Hd].
Defined.
End Benchmarks.
