(* ===== verification/BenchEmu.v ===== *)
(** * The blanking benchmark on the 6502 interpreter

    A C64 made of the interpreter, a video chip and a clock chip behind its I/O window, as the machine the
    drivers of [BenchRun] are written for: what [timed_machine] promises follows from the machine
    code they install, executed. *)

From S2P Require Export BenchRunThms.

(** The machine, and how often each address was executed. *)
Record emu (D : Type) := Emu { e_cpu : cpu D; e_calls : Z → Z }.
Arguments Emu {D} _ _.
Arguments e_cpu {D} _.
Arguments e_calls {D} _ _.

Section emu.
Context {D : Type} `{IODevice D}.
Implicit Types s : cpu D.
Implicit Types w : emu D.

(** A use of the bus. *)
Definition at_bus {A} (m : eff (cpu D) exn A) : eff (emu D) string A := λ w,
  match m (e_cpu w) with
  | Ret a s => Ret a (Emu s (e_calls w))
  | Raise _ s => Raise "the bus" (Emu s (e_calls w))
  end.
Fixpoint peeks (n : nat) (a : Z) : eff (cpu D) exn bytes :=
  match n with O => mret [] | S n => v ← rd a; l ← peeks n (a + 1); mret (v :: l) end.
Fixpoint pokes (a : Z) (l : bytes) : eff (cpu D) exn unit :=
  match l with [] => mret tt | v :: l => wr a v;; pokes (a + 1) l end.

#[export] Instance emu_vice : Vice (emu D) := {|
  vm_read a n := at_bus (peeks (Z.to_nat n) a);
  vm_write a l := at_bus (pokes a l);
  vm_resume := mret tt; vm_pc := at_bus (gets cpu_pc); vm_set_checkpoint _ := mret 0; vm_wait _ := mret tt;
  vm_delete_checkpoint _ := mret tt; vm_screen := mret ""; vm_start := mret tt; vm_poll _ := None;
  vm_stop := mret tt; vm_connect := mret tt; vm_close := mret tt; vm_release := mret tt;
  vm_now w := (float_of_Z 0, w); vm_sleep _ w := w;
|}.

(** Running until the caller is reached again; [Raise] when it is not within [fuel] steps. *)
Fixpoint until_back (fuel : nat) : eff (emu D) string unit := λ w,
  let s := e_cpu w in
  if cpu_pc s =? RETURN_SENTINEL then Ret tt w else
  match fuel with
  | O => Raise "the timeout" w
  | S fuel =>
      match step s with
      | Raise _ s' => Raise "the machine stopped" (Emu s' (e_calls w))
      | Ret _ s' => until_back fuel (Emu s' (λ a, bool_Z (cpu_pc s =? a) + e_calls w a))
      end
  end.
Definition emu_jsr (fuel : nat) (addr : Z) : eff (emu D) string unit :=
  at_bus (call_push addr);; until_back fuel.

Definition emu_host (fuel : nat) : BenchHost (emu D) := {|
  br_jsr addr _ := emu_jsr fuel addr;
  br_load_code a l := at_bus (pokes a l);
  br_make := mret 0; br_labels := mret []; br_enter := mret tt; br_acquire := mret tt;
  br_release := mret tt; br_exit := mret tt; br_randint a _ := mret a;
  br_trial i := mret (Trial [] [] [] [] [] [] [] []);
|}.

(** ** What the chips and the routine promise *)

(** Bit 4 of $D011 is the display's, and the clock's registers are not the video chip's. *)
Record vic_chip (display : D → bool) : Prop := VicChip {
  vc_read : ∀ d, ∃ c d', io_read VIC_CTRL1 d = Ret c d' ∧ Z.testbit c 4 = display d;
  vc_write : ∀ d c, byte c → ∃ d', io_write VIC_CTRL1 c d = Ret tt d' ∧ display d' = Z.testbit c 4;
  vc_clock : ∀ d d', clock_io d d' → display d' = display d;
}.

(** The memory of the benchmark, and the stack. *)
Definition taken (k : Z) : Prop := STUB ≤ k < TOD_RESULT + 4 ∨ 0x100 ≤ k < 0x200.

(** A routine that can be measured: what it needs, [Inv], is not in the benchmark's memory; called, it
    returns within [K] steps, entered once, having written neither there nor to the caller's return
    address, and can be called again. *)
Record measurable (target K : Z) (Inv : cpu D → Prop) : Prop := Measurable {
  ms_word : word16 target;
  ms_steps : 0 ≤ K;
  ms_off : target < STUB ∨ TOD_RESULT + 4 ≤ target;
  ms_stable : ∀ s s', Inv s → mem_outside taken s s' → same_window s s' → Inv s';
  ms_call : ∀ sp0 s, byte sp0 → Inv s → cpu_pc s = target → cpu_sp s = u8 (u8 (sp0 - 1) - 1) →
    ∃ s', reaches target K 1 s s' ∧ cpu_pc s' = u16 (top_word s + 1) ∧ cpu_sp s' = sp0 ∧ same_window s s' ∧
      (∀ k, STUB ≤ k < TOD_RESULT + 4 ∨ k = 0x100 + u8 (sp0 + 1) ∨ k = 0x100 + u8 (u8 (sp0 + 1) + 1) →
            cpu_mem s' !! k = cpu_mem s !! k) ∧ Inv s';
}.
End emu.

(** ** Running a routine from outside *)

Section jsr.
Context {D : Type} `{IODevice D}.
Implicit Types s : cpu D.

Lemma visits_nonneg target n s : 0 ≤ visits target n s.
Proof.
  revert s. induction n as [|n IH]; intros s; cbn; [done|].
  assert (0 ≤ bool_Z (cpu_pc s =? target)) by (by destruct (cpu_pc s =? target)).
  destruct (step s) as [u s'|]; [specialize (IH s')|]; lia.
Qed.

(** The state the routine at [addr] is entered in. *)
Definition entered (addr : Z) s : cpu D := set_pc addr (pushed (RETURN_SENTINEL - 1) s).

Lemma call_push_entered addr s : byte (cpu_sp s) → call_push addr s = Ret (cpu_cycles s) (entered addr s).
Proof.
  intros Hsp. unfold call_push. rewrite run_bind, push_spec by done. rewrite run_bind, push_spec by apply u8_byte.
  done.
Qed.

Lemma entered_top addr s : byte (cpu_sp s) → u16 (top_word (entered addr s) + 1) = RETURN_SENTINEL.
Proof.
  intros Hsp. change (top_word (entered addr s)) with (top_word (pushed (RETURN_SENTINEL - 1) s)).
  by rewrite top_word_pushed by (done || (unfold word16, RETURN_SENTINEL; lia)).
Qed.

Lemma entered_sp addr s : byte (cpu_sp s) → u8 (cpu_sp (entered addr s) + 2) = cpu_sp s.
Proof.
  intros Hsp. cbn. unfold byte in Hsp. rewrite !u8_mod. Z.to_euclidean_division_equations. lia.
Qed.

Lemma entered_mem addr s : byte (cpu_sp s) → mem_outside (λ k, 0x100 ≤ k < 0x200) s (entered addr s).
Proof.
  intros Hsp k Hk. pose proof (u8_byte (cpu_sp s - 1)). unfold byte in *.
  unfold entered, pushed. cbn. rewrite !lookup_insert_ne by lia. done.
Qed.

Lemma until_back_run n fuel s s' calls :
  run n s = Some s' → visits RETURN_SENTINEL n s = 0 → cpu_pc s' = RETURN_SENTINEL → (n ≤ fuel)%nat →
  ∃ calls', until_back fuel (Emu s calls) = Ret tt (Emu s' calls') ∧ ∀ a, calls' a = calls a + visits a n s.
Proof.
  revert fuel s calls. induction n as [|n IH]; intros fuel s calls Hr Hv Hpc Hf.
  - injection Hr as ->. exists calls. split; [|intros a; cbn; lia].
    destruct fuel; cbn; by rewrite Hpc.
  - cbn in Hr, Hv. destruct (step s) as [u s1|] eqn:Hs; [|done]. pose proof (visits_nonneg RETURN_SENTINEL n s1).
    destruct (cpu_pc s =? RETURN_SENTINEL) eqn:Hne; cbn [bool_Z] in Hv; [lia|].
    destruct fuel as [|fuel]; [lia|].
    destruct (IH fuel s1 (λ a, bool_Z (cpu_pc s =? a) + calls a) Hr Hv Hpc ltac:(lia)) as (calls' & Hu & Hc).
    exists calls'. split; [cbn; by rewrite Hne, Hs|]. intros a. rewrite Hc. cbn [visits]. rewrite Hs. lia.
Qed.

(** A routine that gets back to its caller in time is run by [jsr]. *)
Lemma emu_jsr_run fuel addr n s s' calls :
  byte (cpu_sp s) → run n (entered addr s) = Some s' → visits RETURN_SENTINEL n (entered addr s) = 0 →
  cpu_pc s' = RETURN_SENTINEL → (n ≤ fuel)%nat →
  ∃ calls', emu_jsr fuel addr (Emu s calls) = Ret tt (Emu s' calls') ∧
            ∀ a, calls' a = calls a + visits a n (entered addr s).
Proof.
  intros Hsp Hr Hv Hpc Hf. unfold emu_jsr. rewrite run_bind. unfold at_bus. cbn [e_cpu].
  rewrite call_push_entered by done. by apply until_back_run.
Qed.
End jsr.

(** ** The bus, below the I/O area *)

Section bus.
Context {D : Type} `{IODevice D}.
Implicit Types s : cpu D.

Definition ram_area s (a n : Z) : Prop := ∀ k, a ≤ k < a + n → word16 k ∧ in_io k s = false.

Lemma peeks_run n a s :
  ram_area s a (Z.of_nat n) → peeks n a s = Ret ((λ k, default 0 (cpu_mem s !! k)) <$> seqZ a (Z.of_nat n)) s.
Proof.
  revert a. induction n as [|n IH]; intros a Ha; [done|]. cbn [peeks].
  destruct (Ha a ltac:(lia)) as [Hw Hio].
  rewrite run_bind, (rd_ram s s a (default 0 (cpu_mem s !! a))) by done. rewrite run_bind, IH.
  - rewrite (seqZ_cons a) by lia. replace (Z.succ a) with (a + 1) by lia.
    by replace (Z.pred (Z.of_nat (S n))) with (Z.of_nat n) by lia.
  - intros k Hk. apply Ha. lia.
Qed.

Lemma pokes_run l a s :
  ram_area s a (len l) → is_bytes l →
  ∃ m, pokes a l s = Ret tt (set_mem m s) ∧
    (∀ i v, l !! i = Some v → m !! (a + Z.of_nat i) = Some v) ∧
    ∀ k, k < a ∨ a + len l ≤ k → m !! k = cpu_mem s !! k.
Proof.
  intros Ha Hl. revert a s Ha. induction Hl as [|v l Hv Hl IH]; intros a s Ha.
  - exists (cpu_mem s). split_and!; [by destruct s|done|done].
  - unfold len in Ha. cbn [length] in Ha. destruct (Ha a ltac:(lia)) as [Hw Hio].
    destruct (IH (a + 1) (store a v s)) as (m & Hm & Hin & Hout).
    { intros k Hk. apply Ha. unfold len in Hk. lia. }
    exists m. split_and!.
    + cbn [pokes]. by rewrite run_bind, wr_ram.
    + intros [|i] x Hx.
      * injection Hx as ->. rewrite Z.add_0_r, Hout by lia. cbn. rewrite lookup_insert_eq. by rewrite u8_small.
      * rewrite <- (Hin i x Hx). f_equal. lia.
    + intros k Hk. unfold len in Hk. cbn [length] in Hk. rewrite Hout by (unfold len; lia). cbn.
      apply lookup_insert_ne. lia.
Qed.

(** What was poked is code. *)
Lemma holds_code s a l :
  (∀ i v, l !! i = Some v → default 0 (cpu_mem s !! (a + Z.of_nat i)) = v) → ram_area s a (len l) → code_at s a l.
Proof.
  revert a. induction l as [|v l IH]; intros a Hh Ha; [done|]. unfold len in Ha. cbn [length] in Ha. split.
  - destruct (Ha a ltac:(lia)). split_and!; [done..|]. rewrite <- (Hh O v eq_refl). by rewrite Z.add_0_r.
  - apply IH; [|intros k Hk; apply Ha; unfold len in Hk; lia].
    intros i x Hi. rewrite <- (Hh (S i) x Hi). do 2 f_equal. lia.
Qed.
End bus.

(** ** The promises kept *)

Section promises.
Context {D : Type} `{IODevice D} (fuel : nat).
#[local] Instance this_host : BenchHost (emu D) := emu_host fuel.
Context (now : D → Z) (latched : D → option Z) (clock_chip : tod_chip now latched).
Context (display : D → bool) (video_chip : vic_chip display).
Context (target K : Z) (Inv : cpu D → Prop) (routine : measurable target K Inv).
Context (enough : 3 + 256 * (4 + 256 * (K + 3)) ≤ Z.of_nat fuel).
Implicit Types s : cpu D.
Implicit Types w : emu D.

Definition emu_peek w (k : Z) : Z := default 0 (cpu_mem (e_cpu w) !! k).
Definition emu_den w : bool := display (cpu_dev (e_cpu w)).
Definition emu_clock w : Z := now (cpu_dev (e_cpu w)).
Definition emu_called w : Z := e_calls w target.
Record cpu_ready s : Prop := CpuReady {
  rd_sp : byte (cpu_sp s);
  rd_lo : cpu_io_lo s = 0xD000;
  rd_hi : cpu_io_hi s = 0xE000;
  rd_inv : Inv s;
}.
Definition emu_ready w : Prop := cpu_ready (e_cpu w).

Lemma ready_area s a n : cpu_ready s → 0 ≤ a → a + n ≤ 0xD000 → ram_area s a n.
Proof.
  intros [_ Hl Hh _] Ha Hn k Hk. split; [unfold word16; lia|]. unfold in_io. rewrite Hl, Hh. lia.
Qed.

Lemma ready_window s : cpu_ready s → tod_window s.
Proof. intros [_ Hl Hh _]. split; intros k Hk; unfold in_io, STUB in *; rewrite Hl, Hh; lia. Qed.

Lemma ready_same s s' :
  cpu_ready s → mem_outside taken s s' → same_window s s' → cpu_sp s' = cpu_sp s → cpu_ready s'.
Proof.
  intros [Hsp Hl Hh Hinv] Hm Hw Hs. constructor; [by rewrite Hs|destruct Hw; congruence..|].
  by eapply (ms_stable _ _ _ routine).
Qed.

Lemma display_kept d d' : rtc clock_io d d' → display d' = display d.
Proof. induction 1 as [|d d1 d' H1 _ IH]; [done|]. rewrite IH. by apply (vc_clock _ video_chip). Qed.

(** Either routine of the clock, called from outside. *)
Lemma clock_jsr base n P w s2 timeout :
  emu_ready w → clock_call base n P (entered base (e_cpu w)) s2 → STUB ≤ base → base + n ≤ TOD_RESULT + 4 →
  (∀ k, P k → TOD_RESULT ≤ k < TOD_RESULT + 4) →
  ∃ w', br_jsr base timeout w = Ret tt w' ∧ e_cpu w' = s2 ∧ undisturbed emu_called emu_ready w w' ∧
    emu_den w' = emu_den w ∧ ∀ k, k < 0x100 ∨ 0x200 ≤ k → ¬ P k → emu_peek w' k = emu_peek w k.
Proof.
  intros Hr [Hrun Hpc Hsp Hw Hoff Hm Hio] Hb Hn HP. pose proof (rd_sp _ Hr) as Bsp.
  rewrite entered_top in Hpc by done. rewrite entered_sp in Hsp by done.
  pose proof (entered_mem base (e_cpu w) Bsp) as He.
  assert (Hout : ∀ a, a < STUB ∨ TOD_RESULT + 4 ≤ a → visits a 9 (entered base (e_cpu w)) = 0).
  { intros a Ha. apply Hoff. lia. }
  destruct w as [s calls]. cbn [e_cpu] in *.
  destruct (emu_jsr_run fuel base 9 s s2 calls Bsp Hrun) as (calls' & Hj & Hc); [|done|pose proof (ms_steps _ _ _ routine); lia|].
  { apply Hout. unfold RETURN_SENTINEL, TOD_RESULT. lia. }
  assert (Hmem : ∀ k, k < 0x100 ∨ 0x200 ≤ k → ¬ P k → cpu_mem s2 !! k = cpu_mem s !! k).
  { intros k Hk HPk. rewrite Hm, He by (done || lia). done. }
  exists (Emu s2 calls'). split_and!; [exact Hj|done| | |].
  - split; [|intros Hr'].
    + unfold emu_called. cbn [e_calls]. rewrite Hc, Hout; [lia|apply (ms_off _ _ _ routine)].
    + apply (ready_same s); [done| |by destruct Hw; split|done]. intros k Hk. unfold taken in Hk.
      apply Hmem; [lia|]. intros Hp. specialize (HP k Hp). unfold STUB, TOD_RESULT in *. lia.
  - unfold emu_den. cbn [e_cpu]. by apply display_kept in Hio.
  - intros k Hk HPk. unfold emu_peek. cbn [e_cpu]. by rewrite Hmem.
Qed.

Lemma entered_ready base w : emu_ready w → cpu_ready (entered base (e_cpu w)).
Proof.
  intros Hr. pose proof (rd_sp _ Hr) as Bsp. pose proof (entered_mem base (e_cpu w) Bsp) as He.
  destruct Hr as [Hsp Hl Hh Hinv]. constructor; [apply u8_byte|done..|].
  eapply (ms_stable _ _ _ routine); [exact Hinv| |done]. intros k Hk. apply He. intros Hs. apply Hk. by right.
Qed.

(** Code that the driver put in place stands there when a routine is entered. *)
Lemma entered_code base w a l :
  emu_ready w → holds emu_peek w a l → 0x200 ≤ a → a + len l ≤ 0xD000 → code_at (entered base (e_cpu w)) a l.
Proof.
  intros Hr Hh Ha Hl. apply holds_code; [|apply ready_area; [by apply entered_ready|lia|done]].
  intros i v Hi. rewrite <- (Hh i v Hi). unfold emu_peek. f_equal. apply entered_mem; [apply Hr|].
  apply lookup_lt_Some in Hi. lia.
Qed.

(** What the loop stub leaves alone, its counters and the stack apart. *)
Definition stub_inv s0 s : Prop :=
  Inv s ∧ ∀ k, STUB ≤ k < TOD_RESULT + 4 → ¬ scratch k → cpu_mem s !! k = cpu_mem s0 !! k.

(** What the routine may write when it is called from the stub. *)
Definition elsewhere (sp0 k : Z) : Prop :=
  (k < STUB ∨ TOD_RESULT + 4 ≤ k) ∧ k ≠ 0x100 + u8 (sp0 + 1) ∧ k ≠ 0x100 + u8 (u8 (sp0 + 1) + 1).

Lemma stub_inv_stable s0 s s' : stub_inv s0 s → mem_outside scratch s s' → same_window s s' → stub_inv s0 s'.
Proof.
  intros [Hi Hk] Hm Hw. split; [|intros k Hr Hs; by rewrite Hm, Hk].
  eapply (ms_stable _ _ _ routine); [exact Hi| |done]. intros k Ht. apply Hm. intros Hs. apply Ht.
  unfold scratch, taken, CNT_OUTER, CNT_INNER, STUB, TOD_RESULT in *. lia.
Qed.

Lemma stub_inv_call s0 sp0 s :
  byte sp0 → stub_inv s0 s → cpu_pc s = target → cpu_sp s = u8 (u8 (sp0 - 1) - 1) →
  ∃ s', reaches target K 1 s s' ∧ cpu_pc s' = u16 (top_word s + 1) ∧ cpu_sp s' = sp0 ∧ same_window s s' ∧
    mem_outside (elsewhere sp0) s s' ∧ stub_inv s0 s'.
Proof.
  intros Hsp [Hi Hk] Hpc Hsp'. destruct (ms_call _ _ _ routine sp0 s Hsp Hi Hpc Hsp') as (s' & R & P & Q & W & M & I).
  exists s'. split_and!; try done.
  - intros k He. apply M. unfold elsewhere in He. lia.
  - split; [done|]. intros k Hr Hs. rewrite M by by left. by apply Hk.
Qed.

Lemma steps_enough outer inner : byte outer → byte inner → stub_steps outer inner K ≤ Z.of_nat fuel.
Proof.
  intros Ho Hi. pose proof (ms_steps _ _ _ routine).
  assert (Hb : ∀ v, byte v → 0 ≤ reps v ≤ 256) by (intros v Hv; unfold reps, byte in *; case_match; lia).
  pose proof (Hb _ Ho). pose proof (Hb _ Hi). unfold stub_steps, round_steps.
  assert (reps inner * (K + 3) ≤ 256 * (K + 3)) by (apply Z.mul_le_mono_nonneg_r; lia).
  assert (reps outer * (4 + reps inner * (K + 3)) ≤ 256 * (4 + 256 * (K + 3))); [|lia].
  apply Z.mul_le_mono_nonneg; [lia..|apply Z.add_nonneg_nonneg; [lia|apply Z.mul_nonneg_nonneg; lia]|lia].
Qed.

(** The stub, entered with its code in place. *)
Lemma stub_entered w outer inner code :
  build_loop_stub target outer inner = Some code → holds emu_peek w STUB code → emu_ready w →
  let s := entered STUB (e_cpu w) in
  ∃ s', reaches target (stub_steps outer inner K) (reps outer * reps inner) s s' ∧
    cpu_pc s' = u16 (top_word s + 1) ∧ cpu_sp s' = u8 (cpu_sp s + 2) ∧ same_window s s' ∧ stub_inv s s'.
Proof.
  intros Hcode Hh Hr s. destruct (stub_counts target outer inner code Hcode) as [Ho Hi].
  rewrite (stub_code_built target outer inner Ho Hi) in Hcode. injection Hcode as <-.
  pose proof (entered_ready STUB w Hr) as Hr1. pose proof (entered_code STUB w STUB _ Hr Hh) as Hat.
  fold s in Hr1, Hat. pose proof (ms_off _ _ _ routine) as Hoff.
  assert (Hio : ∀ k, STUB ≤ k < STUB + 0x30 → (0xD000 <=? k) && (k <? 0xE000) = false) by (unfold STUB; lia).
  eapply (loop_stub target outer inner Ho Hi (ms_word _ _ _ routine) ltac:(unfold STUB, TOD_RESULT in *; lia)
    (stub_inv s) (elsewhere (cpu_sp s)) (cpu_sp s) K) with (lo_io := 0xD000) (hi_io := 0xE000)
    (o := default 0 (cpu_mem s !! CNT_OUTER)) (i := default 0 (cpu_mem s !! CNT_INNER)) (tw := top_word s).
  - apply Hr1.
  - intros k [Hk _]. unfold STUB, TOD_RESULT in *. lia.
  - intros k [Hk _]. unfold STUB, TOD_RESULT, CNT_OUTER, CNT_INNER in *. lia.
  - by intros k [_ Hk].
  - apply stub_inv_stable.
  - intros t. apply stub_inv_call, Hr1.
  - exact Hio.
  - destruct Hr1 as [_ Hlo Hhi Hinv].
    assert (Hin : ∀ k, STUB ≤ k < STUB + 0x30 → ram s k (default 0 (cpu_mem s !! k))).
    { intros k Hk. split; [unfold word16, STUB in *; lia|]. split; [|done]. unfold in_io. rewrite Hlo, Hhi. by apply Hio. }
    constructor; try done; [|apply Hin; unfold CNT_OUTER, STUB; lia|apply Hin; unfold CNT_INNER, STUB; lia].
    apply Hat; [unfold STUB; lia|]. change (len _) with 24. unfold STUB. lia.
  - done.
Qed.

Lemma stub_jsr w outer inner timeout code :
  build_loop_stub target outer inner = Some code → holds emu_peek w STUB code → emu_ready w →
  ∃ w', br_jsr STUB timeout w = Ret tt w' ∧ same_code emu_peek w w' ∧
    emu_called w' = emu_called w + reps outer * reps inner ∧ emu_ready w'.
Proof.
  intros Hcode Hh Hr. destruct (stub_counts target outer inner code Hcode) as [Ho Hi].
  destruct (stub_entered w outer inner code Hcode Hh Hr)
    as (s' & (n & Hn & Hrun & Hv & Hz) & Hpc & Hsp & Hw & Hinv & Hm).
  pose proof (steps_enough outer inner Ho Hi). pose proof (rd_sp _ Hr) as Bsp.
  rewrite entered_top in Hpc by done. rewrite entered_sp in Hsp by done.
  destruct w as [s calls]. cbn [e_cpu] in *.
  destruct (emu_jsr_run fuel STUB n s s' calls Bsp Hrun Hz Hpc ltac:(lia)) as (calls' & Hj & Hc).
  exists (Emu s' calls'). split_and!; [exact Hj| | |].
  - intros k Hk. unfold emu_peek. cbn [e_cpu]. f_equal. rewrite Hm.
    + apply entered_mem; [done|]. unfold TOD_START, TOD_RESULT in *. lia.
    + unfold STUB, TOD_START, TOD_RESULT in *. lia.
    + unfold scratch, CNT_OUTER, CNT_INNER, TOD_START, TOD_RESULT in *. lia.
  - unfold emu_called. cbn [e_calls]. by rewrite Hc, Hv.
  - destruct (entered_ready STUB (Emu s calls) Hr) as [_ Hlo Hhi _]. destruct Hw as [Wl Wh].
    cbn [e_cpu] in Hlo, Hhi.
    constructor; cbn [e_cpu]; [by rewrite Hsp|congruence|congruence|done].
Qed.

(** The registers of the video chip. *)
Lemma ctrl_run w :
  emu_ready w → ∃ c w', vm_read VIC_CTRL1 1 w = Ret [c] w' ∧ byte c ∧ Z.testbit c 4 = emu_den w ∧
    emu_peek w' = emu_peek w ∧ undisturbed emu_called emu_ready w w'.
Proof.
  intros Hr. destruct (vc_read _ video_chip (cpu_dev (e_cpu w))) as (c & d & Hd & Hb).
  exists (u8 c), (Emu (set_dev d (e_cpu w)) (e_calls w)). split_and!.
  - cbn. unfold at_bus. change (Z.to_nat 1) with 1%nat. cbn [peeks]. rewrite run_bind.
    rewrite (rd_dev _ _ c d); [done| |done]. unfold in_io. by rewrite (rd_lo _ Hr), (rd_hi _ Hr).
  - apply u8_byte.
  - unfold u8. change 0xFF with (Z.ones 8). rewrite Z.land_spec, Hb. apply andb_true_r.
  - done.
  - split; [done|]. intros [Hsp Hlo Hhi Hinv]. constructor; try done.
    eapply (ms_stable _ _ _ routine); [exact Hinv|by intros k _|done].
Qed.

Lemma set_ctrl_run w c :
  byte c → emu_ready w → ∃ w', vm_write VIC_CTRL1 [c] w = Ret tt w' ∧ emu_den w' = Z.testbit c 4 ∧
    emu_peek w' = emu_peek w ∧ undisturbed emu_called emu_ready w w'.
Proof.
  intros Hc Hr. destruct (vc_write _ video_chip (cpu_dev (e_cpu w)) c Hc) as (d & Hd & Hb).
  exists (Emu (set_dev d (e_cpu w)) (e_calls w)). split_and!.
  - cbn. unfold at_bus. cbn [pokes]. rewrite run_bind.
    rewrite (wr_dev _ _ c d); [done| |by rewrite u8_small]. unfold in_io. by rewrite (rd_lo _ Hr), (rd_hi _ Hr).
  - done.
  - done.
  - split; [done|]. intros [Hsp Hlo Hhi Hinv]. constructor; try done.
    eapply (ms_stable _ _ _ routine); [exact Hinv|by intros k _|done].
Qed.

Lemma poke_run w a l :
  plain a (len l) → is_bytes l → emu_ready w →
  ∃ w', vm_write a l w = Ret tt w' ∧ stored emu_peek w w' a l ∧ emu_den w' = emu_den w ∧
    emu_called w' = emu_called w ∧ (own a (len l) → emu_ready w').
Proof.
  intros (Ha & Hn & Hl) Hb Hr.
  destruct (pokes_run l a (e_cpu w)) as (m & Hm & Hin & Hout); [by apply ready_area|done|].
  exists (Emu (set_mem m (e_cpu w)) (e_calls w)). split_and!; [|split|done|done|].
  - cbn. unfold at_bus. by rewrite Hm.
  - intros i v Hi. unfold emu_peek. cbn. by rewrite (Hin i v Hi).
  - intros k Hk. unfold emu_peek. cbn. by rewrite Hout.
  - intros (Ho & _ & Ho'). apply (ready_same (e_cpu w)); [done| |done|done].
    intros k Hk. cbn. apply Hout. unfold taken in Hk. lia.
Qed.

(** The machine is one the drivers are written for. *)
Lemma emu_keeps : timed_machine emu_peek emu_den emu_clock target emu_called emu_ready.
Proof.
  constructor.
  - apply poke_run.
  - intros w Hr. exists w. split_and!; [|done|by split]. destruct w as [s calls]. cbn. unfold at_bus.
    cbn [e_cpu]. change (Z.to_nat 4) with 4%nat. rewrite peeks_run; [done|]. apply ready_area; [done|done|].
    unfold TOD_RESULT. lia.
  - apply ctrl_run.
  - intros w c. apply set_ctrl_run.
  - intros w [Hi _] Hr. pose proof (entered_ready TOD_START w Hr) as Hr1.
    destruct (start_call now latched (entered TOD_START (e_cpu w)) clock_chip) as (s2 & Hcall & Hnow);
      [apply entered_code; [done|done|unfold TOD_START; lia|by vm_compute]|done|by apply ready_window|].
    destruct (clock_jsr _ _ _ w s2 10 Hr Hcall) as (w' & Hj & <- & Hu & Hd & Hp);
      [unfold STUB, TOD_START; lia|unfold TOD_START, TOD_RESULT; lia|done|].
    exists w'. split_and!; try done. intros k Hk. apply Hp; [lia|tauto].
  - intros w [_ Hi] Hr. pose proof (entered_ready TOD_READ w Hr) as Hr1.
    destruct (snapshot_call now latched (entered TOD_READ (e_cpu w)) clock_chip) as (s2 & Hcall & Hres);
      [apply entered_code; [done|done|unfold TOD_READ; lia|by vm_compute]|done|by apply ready_window|].
    destruct (clock_jsr _ _ _ w s2 10 Hr Hcall) as (w' & Hj & <- & Hu & Hd & Hp);
      [unfold STUB, TOD_READ; lia|unfold TOD_READ, TOD_RESULT; lia|done|].
    exists w'. split_and!; try done. intros k Hk. apply Hp; unfold TOD_START, TOD_RESULT in *; lia.
  - intros w outer inner timeout code Hcode Hh _ Hr. by apply stub_jsr with (code := code).
Qed.
End promises.

(** ** A machine *)

(** The clock of [chip_device], and the control register of the video chip. *)
#[export] Instance board : IODevice (chip * Z) := {|
  io_read reg := λ d,
    if reg =? VIC_CTRL1 then Ret d.2 d
    else match io_read reg d.1 with Ret v c => Ret v (c, d.2) | Raise e c => Raise e (c, d.2) end;
  io_write reg v := λ d,
    if reg =? VIC_CTRL1 then Ret tt (d.1, v)
    else match io_write reg v d.1 with Ret _ c => Ret tt (c, d.2) | Raise e c => Raise e (c, d.2) end;
|}.

Lemma board_read reg (d : chip * Z) v c :
  io_read reg d.1 = Ret v c → reg ≠ VIC_CTRL1 → io_read reg d = Ret v (c, d.2).
Proof.
  intros Hd Hr%Z.eqb_neq.
  change (io_read reg d) with (if reg =? VIC_CTRL1 then Ret (E:=unit) d.2 d
    else match io_read reg d.1 with Ret v c => Ret v (c, d.2) | Raise e c => Raise e (c, d.2) end).
  by rewrite Hr, Hd.
Qed.

Lemma board_clock : tod_chip (λ d : chip * Z, chip_now d.1) (λ d, d.1.2).
Proof.
  destruct chip_keeps as [Hr Hh Hm Hs Ht Hc Hset]. constructor.
  - intros d. apply Hr.
  - intros d. destruct (Hh d.1) as (h & c & H1 & H2). exists h, (c, d.2). rewrite (board_read _ _ _ _ H1) by done. split; [done|exact H2].
  - intros d t Hl. destruct (Hm d.1 t Hl) as (c & H1 & H2). exists (c, d.2). rewrite (board_read _ _ _ _ H1) by done. split; [done|exact H2].
  - intros d t Hl. destruct (Hs d.1 t Hl) as (c & H1 & H2). exists (c, d.2). rewrite (board_read _ _ _ _ H1) by done. split; [done|exact H2].
  - intros d t Hl. destruct (Ht d.1 t Hl) as (c & H1 & H2). exists (c, d.2). rewrite (board_read _ _ _ _ H1) by done. split; [done|exact H2].
  - intros d. by eexists _, _.
  - intros d c Hb. destruct (Hset d.1 c Hb) as (d1 & d2 & d3 & d4 & d5 & W1 & W2 & W3 & W4 & W5 & Hn).
    exists (d1, d.2), (d2, d.2), (d3, d.2), (d4, d.2), (d5, d.2).
    injection W1 as <-. injection W2 as <-. injection W3 as <-. injection W4 as <-. injection W5 as <-. done.
Qed.

Lemma board_video : vic_chip (λ d : chip * Z, Z.testbit d.2 4).
Proof.
  constructor.
  - intros d. by exists d.2, d.
  - intros d c _. by exists (d.1, c).
  - intros d d' (reg & Hr & [[v H]|[v H]]); revert H; cbn; replace (reg =? VIC_CTRL1) with false
      by (symmetry; apply Z.eqb_neq; unfold VIC_CTRL1; lia); intros H; [injection H as _ <-|injection H as <-]; done.
Qed.

(** A routine that returns at once. *)
Definition at_8100 (s : cpu (chip * Z)) : Prop := ram s 0x8100 0x60.
Lemma rts_measurable : measurable 0x8100 1 at_8100.
Proof.
  split.
  - unfold word16. lia.
  - done.
  - left. unfold STUB. lia.
  - intros s s' Hr Hm Hw. eapply ram_agree; [exact Hr|apply Hm; unfold taken, STUB; lia|done].
  - intros sp0 s Hsp Hr Hpc Hs. unfold at_8100 in Hr. rewrite <- Hpc in Hr. apply exec_RTS in Hr as Hstep.
    eexists. split_and!.
    + exists 1%nat. rewrite !(visits_step _ s tt _ Hstep), Hpc. cbn [run]. by rewrite Hstep.
    + done.
    + cbn. rewrite Hs. unfold byte in Hsp. rewrite !u8_mod. Z.to_euclidean_division_equations. lia.
    + done.
    + done.
    + unfold at_8100. rewrite <- Hpc. by eapply ram_same.
Qed.

Definition emu_booted : emu (chip * Z) :=
  Emu (init {[0x8100 := 0x60]} 0xD000 0xE000 ((0, None), 0x1B)) (λ _, 0).
Lemma emu_booted_ready : emu_ready at_8100 emu_booted.
Proof. constructor; [by split|done|done|]. split; [by split|]. by split. Qed.

Module Emulated.

(** C31. A line of the blanking benchmark, on a machine whose processor is the interpreter: with clock and video
    chips that do what they are documented to do, and a routine of at most [K] instructions that keeps its
    hands off the benchmark's memory, the driver installs its clock routines and measures both legs to
    the end.  The legs are this run's: each operation of the machine is named from the state the
    installation leaves to the final one.  In each the clock is cleared with the display as the leg asks and
    is at zero when the calls begin, the interpreter enters the routine exactly the product of the two
    counts times, and the figure is what the clock shows after that, the display on again; the line has
    the quotient of the two figures when both legs took twenty seconds. *)
Theorem line_on_interpreter {D} `{IODevice D} (fuel : nat) now latched display target K Inv L name symbol
    outer inner timeout code (s : rig_state (emu D)) :
  let host := emu_host fuel in
  tod_chip now latched → vic_chip display → measurable target K Inv →
  3 + 256 * (4 + 256 * (K + 3)) ≤ Z.of_nat fuel →
  Pcap.assoc symbol L = Some target → build_loop_stub target outer inner = Some code → 0 < outer → 0 < inner →
  emu_ready Inv (r_world s) →
  let leg := leg emu_peek (emu_den display) (emu_clock now) (emu_called target) code timeout (outer * inner) in
  ∃ on off s1 w r s',
    install_clock s = Ret tt s1 ∧
    (install_clock;; bench L name symbol outer inner None timeout) s = Ret r s' ∧
    leg false (r_world s1) on w ∧ leg true w off (r_world s') ∧
    emu_called target (r_world s') = emu_called target (r_world s) + 2 * (outer * inner) ∧
    emu_ready Inv (r_world s') ∧
    r = if (on <? 200) || (off <? 200) then None
        else Some (Measured name symbol (outer * inner) on off (ratio on off)
                     (fdiv (fmul (float_of_Z 100) (float_of_Z (on - off))) (float_of_Z on))).
Proof.
  intros host Hclock Hvideo Hroutine Henough Hl Hcode Ho Hi Hr.
  pose proof (emu_keeps fuel now latched Hclock display Hvideo target K Inv Hroutine Henough) as Hm.
  destruct (install_clock_run _ _ _ _ _ _ Hm s Hr) as (s1 & R1 & U1 & C1).
  destruct (bench_run _ _ _ _ _ _ Hm L name symbol outer inner None timeout code s1 Hl Hcode Ho Hi ltac:(done) U1)
    as (on & off & w1 & w1' & w2 & s2 & L1 & L2 & R2 & U2 & P1 & P2).
  cbn [prepared] in P1, P2. subst w1 w2. eexists on, off, s1, w1', _, s2.
  split_and!; [exact R1| |exact L1|exact L2| |apply U2|reflexivity].
  - by rewrite run_bind, R1.
  - apply leg_calls in L1, L2. lia.
Qed.

Lemma line_on_interpreter_witness :
  let host : BenchHost (emu (chip * Z)) := emu_host (Z.to_nat 263171) in
  ∃ r s', (install_clock;; bench [("blake2s_compress", 0x8100)] "blake2s" "blake2s_compress" 2 3 None 1800)
            (RigState emu_booted []) = Ret r s' ∧ e_calls (r_world s') 0x8100 = 12.
Proof.
  destruct (line_on_interpreter (Z.to_nat 263171) (λ d : chip * Z, chip_now d.1) (λ d, d.1.2) (λ d, Z.testbit d.2 4)
    0x8100 1 at_8100 [("blake2s_compress", 0x8100)] "blake2s" "blake2s_compress" 2 3 1800
    (default [] (build_loop_stub 0x8100 2 3)) (RigState emu_booted []))
    as (on & off & s1 & w & r & s' & _ & Hr & _ & _ & Hc & _).
  - exact board_clock.
  - exact board_video.
  - exact rts_measurable.
  - rewrite Z2Nat.id; lia.
  - reflexivity.
  - by vm_compute.
  - lia.
  - lia.
  - exact emu_booted_ready.
  - exists r, s'. split; [exact Hr|exact Hc].
Defined.
End Emulated.
