(* ===== verification/RigLaunch.v ===== *)
(** * Launching on the ethernet rig (tools/vice_eth_rig.py)

    The build the rig runs, the emulator's configuration and its port, and the proof that a
    launched emulator is bound to the interface it was meant for. *)

From S2P Require Export RigVice.

(** ** The binding of a launched VICE *)

Inductive binding_error :=
| NotLaunched
| PidGone (pid : Z)
| RcUnreadable (path : string)
| RcUndecodable (path : string)
| NotBridged (iface : string) (missing : list reason) (argv : string).

Definition quoted (s : string) : string := str [ascii_of_nat 34] +:+ s +:+ str [ascii_of_nat 34].

(** [^X\s*$] under [re.M] *)
Definition setting (x : string) : rx := RAll [RBol; RLit x; blanks; REol].
Definition ADDCONFIG : rx := RAll [RLit "-addconfig "; RGroup 1 token].

Definition rc_wanted (iface : string) : list (string * string) :=
  [("ETHERNETCART_ACTIVE=1", "cartridge not active");
   ("EthernetCartMode=1", "not RR-Net mode");
   ("ETHERNET_INTERFACE=" +:+ quoted iface, "interface is not " +:+ iface);
   ("ETHERNET_DRIVER=" +:+ quoted "pcap", "driver is not pcap")].
Definition rc_missing (iface rc : string) : list reason :=
  omap (λ w, match rx_search (setting w.1) rc with
             | Some _ => None
             | None => Some (w.2, [PStr w.1; PStr rc])
             end) (rc_wanted iface).
Definition argv_missing (iface argv : string) : list reason :=
  (if contains "-ethernetiodriver pcap" argv then [] else [("-ethernetiodriver pcap", [])])
  ++ (if contains ("-ethernetioif " +:+ iface) argv then [] else [("-ethernetioif", [PStr iface])]).

(** [proc] is the process number of a VICE that was started. *)
Definition assert_vice_bound_to `{!Host} (proc : option Z) (iface : string) : res binding_error string :=
  match proc with
  | None => Err NotLaunched
  | Some pid =>
      let argv := strip (h_run ["ps"; "-o"; "command="; "-p"; dec pid]).2 in
      if bool_decide (argv = "") then Err (PidGone pid) else
      missing ← match rx_search ADDCONFIG argv with
                | None => Ok [("-addconfig <rc> (no RR-Net resource file)", [])]
                | Some m =>
                    match h_open (group 1 m) with
                    | Text rc => Ok (rc_missing iface rc)
                    | Denied | Unreadable => Err (RcUnreadable (group 1 m))
                    | Undecodable => Err (RcUndecodable (group 1 m))
                    end
                end;
      match argv_missing iface argv ++ missing with
      | [] => Ok argv
      | missing => Err (NotBridged iface missing argv)
      end
  end.

(** ** The build *)

(** [mk_env] is C64_SKIP_BUILD; [mk_run] runs a command in the repository: exit code, output,
    errors; [mk_map] is the text of build/wireguard.map at that moment. *)
Class Make (W : Type) := {
  mk_env : option string;
  mk_run : list string → eff W string (Z * string * string);
  mk_map : W → res string string;
}.

Inductive build_error :=
| CannotRun (why : string)
| BuildFailed (cmd : list string)
| MapUnreadable (why : string)
| NotIp65.

Inductive build_event := Ran (cmd : list string) (rc : Z) | NotRun (cmd : list string) | Wrote (text : string) | Skipped.

Record build_state (W : Type) := BuildState { bs_world : W; bs_log : list build_event }.
Arguments BuildState {W} bs_world bs_log.
Arguments bs_world {W} s : rename.
Arguments bs_log {W} s : rename.

(** [s[-n:]] *)
Definition last_chars (n : nat) (s : string) : string :=
  let l := chars s in str (drop (length l - n) l).

Section build.
Context {W : Type} `{!Make W}.
Abbreviation M := (eff (build_state W) build_error).

Definition said (e : build_event) : M unit := modify (λ s, BuildState (bs_world s) (bs_log s ++ [e])).

(** [subprocess.run(cmd)] *)
Definition run_make (cmd : list string) : M (Z * string * string) := λ s,
  match mk_run cmd (bs_world s) with
  | Ret r w => Ret r (BuildState w (bs_log s ++ [Ran cmd r.1.1]))
  | Raise e w => Raise (CannotRun e) (BuildState w (bs_log s ++ [NotRun cmd]))
  end.

Fixpoint run_all (cmds : list (list string)) : M unit :=
  match cmds with
  | [] => mret tt
  | c :: cmds =>
      r ← run_make c;
      let '(rc, out, err) := r in
      if rc =? 0 then run_all cmds else
      said (Wrote (last_chars 2000 out));;
      said (Wrote (last_chars 2000 err));;
      raise (BuildFailed c)
  end.

Definition build_commands (extra : list string) : list (list string) :=
  [["make"; "clean"; "BACKEND=ip65"] ++ extra; ["make"; "BACKEND=ip65"] ++ extra].

Definition build_ip65 (extra_make_args : option (list string)) : M unit :=
  if negb (bool_decide (default "" mk_env = "")) then said Skipped else
  run_all (build_commands (default [] extra_make_args)).

Definition assert_ip65_build : M unit :=
  text ← gets (λ s, mk_map (bs_world s));
  match text with
  | Err why => raise (MapUnreadable why)
  | Ok text => if contains "ip65_blob.o" text then mret tt else raise NotIp65
  end.
End build.

(** ** The emulator's configuration and its port *)

Record vice_config := ViceConfig {
  vc_prg_path : string;
  vc_port : Z;
  vc_warp : bool;
  vc_ntsc : bool;
  vc_sound : bool;
  vc_minimize : bool;
  vc_ethernet : bool;
  vc_ethernet_mode : string;
  vc_ethernet_interface : string;
  vc_ethernet_driver : string;
  vc_ethernet_executable : string;
  vc_run_as_root : bool;
  vc_extra_args : list string;
}.

Record eth_vice := EthVice {
  ev_vice_bin : string;
  ev_prg_path : string;
  ev_reu : bool;
  ev_iface : string;
  ev_own_port : bool;
  ev_port : Z;
}.

(** The harness's allocator over the ports 6570 to 6590: [pa_take] gives the socket that reserves
    a port, if there is one. *)
Class Ports (W : Type) := {
  pa_allocate : Z → Z → eff W string Z;
  pa_take : Z → eff W string (option Z);
  pa_close : Z → eff W string unit;
}.

Section launch.
Context {W : Type} `{!Ports W}.

(** [EthVice.__init__] *)
Definition eth_vice_init (vice_bin : string) (port : Z) (prg_path : string) (reu : bool) (iface : string) :
    eff W string eth_vice :=
  let own := port =? 0 in
  port ← (if own then pa_allocate 6570 6590 else mret port);
  (if own
   then res ← pa_take port;
        match res with Some sock => pa_close sock | None => mret tt end
   else mret tt);;
  mret (EthVice vice_bin prg_path reu iface own port).
End launch.

(** What [EthVice.__enter__] starts VICE with. *)
Definition eth_config (v : eth_vice) : vice_config := {|
  vc_prg_path := ev_prg_path v;
  vc_port := ev_port v;
  vc_warp := false;
  vc_ntsc := true;
  vc_sound := false;
  vc_minimize := true;
  vc_ethernet := true;
  vc_ethernet_mode := "rrnet";
  vc_ethernet_interface := ev_iface v;
  vc_ethernet_driver := "pcap";
  vc_ethernet_executable := ev_vice_bin v;
  vc_run_as_root := false;
  vc_extra_args := if ev_reu v then ["-reu"; "-reusize"; "512"] else [];
|}.
