(* ===== verification/RigLaunchThms.v ===== *)
(** * Launching on the ethernet rig: the properties

    What the proof of the binding shows, what is built before a suite runs, and whose port it is. *)

From S2P Require Export RegexThms RigLaunch.
#[local] Set Warnings "-clear-no-such-hyp".

(** ** What a search finds *)

(** The character before a suffix of the text. *)
Definition before_char (prev : option ascii) (pre : list ascii) : option ascii :=
  match last pre with Some c => Some c | None => prev end.

Lemma before_char_cons prev c pre : before_char prev (c :: pre) = before_char (Some c) pre.
Proof. unfold before_char. rewrite last_cons. by destruct (last pre). Qed.

Lemma scan_nothing fuel r prev rest :
  (length rest < fuel)%nat →
  scan_rx fuel r prev rest = [] ↔
  ∀ pre suf, rest = pre ++ suf → run_rx r (spot_at (before_char prev pre) suf) = [].
Proof.
  revert prev rest. induction fuel as [|fuel IH]; intros prev rest Hf; [lia|]. cbn [scan_rx].
  destruct (run_rx r (spot_at prev rest)) as [|s' others] eqn:Hrun.
  - destruct rest as [|c rest].
    + split; [|done]. intros _ pre suf Heq. symmetry in Heq. apply app_nil in Heq as [-> ->]. done.
    + rewrite IH by (cbn in Hf; lia). split; intros Hno pre suf Heq.
      * destruct pre as [|c' pre]; [cbn in Heq; by subst suf|].
        injection Heq as <- ->. rewrite before_char_cons. by apply Hno.
      * rewrite <- (before_char_cons prev). apply Hno. cbn. by rewrite Heq.
  - split; [done|]. intros Hno. exfalso. specialize (Hno [] rest eq_refl).
    change (before_char prev []) with prev in Hno. by rewrite Hrun in Hno.
Qed.

Lemma scan_something fuel r prev rest m ms :
  scan_rx fuel r prev rest = m :: ms →
  ∃ pre suf s', rest = pre ++ suf ∧ s' ∈ run_rx r (spot_at (before_char prev pre) suf).
Proof.
  revert prev rest. induction fuel as [|fuel IH]; intros prev rest; [done|]. cbn [scan_rx].
  destruct (run_rx r (spot_at prev rest)) as [|s' others] eqn:Hrun.
  - destruct rest as [|c rest]; [done|]. intros (pre & suf & s' & -> & Hin)%IH.
    exists (c :: pre), suf, s'. rewrite before_char_cons. done.
  - intros _. exists [], rest, s'. change (before_char prev []) with prev. rewrite Hrun. split; [done|left].
Qed.

Lemma search_some r s :
  (∃ m, rx_search r s = Some m) ↔
  ∃ pre suf s', chars s = pre ++ suf ∧ s' ∈ run_rx r (spot_at (before_char None pre) suf).
Proof.
  unfold rx_search, finditer.
  pose proof (scan_nothing (S (length (chars s))) r None (chars s)) as Hscan.
  destruct (scan_rx _ r None (chars s)) as [|m ms] eqn:Heq; cbn [head].
  - split; [by intros (? & ?)|]. intros (pre & suf & s' & Hs & Hin).
    rewrite (proj1 (Hscan ltac:(lia)) eq_refl pre suf Hs) in Hin. by apply elem_of_nil in Hin.
  - split; [|by exists m]. intros _. apply (scan_something _ _ _ _ _ _ Heq).
Qed.

Lemma in_seq r r' s s'' : s'' ∈ run_rx (RSeq r r') s ↔ ∃ s', s' ∈ run_rx r s ∧ s'' ∈ run_rx r' s'.
Proof. cbn [run_rx]. rewrite list_elem_of_bind. naive_solver. Qed.

Lemma in_char f s s' :
  s' ∈ run_rx (RChar f) s ↔ ∃ c, sp_rest s = c :: sp_rest s' ∧ f c = true ∧ s' = Spot (Some c) (sp_rest s') (sp_groups s).
Proof.
  cbn [run_rx]. destruct s as [p [|c l] g], s' as [p' l' g']; cbn [sp_rest sp_groups].
  - rewrite elem_of_nil. naive_solver.
  - destruct (f c) eqn:Hf; rewrite ?list_elem_of_singleton, ?elem_of_nil; split.
    + intros [= -> -> ->]. by exists c.
    + intros (c' & [= <- <-] & _ & [= -> ->]). done.
    + done.
    + intros (c' & [= <- <-] & Hc & _). congruence.
Qed.

Lemma in_lit x s s' :
  s' ∈ run_rx (RLit x) s ↔
  sp_rest s = chars x ++ sp_rest s' ∧ s' = Spot (before_char (sp_prev s) (chars x)) (sp_rest s') (sp_groups s).
Proof.
  unfold RLit. revert s. induction (chars x) as [|c cs IH]; intros s; cbn [foldr].
  - cbn [run_rx]. rewrite list_elem_of_singleton. destruct s as [p l g], s' as [p' l' g']. cbn.
    change (before_char p []) with p. naive_solver.
  - rewrite in_seq. setoid_rewrite IH. setoid_rewrite in_char. rewrite before_char_cons. split.
    + intros (m & (c' & Hs & ->%bool_decide_eq_true & Hm) & Hm' & Hs'). rewrite Hs, Hm'. split; [done|].
      rewrite Hs', Hm. done.
    + intros [Hs Hs']. exists (Spot (Some c) (cs ++ sp_rest s') (sp_groups s)). cbn [sp_rest sp_prev sp_groups].
      split; [|done]. exists c. rewrite Hs. split_and!; [done|by apply bool_decide_eq_true|done].
Qed.

Lemma in_star f s s' :
  s' ∈ run_rx (RStar (RChar f)) s ↔
  ∃ k, sp_rest s = k ++ sp_rest s' ∧ Forall (λ c, f c = true) k ∧
       s' = Spot (before_char (sp_prev s) k) (sp_rest s') (sp_groups s).
Proof.
  cbn [run_rx]. set (star := fix star (fuel : nat) (s : spot) : list spot := _).
  enough (Hgen : ∀ fuel s, (length (sp_rest s) ≤ fuel)%nat → s' ∈ star fuel s ↔
    ∃ k, sp_rest s = k ++ sp_rest s' ∧ Forall (λ c, f c = true) k ∧
         s' = Spot (before_char (sp_prev s) k) (sp_rest s') (sp_groups s)) by by apply Hgen.
  assert (Hhere : ∀ s : spot, s' = s ↔ s' = Spot (before_char (sp_prev s) []) (sp_rest s) (sp_groups s))
    by (intros []; done).
  induction fuel as [|fuel IH]; intros [p l g] Hf; cbn [sp_rest sp_prev sp_groups] in *.
  - destruct l; [|cbn in Hf; lia]. cbn [star]. rewrite list_elem_of_singleton. split.
    + intros ->. exists []. done.
    + intros (k & [-> Hr]%symmetry%app_nil & _ & ->). rewrite Hr. done.
  - cbn [star]. rewrite elem_of_app, list_elem_of_singleton, list_elem_of_bind. split.
    + intros [([p' l' g'] & Hm & (c & Hl & Hc & [= -> ->])%in_char)|Hs']; [|exists []; by rewrite Hs'].
      cbn [sp_rest] in *. subst l. rewrite (proj2 (Nat.ltb_lt _ _)) in Hm by (cbn; lia).
      apply IH in Hm as (k & Hl' & Hk & Hs'); [|cbn in *; lia]. cbn [sp_rest sp_prev sp_groups] in *. subst l'.
      exists (c :: k). rewrite before_char_cons. split_and!; [done|by constructor|done].
    + intros ([|c k] & Hl & Hk & Hs'); cbn in Hl.
      * right. rewrite Hs', Hl. done.
      * left. inversion_clear Hk as [|? ? Hc Hk']. exists (Spot (Some c) (k ++ sp_rest s') g).
        rewrite (proj2 (Nat.ltb_lt _ _)) by (subst l; cbn; lia). split.
        -- apply IH; cbn [sp_rest sp_prev sp_groups]; [subst l; cbn in *; lia|]. exists k.
           split_and!; [done|done|]. rewrite before_char_cons in Hs'. exact Hs'.
        -- apply in_char. exists c. subst l. done.
Qed.

(** ** A setting of a resource file *)

(** [x] fills a line but for blanks behind it (which may go on over further lines). *)
Definition has_setting (x : string) (text : string) : Prop :=
  ∃ pre k suf, chars text = pre ++ chars x ++ k ++ suf ∧
    (pre = [] ∨ last pre = Some newline) ∧ Forall (λ c, space_char c = true) k ∧
    (suf = [] ∨ head suf = Some newline).

Lemma setting_found x text : (∃ m, rx_search (setting x) text = Some m) ↔ has_setting x text.
Proof.
  rewrite search_some. unfold setting, RAll, has_setting, blanks. cbn [foldr].
  repeat setoid_rewrite in_seq. setoid_rewrite in_lit. setoid_rewrite in_star. split.
  - intros (pre & suf & s' & Htext & s0 & Hbol & s1 & [Hs0 ->] & s2 & (k & Hs1 & Hk & ->) & s3 & Heol & _).
    cbn in Hbol, Hs1, Heol. exists pre, k, (sp_rest s2).
    assert (s0 = spot_at (before_char None pre) suf ∧ (pre = [] ∨ last pre = Some newline)) as [-> Hpre].
    { unfold before_char in Hbol |- *. destruct (last pre) as [c|] eqn:Hl.
      - case_decide; [|by apply elem_of_nil in Hbol]. apply list_elem_of_singleton in Hbol. subst. auto.
      - apply last_None in Hl as ->. apply list_elem_of_singleton in Hbol. auto. }
    cbn in Hs0. rewrite Htext, Hs0, Hs1. split_and!; [done|done|done|].
    destruct (sp_rest s2) as [|c rest]; [by left|right]. case_decide; [by subst|]. by apply elem_of_nil in Heol.
  - intros (pre & k & suf & Htext & Hpre & Hk & Hsuf).
    set (p := before_char None pre). set (p' := before_char p (chars x)).
    exists pre, (chars x ++ k ++ suf), (Spot (before_char p' k) suf []). split; [done|].
    exists (spot_at p (chars x ++ k ++ suf)). split.
    { cbn. unfold p, before_char. destruct Hpre as [-> | ->]; cbn; [left|]. rewrite decide_True by done. left. }
    exists (Spot p' (k ++ suf) []). split; [done|]. exists (Spot (before_char p' k) suf []). split; [by exists k|].
    exists (Spot (before_char p' k) suf []). split; [|cbn; left]. cbn.
    destruct Hsuf as [-> |Hsuf]; [left|]. destruct suf as [|c suf]; [left|]. injection Hsuf as ->.
    rewrite decide_True by done. left.
Qed.

Lemma rc_missing_nil iface rc : rc_missing iface rc = [] ↔ Forall (λ x, has_setting x rc) (rc_wanted iface).*1.
Proof.
  unfold rc_missing. induction (rc_wanted iface) as [|[x why] ws IH]; cbn [omap list_omap fmap list_fmap fst snd].
  - split; [constructor|done].
  - rewrite Forall_cons, <- IH, <- setting_found. destruct (rx_search (setting x) rc) as [m|].
    + split; [intros ?; split; [by exists m|done]|by intros []].
    + split; [done|]. by intros [(? & ?) _].
Qed.

Lemma argv_missing_nil iface argv :
  argv_missing iface argv = [] ↔
  contains "-ethernetiodriver pcap" argv = true ∧ contains ("-ethernetioif " +:+ iface) argv = true.
Proof.
  unfold argv_missing.
  destruct (contains "-ethernetiodriver pcap" argv), (contains ("-ethernetioif " +:+ iface) argv); cbn; naive_solver.
Qed.

(** ** The commands of a build *)

Section build.
Context {W : Type} `{!Make W}.

Lemma run_all_log cmds (s : build_state W) :
  match run_all cmds s with
  | Ret _ s' => bs_log s' = bs_log s ++ ((λ c, Ran c 0) <$> cmds)
  | Raise e s' => ∃ ok c later, cmds = ok ++ c :: later ∧
      match e with
      | CannotRun _ => bs_log s' = bs_log s ++ ((λ c, Ran c 0) <$> ok) ++ [NotRun c]
      | BuildFailed c' => c' = c ∧ ∃ rc out err, rc ≠ 0 ∧
          bs_log s' = bs_log s ++ ((λ c, Ran c 0) <$> ok)
                      ++ [Ran c rc; Wrote (last_chars 2000 out); Wrote (last_chars 2000 err)]
      | _ => False
      end
  end.
Proof.
  revert s. induction cmds as [|c cmds IH]; intros s; cbn [run_all].
  { cbn. by rewrite app_nil_r. }
  rewrite run_bind. unfold run_make. destruct (mk_run c (bs_world s)) as [[[rc out] err] w|why w].
  2: { exists [], c, cmds. done. }
  cbn [fst]. destruct (Z.eqb_spec rc 0) as [-> |Hrc].
  - specialize (IH (BuildState w (bs_log s ++ [Ran c 0]))). destruct (run_all cmds _) as [u s'|e s'].
    + cbn [bs_log] in IH. rewrite IH, <- app_assoc. done.
    + destruct IH as (ok & c' & later & -> & He). exists (c :: ok), c', later. split; [done|].
      destruct e; try done; cbn [bs_log fmap list_fmap] in *.
      * rewrite He, <- app_assoc. done.
      * destruct He as (-> & rc & o & er & Hne & ->). split; [done|]. exists rc, o, er. rewrite <- app_assoc. done.
  - cbn. exists [], c, cmds. do 2 (split; [done|]). exists rc, out, err. split; [done|].
    cbn. by rewrite <- !app_assoc.
Qed.
End build.

(** ** Concrete rigs *)

Definition en4_argv (iface : string) : string :=
  "/opt/x64sc -ethernetiodriver pcap -ethernetioif " +:+ iface +:+ " -addconfig /tmp/v.rc -autostart w.prg".
Definition en4_rc : string :=
  lines_text ["[C64SC]"; "ETHERNETCART_ACTIVE=1"; "EthernetCartMode=1 ";
              "ETHERNET_INTERFACE=" +:+ quoted "en4"; "ETHERNET_DRIVER=" +:+ quoted "pcap"].
Definition launched_host (argv : string) : Host := {|
  h_platform := "darwin"; h_pid := 1; h_env _ := None; h_exists _ := true;
  h_open p := if bool_decide (p = "/tmp/v.rc") then Text en4_rc else Unreadable;
  h_signal _ := Delivered;
  h_run cmd := if bool_decide (cmd = ["ps"; "-o"; "command="; "-p"; "77"]) then (0, line_of argv) else (1, "");
  h_run_bounded _ := None;
  vice_binary_supports_ethernet _ := true; driver_requires_root _ := false;
  rawnet_capability _ := true; bpf_permissions _ := true; bpf_node_openable := true;
  effective_driver_name d := d;
|}.

(** A build whose first command does not succeed, and one that links the blob. *)
Definition toy_make (rc : Z) : Make Z := {|
  mk_env := None;
  mk_run cmd n := Ret (if n =? 0 then rc else 0, "", "") (n + 1);
  mk_map n := if n =? 2 then Ok "Modules list: ip65_blob.o" else Err "no such file";
|}.

Module Launch.
(** C22. VICE counts as bound to an interface exactly if the command line the system reports for the
    launched process (not the configuration it was launched with) selects the pcap driver and names the
    interface, and points to a resource file that can be read and in which each of four settings (cartridge
    active, RR-Net mode, this interface in quotes, the pcap driver) fills a line but for blanks. *)
Theorem binding_exact `{!Host} proc iface argv :
  assert_vice_bound_to proc iface = Ok argv ↔
  ∃ pid, proc = Some pid ∧
    argv = strip (h_run ["ps"; "-o"; "command="; "-p"; dec pid]).2 ∧ argv ≠ "" ∧
    contains "-ethernetiodriver pcap" argv = true ∧ contains ("-ethernetioif " +:+ iface) argv = true ∧
    ∃ m rc, rx_search ADDCONFIG argv = Some m ∧ h_open (group 1 m) = Text rc ∧
      Forall (λ x, has_setting x rc) (rc_wanted iface).*1.
Proof.
  unfold assert_vice_bound_to. destruct proc as [pid|]; [|by split; [|intros (? & ? & _)]].
  set (line := strip _). setoid_rewrite <- rc_missing_nil. case_bool_decide as Hempty.
  { split; [done|]. by intros (p & [= <-] & -> & Hne & _). }
  destruct (rx_search ADDCONFIG line) as [m|] eqn:Hm; cbn [mbind res_bind].
  2: { split; [by destruct (argv_missing iface line)|].
       intros (p & [= <-] & -> & _ & _ & _ & m & rc & Hm' & _). fold line in Hm'. by rewrite Hm in Hm'. }
  destruct (h_open (group 1 m)) as [rc| | |] eqn:Hrc; cbn [mbind res_bind].
  2, 3, 4: split; [done|]; intros (p & [= <-] & -> & _ & _ & _ & m' & rc & Hm' & Hrc' & _); fold line in Hm';
        rewrite Hm in Hm'; injection Hm' as <-; by rewrite Hrc in Hrc'.
  split.
  - destruct (argv_missing iface line ++ rc_missing iface rc) as [|x l] eqn:Hall; [|done].
    intros [= <-]. apply app_nil in Hall as [[Hd Hi]%argv_missing_nil Hr].
    exists pid. split_and!; [done..|]. exists m, rc. done.
  - intros (p & [= <-] & -> & _ & Hd & Hi & m' & rc' & Hm' & Hrc' & Hr).
    fold line in Hd, Hi, Hm' |- *. rewrite Hm in Hm'. injection Hm' as <-. rewrite Hrc in Hrc'. injection Hrc' as <-.
    rewrite Hr, app_nil_r. by rewrite (proj2 (argv_missing_nil iface line)).
Qed.

(** The test of the command line alone is one for a prefix: en40 passes for en4 where the resource file says
    en4. *)
Theorem interface_prefix_accepted :
  let H := launched_host (en4_argv "en40") in
  assert_vice_bound_to (Some 77) "en4" = Ok (en4_argv "en40").
Proof. by vm_compute. Qed.

Lemma binding_exact_witness :
  assert_vice_bound_to (H:=launched_host (en4_argv "en4")) (Some 77) "en4" = Ok (en4_argv "en4") ∧
  contains "-ethernetioif en4" (en4_argv "en4") = true ∧ ∃ rc, Forall (λ x, has_setting x rc) (rc_wanted "en4").*1.
Proof.
  assert (Hok : assert_vice_bound_to (H:=launched_host (en4_argv "en4")) (Some 77) "en4" = Ok (en4_argv "en4"))
    by (vm_compute; reflexivity).
  split; [exact Hok|].
  pose proof (proj1 (@binding_exact (launched_host (en4_argv "en4")) _ _ _) Hok) as Hspec.
  destruct Hspec as (pid & _ & _ & _ & _ & Hi & m & rc & _ & _ & Hall).
  split; [exact Hi|exists rc; exact Hall].
Defined.

(** C24. A suite that builds and then checks goes on in two cases only: the build was skipped because the environment
    says so (C64_SKIP_BUILD is set and not empty), or "make clean BACKEND=ip65" and then "make BACKEND=ip65" ran,
    both with the caller's knobs behind them, and both succeeded; and in either case the linker map at that
    moment lists the ip65 blob.  A map that cannot be read or does not list it is an error of its own, a command
    that fails is the last one run, its output is passed on and the map is not looked at. *)
Theorem build_then_checked {W} `{!Make W} extra (s : build_state W) :
  let skipped := match mk_env with Some v => negb (bool_decide (v = "")) | None => false end in
  let knobs := match extra with Some knobs => knobs | None => [] end in
  let cmds := ["make" :: "clean" :: "BACKEND=ip65" :: knobs; "make" :: "BACKEND=ip65" :: knobs] in
  let done := bs_log s ++ (if skipped then [Skipped] else (λ c, Ran c 0) <$> cmds) in
  match (build_ip65 extra;; assert_ip65_build) s with
  | Ret _ s' => bs_log s' = done ∧
      ∃ text, mk_map (bs_world s') = Ok text ∧ contains "ip65_blob.o" text = true
  | Raise NotIp65 s' => bs_log s' = done ∧
      ∃ text, mk_map (bs_world s') = Ok text ∧ contains "ip65_blob.o" text = false
  | Raise (MapUnreadable why) s' => bs_log s' = done ∧ mk_map (bs_world s') = Err why
  | Raise (BuildFailed c) s' => skipped = false ∧ ∃ ok later rc out err, cmds = ok ++ c :: later ∧ rc ≠ 0 ∧
      bs_log s' = bs_log s ++ ((λ c, Ran c 0) <$> ok)
                  ++ [Ran c rc; Wrote (last_chars 2000 out); Wrote (last_chars 2000 err)]
  | Raise (CannotRun _) s' => skipped = false ∧ ∃ ok c later, cmds = ok ++ c :: later ∧
      bs_log s' = bs_log s ++ ((λ c, Ran c 0) <$> ok) ++ [NotRun c]
  end.
Proof.
  intros skipped knobs cmds finished. rewrite run_bind. unfold build_ip65.
  replace (negb (bool_decide (default "" mk_env = ""))) with skipped by (unfold skipped; by destruct mk_env).
  change (build_commands (default [] extra)) with cmds.
  assert (Hcheck : ∀ s' : build_state W, bs_log s' = finished →
    match assert_ip65_build s' with
    | Ret _ s'' => bs_log s'' = finished ∧ ∃ text, mk_map (bs_world s'') = Ok text ∧ contains "ip65_blob.o" text = true
    | Raise NotIp65 s'' => bs_log s'' = finished ∧ ∃ text, mk_map (bs_world s'') = Ok text ∧ contains "ip65_blob.o" text = false
    | Raise (MapUnreadable why) s'' => bs_log s'' = finished ∧ mk_map (bs_world s'') = Err why
    | Raise _ _ => False
    end).
  { intros s' Hs'. unfold assert_ip65_build. rewrite run_bind. unfold gets.
    destruct (mk_map (bs_world s')) as [text|why] eqn:Hmap; [|by cbn].
    destruct (contains "ip65_blob.o" text) eqn:Hc; cbn; eauto. }
  unfold finished in *. destruct skipped.
  - cbn [said modify]. specialize (Hcheck (BuildState (bs_world s) (bs_log s ++ [Skipped])) eq_refl).
    destruct (assert_ip65_build _) as [u s'|e s']; [done|]. by destruct e.
  - pose proof (run_all_log cmds s) as Hrun. destruct (run_all cmds s) as [u s'|e s'].
    + specialize (Hcheck s' Hrun). destruct (assert_ip65_build s') as [v s''|e s'']; [done|]. by destruct e.
    + destruct Hrun as (ok & c & later & Hcmds & He). destruct e; try done.
      * split; [done|]. by exists ok, c, later.
      * destruct He as (-> & rc & out & err & Hrc & Hlog). split; [done|]. by exists ok, later, rc, out, err.
Qed.

Example build_ex :
  let H := toy_make 2 in
  (build_ip65 (Some ["K=1"]);; assert_ip65_build) (BuildState 0 [])
  = Raise (BuildFailed ["make"; "clean"; "BACKEND=ip65"; "K=1"])
      (BuildState 1 [Ran ["make"; "clean"; "BACKEND=ip65"; "K=1"] 2; Wrote ""; Wrote ""]).
Proof. by vm_compute. Qed.
Example build_ok_ex :
  let H := toy_make 0 in
  (build_ip65 None;; assert_ip65_build) (BuildState 0 [])
  = Ret tt (BuildState 2 [Ran ["make"; "clean"; "BACKEND=ip65"] 0; Ran ["make"; "BACKEND=ip65"] 0]).
Proof. by vm_compute. Qed.
End Launch.
