(* ===== verification/RigTap.v ===== *)
(** * The rig's own processes (tools/vice_eth_rig.py)

    The tap runs a tcpdump, the self-test of the conflict probe a decoy.  Both are children of the
    tool, which stops what it started; everything they do to a process is recorded. *)

From S2P Require Export Settle RigHost.

(** The clock, and the one child process: [ch_wait] is [false] when the wait timed out; [ch_line] takes a
    line of its standard error (with its end, empty behind the last) in the seconds given, [None] when
    there was none; [ch_poll] is [None] while it runs.  [ch_tempdir] and [ch_rmtree] make and remove a
    temporary directory, [ch_mkdirs] a path in one; [ch_python] is [sys.executable], [ch_host] is what the system answers at that moment. *)
Class Child (W : Type) := {
  ch_python : string;
  ch_now : W → spec_float * W;
  ch_sleep : Z → W → W;
  ch_spawn : list string → option string → eff W string Z;
  ch_line : spec_float → eff W string (option string);
  ch_poll : W → option Z;
  ch_terminate : eff W string unit;
  ch_wait : Z → eff W string bool;
  ch_kill : eff W string unit;
  ch_tempdir : eff W string string;
  ch_mkdirs : string → eff W string unit;
  ch_rmtree : string → eff W string unit;
  ch_host : W → Host;
}.

Inductive child_error :=
| ChildOutOfFuel
| NotListening (iface : string)
| Os (what : string).
Definition child_fuel (e : child_error) : bool := match e with ChildOutOfFuel => true | _ => false end.

Inductive child_event :=
| Spawned (argv : list string) (cwd : option string) (pid : Z)
| Printed (line : option string)
| Terminated
| Reaped
| StillRunning
| Killed
| Looked (procs : list vice_proc)
| Napped
| MadeDir (path : string)
| Removed (path : string)
| Broke (what : string).

Record child_state (W : Type) := ChildState { cs_world : W; cs_log : list child_event }.
Arguments ChildState {W} cs_world cs_log.
Arguments cs_world {W} s : rename.
Arguments cs_log {W} s : rename.

Section child.
Context {W : Type} `{!Child W}.
Abbreviation M := (eff (child_state W) child_error).

(** One use, recorded; [what] names one that raised. *)
Definition act {A} (what : string) (m : eff W string A) (shown : A → child_event) : M A := λ s,
  match m (cs_world s) with
  | Ret a w => Ret a (ChildState w (cs_log s ++ [shown a]))
  | Raise e w => Raise (Os e) (ChildState w (cs_log s ++ [Broke what]))
  end.

Definition clock : M spec_float := λ s, let '(t, w) := ch_now (cs_world s) in Ret t (ChildState w (cs_log s)).
Definition nap (ms : Z) : M unit := λ s, Ret tt (ChildState (ch_sleep ms (cs_world s)) (cs_log s ++ [Napped])).
Definition spawn (argv : list string) (cwd : option string) : M Z :=
  act "spawn" (ch_spawn argv cwd) (Spawned argv cwd).
Definition next_line (timeout : spec_float) : M (option string) := act "read" (ch_line timeout) Printed.

(** [p.terminate()]; [try: p.wait(timeout)] [except TimeoutExpired: p.kill()] *)
Definition stop_child (timeout : Z) : M unit :=
  act "terminate" ch_terminate (λ _, Terminated);;
  ended ← act "wait" (ch_wait timeout) (λ b : bool, if b then Reaped else StillRunning);
  if (ended : bool) then mret tt else act "kill" ch_kill (λ _, Killed).

(** [try: m] [except BaseException: h; raise] *)
Definition undo {A} (m : M A) (h : M unit) : M A := catch_any m (λ e, h;; raise e).

(** ** The tap *)

Definition START_TIMEOUT_S : spec_float := float_of_Z 5.

(** [Tap.__init__]: the filter is widened by the later fragments. *)
Definition tap_filter (bpf_filter : string) : string :=
  "(" +:+ bpf_filter +:+ ") or (ip[6:2] & 0x1fff != 0)".
Definition tap_argv (iface filter : string) : list string :=
  ["tcpdump"; "-i"; iface; "-l"; "-n"; "-q"; "-U"; filter].

(** [max(0.0, x)] *)
Definition at_least_0 (x : spec_float) : spec_float := if flt (float_of_Z 0) x then x else float_of_Z 0.

Fixpoint await_listening (fuel : nat) (deadline : spec_float) (iface : string) : M unit :=
  match fuel with
  | O => raise ChildOutOfFuel
  | S fuel =>
      t ← clock;
      if negb (flt t deadline) then raise (NotListening iface) else
      t ← clock;
      got ← next_line (at_least_0 (fsub deadline t));
      match got with
      | None => raise (NotListening iface)
      | Some line =>
          if contains "listening on" line then mret tt else
          exited ← (gets (λ s, bool_decide (line = "") && negb (bool_decide (ch_poll (cs_world s) = None))) : M bool);
          if (exited : bool) then raise (NotListening iface) else await_listening fuel deadline iface
      end
  end.

(** [__exit__] of a tap whose tcpdump was started *)
Definition tap_exit : M unit := stop_child 3.
Definition tap_enter (fuel : nat) (iface bpf_filter : string) : M unit :=
  _ ← spawn (tap_argv iface (tap_filter bpf_filter)) None;
  undo (t ← clock; await_listening fuel (fadd t START_TIMEOUT_S) iface) tap_exit.

(** [with Tap(bpf_filter, iface) as tap: body] *)
Definition with_tap {A} (fuel : nat) (iface bpf_filter : string) (body : M A) : M A :=
  tap_enter fuel iface bpf_filter;;
  finally body tap_exit.

(** ** The self-test of the conflict probe *)

Definition FAKE_OWNER : string := "agent-SELFTESTFAKE".
Definition fake_worktree (td : string) : string := td +:+ "/.claude/worktrees/" +:+ FAKE_OWNER.
Definition decoy_argv (iface : string) : list string :=
  [ch_python; "-c"; "import time; time.sleep(30)"; "--ethernetioif"; iface; "--decoy"].

Definition look (iface : string) : M (list vice_proc) := λ s,
  let procs := vice_on_iface (H := ch_host (cs_world s)) iface in
  Ret procs (ChildState (cs_world s) (cs_log s ++ [Looked procs])).

Fixpoint find_decoy (fuel : nat) (deadline : spec_float) (iface : string) (pid : Z) : M (option vice_proc) :=
  match fuel with
  | O => raise ChildOutOfFuel
  | S fuel =>
      t ← clock;
      if negb (flt t deadline) then mret None else
      procs ← look iface;
      match List.filter (λ p, vp_pid p =? pid) procs with
      | p :: _ => mret (Some p)
      | [] => nap 100;; find_decoy fuel deadline iface pid
      end
  end.

Definition judge_decoy (iface : string) (pid : Z) (found : option vice_proc) : list reason :=
  match found with
  | None => [("did not find the decoy", [PStr iface; PInt pid])]
  | Some p =>
      let msg := describe_conflict [p] iface in
      (if bool_decide (vp_worktree p = Some FAKE_OWNER) then []
       else [("misattributed", [of_opt PStr (vp_worktree p); of_opt PStr (vp_cwd p)])])
      ++ (if contains "SELFTESTFAKE" msg then [] else [("does not name the owner", [PStr msg])])
      ++ (if contains "pkill" msg then [] else [("omits the warning", [PStr msg])])
  end.

Definition selftest_conflict_probe (fuel : nat) (iface : string) : M (list reason) :=
  td ← act "tempdir" ch_tempdir MadeDir;
  finally
    (act "mkdirs" (ch_mkdirs (fake_worktree td)) (λ _, MadeDir (fake_worktree td));;
     pid ← spawn (decoy_argv iface) (Some (fake_worktree td));
     finally
       (t ← clock;
        found ← find_decoy fuel (fadd t (float_of_Z 5)) iface pid;
        mret (judge_decoy iface pid found))
       (stop_child 5))
    (act "rmtree" (ch_rmtree td) (λ _, Removed td)).
End child.
