(* ===== verification/RigTapThms.v ===== *)
(** * The rig's own processes: the properties

    Whatever a tap or the decoy of the self-test meets, the process that was started is told to
    end, once, and killed when it does not; and what the self-test's verdict means. *)

From S2P Require Export Discipline RigTap.
#[local] Set Warnings "-clear-no-such-hyp".

(** Nothing was done to the process. *)
Definition hands_off (tr : list child_event) : Prop :=
  Forall (λ e, match e with
               | Printed _ | Looked _ | Napped => True
               | _ => False
               end ∨ e = Broke "read") tr.
Definition stop_logs : list (list child_event) :=
  [[Terminated; Reaped]; [Terminated; StillRunning; Killed]; [Broke "terminate"];
   [Terminated; Broke "wait"]; [Terminated; StillRunning; Broke "kill"]].

Section logs.
Context {W : Type} `{!Child W}.
Abbreviation M := (eff (child_state W) child_error).

Abbreviation adds := (Discipline.adds (E:=child_error) (@cs_log W)).

Lemma adds_clock {B} (f : spec_float → M B) P X : (∀ t, adds (f t) P X) → adds (clock ≫= f) P X.
Proof.
  intros Hf s. rewrite run_bind. unfold clock. destruct (ch_now (cs_world s)) as [t w].
  exact (Hf t (ChildState w (cs_log s))).
Qed.

Lemma adds_act {A} what (m : eff W string A) shown :
  adds (act what m shown) (λ a tr, tr = [shown a]) (λ _ tr, tr = [Broke what]).
Proof. intros s. unfold act. destruct (m (cs_world s)); eexists; by split. Qed.

(** A first step that is one use. *)
Lemma adds_act_bind {A B} what (m : eff W string A) shown (f : A → M B) P X :
  (∀ e, X e [Broke what]) →
  (∀ a, adds (f a) (λ b tr, P b (shown a :: tr)) (λ e tr, X e (shown a :: tr))) →
  adds (act what m shown ≫= f) P X.
Proof.
  intros HX Hf. eapply (adds_bind _ _ (λ a tr, tr = [shown a])).
  - eapply adds_conseq; [apply adds_act|done|]. intros e tr ->. apply HX.
  - intros a tr ->. apply Hf.
Qed.

Lemma stop_child_adds timeout :
  adds (stop_child timeout) (λ _ tr, tr ∈ take 2 stop_logs) (λ _ tr, tr ∈ drop 2 stop_logs).
Proof.
  unfold stop_child. apply adds_act_bind; [intros; cbn; set_solver|]. intros _.
  apply adds_act_bind; [intros; cbn; set_solver|]. intros [].
  - apply adds_ret. cbn. set_solver.
  - eapply adds_conseq; [apply adds_act|..]; intros ? tr ->; cbn; set_solver.
Qed.

(** A line that says tcpdump listens is the last thing before success. *)
Definition heard (tr : list child_event) : Prop :=
  ∃ line, last tr = Some (Printed (Some line)) ∧ contains "listening on" line = true.

Lemma await_adds fuel deadline iface :
  adds (await_listening fuel deadline iface) (λ _ tr, hands_off tr ∧ heard tr) (λ _ tr, hands_off tr).
Proof.
  induction fuel as [|fuel IH]; cbn [await_listening]; [by apply adds_raise; constructor|].
  apply adds_clock. intros t. destruct (negb (flt t deadline)); [by apply adds_raise; constructor|].
  apply adds_clock. intros t'. unfold next_line. apply adds_act_bind.
  { intros _. constructor; [by right|constructor]. }
  intros [line|]. 2: { apply adds_raise. repeat constructor. }
  destruct (contains "listening on" line) eqn:Hc.
  - apply adds_ret. split; [repeat constructor|]. by exists line.
  - apply adds_gets. intros []; [apply adds_raise; repeat constructor|].
    eapply adds_conseq; [apply IH|..].
    + intros ? tr (Ho & l & Hl & Hin). split; [constructor; [by left|done]|]. exists l.
      split; [|done]. by rewrite last_cons, Hl.
    + intros ? tr Hh. constructor; [by left|done].
Qed.

Lemma hands_off_app tr tr' : hands_off tr → hands_off tr' → hands_off (tr ++ tr').
Proof. apply Forall_app_2. Qed.

Lemma stops_all tr : tr ∈ take 2 stop_logs ∨ tr ∈ drop 2 stop_logs ↔ tr ∈ stop_logs.
Proof. rewrite <- elem_of_app, take_drop. done. Qed.

(** Started, left alone, and stopped. *)
Definition bracketed (argv : list string) (cwd : option string) (tr : list child_event) : Prop :=
  ∃ pid mid stop, tr = Spawned argv cwd pid :: mid ++ stop ∧ hands_off mid ∧ stop ∈ stop_logs.

Definition mid_stop (tr : list child_event) : Prop :=
  ∃ mid stop, tr = mid ++ stop ∧ hands_off mid ∧ stop ∈ stop_logs.

(** Stopping the child behind whatever left it alone. *)
Lemma stopped_after {A} (m : M A) P timeout :
  adds m (λ a tr, hands_off tr ∧ P a tr) (λ _ tr, hands_off tr) →
  adds (finally m (stop_child timeout))
    (λ a tr, ∃ mid stop, tr = mid ++ stop ∧ hands_off mid ∧ P a mid ∧ stop ∈ take 2 stop_logs) (λ _ tr, mid_stop tr).
Proof.
  intros Hm. eapply adds_conseq.
  { eapply (adds_finally _ _ _ _ _ _ (λ _ tr, mid_stop tr)); [exact Hm|apply stop_child_adds|..].
    - intros a tr tr' e [Hh _] Hs. exists tr, tr'. split_and!; [done..|]. apply stops_all. auto.
    - intros e tr tr' u Hh Hs. exists tr, tr'. split_and!; [done..|]. apply stops_all. auto.
    - intros e tr tr' e' Hh Hs. exists tr, tr'. split_and!; [done..|]. apply stops_all. auto. }
  - intros a tr (mid & stop & -> & [Hh HP] & Hs). by exists mid, stop.
  - done.
Qed.
Lemma undone_after {A} (m : M A) P timeout :
  adds m P (λ _ tr, hands_off tr) → adds (undo m (stop_child timeout)) P (λ _ tr, mid_stop tr).
Proof.
  intros Hm. eapply adds_catch; [exact Hm|]. intros e tr Hh. eapply adds_bind.
  - eapply adds_conseq; [apply stop_child_adds|intros ? tr' Hs; exact Hs|]. intros e' tr' Hs.
    exists tr, tr'. split_and!; [done..|]. apply stops_all. auto.
  - intros ? tr' Hs. apply adds_raise. rewrite app_nil_r. exists tr, tr'. split_and!; [done..|]. apply stops_all. auto.
Qed.

Lemma tap_enter_adds fuel iface f :
  adds (tap_enter fuel iface f)
    (λ _ tr, ∃ pid mid, tr = Spawned (tap_argv iface (tap_filter f)) None pid :: mid ∧ hands_off mid ∧ heard mid)
    (λ _ tr, tr = [Broke "spawn"] ∨ bracketed (tap_argv iface (tap_filter f)) None tr).
Proof.
  unfold tap_enter, spawn. apply adds_act_bind; [by left|]. intros pid.
  eapply adds_conseq.
  { apply undone_after, adds_clock. intros t. apply await_adds. }
  - intros _ tr [Hh Hl]. by exists pid, tr.
  - intros e tr (mid & stop & -> & Hmid & Hstop). right. by exists pid, mid, stop.
Qed.

Lemma find_decoy_adds fuel deadline iface pid :
  adds (find_decoy fuel deadline iface pid)
    (λ found tr, hands_off tr ∧
       match found with
       | Some p => ∃ procs, last tr = Some (Looked procs) ∧ head (List.filter (λ p, vp_pid p =? pid) procs) = Some p
       | None => Forall (λ e, ∀ procs, e = Looked procs → List.filter (λ p, vp_pid p =? pid) procs = []) tr
       end)
    (λ _ tr, hands_off tr).
Proof.
  induction fuel as [|fuel IH]; cbn [find_decoy]; [by apply adds_raise; constructor|].
  apply adds_clock. intros t. destruct (negb (flt t deadline)).
  { apply adds_ret. repeat constructor. }
  intros s. rewrite run_bind. unfold look. set (procs := vice_on_iface iface).
  destruct (List.filter (λ p, vp_pid p =? pid) procs) as [|p ps] eqn:Hf.
  - rewrite run_bind. unfold nap. cbn [cs_world cs_log].
    specialize (IH (ChildState (ch_sleep 100 (cs_world s)) ((cs_log s ++ [Looked procs]) ++ [Napped]))).
    cbn [cs_log] in IH.
    destruct (find_decoy fuel deadline iface pid _) as [found s'|e s'];
      [destruct IH as (tr & Hl & Hh & Hf')|destruct IH as (tr & Hl & Hh)];
      exists (Looked procs :: Napped :: tr); rewrite Hl, <- !app_assoc; (split; [done|]).
    + split; [do 2 (constructor; [by left|]); done|]. destruct found as [p|].
      * destruct Hf' as (l & Hlast & Hhead). exists l. split; [|done]. by rewrite !last_cons, Hlast.
      * apply Forall_cons; split; [intros l Heq; injection Heq as <-; exact Hf|]. by apply Forall_cons.
    + do 2 (constructor; [by left|]). done.
  - exists [Looked procs]. split; [done|]. split; [by repeat constructor|]. exists procs. by rewrite Hf.
Qed.
End logs.

(** ** The verdict on the decoy *)

Lemma contains_iff part s : contains part s = true ↔ ∃ pre post, chars s = pre ++ chars part ++ post.
Proof.
  unfold contains. rewrite py_in_spec. split.
  - intros (i & _ & l & k & Hs & _). by exists l, k.
  - intros (l & k & Hs). exists (len l). split; [unfold len; lia|]. by exists l, k.
Qed.
Lemma contains_self part : contains part part = true.
Proof. apply contains_iff. exists [], []. by rewrite app_nil_r. Qed.
Lemma contains_left part s t : contains part s = true → contains part (s +:+ t) = true.
Proof.
  rewrite !contains_iff. intros (pre & post & Hs). exists pre, (post ++ chars t).
  by rewrite chars_app, Hs, <- !app_assoc.
Qed.
Lemma contains_right part s t : contains part t = true → contains part (s +:+ t) = true.
Proof.
  rewrite !contains_iff. intros (pre & post & Ht). exists (chars s ++ pre), post.
  by rewrite chars_app, Ht, <- !app_assoc.
Qed.
Lemma contains_trans part s t : contains part s = true → contains s t = true → contains part t = true.
Proof.
  rewrite !contains_iff. intros (pre & post & Hs) (pre' & post' & Ht). exists (pre' ++ pre), (post ++ post').
  by rewrite Ht, Hs, <- !app_assoc.
Qed.

(** The message names the worktree a conflicting process belongs to, and warns against killing it. *)
Lemma conflict_named p iface wt :
  vp_worktree p = Some wt →
  contains wt (describe_conflict [p] iface) = true ∧ contains "pkill" (describe_conflict [p] iface) = true.
Proof.
  intros Hwt. unfold describe_conflict. cbn [fmap list_fmap app join]. rewrite Hwt. split.
  - do 2 apply contains_right. apply contains_left. do 3 apply contains_right. apply contains_left.
    apply contains_right, contains_self.
  - do 4 apply contains_right. by vm_compute.
Qed.

Lemma judge_nil iface pid found :
  judge_decoy iface pid found = [] ↔ ∃ p, found = Some p ∧ vp_worktree p = Some FAKE_OWNER.
Proof.
  unfold judge_decoy. destruct found as [p|]; [|by split; [|intros (? & ? & _)]].
  case_bool_decide as Hwt.
  - destruct (conflict_named p iface FAKE_OWNER Hwt) as [Hn ->].
    assert (contains "SELFTESTFAKE" (describe_conflict [p] iface) = true) as ->.
    { eapply contains_trans; [|exact Hn]. by vm_compute. }
    split; [by exists p|done].
  - split; [done|]. intros (q & [= <-] & ?). done.
Qed.

(** ** The decoy *)

(** Besides the decoy. *)
Definition aside (tr : list child_event) : Prop :=
  Forall (λ e, match e with MadeDir _ | Removed _ | Broke _ => True | _ => False end) tr.

Section decoy.
Context {W : Type} `{!Child W}.
Abbreviation adds := (Discipline.adds (E:=child_error) (@cs_log W)).

(** The last look shows the decoy, in the worktree it was started in. *)
Definition attributed (pid : Z) (mid : list child_event) : Prop :=
  ∃ procs p, last mid = Some (Looked procs) ∧
    head (List.filter (λ p, vp_pid p =? pid) procs) = Some p ∧ vp_worktree p = Some FAKE_OWNER.

Lemma found_attributed pid mid found :
  match found with
  | Some p => ∃ procs, last mid = Some (Looked procs) ∧ head (List.filter (λ p, vp_pid p =? pid) procs) = Some p
  | None => Forall (λ e, ∀ procs, e = Looked procs → List.filter (λ p, vp_pid p =? pid) procs = []) mid
  end →
  (∃ p, found = Some p ∧ vp_worktree p = Some FAKE_OWNER) ↔ attributed pid mid.
Proof.
  destruct found as [p|].
  - intros (procs & Hl & Hh). split.
    + intros (q & [= <-] & Hw). by exists procs, p.
    + intros (procs' & q & Hl' & Hh' & Hw). rewrite Hl in Hl'. injection Hl' as <-. rewrite Hh in Hh'. by exists q.
  - intros Hno. split; [by intros (? & ? & _)|]. intros (procs & p & Hl & Hh & _). exfalso.
    apply last_Some in Hl as (mid' & ->). apply Forall_app in Hno as [_ [Hno _]%Forall_cons].
    by rewrite (Hno procs eq_refl) in Hh.
Qed.

Definition decoy_bracketed (iface td : string) (tr : list child_event) : Prop :=
  aside tr ∨ ∃ decoy, tr = MadeDir (fake_worktree td) :: decoy ∧
    bracketed (decoy_argv (W:=W) iface) (Some (fake_worktree td)) decoy.

Lemma decoy_adds fuel iface td :
  adds (act "mkdirs" (ch_mkdirs (fake_worktree td)) (λ _, MadeDir (fake_worktree td));;
        pid ← spawn (decoy_argv (W:=W) iface) (Some (fake_worktree td));
        finally (t ← clock;
                found ← find_decoy fuel (fadd t (float_of_Z 5)) iface pid;
                mret (judge_decoy iface pid found)) (stop_child 5))
    (λ bad tr, ∃ pid mid stop,
       tr = MadeDir (fake_worktree td) :: Spawned (decoy_argv (W:=W) iface) (Some (fake_worktree td)) pid :: mid ++ stop ∧
       hands_off mid ∧ stop ∈ take 2 stop_logs ∧ (bad = [] ↔ attributed pid mid))
    (λ _ tr, decoy_bracketed iface td tr).
Proof.
  apply adds_act_bind; [left; by repeat constructor|]. intros _. unfold spawn.
  apply adds_act_bind; [left; by repeat constructor|]. intros pid.
  eapply adds_conseq.
  { apply (stopped_after _ (λ bad tr, bad = [] ↔ attributed pid tr)). apply adds_clock. intros t.
    eapply adds_bind; [apply find_decoy_adds|]. intros found tr [Hh Hf].
    apply adds_ret. rewrite app_nil_r. split; [done|]. rewrite judge_nil. by apply found_attributed. }
  - intros bad tr (mid & stop & -> & Hh & Hb & Hs). by exists pid, mid, stop.
  - intros e tr (mid & stop & -> & Hh & Hs). right. eexists. split; [reflexivity|]. by exists pid, mid, stop.
Qed.
End decoy.

(** ** Clocks under which the loops end *)

(** [steps d w] bounds how often something more can happen before the clock reaches [d]: a pause takes
    time, and tcpdump prints finitely many lines. *)
Class ChildClock W `{!Child W} := {
  steps : spec_float → W → nat;
  steps_now : ∀ d w, (steps d (ch_now w).2 ≤ steps d w)%nat;
  steps_before : ∀ d w, flt (ch_now w).1 d = true → (0 < steps d (ch_now w).2)%nat;
  steps_sleep : ∀ d w ms, 0 < ms → (steps d (ch_sleep ms w) ≤ pred (steps d w))%nat;
  steps_line : ∀ d w t line w', ch_line t w = Ret (Some line) w' → (steps d w' ≤ pred (steps d w))%nat;
}.

Section settling.
Context {W : Type} `{!Child W, !ChildClock W}.
Abbreviation M := (eff (child_state W) child_error).
Abbreviation settles := (Settle.settles (S:=child_state W) child_fuel).
Abbreviation settles_at := (Settle.settles_at (S:=child_state W) child_fuel).
Abbreviation in_fuel := (Settle.in_fuel (S:=child_state W) child_fuel).

Lemma settled_at {A} (m : nat → M A) s o : in_fuel o → (∀ fuel, m (S fuel) s = o) → settles_at m s.
Proof. intros Ho Hm. apply settles_at_succ. exists 0%nat, o. split; [done|]. intros fuel _. apply Hm. Qed.

Lemma await_settles deadline iface : settles (λ fuel, await_listening fuel deadline iface).
Proof.
  intros s. remember (steps deadline (cs_world s)) as k eqn:Hk.
  assert (Hle : (steps deadline (cs_world s) ≤ k)%nat) by lia. clear Hk.
  revert s Hle. induction k as [k IH] using lt_wf_ind; intros s Hle.
  pose proof (steps_now deadline (cs_world s)) as Hnow. pose proof (steps_before deadline (cs_world s)) as Hbefore.
  destruct (ch_now (cs_world s)) as [t w] eqn:Ht; cbn [fst snd] in *.
  pose proof (steps_now deadline w) as Hnow'. destruct (ch_now w) as [t' w'] eqn:Ht'; cbn [fst snd] in *.
  set (s1 := ChildState w (cs_log s)). set (s2 := ChildState w' (cs_log s)).
  assert (Hc : ∀ B (f : spec_float → M B), (clock ≫= f) s = f t s1) by (intros B f; rewrite run_bind; unfold clock; by rewrite Ht).
  assert (Hc' : ∀ B (f : spec_float → M B), (clock ≫= f) s1 = f t' s2)
    by (intros B f; rewrite run_bind; unfold clock; cbn [cs_world s1]; by rewrite Ht').
  destruct (flt t deadline) eqn:Hlt.
  2: { eapply settled_at; [|intros fuel; cbn [await_listening]; rewrite Hc, Hlt; cbn [negb]; done]. done. }
  specialize (Hbefore eq_refl).
  destruct (ch_line (at_least_0 (fsub deadline t')) w') as [got w3|e w3] eqn:Hg.
  2: { eapply settled_at; [|intros fuel; cbn [await_listening]; rewrite Hc, Hlt; cbn [negb];
                            rewrite Hc', run_bind; unfold next_line, act; cbn [cs_world s2]; rewrite Hg; done]. done. }
  set (s3 := ChildState w3 (cs_log s2 ++ [Printed got])).
  assert (Hrun : ∀ fuel, await_listening (S fuel) deadline iface s =
    match got with
    | None => raise (NotListening iface) s3
    | Some line => (if contains "listening on" line then mret tt else
        exited ← (gets (λ s, bool_decide (line = "") && negb (bool_decide (ch_poll (cs_world s) = None))) : M bool);
        if (exited : bool) then raise (NotListening iface) else await_listening fuel deadline iface) s3
    end).
  { intros fuel. cbn [await_listening]. rewrite Hc, Hlt. cbn [negb]. rewrite Hc', run_bind.
    unfold next_line, act. cbn [cs_world s2]. rewrite Hg. by destruct got. }
  destruct got as [line|]; [|eapply settled_at; [|exact Hrun]; done].
  pose proof (steps_line deadline _ _ _ _ Hg) as Hstep.
  destruct (contains "listening on" line); [by eapply settled_at; [|exact Hrun]|].
  destruct (bool_decide (line = "") && negb (bool_decide (ch_poll w3 = None))) eqn:Hex.
  - eapply settled_at; [|intros fuel; rewrite Hrun, run_bind; unfold gets; cbn [cs_world s3]; rewrite Hex; done]. done.
  - apply settles_at_succ. destruct (IH (pred k) ltac:(lia) s3) as (n & o & Ho & Hn); [cbn; lia|].
    exists n, o. split; [done|]. intros fuel Hf. rewrite Hrun, run_bind. unfold gets. cbn [cs_world s3].
    rewrite Hex. by apply Hn.
Qed.

Lemma decoy_settles deadline iface pid : settles (λ fuel, find_decoy fuel deadline iface pid).
Proof.
  intros s. remember (steps deadline (cs_world s)) as k eqn:Hk.
  assert (Hle : (steps deadline (cs_world s) ≤ k)%nat) by lia. clear Hk.
  revert s Hle. induction k as [k IH] using lt_wf_ind; intros s Hle.
  pose proof (steps_now deadline (cs_world s)) as Hnow. pose proof (steps_before deadline (cs_world s)) as Hbefore.
  destruct (ch_now (cs_world s)) as [t w] eqn:Ht; cbn [fst snd] in *.
  assert (Hc : ∀ B (f : spec_float → M B), (clock ≫= f) s = f t (ChildState w (cs_log s)))
    by (intros B f; rewrite run_bind; unfold clock; by rewrite Ht).
  destruct (flt t deadline) eqn:Hlt.
  2: { eapply settled_at; [|intros fuel; cbn [find_decoy]; rewrite Hc, Hlt; cbn [negb]; done]. done. }
  specialize (Hbefore eq_refl).
  destruct (List.filter (λ p, vp_pid p =? pid) (vice_on_iface (H:=ch_host w) iface)) as [|p ps] eqn:Hf.
  2: { eapply settled_at; [|intros fuel; cbn [find_decoy]; rewrite Hc, Hlt; cbn [negb]; rewrite run_bind;
                            unfold look; cbn [cs_world]; rewrite Hf; done]. done. }
  apply settles_at_succ. pose proof (steps_sleep deadline w 100 ltac:(lia)) as Hstep.
  destruct (IH (pred k) ltac:(lia) (ChildState (ch_sleep 100 w)
      ((cs_log s ++ [Looked (vice_on_iface (H:=ch_host w) iface)]) ++ [Napped]))) as (n & o & Ho & Hn); [cbn; lia|].
  exists n, o. split; [done|]. intros fuel Hfu. cbn [find_decoy]. rewrite Hc, Hlt. cbn [negb].
  rewrite run_bind. unfold look. cbn [cs_world cs_log]. rewrite Hf, run_bind. unfold nap. by apply Hn.
Qed.
End settling.

(** ** Concrete processes *)

(** A clock that passes every deadline after the hundredth pause, the lines tcpdump has still to print, whether it ends when told to, and
    whether [pgrep] sees the decoy. *)
Record toy_child := ToyChild { ty_time : Z; ty_lines : list string; ty_stubborn : bool; ty_seen : bool }.

Definition toy_ps (seen : bool) : Host := {|
  h_platform := "darwin"; h_pid := 1; h_env _ := None; h_exists _ := true; h_open _ := Unreadable;
  h_signal _ := Delivered;
  h_run cmd :=
    if bool_decide (cmd = ["pgrep"; "-fl"; "ethernetioif en4"]) && seen
    then (0, line_of "77 python3 -c import time; time.sleep(30) --ethernetioif en4 --decoy")
    else if bool_decide (cmd = ["lsof"; "-a"; "-p"; "77"; "-d"; "cwd"; "-Fn"])
    then (0, lines_text ["p77"; "fcwd"; "n/tmp/x/.claude/worktrees/agent-SELFTESTFAKE"])
    else (1, "");
  h_run_bounded _ := None;
  vice_binary_supports_ethernet _ := true; driver_requires_root _ := false;
  rawnet_capability _ := true; bpf_permissions _ := true; bpf_node_openable := true;
  effective_driver_name d := d;
|}.

#[export] Instance toy_child_ops : Child toy_child := {|
  ch_python := "python3";
  ch_now w := (if ty_time w <? 100 then S754_zero false else S754_infinity false, w);
  ch_sleep _ w := ToyChild (ty_time w + 1) (ty_lines w) (ty_stubborn w) (ty_seen w);
  ch_spawn _ _ w := Ret 77 w;
  ch_line _ w :=
    match ty_lines w with
    | [] => Ret None w
    | l :: ls => Ret (Some l) (ToyChild (ty_time w) ls (ty_stubborn w) (ty_seen w))
    end;
  ch_poll _ := None;
  ch_terminate w := Ret tt w;
  ch_wait _ w := Ret (negb (ty_stubborn w)) w;
  ch_kill w := Ret tt w;
  ch_tempdir w := Ret "/tmp/x" w;
  ch_mkdirs _ w := Ret tt w;
  ch_rmtree _ w := Ret tt w;
  ch_host w := toy_ps (ty_seen w);
|}.

#[export] Instance toy_child_clock : ChildClock toy_child.
Proof.
  refine (@Build_ChildClock toy_child _
    (λ _ w, if ty_time w <? 100 then (Z.to_nat (100 - ty_time w) + length (ty_lines w))%nat else 0%nat) _ _ _ _).
  - done.
  - intros d w. cbn [ch_now toy_child_ops fst snd]. destruct (Z.ltb_spec (ty_time w) 100); [lia|].
    by destruct d as [[]|[]| |[] ? ?].
  - intros d w ms _. cbn. destruct (Z.ltb_spec (ty_time w) 100), (Z.ltb_spec (ty_time w + 1) 100); lia.
  - intros d w t line w'. cbn. destruct (ty_lines w) as [|l ls]; [done|]. intros [= _ <-]. cbn [ty_time ty_lines length].
    destruct (ty_time w <? 100); lia.
Qed.

Example tap_ex :
  with_tap 9 "feth1" "udp" (mret 5) (ChildState (ToyChild 0 ["tcpdump: verbose"; "listening on feth1"] false false) [])
  = Ret 5 (ChildState (ToyChild 0 [] false false)
      [Spawned ["tcpdump"; "-i"; "feth1"; "-l"; "-n"; "-q"; "-U"; "(udp) or (ip[6:2] & 0x1fff != 0)"] None 77;
       Printed (Some "tcpdump: verbose"); Printed (Some "listening on feth1"); Terminated; Reaped]).
Proof. by vm_compute. Qed.

Module Processes.
Section claims.
Context {W : Type} `{!Child W}.
Abbreviation M := (eff (child_state W) child_error).
Abbreviation adds := (Discipline.adds (E:=child_error) (@cs_log W)).

(** C21. A tcpdump that a tap starts never outlives it, whatever happens: when the capture program cannot be
    started there is nothing to stop, and in every other case (it never says that it listens, the wait is
    interrupted, the body raises) what was started is told to end exactly once, and killed exactly if
    it had not ended three seconds later.  The body runs only behind a line that says tcpdump listens. *)
Theorem tap_bracketed {A} fuel iface f (body : M A) :
  adds body (λ _ tr, hands_off tr) (λ _ tr, hands_off tr) →
  adds (with_tap fuel iface f body)
    (λ _ tr, ∃ pid start mid stop, tr = Spawned (tap_argv iface (tap_filter f)) None pid :: start ++ mid ++ stop ∧
       hands_off start ∧ heard start ∧ hands_off mid ∧ stop ∈ [[Terminated; Reaped]; [Terminated; StillRunning; Killed]])
    (λ _ tr, tr = [Broke "spawn"] ∨ bracketed (tap_argv iface (tap_filter f)) None tr).
Proof.
  intros Hbody. unfold with_tap. eapply adds_bind.
  { eapply adds_conseq; [apply tap_enter_adds|intros ? tr Htr; exact Htr|done]. }
  intros [] start (pid & mid & -> & Hmid & Hheard).
  eapply adds_conseq.
  { apply (stopped_after _ (λ _ _, True)). eapply adds_conseq; [exact Hbody|done|done]. }
  - intros a tr (m & stop & -> & Hm & _ & Hstop). by exists pid, mid, m, stop.
  - intros e tr (m & stop & -> & Hm & Hstop). right. exists pid, (mid ++ m), stop.
    rewrite <- app_assoc. split_and!; [done|by apply hands_off_app|done].
Qed.

(** C23. The self-test of the conflict probe passes exactly if the last look at the process list, within five
    seconds, shows the decoy and attributes it to the worktree it was started in: a probe that sees nothing
    fails it, and the message then always names the owner and warns against killing it.  However it ends,
    the decoy, and nothing else, is told to end, once. *)
Theorem conflict_probe_exact fuel iface :
  adds (selftest_conflict_probe (W:=W) fuel iface)
    (λ bad tr, ∃ td pid mid stop,
       tr = [MadeDir td; MadeDir (fake_worktree td); Spawned (decoy_argv (W:=W) iface) (Some (fake_worktree td)) pid]
            ++ mid ++ stop ++ [Removed td] ∧
       hands_off mid ∧ stop ∈ [[Terminated; Reaped]; [Terminated; StillRunning; Killed]] ∧
       (bad = [] ↔ attributed pid mid))
    (λ _ tr, aside tr ∨ ∃ td pre decoy post, tr = pre ++ decoy ++ post ∧ aside pre ∧ aside post ∧
       bracketed (decoy_argv (W:=W) iface) (Some (fake_worktree td)) decoy).
Proof.
  unfold selftest_conflict_probe. apply adds_act_bind; [left; by repeat constructor|]. intros td.
  assert (Hcons : ∀ tr tr', decoy_bracketed (W:=W) iface td tr → aside tr' →
    aside (MadeDir td :: tr ++ tr') ∨ ∃ td' pre decoy post, MadeDir td :: tr ++ tr' = pre ++ decoy ++ post ∧
      aside pre ∧ aside post ∧ bracketed (decoy_argv (W:=W) iface) (Some (fake_worktree td')) decoy).
  { intros tr tr' [Ha|(decoy & -> & Hd)] Hr.
    - left. constructor; [done|]. by apply Forall_app_2.
    - right. exists td, [MadeDir td; MadeDir (fake_worktree td)], decoy, tr'.
      split_and!; [done|by repeat constructor|done|done]. }
  eapply adds_conseq.
  { eapply (adds_finally _ _ _ _ _ _ (λ _ tr, ∃ m r, tr = m ++ r ∧ decoy_bracketed (W:=W) iface td m ∧ aside r));
      [apply decoy_adds|apply adds_act|..]; intros ? tr tr' ? Htr Htr'; exists tr, tr';
      (split_and!; [done| |cbn in Htr'; subst tr'; by repeat constructor]); [|exact Htr|exact Htr].
    destruct Htr as (pid & mid & stop & -> & Hh & Hs & _). right. eexists. split; [reflexivity|].
    exists pid, mid, stop. split_and!; [done..|]. apply stops_all. auto. }
  - intros bad tr (tr1 & tr2 & -> & (pid & mid & stop & -> & Hh & Hs & Hb) & ->).
    exists td, pid, mid, stop. split_and!; [by cbn; rewrite <- !app_assoc|done..].
  - intros e tr (m & r & -> & Hm & Hr). by apply Hcons.
Qed.
End claims.

(** C0. Waiting for tcpdump and looking for the decoy end under a clock that moves on with every pause and a
    tcpdump that prints finitely many lines: from some amount of fuel on the outcome is the same, and is
    not the one that stands for running out. *)
Theorem child_waits_settle {W} `{!Child W, !ChildClock W} deadline iface pid :
  Settle.settles child_fuel (λ fuel, await_listening (W:=W) fuel deadline iface) ∧
  Settle.settles child_fuel (λ fuel, find_decoy (W:=W) fuel deadline iface pid).
Proof. split; [apply await_settles|apply decoy_settles]. Qed.

Lemma tap_bracketed_witness :
  ∃ e s', with_tap 9 "feth1" "udp" (mret tt) (ChildState (ToyChild 0 ["tcpdump: feth1: No such device"] true false) [])
          = Raise e s' ∧
  ∃ tr, cs_log s' = tr ∧ (tr = [Broke "spawn"] ∨ bracketed (tap_argv "feth1" (tap_filter "udp")) None tr).
Proof.
  pose proof (tap_bracketed 9 "feth1" "udp" (mret tt)
    (adds_ret tt (λ _ tr, hands_off tr) (λ _ tr, hands_off tr) (List.Forall_nil _))
    (ChildState (ToyChild 0 ["tcpdump: feth1: No such device"] true false) [])) as Hspec.
  destruct (with_tap _ _ _ _ _) as [a s'|e s'] eqn:Hrun; [vm_compute in Hrun; discriminate|].
  exists e, s'. split; [reflexivity|]. destruct Hspec as (tr & Htr & Hb). exists tr. split; [exact Htr|exact Hb].
Defined.
End Processes.
