(* ===== verification/Chat.v ===== *)
(** * Conversations over the tunnel (tools/wg_chat.py, tools/wg_demo.py)

    The command line, the unattended dialogue, and the interactive chat: two threads, one that
    sends typed lines and one that receives and renews the session, as steps that interleave.
    The C64 is the transport of the keyboard driver, the responder's socket is the class [Link]. *)

From S2P Require Export DeviceSession Server C64Input.

Definition SESSION_ACTIVE : Z := 2.
Definition CHAT_TURBO_MHZ : Z := 48.
Definition REKEY_AFTER_S : spec_float := float_of_Z 140.
Definition TURN_PAUSE_MS : Z := 4000.

(** ** The command line *)

(** [--host x] and [--host=x] are taken out, the last one counts; the rest is passed on. *)
Fixpoint parse_argv (argv : list string) (host : option string) (rest : list string) :
    option string * list string :=
  match argv with
  | [] => (host, rest)
  | arg :: argv' =>
      let other :=
        if startswith "--host=" arg
        then parse_argv argv' (Some (partition "=" arg).2) rest
        else parse_argv argv' host (rest ++ [arg]) in
      match argv' with
      | value :: argv'' => if bool_decide (arg = "--host") then parse_argv argv'' (Some value) rest else other
      | [] => other
      end
  end.

(** [host or os.environ.get("U64_HOST")], an empty one counting as none. *)
Definition nonempty (s : option string) : option string :=
  s ← s; if bool_decide (s = "") then None else Some s.
Definition chosen_host (host env : option string) : option string :=
  match nonempty host with Some h => Some h | None => nonempty env end.

Definition live_argv (host : string) (passthrough : list string) : list string :=
  ["test_uci_handshake_live.py"; "--chat"; "--host"; host; "--turbo"; dec CHAT_TURBO_MHZ] ++ passthrough.

(** How the live tool's main ends. *)
Inductive live_end := Finished (rc : exit_code) | Interrupted.

(** The exit code of both tools; [live] is the live tool's main on its command line, with the
    teardown failures it recorded. *)
Definition chat_main (argv : list string) (env : option string)
    (live : list string → live_end * list string) : exit_code :=
  let '(host, passthrough) := parse_argv argv None [] in
  match chosen_host host env with
  | None => Code 2
  | Some host =>
      match live (live_argv host passthrough) with
      | (Finished rc, _) => rc
      | (Interrupted, failures) => exit_code_after_teardown (Code 0) failures
      end
  end.

(** [main] of wg_demo.py, the same command line around another conversation. *)
Definition demo_main (argv : list string) (env : option string)
    (live : list string → live_end * list string) : exit_code :=
  let '(host, passthrough) := parse_argv argv None [] in
  match chosen_host host env with
  | None => Code 2
  | Some host =>
      match live (live_argv host passthrough) with
      | (Finished rc, _) => rc
      | (Interrupted, failures) => exit_code_after_teardown (Code 0) failures
      end
  end.

(** ** What arrives from the C64 *)

Definition shown_text (raw : bytes) : option (list Z) :=
  let text := rstrip is_space (petscii_to_ascii (strip_tunnel_headers raw)) in
  if bool_decide (text = []) then None else Some text.
Definition shown_texts (raws : list bytes) : list (list Z) := omap shown_text raws.

(** ** The dialogue *)

Inductive speaker := FromC64 | FromHost.
#[export] Instance speaker_eq_dec : EqDecision speaker.
Proof. solve_decision. Defined.

Definition DIALOGUE : list (speaker * string) :=
  [(FromC64, "1 MHZ. 64K OF RAM. NO CRYPTO UNIT.");
   (FromHost, "AND YET YOU SPEAK WIREGUARD.");
   (FromC64, "X25519 IN 6502. 90 SECONDS.");
   (FromHost, "MY LAPTOP DOES IT IN 40 MICROSEC.");
   (FromC64, "YOU HAVE 8 BILLION TRANSISTORS.");
   (FromHost, "YOU HAVE ABOUT 3500.");
   (FromC64, "EVERY ONE OF THEM EARNS ITS KEEP.");
   (FromHost, "CHACHA20-POLY1305 ON A BREADBIN.");
   (FromC64, "SAY BREADBIN ONE MORE TIME.");
   (FromHost, "APOLOGIES. ON A LEGEND.");
   (FromC64, "MY KEYS NEVER LEFT THIS MACHINE.");
   (FromHost, "NOISE IKPSK2. BY THE BOOK.");
   (FromC64, "NO SECURE ENCLAVE. JUST RAM.");
   (FromHost, "AND A 6502 THAT REFUSES TO QUIT.");
   (FromC64, "40 COLUMNS IS ENOUGH FOR ANYONE.");
   (FromHost, "SHALL WE REKEY AND GO AGAIN?");
   (FromC64, "I HAVE ALL THE TIME IN THE WORLD.")].

Definition line_at (turn : nat) : speaker * string :=
  default (FromC64, "") (DIALOGUE !! (turn `mod` length DIALOGUE)%nat).

(** What the conversation adds to the transport: the responder, its socket and its queue. *)
Class Link (W : Type) := {
  lk_encrypt : bytes → eff W string bytes;
  lk_send : bytes → eff W string unit;
  lk_drain : W → list bytes * W;
}.

(** What the loop did, latest last. *)
Inductive deed :=
| Checked (state : Z) (age : spec_float)
| Renewed (ok : bool)
| Spoke (who : speaker) (line : string)
| NotConsumed (line : string)
| Sent (packet : bytes)
| Heard (text : list Z).

Record demo_state (W : Type) := DemoState { d_input : input_state W; d_deeds : list deed }.
Arguments DemoState {W} d_input d_deeds.
Arguments d_input {W} d : rename.
Arguments d_deeds {W} d : rename.

Inductive demo_error := InputError (e : input_error) | LinkError (what : string).

(** Where a run stands: back at the top of the loop, or returned. *)
Inductive demo_next := Again (started : spec_float) (turn : nat) | Returned (rc : Z).

Section demo.
Context {W : Type} `{!Transport W, !Link W}.
Context (char_to_petscii : Z → option Z).
Abbreviation M := (eff (demo_state W) demo_error).

Definition did (d : deed) : M unit := λ s, Ret tt (DemoState (d_input s) (d_deeds s ++ [d])).
(** A step of the keyboard driver. *)
Definition drive {A} (m : eff (input_state W) input_error A) : M A := λ s,
  match m (d_input s) with
  | Ret a i => Ret a (DemoState i (d_deeds s))
  | Raise e i => Raise (InputError e) (DemoState i (d_deeds s))
  end.
Definition link {A} (m : eff W string A) : M A := λ s,
  match m (i_world (d_input s)) with
  | Ret a w => Ret a (DemoState (InputState w (i_log (d_input s))) (d_deeds s))
  | Raise e w => Raise (LinkError e) (DemoState (InputState w (i_log (d_input s))) (d_deeds s))
  end.
Definition drain : M unit := λ s,
  let '(raws, w) := lk_drain (i_world (d_input s)) in
  Ret tt (DemoState (InputState w (i_log (d_input s))) (d_deeds s ++ (Heard <$> shown_texts raws))).

Definition codes (line : string) : list Z := code <$> chars line.

(** One turn: HOST sends a packet, C64 gets the keys typed. *)
Definition speak (fuel : nat) (input_max : Z) (who : speaker) (line : string) : M bool :=
  match who with
  | FromHost =>
      pkt ← link (lk_encrypt (ascii_to_petscii char_to_petscii (codes line)));
      link (lk_send pkt);;
      did (Sent pkt);;
      did (Spoke who line);;
      mret true
  | FromC64 =>
      ok ← drive (send_message fuel input_max line (seconds_of 30));
      did (if (ok : bool) then Spoke who line else NotConsumed line);;
      mret ok
  end.

(** One pass through the loop. *)
Definition demo_step (fuel : nat) (input_max wg_state : Z) (started : spec_float) (turn : nat) : M demo_next :=
  t ← drive monotonic;
  let age := fsub t started in
  state ← drive (peek wg_state);
  did (Checked state age);;
  if negb (state =? SESSION_ACTIVE) || flt REKEY_AFTER_S age then
    _ ← drive monotonic;
    ok ← drive (rekey fuel wg_state SESSION_ACTIVE (seconds_of 420));
    did (Renewed ok);;
    if negb ok then mret (Returned 1) else
    started ← drive monotonic;
    mret (Again started turn)
  else
    let '(who, line) := line_at turn in
    ok ← speak fuel input_max who line;
    if negb (ok : bool) then mret (Returned 1) else
    drive (sleep_ms TURN_PAUSE_MS);;
    drain;;
    mret (Again started (S turn)).

(** So many passes, until one returns. *)
Fixpoint demo_loop (fuel : nat) (input_max wg_state : Z) (passes : nat) (started : spec_float) (turn : nat) :
    M demo_next :=
  match passes with
  | O => mret (Again started turn)
  | S passes =>
      next ← demo_step fuel input_max wg_state started turn;
      match next with
      | Again started turn => demo_loop fuel input_max wg_state passes started turn
      | Returned rc => mret (Returned rc)
      end
  end.

(** Ctrl-C, wherever in the transport or the responder it strikes. *)
Definition ctrl_c (e : demo_error) : bool :=
  match e with
  | InputError (TransportError what) | LinkError what => bool_decide (what = "KeyboardInterrupt")
  | InputError _ => false
  end.

Definition until_ctrl_c (m : M demo_next) : M demo_next := λ s,
  match m s with
  | Ret next s' => Ret next s'
  | Raise e s' => if ctrl_c e then Ret (Returned 0) s' else Raise e s'
  end.

Definition demo (fuel : nat) (input_max wg_state : Z) (passes : nat) : M demo_next :=
  started ← drive monotonic;
  until_ctrl_c (demo_loop fuel input_max wg_state passes started 0).
End demo.

(** ** The interactive chat *)

Inductive sender_at :=
| Reading
| Encrypting (payload : bytes)
| Sending (payload packet : bytes)
| SenderDone.
Inductive main_at := Watching | Deciding | Renewing | MainDone (rc : Z) | MainRaised.

(** The two threads, the flags and the responder they share, and what was sent: payload, packet,
    and whether a renewal was under way. *)
Record chat (N : Type) := ChatState {
  c_stop : bool;
  c_rekeying : bool;
  c_sender : sender_at;
  c_main : main_at;
  c_responder : responder N;
  c_sent : list (bytes * bytes * bool);
  c_renewals : nat;
}.
Arguments ChatState {N}.
Arguments c_stop {N}.
Arguments c_rekeying {N}.
Arguments c_sender {N}.
Arguments c_main {N}.
Arguments c_responder {N}.
Arguments c_sent {N}.
Arguments c_renewals {N}.

(** One atomic step of a thread: a line is read and the flag looked at; the payload is encrypted
    under the lock; the packet is sent, or that fails; the main thread starts its pass, looks at state
    and age, comes back from the renewal, or gets an exception from the transport or the responder, which ends
    it; the receiver handles an initiation. *)
Inductive chat_event :=
| LineTyped (line : list Z)
| Encrypted
| PacketSent (ok : bool)
| PassBegins
| Looks (state : Z) (age : spec_float)
| RenewalEnds (ok : bool)
| MainRaises
| InitiationArrives (packet : bytes).

Section chat.
Context {N NE : Type} `{Lib : NoiseLib N NE}.
Context (char_to_petscii : Z → option Z) (C64_TUNNEL_MTU : Z).

Definition new_chat (r : responder N) : chat N := ChatState false false Reading Watching r [] 0.

Definition set_sender (x : sender_at) (c : chat N) : chat N :=
  ChatState (c_stop c) (c_rekeying c) x (c_main c) (c_responder c) (c_sent c) (c_renewals c).
Definition set_main (x : main_at) (rekeying : bool) (c : chat N) : chat N :=
  ChatState (c_stop c) rekeying (c_sender c) x (c_responder c) (c_sent c) (c_renewals c).
Definition with_responder (r : responder N) (c : chat N) : chat N :=
  ChatState (c_stop c) (c_rekeying c) (c_sender c) (c_main c) r (c_sent c) (c_renewals c).

(** The payload of a line, cut to the tunnel's MTU. *)
Definition line_payload (line : list Z) : bytes :=
  let payload := ascii_to_petscii char_to_petscii line in
  if C64_TUNNEL_MTU <? len payload then slice 0 C64_TUNNEL_MTU payload else payload.

Definition sender_line (line : list Z) (c : chat N) : chat N :=
  let line := rstrip (λ c, c =? 10) line in
  if bool_decide (line = bytes_of_string "/quit") || bool_decide (line = bytes_of_string "/q")
  then ChatState true (c_rekeying c) SenderDone (c_main c) (c_responder c) (c_sent c) (c_renewals c)
  else if bool_decide (line = []) then c
  else if c_rekeying c then c
  else set_sender (Encrypting (line_payload line)) c.

(** [None] when the thread is not there. *)
Definition chat_step (e : chat_event) (c : chat N) : option (chat N) :=
  match e, c_sender c, c_main c with
  | LineTyped line, Reading, _ => Some (sender_line line c)
  | Encrypted, Encrypting payload, _ =>
      Some match encrypt_transport payload (c_responder c) with
           | Ret pkt r => set_sender (Sending payload pkt) (with_responder r c)
           | Raise _ r => set_sender Reading (with_responder r c)
           end
  | PacketSent ok, Sending payload pkt, m =>
      Some (ChatState (c_stop c) (c_rekeying c) Reading m (c_responder c)
              (c_sent c ++ (if ok then [(payload, pkt, c_rekeying c)] else []))
              (c_renewals c))
  | PassBegins, _, Watching =>
      Some (if c_stop c then set_main (MainDone 0) (c_rekeying c) c else set_main Deciding (c_rekeying c) c)
  | Looks state age, s, Deciding =>
      Some (if (state =? SESSION_ACTIVE) && fle age REKEY_AFTER_S then set_main Watching (c_rekeying c) c
            else ChatState (c_stop c) true s Renewing (c_responder c) (c_sent c) (S (c_renewals c)))
  | RenewalEnds ok, _, Renewing => Some (set_main (if ok then Watching else MainDone 1) false c)
  | MainRaises, _, Deciding => Some (set_main MainRaised (c_rekeying c) c)
  | MainRaises, _, Renewing => Some (set_main MainRaised false c)
  | InitiationArrives packet, _, _ =>
      Some match handle_initiation packet (c_responder c) with
           | Ret _ r | Raise _ r => with_responder r c
           end
  | _, _, _ => None
  end.

Definition chat_run (es : list chat_event) (c : chat N) : option (chat N) :=
  foldl (λ c e, c ← c; chat_step e c) (Some c) es.
End chat.
