(* ===== verification/ChatThms.v ===== *)
(** * Conversations over the tunnel: the properties

    The dialogue is spoken in order and only in a young session, a pass through its loop ends, typed
    lines are refused while a renewal is under way but for the one already taken, and what the command
    line passes on. *)

From S2P Require Export Chat InputThms.
#[local] Set Warnings "-clear-no-such-hyp".

(** ** The order of a dialogue *)

(** The turn, and whether the session was just seen active and young. *)
Definition talk_step (q : nat * bool) (d : deed) : option (nat * bool) :=
  let '(turn, fresh) := q in
  match d with
  | Checked state age => Some (turn, (state =? SESSION_ACTIVE) && negb (flt REKEY_AFTER_S age))
  | Renewed _ => if fresh then None else Some (turn, false)
  | Sent _ => if fresh && bool_decide ((line_at turn).1 = FromHost) then Some q else None
  | Spoke who line => if fresh && bool_decide ((who, line) = line_at turn) then Some (S turn, false) else None
  | NotConsumed line => if fresh && bool_decide ((FromC64, line) = line_at turn) then Some (turn, false) else None
  | Heard _ => Some q
  end.

(** The lines that were spoken. *)
Definition spoken (tr : list deed) : list (speaker * string) :=
  omap (λ d, match d with Spoke who line => Some (who, line) | _ => None end) tr.

Lemma talk_spoken tr turn fresh turn' fresh' :
  run_log talk_step (turn, fresh) tr = Some (turn', fresh') →
  ∃ n, turn' = (turn + n)%nat ∧ spoken tr = line_at <$> seq turn n.
Proof.
  revert turn' fresh'. induction tr as [|d tr IH] using rev_ind; intros turn' fresh'.
  - intros [= <- <-]. exists 0%nat. split; [lia|done].
  - rewrite run_log_app. destruct (run_log talk_step (turn, fresh) tr) as [[t f]|]; [|done].
    destruct (IH t f eq_refl) as (n & -> & Hs). unfold spoken in *. rewrite omap_app, Hs.
    unfold run_log. cbn [foldl mbind option_bind]. unfold talk_step. destruct d as [st age|ok|who line|line|pkt|text].
    + intros [= <- <-]. exists n. by rewrite app_nil_r.
    + destruct f; [done|]. intros [= <- <-]. exists n. by rewrite app_nil_r.
    + destruct f; cbn [andb]; [|done]. case_bool_decide as Hl; [|done]. intros [= <- <-].
      exists (S n). split; [lia|]. rewrite seq_S, fmap_app. cbn. by rewrite Hl.
    + destruct f; cbn [andb]; [|done]. case_bool_decide; [|done]. intros [= <- <-]. exists n. by rewrite app_nil_r.
    + destruct f; cbn [andb]; [|done]. case_bool_decide; [|done]. intros [= <- <-]. exists n. by rewrite app_nil_r.
    + intros [= <- <-]. exists n. by rewrite app_nil_r.
Qed.

Section demo.
Context {W : Type} `{!Transport W, !Link W} (char_to_petscii : Z → option Z).
Abbreviation M := (eff (demo_state W) demo_error).
Abbreviation talks := (obeys d_deeds talk_step).

Lemma talks_silent {A B} P (m : M A) (f : A → M B) R :
  (∀ s, match m s with Ret _ s' | Raise _ s' => d_deeds s' = d_deeds s end) →
  (∀ a, talks P (f a) R) → talks P (m ≫= f) R.
Proof.
  intros Hm. apply obeys_silent. intros s q Hq. specialize (Hm s).
  destruct (m s); exists [], q; by rewrite app_nil_r.
Qed.
Lemma drive_silent {A} (m : eff (input_state W) input_error A) s :
  match drive m s with Ret _ s' | Raise _ s' => d_deeds s' = d_deeds s end.
Proof. unfold drive. by destruct (m (d_input s)). Qed.
Lemma link_silent {A} (m : eff W string A) s :
  match link m s with Ret _ s' | Raise _ s' => d_deeds s' = d_deeds s end.
Proof. unfold link. by destruct (m _). Qed.

Lemma talks_did {B} P d (f : unit → M B) R (P' : nat * bool → Prop) :
  (∀ q, P q → ∃ q', talk_step q d = Some q' ∧ P' q') →
  (∀ u, talks P' (f u) (λ b q tr, R b q (d :: tr))) →
  talks P (did d ≫= f) R.
Proof.
  intros Hd Hf. eapply (obeys_bind _ _ _ _ _ (λ _ q tr, P' q ∧ tr = [d])).
  - intros s q Hq. destruct (Hd q Hq) as (q' & Hstep & HP). exists [d], q'. done.
  - intros u tr. eapply (obeys_pre _ P' (tr = [d])); [done|]. intros ->. apply Hf.
Qed.

(** A turn that comes after a check of a session found active and young. *)
Lemma speak_talks fuel input_max turn who line :
  (who, line) = line_at turn →
  talks (λ q, q = (turn, true)) (speak (W:=W) char_to_petscii fuel input_max who line)
    (λ ok q tr, q = (if ok : bool then S turn else turn, false) ∧
                (ok = false → last tr = Some (NotConsumed line) ∧ who = FromC64)).
Proof.
  intros Hline. destruct who; cbn [speak].
  - apply talks_silent; [apply drive_silent|]. intros ok.
    apply (talks_did _ _ _ _ (λ q, q = (if ok then S turn else turn, false))).
    + intros q ->. destruct ok; cbn; rewrite bool_decide_eq_true_2 by done; by eexists.
    + intros u. apply obeys_ret. intros q ->. split; [done|]. by intros ->.
  - apply talks_silent; [apply link_silent|]. intros pkt. apply talks_silent; [apply link_silent|]. intros _.
    apply (talks_did _ _ _ _ (λ q, q = (turn, true))).
    { intros q ->. cbn. rewrite <- Hline. cbn. by eexists. }
    intros _. apply (talks_did _ _ _ _ (λ q, q = (S turn, false))).
    { intros q ->. cbn. rewrite bool_decide_eq_true_2 by done. by eexists. }
    intros _. by apply obeys_ret.
Qed.

(** What a pass, or a run, that returned came to. *)
Definition ended (next : demo_next) (q : nat * bool) (tr : list deed) : Prop :=
  match next with
  | Again _ turn => q.1 = turn
  | Returned rc => rc = 1 ∧ (last tr = Some (Renewed false) ∨ ∃ line, last tr = Some (NotConsumed line))
  end.

Lemma ended_app next q tr tr' : ended next q tr' → ended next q (tr ++ tr').
Proof.
  destruct next; [done|]. cbn. destruct tr' as [|d tr' _] using rev_ind; [naive_solver|].
  by rewrite app_assoc, !last_snoc.
Qed.

Lemma step_talks fuel input_max wg_state started turn :
  talks (λ q, q.1 = turn) (demo_step (W:=W) char_to_petscii fuel input_max wg_state started turn) ended.
Proof.
  unfold demo_step. apply talks_silent; [apply drive_silent|]. intros t.
  apply talks_silent; [apply drive_silent|]. intros state.
  set (fresh := (state =? SESSION_ACTIVE) && negb (flt REKEY_AFTER_S (fsub t started))).
  apply (talks_did _ _ _ _ (λ q, q = (turn, fresh))).
  { intros [t' f] Hq. cbn in Hq. subst t'. by eexists. }
  intros _. destruct (negb _ || _) eqn:Hdue.
  - assert (fresh = false) as ->.
    { unfold fresh. destruct (state =? SESSION_ACTIVE), (flt REKEY_AFTER_S (fsub t started)); done. }
    apply talks_silent; [apply drive_silent|]. intros _. apply talks_silent; [apply drive_silent|]. intros ok.
    apply (talks_did _ _ _ _ (λ q, q = (turn, false))); [intros q ->; by eexists|]. intros _.
    destruct ok; cbn [negb].
    + apply talks_silent; [apply drive_silent|]. intros t1. apply obeys_ret. by intros q ->.
    + apply obeys_ret. intros q ->. split; [done|by left].
  - assert (fresh = true) as ->.
    { unfold fresh. destruct (state =? SESSION_ACTIVE), (flt REKEY_AFTER_S (fsub t started)); done. }
    destruct (line_at turn) as [who line] eqn:Hline.
    eapply obeys_bind; [by apply speak_talks|]. cbv beta. intros ok tr. destruct ok; cbn [negb].
    + apply talks_silent; [apply drive_silent|]. intros _.
      eapply (obeys_bind _ _ _ _ _ (λ _ q _, q = (S turn, false))).
      * intros s q [-> _]. unfold drain. destruct (lk_drain _) as [raws w]. exists (Heard <$> shown_texts raws), (S turn, false).
        split_and!; [done| |done]. cbn [d_deeds]. clear. unfold run_log.
        induction (shown_texts raws) as [|x l IH]; [done|exact IH].
      * intros u tr'. apply obeys_ret. by intros q ->.
    + apply obeys_ret. intros q (-> & Hl). destruct (Hl eq_refl) as [Hlast _]. split; [done|]. right.
      exists line. rewrite app_nil_r. change (Checked state (fsub t started) :: tr) with ([Checked state (fsub t started)] ++ tr).
      destruct tr as [|d tr _] using rev_ind; [done|]. by rewrite app_assoc, last_snoc; rewrite last_snoc in Hlast.
Qed.

Lemma loop_talks fuel input_max wg_state passes started turn :
  talks (λ q, q.1 = turn) (demo_loop (W:=W) char_to_petscii fuel input_max wg_state passes started turn) ended.
Proof.
  revert started turn. induction passes as [|passes IH]; intros started turn; cbn [demo_loop].
  - by apply obeys_ret.
  - eapply obeys_bind; [apply step_talks|]. intros [started' turn'|rc] tr.
    + eapply obeys_conseq; [apply IH|done|]. intros next q tr' He. by apply ended_app.
    + apply obeys_ret. intros q He. by rewrite app_nil_r.
Qed.
End demo.

(** ** A pass ends *)

Definition demo_fuel (e : demo_error) : bool :=
  match e with InputError e => fuel_error e | LinkError _ => false end.

Section passes.
Context {W : Type} `{!Transport W, !Clock W, !Link W} (char_to_petscii : Z → option Z).
Abbreviation M := (eff (demo_state W) demo_error).
Abbreviation settles := (Settle.settles demo_fuel).
Abbreviation in_fuel := (Settle.in_fuel demo_fuel).

Lemma drive_in_fuel {A} (m : eff (input_state W) input_error A) s :
  Settle.in_fuel fuel_error (m (d_input s)) → in_fuel (drive m s).
Proof. unfold drive. by destruct (m (d_input s)). Qed.
Lemma drive_settles {A} (m : nat → eff (input_state W) input_error A) :
  Settle.settles fuel_error m → settles (λ fuel, drive (m fuel)).
Proof.
  intros Hm s. destruct (Hm (d_input s)) as (n & o & Ho & Hn).
  exists n, (drive (λ _, o) s). split; [by apply (drive_in_fuel (λ _, o))|].
  intros fuel Hf. unfold drive. by rewrite Hn.
Qed.
Lemma link_in_fuel {A} (m : eff W string A) s : in_fuel (link m s).
Proof. unfold link. by destruct (m _). Qed.
Lemma now_drives s : in_fuel (drive monotonic s).
Proof. apply drive_in_fuel. unfold monotonic. by destruct (tr_now _). Qed.
Lemma peek_drives addr s : in_fuel (drive (peek addr) s).
Proof.
  apply drive_in_fuel. unfold peek, read_memory. rewrite run_bind.
  destruct (tr_read addr 1 (i_world (d_input s))) as [[|b l] w|e w] eqn:Hr; [done|done|].
  destruct e; try done. by apply read_fails in Hr.
Qed.

Lemma speak_settles input_max who line :
  settles (λ fuel, speak (W:=W) char_to_petscii fuel input_max who line).
Proof.
  destruct who; cbn [speak].
  - apply settles_bind; [apply drive_settles, send_message_settles|]. intros ok. by apply settles_const.
  - apply settles_const. intros s. apply in_fuel_bind; [apply link_in_fuel|]. intros pkt s'.
    by apply in_fuel_bind; [apply link_in_fuel|].
Qed.

Lemma demo_step_settles input_max wg_state started turn :
  settles (λ fuel, demo_step (W:=W) char_to_petscii fuel input_max wg_state started turn).
Proof.
  unfold demo_step. apply settles_then; [apply now_drives|]. intros t.
  apply settles_then; [apply peek_drives|]. intros state. apply settles_then; [done|]. intros _.
  destruct (negb _ || _).
  - apply settles_then; [apply now_drives|]. intros _.
    apply settles_bind; [apply drive_settles, rekey_settles|]. intros ok.
    apply settles_then; [done|]. intros _. destruct ok; cbn [negb]; [|by apply settles_const].
    apply settles_const. intros s. apply in_fuel_bind; [apply now_drives|done].
  - destruct (line_at turn) as [who line]. apply settles_bind; [apply speak_settles|].
    intros ok. destruct ok; cbn [negb]; [|by apply settles_const].
    apply settles_const. intros s. apply in_fuel_bind; [done|]. intros u s'.
    apply in_fuel_bind; [|done]. unfold drain. by destruct (lk_drain _).
Qed.

Lemma demo_loop_settles input_max wg_state passes started turn :
  settles (λ fuel, demo_loop (W:=W) char_to_petscii fuel input_max wg_state passes started turn).
Proof.
  revert started turn. induction passes as [|passes IH]; intros started turn; cbn [demo_loop].
  - by apply settles_const.
  - apply settles_bind; [apply demo_step_settles|]. intros [started' turn'|rc]; [apply IH|by apply settles_const].
Qed.
End passes.

(** ** The two threads *)

(** The packets sent while a renewal was under way. *)
Definition into_renewal (sent : list (bytes * bytes * bool)) : nat :=
  length (List.filter (λ p, p.2) sent).

#[global] Arguments into_renewal : simpl never.

Definition in_flight (x : sender_at) : bool :=
  match x with Encrypting _ | Sending _ _ => true | _ => false end.
Definition payload_of (x : sender_at) : option bytes :=
  match x with Encrypting p | Sending p _ => Some p | _ => None end.

Definition renewing (m : main_at) : bool := match m with Renewing => true | _ => false end.

Section threads.
Context {N NE : Type} `{Lib : NoiseLib N NE} (char_to_petscii : Z → option Z) (mtu : Z).
Abbreviation step := (chat_step char_to_petscii mtu).
Abbreviation run := (chat_run char_to_petscii mtu).

Record chat_inv (c : chat N) : Prop := ChatInv {
  cv_flag : c_rekeying c = renewing (c_main c);
  cv_few : (into_renewal (c_sent c) + (if renewing (c_main c) && in_flight (c_sender c) then 1 else 0)
            ≤ c_renewals c)%nat;
  cv_size : 0 ≤ mtu →
    Forall (λ p, len p ≤ mtu) (((λ p, p.1.1) <$> c_sent c) ++ option_list (payload_of (c_sender c)));
}.

Lemma chat_inv_new r : chat_inv (new_chat r).
Proof. split; [done|done|]. intros _. constructor. Qed.

Lemma line_payload_size line : 0 ≤ mtu → len (line_payload char_to_petscii mtu line) ≤ mtu.
Proof.
  intros Hm. unfold line_payload. destruct (Z.ltb_spec mtu (len (ascii_to_petscii char_to_petscii line))); [|done].
  unfold slice, len. rewrite length_take. lia.
Qed.

Lemma into_renewal_app l l' : into_renewal (l ++ l') = (into_renewal l + into_renewal l')%nat.
Proof. unfold into_renewal. by rewrite List.filter_app, length_app. Qed.

Lemma sender_line_inv line c : c_sender c = Reading → chat_inv c → chat_inv (sender_line char_to_petscii mtu line c).
Proof.
  intros Hs Hc. pose proof Hc as [Hflag Hfew Hsize]. unfold sender_line.
  destruct (_ || _); [|destruct (bool_decide _); [exact Hc|destruct (c_rekeying c) eqn:Hr; [exact Hc|]]].
  all: rewrite Hs in Hfew, Hsize; cbn in Hfew, Hsize; rewrite andb_false_r in Hfew; split; cbn;
    rewrite ?andb_false_r; try done.
  - congruence.
  - by rewrite <- Hflag.
  - intros Hm. specialize (Hsize Hm). cbn in Hsize. rewrite app_nil_r in Hsize.
    apply Forall_app. split; [done|]. constructor; [by apply line_payload_size|constructor].
Qed.

Lemma chat_inv_step e c c' : step e c = Some c' → chat_inv c → chat_inv c'.
Proof.
  intros Hstep Hc. destruct e as [line| |ok| |state age|ok| |packet]; cbn in Hstep.
  - destruct (c_sender c) eqn:Hs; try done. injection Hstep as <-. by apply sender_line_inv.
  - destruct (c_sender c) as [|payload| |] eqn:Hs; try done. injection Hstep as <-.
    destruct Hc as [Hflag Hfew Hsize]. rewrite Hs in Hfew, Hsize.
    destruct (encrypt_transport payload (c_responder c)); split; cbn in *; try done.
    + rewrite andb_false_r, Nat.add_0_r. lia.
    + intros Hm. specialize (Hsize Hm). apply Forall_app in Hsize as [? _]. by rewrite app_nil_r.
  - destruct (c_sender c) as [| |payload pkt|] eqn:Hs; try done. injection Hstep as <-.
    destruct Hc as [Hflag Hfew Hsize]. rewrite Hs in Hfew, Hsize. cbn in *. rewrite andb_true_r in Hfew.
    split; cbn; [done| |].
    + rewrite into_renewal_app, andb_false_r, Hflag.
      destruct ok, (renewing (c_main c)); unfold into_renewal at 2; cbn in *; lia.
    + intros Hm. specialize (Hsize Hm). rewrite app_nil_r. apply Forall_app in Hsize as [H1 H2].
      rewrite fmap_app. apply Forall_app. split; [done|]. by destruct ok.
  - destruct (c_main c) eqn:Hm; try (by destruct (c_sender c)).
    assert (Some (if c_stop c then set_main (MainDone 0) (c_rekeying c) c else set_main Deciding (c_rekeying c) c) = Some c')
      as [= <-] by (by destruct (c_sender c)).
    destruct Hc as [Hflag Hfew Hsize]. rewrite Hm in *. destruct (c_stop c); split; cbn in *; done.
  - destruct (c_main c) eqn:Hm; try (by destruct (c_sender c)).
    destruct Hc as [Hflag Hfew Hsize]. rewrite Hm in *. cbn in Hfew.
    destruct (_ && _); injection Hstep as Hstep; try (destruct (c_sender c); done).
    + assert (c' = set_main Watching (c_rekeying c) c) as -> by (by destruct (c_sender c)). by split.
    + assert (c' = ChatState (c_stop c) true (c_sender c) Renewing (c_responder c) (c_sent c) (S (c_renewals c)))
        as -> by (by destruct (c_sender c)). split; cbn; [done| |done]. destruct (in_flight _); lia.
  - destruct (c_main c) eqn:Hm; try (by destruct (c_sender c)).
    assert (c' = set_main (if ok then Watching else MainDone 1) false c) as -> by (destruct (c_sender c); congruence).
    destruct Hc as [Hflag Hfew Hsize]. rewrite Hm in *. destruct ok; split; cbn in *; try done; lia.
  - assert (Hraised : renewing (c_main c) = true ∧ c' = set_main MainRaised false c ∨
      renewing (c_main c) = false ∧ c' = set_main MainRaised (c_rekeying c) c).
    { destruct (c_main c); try (by destruct (c_sender c)); [right|left]; destruct (c_sender c); by injection Hstep as <-. }
    destruct Hc as [Hflag Hfew Hsize]. destruct Hraised as [[Hm ->]|[Hm ->]]; rewrite Hm in *;
      split; cbn in *; try done; lia.
  - assert (∃ r, c' = with_responder r c) as [r ->].
    { destruct (c_sender c), (c_main c), (handle_initiation packet (c_responder c)); injection Hstep as <-; eauto. }
    destruct Hc. by split.
Qed.

Lemma chat_run_cons e es c : run (e :: es) c = c' ← step e c; run es c'.
Proof.
  unfold chat_run. cbn [foldl mbind option_bind]. destruct (step e c) as [c1|]; cbn; [done|]. by induction es.
Qed.

Lemma chat_inv_run es c c' : run es c = Some c' → chat_inv c → chat_inv c'.
Proof.
  revert c. induction es as [|e es IH]; intros c; [by intros [= <-]|]. rewrite chat_run_cons.
  destruct (step e c) as [c1|] eqn:He; [|done]. cbn. intros Hrun Hc. apply (IH c1 Hrun). by eapply chat_inv_step.
Qed.
End threads.

(** ** The command line *)

(** An argument the tools pass on. *)
Definition other_arg (arg : string) : Prop := arg ≠ "--host" ∧ startswith "--host=" arg = false.

Lemma parse_others args host rest tl :
  Forall other_arg args → parse_argv (args ++ tl) host rest = parse_argv tl host (rest ++ args).
Proof.
  intros Hargs. revert rest. induction Hargs as [|arg args [Hne Hno] Hargs IH]; intros rest.
  - by rewrite app_nil_r.
  - change (parse_argv ((arg :: args) ++ tl) host rest) with
      (match args ++ tl with
       | value :: argv'' => if bool_decide (arg = "--host") then parse_argv argv'' (Some value) rest
                            else if startswith "--host=" arg
                                 then parse_argv (args ++ tl) (Some (partition "=" arg).2) rest
                                 else parse_argv (args ++ tl) host (rest ++ [arg])
       | [] => if startswith "--host=" arg then parse_argv (args ++ tl) (Some (partition "=" arg).2) rest
               else parse_argv (args ++ tl) host (rest ++ [arg])
       end).
    rewrite Hno, bool_decide_eq_false_2 by done. rewrite IH, <- app_assoc. cbn [app].
    by destruct (args ++ tl).
Qed.

Lemma parse_all_others args host rest : Forall other_arg args → parse_argv args host rest = (host, rest ++ args).
Proof. intros Hargs. rewrite <- (app_nil_r args) at 1. by rewrite parse_others. Qed.

(** A responder with a session, over the concrete package of the responder's witnesses. *)
#[local] Existing Instance WgResponder.toy_noise.
Definition met : responder Z :=
  state_after (handle_initiation (WgResponder.toy_packet (WgResponder.ts_at 5)) WgResponder.toy_responder).
Definition demo_events : list chat_event :=
  [LineTyped [72; 73]; PassBegins; Looks 0 (seconds_of 3); Encrypted; PacketSent true; LineTyped [72]; RenewalEnds true].

Module Conversations.

(** The unattended dialogue is spoken in order: whatever the transport, the responder and the clock
    do, the lines that were spoken are the first so many of the dialogue repeated, none skipped or said
    twice; each is spoken, and each packet sent, only after a check that found the session active and at
    most 140 s old, a renewal is made only after one that did not; the loop comes back with 1 only on a
    failed renewal or on keys that were not consumed, else with 0. *)
Theorem dialogue_in_order {W} `{!Transport W, !Link W} char_to_petscii fuel input_max wg_state passes
    (s : demo_state W) :
  let o := demo char_to_petscii fuel input_max wg_state passes s in
  ∃ tr, match o with Ret _ s' | Raise _ s' => d_deeds s' end = d_deeds s ++ tr ∧
    is_Some (run_log talk_step (0%nat, false) tr) ∧
    spoken tr = line_at <$> seq 0 (length (spoken tr)) ∧
    match o with
    | Ret (Again _ turn) _ => turn = length (spoken tr)
    | Ret (Returned rc) _ =>
        rc = 0 ∨ rc = 1 ∧ (last tr = Some (Renewed false) ∨ ∃ line, last tr = Some (NotConsumed line))
    | Raise e _ => ctrl_c e = false
    end.
Proof.
  cbv zeta. unfold demo. rewrite run_bind.
  pose proof (drive_silent (W:=W) monotonic s) as Hd.
  assert (Hnow : ∃ t s0, drive monotonic s = Ret t s0)
    by (unfold drive, monotonic; destruct (tr_now _); eauto).
  destruct Hnow as (t & s0 & Hnow). rewrite Hnow in *. unfold until_ctrl_c.
  pose proof (loop_talks char_to_petscii fuel input_max wg_state passes t 0 s0 (0%nat, false) eq_refl) as Hl.
  rewrite <- Hd.
  assert (Hspoken : ∀ tr q, run_log talk_step (0%nat, false) tr = Some q →
    q.1 = length (spoken tr) ∧ spoken tr = line_at <$> seq 0 (length (spoken tr))).
  { intros tr [turn f] Hr. apply talk_spoken in Hr as (n & -> & Hs). rewrite Hs, length_fmap, length_seq. done. }
  destruct (demo_loop _ _ _ _ _ _ _ s0) as [[t' turn|rc] s'|e s'].
  - destruct Hl as (tr & q & Hlog & Hr & He). exists tr. destruct (Hspoken _ _ Hr) as [Hq Hs].
    split_and!; [done|by exists q|done|]. cbn in He. congruence.
  - destruct Hl as (tr & q & Hlog & Hr & He). exists tr. destruct (Hspoken _ _ Hr) as [Hq Hs].
    split_and!; [done|by exists q|done|]. by right.
  - destruct Hl as (tr & q & Hlog & Hr). destruct (Hspoken _ _ Hr) as [Hq Hs]. exists tr.
    destruct (ctrl_c e) eqn:Hc; (split_and!; [done|by exists q|done|]); [by left|done].
Qed.

(** C25. While a session is renewed the chat takes no line: the flag is set exactly then, a line typed
    then is not sent later either, and no more packets go out into renewals than there were renewals,
    since only a line taken before can still be on its way; every payload fits the tunnel. *)
Theorem renewal_refuses_lines {N NE} `{Lib : NoiseLib N NE} char_to_petscii mtu es r (c : chat N) :
  0 ≤ mtu → chat_run char_to_petscii mtu es (new_chat r) = Some c →
  (c_rekeying c = true ↔ c_main c = Renewing) ∧
  (into_renewal (c_sent c) ≤ c_renewals c)%nat ∧
  Forall (λ p, len p.1.1 ≤ mtu) (c_sent c) ∧
  (c_rekeying c = true → ∀ line,
     c_sent (sender_line char_to_petscii mtu line c) = c_sent c ∧
     (c_sender (sender_line char_to_petscii mtu line c) = c_sender c ∨
      c_sender (sender_line char_to_petscii mtu line c) = SenderDone)).
Proof.
  intros Hm Hrun. apply chat_inv_run in Hrun as [Hflag Hfew Hsize]; [|apply chat_inv_new]. split_and!.
  - rewrite Hflag. by destruct (c_main c).
  - lia.
  - specialize (Hsize Hm). apply Forall_app in Hsize as [Hsize _]. exact (proj1 (Forall_fmap _ _ _) Hsize).
  - intros Hr line. unfold sender_line. rewrite Hr.
    destruct (_ || _); [by split; [|right]|]. destruct (bool_decide _); by split; [|left].
Qed.

Lemma renewal_refuses_lines_witness :
  ∃ c : chat Z, chat_run Some 1392 demo_events (new_chat met) = Some c ∧ (into_renewal (c_sent c) ≤ c_renewals c)%nat.
Proof.
  destruct (chat_run Some 1392 demo_events (new_chat met)) as [c|] eqn:Hrun.
  - exists c. split; [reflexivity|]. refine (proj1 (proj2 (renewal_refuses_lines Some 1392 demo_events met c _ Hrun))). lia.
  - exfalso. vm_compute in Hrun. discriminate.
Defined.

(** A line that was taken just before a renewal is not refused but sent into it: the flag is looked at
    once, before the line is encrypted, so the packet can leave while the C64 is computing, although
    the loop means to refuse such sends rather than to lose them. *)
Theorem taken_line_sent_into_renewal {N NE} `{Lib : NoiseLib N NE} char_to_petscii mtu line r pkt r' age :
  rstrip (λ c, c =? 10) line = line → line ≠ [] → line ≠ bytes_of_string "/quit" → line ≠ bytes_of_string "/q" →
  encrypt_transport (line_payload char_to_petscii mtu line) r = Ret pkt r' →
  ∃ c, chat_run char_to_petscii mtu
         [LineTyped line; PassBegins; Looks 0 age; Encrypted; PacketSent true] (new_chat r) = Some c ∧
    c_rekeying c = true ∧ c_main c = Renewing ∧
    c_sent c = [(line_payload char_to_petscii mtu line, pkt, true)].
Proof.
  intros Hstrip Hne Hq Hq' Henc. rewrite !chat_run_cons. cbn [chat_step new_chat c_sender mbind option_bind].
  unfold sender_line. rewrite Hstrip. rewrite !bool_decide_eq_false_2 by done.
  cbn. rewrite Henc. cbn. eexists. split_and!; reflexivity.
Qed.

Lemma taken_line_sent_into_renewal_witness :
  ∃ pkt (c : chat Z), c_rekeying c = true ∧ c_sent c = [([72; 73], pkt, true)].
Proof.
  destruct (encrypt_transport (line_payload Some 1392 [72; 73]) met) as [pkt r'|e r'] eqn:Henc.
  - destruct (taken_line_sent_into_renewal Some 1392 [72; 73] met pkt r' (seconds_of 3)) as (c & _ & Hr & _ & Hs);
      [vm_compute; reflexivity|discriminate|discriminate|discriminate|exact Henc|].
    exists pkt, c. split; [exact Hr|]. rewrite Hs. reflexivity.
  - exfalso. vm_compute in Henc. discriminate.
Defined.

(** What the command line comes to: the address of [--host], or else of the environment, and every
    other argument in order, are handed to the live tool at 48 MHz in chat mode; without an address it is
    not run and the exit code is 2; interrupted, the code is 0 exactly when no teardown failed. *)
Theorem command_line_passed_on before host after env live :
  Forall other_arg (before ++ after) →
  parse_argv (before ++ after) None [] = (None, before ++ after) ∧
  parse_argv (before ++ "--host" :: host :: after) None [] = (Some host, before ++ after) ∧
  (host ≠ "" → chat_main (before ++ "--host" :: host :: after) env live =
     match live (live_argv host (before ++ after)) with
     | (Finished rc, _) => rc
     | (Interrupted, failures) => if bool_decide (failures = []) then Code 0 else Code 1
     end) ∧
  (nonempty env = None → chat_main (before ++ after) env live = Code 2).
Proof.
  intros Hargs. pose proof Hargs as [Hb Ha]%Forall_app.
  assert (Hparse : parse_argv (before ++ "--host" :: host :: after) None [] = (Some host, before ++ after)).
  { rewrite parse_others by done. cbn [app].
    change (parse_argv ("--host" :: host :: after) None before) with (parse_argv after (Some host) before).
    by rewrite parse_all_others. }
  assert (Hnone : parse_argv (before ++ after) None [] = (None, before ++ after)) by by rewrite parse_all_others.
  split_and!; [done|done| |].
  - intros Hh. unfold chat_main. rewrite Hparse. unfold chosen_host, nonempty. cbn.
    rewrite bool_decide_eq_false_2 by done. destruct (live _) as [[rc|] failures]; [done|].
    unfold exit_code_after_teardown. by destruct failures.
  - intros He. unfold chat_main. rewrite Hnone. unfold chosen_host. by rewrite He.
Qed.

(** Both tools read their command line alike. *)
Lemma demo_main_same argv env live : demo_main argv env live = chat_main argv env live.
Proof. done. Qed.

Lemma command_line_passed_on_witness :
  chat_main ["--psk"; "--host"; "192.168.2.81"; "-v"] None
    (λ argv, (Interrupted, if bool_decide ("-v" ∈ argv) then ["clock"] else [])) = Code 1.
Proof.
  destruct (command_line_passed_on ["--psk"] "192.168.2.81" ["-v"] None
    (λ argv, (Interrupted, if bool_decide ("-v" ∈ argv) then ["clock"] else []))) as (_ & _ & H & _).
  - repeat constructor; discriminate.
  - refine (eq_trans (H _) _); [discriminate|]. reflexivity.
Defined.

End Conversations.
