(* ===== verification/AbiDrift.v ===== *)
(** * The drift gate of the crypto interface (tools/check_abi_drift.py)

    The symbols one repository imports against those its sibling libraries export.  The files are
    the class [Tree]; text is ASCII with its lines ended by newlines. *)

From S2P Require Export RegexThms.

(** [tr_glob] is what a directory's [glob] gives, sorted; [tr_open] is [None] for an [OSError]. *)
Class Tree := {
  tr_is_file : string → bool;
  tr_is_dir : string → bool;
  tr_glob : string → string → list string;
  tr_open : string → option string;
}.

Definition WG_ONLY_PREFIXES : list string := ["blake2s_"; "hmac_blake2s"; "kdf_"].
Definition WG_ONLY_EXACT : list string := ["kdf_1"; "kdf_2"; "kdf_3"].

(** ** Reading a directive *)

Definition spaces0 : rx := RStar (RChar space_char).

(** A comment, optional, and the end of the line. *)
Definition line_tail : rx :=
  RSeq spaces0 (RSeq (ROpt (RSeq (RLit ";") (RStar (RChar is_any)))) REnd).

(** The directive [word], with or without its zero-page form: blanks, the directive, blanks, and the
    shortest right-hand side that leaves blanks and a comment. *)
Definition DIRECTIVE (word : string) : rx :=
  RSeq RBol (RSeq spaces0 (RSeq (RLit word) (RSeq (ROpt (RLit "zp"))
    (RSeq (RPlus (RChar space_char)) (RSeq (RGroup 1 (RPlusLazy (RChar is_any))) line_tail))))).
Definition IMPORT_RE : rx := DIRECTIVE ".import".
Definition EXPORT_RE : rx := DIRECTIVE ".export".

(** The lines of a file, each with its newline. *)
Fixpoint lines_kept (l acc : list ascii) : list (list ascii) :=
  match l with
  | [] => match acc with [] => [] | _ => [rev acc] end
  | c :: l => if decide (c = newline) then rev (c :: acc) :: lines_kept l [] else lines_kept l (c :: acc)
  end.
Definition file_lines (text : string) : list string := str <$> lines_kept (chars text) [].

(** [re.split(r"[\s:=]", tok, maxsplit=1)[0]] *)
Fixpoint before_tail (l : list ascii) : list ascii :=
  match l with
  | [] => []
  | c :: l => if space_char c || bool_decide (c = ":"%char) || bool_decide (c = "="%char) then []
              else c :: before_tail l
  end.
(** [^[A-Za-z_]\w*$] on a token without blanks. *)
Definition is_symbol (s : string) : bool :=
  match chars s with
  | c :: l => (is_word c && negb (is_digit c)) && forallb is_word l
  | [] => false
  end.

Definition split_symbol_list (rhs : string) : list string :=
  omap (λ tok, let tok := str (before_tail (chars (strip tok))) in
               if is_symbol tok then Some tok else None) (split_on "," rhs).

Definition directive_symbols (r : rx) (line : string) : list string :=
  match rx_match r line with
  | Some m => split_symbol_list (group 1 m)
  | None => []
  end.
Definition text_symbols (r : rx) (text : string) : list string :=
  mjoin (directive_symbols r <$> file_lines text).

Example import_ex :
  text_symbols IMPORT_RE (line_of "; crypto" +:+ line_of "  .import fe_mul, fe_sqr ; field" +:+ line_of ".importzp ptr1"
    +:+ line_of ".imports x") = ["fe_mul"; "fe_sqr"; "ptr1"].
Proof. by vm_compute. Qed.
Example export_ex :
  text_symbols EXPORT_RE (line_of ".export aead_seal : absolute, VERSION = $0100,2bad") = ["aead_seal"; "VERSION"].
Proof. by vm_compute. Qed.

(** ** The gate *)

Definition is_wg_only (sym : string) : bool :=
  bool_decide (sym ∈ WG_ONLY_EXACT) || existsb (λ p, startswith p sym) WG_ONLY_PREFIXES.

Section tree.
Context `{!Tree}.

(** [None] is an [OSError] that leaves the tool. *)
Definition parse_imports (path : string) : option (list string) := text_symbols IMPORT_RE <$> tr_open path.

(** The files that export each symbol, in order; a file that cannot be read is passed over. *)
Definition add_export (provenance : list (string * list string)) (sp : string * string) :
    list (string * list string) :=
  dict_set sp.1 (default [] (assoc sp.1 provenance) ++ [sp.2]) provenance.
Definition parse_exports (paths : list string) : list (string * list string) :=
  foldl add_export []
    (mjoin ((λ p, match tr_open p with
                  | Some text => (λ s, (s, p)) <$> text_symbols EXPORT_RE text
                  | None => []
                  end) <$> paths)).

Definition collect_export_files (spec : string) : list string :=
  if tr_is_file spec then [spec]
  else if tr_is_dir spec then tr_glob spec "*.s" ++ tr_glob spec "*.inc"
  else [].

Definition merge_exports (into : list (string * list string)) (src : list (string * list string)) :
    list (string * list string) :=
  foldl (λ d e, dict_set e.1 (default [] (assoc e.1 d) ++ e.2) d) into src.

(** The tables and lists of a run. *)
Record drift_report := DriftReport {
  dr_satisfied : list string;
  dr_missing : list string;
  dr_extra : list string;
  dr_real : list string;
  dr_expected : list string;
}.

Definition report_of (imports siblings : list string) : drift_report :=
  let missing := sort_unique (List.filter (λ s, negb (bool_decide (s ∈ siblings))) imports) in
  DriftReport
    (sort_unique (List.filter (λ s, bool_decide (s ∈ siblings)) imports))
    missing
    (sort_unique (List.filter (λ s, negb (bool_decide (s ∈ imports))) siblings))
    (List.filter (λ s, negb (is_wg_only s)) missing)
    (List.filter is_wg_only missing).

(** The exit code and the report; [None] is the [OSError] of an interface file that cannot be read. *)
Definition main (abi_inc x25519 chacha : string) : option (Z * option drift_report) :=
  if negb (tr_is_file abi_inc) then Some (2, None) else
  imports ← parse_imports abi_inc;
  let x25519_exports := parse_exports (collect_export_files x25519) in
  let chacha_exports := parse_exports (collect_export_files chacha) in
  let siblings := (foldl merge_exports [] [x25519_exports; chacha_exports]).*1 in
  let report := report_of imports siblings in
  Some (if bool_decide (dr_real report = []) then 0 else 1, Some report).
End tree.
