(* ===== verification/AbiDriftThms.v ===== *)
(** * The drift gate of the crypto interface: the properties

    A directive gives the symbols written in it, and the gate passes exactly when every import that
    is not the tool's own is exported by a sibling. *)

From S2P Require Export AbiDrift.
#[local] Set Warnings "-clear-no-such-hyp".

(** ** A lazy right-hand side *)

Lemma first_alt r r' l rest g g' : first r l rest g g' → first (RAlt r r') l rest g g'.
Proof. intros Hr p. destruct (Hr p) as (p' & others & Heq). cbn [run_rx]. rewrite Heq. by eexists _, _. Qed.

Lemma first_alt_r r r' l rest g g' :
  (∀ p, run_rx r (Spot p l g) = []) → first r' l rest g g' → first (RAlt r r') l rest g g'.
Proof. intros Hno Hr p. cbn [run_rx]. rewrite Hno. apply Hr. Qed.

Definition no_success (r : rx) (l : list ascii) : Prop := ∀ p g, run_rx r (Spot p l g) = [].

(** The shortest run of characters behind which the rest of the pattern succeeds. *)
Lemma first_lazy f r n c m rest rest' g g' :
  Forall (λ c, f c = true) (c :: m) →
  (∀ a b, m = a ++ b → b ≠ [] → no_success r (b ++ rest)) →
  first r rest rest' ((n, c :: m) :: g) g' →
  first (RSeq (RGroup n (RPlusLazy (RChar f))) r) ((c :: m) ++ rest) rest' g g'.
Proof.
  intros Hm Hno Hr p. apply Forall_cons in Hm as [Hc Hm]. cbn [run_rx sp_rest RPlusLazy app]. rewrite Hc.
  cbn [mbind list_bind]. rewrite app_nil_r. cbn [sp_rest sp_groups].
  set (mark := λ s', Spot (sp_prev s') (sp_rest s')
    ((n, before (Spot p (c :: m ++ rest) g) s') :: sp_groups s')).
  set (star := fix star (fuel : nat) (s : spot) : list spot := _).
  assert (Hgen : ∀ a b q fuel, m = a ++ b → (length b ≤ fuel)%nat →
    ∃ p' others, (s' ← mark <$> star fuel (Spot q (b ++ rest) g); run_rx r s') = Spot p' rest' g' :: others).
  { intros a b. revert a. induction b as [|x b IH]; intros a q fuel Ha Hf.
    - rewrite app_nil_r in Ha. subst a.
      assert (Hmark : mark (Spot q rest g) = Spot q rest ((n, c :: m) :: g)).
      { unfold mark, before. cbn [sp_prev sp_rest sp_groups]. do 3 f_equal.
        change (c :: m ++ rest) with ((c :: m) ++ rest). rewrite length_app, Nat.add_sub. apply take_app_length. }
      destruct (Hr q) as (p' & others & Heq). exists p'.
      destruct fuel as [|fuel]; cbn [star app fmap list_fmap mbind list_bind]; rewrite Hmark, Heq; by eexists.
    - destruct fuel as [|fuel]; [cbn in Hf; lia|].
      destruct (IH (a ++ [x]) (Some x) fuel) as (p' & others & Heq); [by rewrite <- app_assoc|cbn in Hf; lia|].
      assert (Hmk : run_rx r (mark (Spot q ((x :: b) ++ rest) g)) = []) by by apply (Hno a (x :: b) Ha).
      exists p', others. cbn [star fmap list_fmap mbind list_bind].
      rewrite Hmk. cbn [app run_rx sp_rest mbind list_bind].
      assert (Hx : f x = true). { rewrite Ha in Hm. apply Forall_app in Hm as [_ [? _]%Forall_cons]. done. }
      rewrite Hx. cbn [mbind list_bind sp_rest sp_groups]. rewrite app_nil_r, (proj2 (Nat.ltb_lt _ _)) by (cbn; lia).
      exact Heq. }
  destruct (Hgen [] m (Some c) (length (m ++ rest)) eq_refl) as (p' & others & Heq);
    [rewrite length_app; lia|].
  exists p', others. exact Heq.
Qed.

(** Every success of a repeated class took a run of its characters. *)
Lemma star_took f l p g s :
  s ∈ run_rx (RStar (RChar f)) (Spot p l g) →
  ∃ a, l = a ++ sp_rest s ∧ Forall (λ c, f c = true) a ∧ sp_groups s = g.
Proof.
  cbn [run_rx sp_rest]. set (star := fix star (fuel : nat) (s : spot) : list spot := _).
  generalize (length l). intros fuel. revert l p. induction fuel as [|fuel IH]; intros l p; cbn [star run_rx sp_rest].
  - intros ->%list_elem_of_singleton. by exists [].
  - intros [Hin| ->%list_elem_of_singleton]%elem_of_app; [|by exists []].
    destruct l as [|c l]; [by apply not_elem_of_nil in Hin|]. destruct (f c) eqn:Hc; [|by apply not_elem_of_nil in Hin].
    cbn [mbind list_bind sp_rest sp_groups] in Hin. rewrite app_nil_r, (proj2 (Nat.ltb_lt _ _)) in Hin by (cbn; lia).
    destruct (IH l (Some c) Hin) as (a & -> & Ha & Hg). exists (c :: a). split_and!; [done|by constructor|done].
Qed.

Lemma seq_no_success r r' l :
  (∀ p g s, s ∈ run_rx r (Spot p l g) → no_success r' (sp_rest s)) → no_success (RSeq r r') l.
Proof.
  intros Hno p g. cbn [run_rx]. specialize (Hno p g). induction (run_rx r _) as [|s ss IH]; [done|].
  cbn [mbind list_bind]. destruct s as [q l' g']. rewrite (Hno (Spot q l' g')) by by left.
  apply IH. intros s' Hs'. apply Hno. by right.
Qed.

(** A character that belongs to a right-hand side: no comment, no end of line. *)
Definition side_char (c : ascii) : Prop := c ≠ ";"%char ∧ c ≠ newline.

(** The tail of a line does not begin before the last character that is not blank. *)
Lemma tail_no_success b x rest :
  Forall side_char b → side_char x → space_char x = false → no_success line_tail ((b ++ [x]) ++ rest).
Proof.
  intros Hb Hx Hsp. apply seq_no_success. intros p g s Hs.
  apply star_took in Hs as (a & Heq & Ha & _).
  assert (Hrest : ∃ c l, sp_rest s = c :: l ∧ side_char c).
  { assert (Hlen : (length a < length (b ++ [x]))%nat).
    { apply Nat.nle_gt. intros Hle. assert (Hin : x ∈ a).
      { assert (Hpre : b ++ [x] = take (length (b ++ [x])) a).
        { trans (take (length (b ++ [x])) ((b ++ [x]) ++ rest)); [by rewrite take_app_length|].
          rewrite Heq. by apply take_app_le. }
        rewrite <- (take_drop (length (b ++ [x])) a), <- Hpre. set_solver. }
      rewrite Forall_forall in Ha. rewrite Ha in Hsp; [done|exact Hin]. }
    assert (Hd : sp_rest s = drop (length a) (b ++ [x]) ++ rest).
    { rewrite <- drop_app_le by lia. rewrite Heq. by rewrite drop_app_length. }
    destruct (drop (length a) (b ++ [x])) as [|c l] eqn:Hdrop.
    - apply (f_equal length) in Hdrop. rewrite length_drop in Hdrop. cbn in Hdrop. lia.
    - exists c, (l ++ rest). split; [done|].
      assert (Hall : Forall side_char (b ++ [x])) by (apply Forall_app; split; [done|by constructor]).
      apply (Forall_drop _ (length a)) in Hall. rewrite Hdrop in Hall. by apply Forall_cons in Hall as [? _]. }
  destruct Hrest as (c & l & -> & Hc & Hnl). intros q g'. unfold RLit.
  cbn -[newline]. rewrite bool_decide_eq_false_2 by done. cbn -[newline].
  destruct l; [by rewrite decide_False|done].
Qed.

(** ** A directive *)

(** A line that declares symbols: indentation, directive, names, padding and comment. *)
Record declaration := Declaration {
  dl_indent : nat;
  dl_zp : bool;
  dl_gap : nat;
  dl_names : list string;
  dl_pad : nat;
  dl_comment : option string;
}.

Definition blank (n : nat) : string := str (replicate n " "%char).
Definition declared (word : string) (d : declaration) : string :=
  blank (dl_indent d) +:+ word +:+ (if dl_zp d then "zp" else "") +:+ blank (S (dl_gap d))
  +:+ join ", " (dl_names d) +:+ blank (dl_pad d)
  +:+ match dl_comment d with Some c => ";" +:+ c | None => "" end.
Definition declaration_ok (d : declaration) : Prop :=
  dl_names d ≠ [] ∧ Forall (λ s, is_symbol s = true) (dl_names d) ∧
  ∀ c, dl_comment d = Some c → Forall (λ x, x ≠ newline) (chars c).

Lemma word_char c :
  is_word c = true →
  side_char c ∧ space_char c = false ∧ c ≠ ","%char ∧ c ≠ ":"%char ∧ c ≠ "="%char.
Proof.
  intros Hw. assert (Hne : ∀ c', is_word c' = false → c ≠ c') by congruence.
  split_and!; [split; by apply Hne| |by apply Hne..].
  apply orb_true_iff in Hw as [Hw|Hw]; [|by apply bool_decide_eq_true in Hw as ->].
  unfold is_digit, is_upper, is_lower, in_range in Hw. unfold space_char.
  rewrite !orb_true_iff, !andb_true_iff, !Z.leb_le in Hw.
  rewrite !orb_false_iff, !andb_false_iff, !Z.leb_gt, !Z.eqb_neq. lia.
Qed.

Lemma symbol_chars s :
  is_symbol s = true → Forall (λ c, is_word c = true) (chars s) ∧ chars s ≠ [].
Proof.
  unfold is_symbol. destruct (chars s) as [|c l]; [done|].
  rewrite !andb_true_iff, forallb_forall. intros [[Hc _] Hl]. split; [|done].
  constructor; [done|]. apply Forall_forall. intros x Hx. apply Hl. by apply list_elem_of_In.
Qed.

Lemma join_cons2 sep s s' l : join sep (s :: s' :: l) = s +:+ sep +:+ join sep (s' :: l).
Proof. done. Qed.

(** The names as they are written: no comment, no line end, and a name at the end. *)
Lemma join_chars n ns :
  Forall (λ s, is_symbol s = true) (n :: ns) →
  Forall side_char (chars (join ", " (n :: ns))) ∧
  ∃ l x, chars (join ", " (n :: ns)) = l ++ [x] ∧ is_word x = true.
Proof.
  revert n. induction ns as [|n' ns IH]; intros n [Hn Hns]%Forall_cons.
  - destruct (symbol_chars n Hn) as [Hw Hne]. cbn [join]. split.
    + eapply Forall_impl; [exact Hw|]. intros c Hc. by apply word_char.
    + destruct (chars n) as [|x l _] using rev_ind; [done|]. exists l, x. split; [done|].
      apply Forall_app in Hw as [_ [? _]%Forall_cons]. done.
  - destruct (IH n' Hns) as (Hside & l & x & Heq & Hx), (symbol_chars n Hn) as [Hw _].
    rewrite join_cons2, !chars_app. split.
    + apply Forall_app. split; [eapply Forall_impl; [exact Hw|]; intros c Hc; by apply word_char|].
      apply Forall_app. split; [|done]. by repeat constructor.
    + rewrite Heq. exists (chars n ++ chars ", " ++ l), x. by rewrite <- !app_assoc.
Qed.

Lemma split_names pre n ns :
  ","%char ∉ pre → Forall (λ s, is_symbol s = true) (n :: ns) →
  split_chars "," (pre ++ chars (join ", " (n :: ns))) = (pre ++ chars n) :: ((λ s, " "%char :: chars s) <$> ns).
Proof.
  revert pre n. induction ns as [|n' ns IH]; intros pre n Hpre [Hn Hns]%Forall_cons.
  all: assert (Hno : ","%char ∉ pre ++ chars n)
    by (rewrite elem_of_app; intros [?|Hin]; [done|]; apply symbol_chars in Hn as [Hw _];
        rewrite Forall_forall in Hw; by destruct (word_char _ (Hw _ Hin)) as (_ & _ & ? & _)).
  - cbn [join fmap list_fmap]. by rewrite split_chars_last.
  - rewrite join_cons2, !chars_app. change (chars ", ") with [","%char; " "%char]. cbn [app].
    rewrite app_assoc, split_chars_head by done. f_equal.
    apply (IH [" "%char] n'); [by apply (bool_decide_unpack _)|done].
Qed.

Lemma strip_blanks n l : Forall (λ c, space_char c = false) l → chars (strip (str (replicate n " "%char ++ l))) = l.
Proof.
  intros Hl. transitivity (chars (strip (str l))); [|by apply strip_plain].
  assert (Hd : drop_while space_char (replicate n " "%char ++ l) = drop_while space_char l)
    by (induction n as [|n IH]; [done|exact IH]).
  unfold strip. by rewrite !chars_str, Hd.
Qed.

Lemma before_tail_word l : Forall (λ c, is_word c = true) l → before_tail l = l.
Proof.
  induction 1 as [|c l Hc Hl IH]; [done|]. destruct (word_char c Hc) as (_ & Hs & _ & H1 & H2).
  cbn [before_tail]. rewrite Hs, !bool_decide_eq_false_2 by done. cbn. by rewrite IH.
Qed.

Lemma token_symbol n s :
  is_symbol s = true →
  (let tok := str (before_tail (chars (strip (str (replicate n " "%char ++ chars s))))) in
   if is_symbol tok then Some tok else None) = Some s.
Proof.
  intros Hs. destruct (symbol_chars s Hs) as [Hw _]. rewrite strip_blanks.
  - rewrite before_tail_word, str_chars by done. cbv zeta. by rewrite Hs.
  - eapply Forall_impl; [exact Hw|]. intros c Hc. by apply word_char.
Qed.

Lemma split_symbol_list_names ns :
  ns ≠ [] → Forall (λ s, is_symbol s = true) ns → split_symbol_list (join ", " ns) = ns.
Proof.
  intros Hne Hns. destruct ns as [|n ns]; [done|]. unfold split_symbol_list, split_on.
  pose proof (split_names [] n ns (not_elem_of_nil _) Hns) as Heq. cbn [app] in Heq. rewrite Heq.
  apply Forall_cons in Hns as [Hn Hns]. cbn [fmap list_fmap omap list_omap].
  pose proof (token_symbol 0 n Hn) as H0. cbn [replicate app] in H0. cbv zeta in H0 |- *. rewrite H0. f_equal.
  clear Heq H0 Hn. induction Hns as [|s ns Hs Hns IH]; [done|]. cbn [fmap list_fmap omap list_omap].
  pose proof (token_symbol 1 s Hs) as H1. cbn [replicate app] in H1. cbv zeta in H1. rewrite H1. f_equal. by apply IH.
Qed.

Lemma first_blanks n rest g :
  from_option space_char false (head rest) = false → first spaces0 (replicate n " "%char ++ rest) rest g g.
Proof. intros Hr. apply first_star; [by apply Forall_replicate|done]. Qed.

(** The end of a line: padding, comment, newline. *)
Lemma first_tail n comment g :
  (∀ c, comment = Some c → Forall (λ x, x ≠ newline) (chars c)) →
  ∃ rest, first line_tail (replicate n " "%char
    ++ chars (match comment with Some c => ";" +:+ c | None => "" end) ++ [newline]) rest g g.
Proof.
  intros Hc. destruct comment as [c|].
  - exists [newline]. eapply first_seq; [by apply first_blanks|].
    eapply first_seq; [apply first_alt; eapply first_seq; [apply (first_lit ";")|apply first_star]|].
    + eapply Forall_impl; [by apply Hc|]. intros x Hx. unfold is_any. by rewrite bool_decide_eq_false_2.
    + done.
    + intros p. by exists p, [].
  - exists []. cbn [app]. eapply first_seq.
    + unfold spaces0. rewrite <- (app_nil_r (replicate n _ ++ [newline])). apply first_star; [|done].
      apply Forall_app. split; [by apply Forall_replicate|by constructor].
    + eapply first_seq; [apply first_alt_r; [done|apply first_eps]|]. intros p. by exists p, [].
Qed.

(** The directive on the line of a declaration. *)
Lemma directive_matches word d :
  declaration_ok d → (∃ c l, chars word = c :: l ∧ space_char c = false) →
  ∃ m, rx_match (DIRECTIVE word) (line_of (declared word d)) = Some m ∧
    group 1 m = join ", " (dl_names d).
Proof.
  intros (Hne & Hns & Hc) (wc & wl & Hword & Hwc). destruct (dl_names d) as [|n ns] eqn:Hnames; [done|].
  destruct (join_chars n ns Hns) as (Hside & l & x & Hjoin & Hx).
  assert (Hcm : ∃ c m, chars (join ", " (n :: ns)) = c :: m ∧ space_char c = false).
  { apply Forall_cons in Hns as [Hn _]. destruct (symbol_chars n Hn) as [Hw Hnn].
    destruct (chars n) as [|c m] eqn:Hcn; [done|]. apply Forall_cons in Hw as [Hwc' _].
    destruct (word_char c Hwc') as (_ & Hs & _). destruct ns as [|n' ns].
    - exists c, m. by cbn [join].
    - exists c, (m ++ chars ", " ++ chars (join ", " (n' :: ns))). by rewrite join_cons2, !chars_app, Hcn. }
  destruct Hcm as (c & m & Hcm & Hcs).
  destruct (first_tail (dl_pad d) (dl_comment d) [(1%nat, c :: m)] Hc) as (rest & Htail).
  set (tl := replicate (dl_pad d) " "%char
    ++ chars (match dl_comment d with Some c => ";" +:+ c | None => "" end) ++ [newline]) in Htail.
  assert (Hline : chars (line_of (declared word d)) = replicate (dl_indent d) " "%char ++ chars word
    ++ chars (if dl_zp d then "zp" else "") ++ replicate (S (dl_gap d)) " "%char ++ (c :: m) ++ tl).
  { unfold line_of, declared, blank, tl. rewrite Hnames, !chars_app, !chars_str, Hcm, <- !app_assoc. done. }
  assert (Hfirst : first (RSeq spaces0 (RSeq (RLit word) (RSeq (ROpt (RLit "zp"))
    (RSeq (RPlus (RChar space_char)) (RSeq (RGroup 1 (RPlusLazy (RChar is_any))) line_tail)))))
    (chars (line_of (declared word d))) rest [] [(1%nat, c :: m)]).
  { rewrite Hline. eapply first_seq; [apply first_blanks; rewrite Hword; exact Hwc|].
    eapply first_seq; [apply first_lit|]. eapply first_seq.
    { destruct (dl_zp d).
      - apply first_alt. apply (first_lit "zp").
      - apply first_alt_r; [done|apply first_eps]. }
    eapply first_seq; [apply first_plus; [done|by apply Forall_replicate|exact Hcs]|].
    apply first_lazy; [| |exact Htail].
    - rewrite <- Hcm. eapply Forall_impl; [exact Hside|]. intros y [_ Hy]. unfold is_any.
      by rewrite bool_decide_eq_false_2.
    - intros a b Hab Hb. destruct b as [|y b _] using rev_ind; [done|].
      rewrite Hcm in Hjoin, Hside. rewrite Hab in Hjoin, Hside. rewrite app_comm_cons, app_assoc in Hjoin.
      apply app_inj_tail in Hjoin as [_ ->]. apply Forall_cons in Hside as [_ Hside].
      rewrite !Forall_app in Hside. destruct Hside as (_ & Hb' & _).
      apply tail_no_success; [done|by apply word_char|by apply word_char]. }
  destruct (Hfirst None) as (p' & others & Heq).
  exists (Spot p' rest [(1%nat, c :: m)]). split.
  - unfold rx_match, DIRECTIVE, spot_at.
    change (run_rx (RSeq RBol ?r) ?s) with (s' ← run_rx RBol s; run_rx r s').
    cbn [run_rx sp_prev mbind list_bind]. rewrite app_nil_r. cbn [run_rx mbind] in Heq. by rewrite Heq.
  - change (str (c :: m) = join ", " (n :: ns)). by rewrite <- Hcm, str_chars.
Qed.

Lemma directive_symbols_declared word d :
  declaration_ok d → (∃ c l, chars word = c :: l ∧ space_char c = false) →
  directive_symbols (DIRECTIVE word) (line_of (declared word d)) = dl_names d.
Proof.
  intros Hd Hw. destruct (directive_matches word d Hd Hw) as (m & Hm & Hg).
  unfold directive_symbols. rewrite Hm, Hg. destruct Hd as (Hne & Hns & _). by apply split_symbol_list_names.
Qed.

(** ** Lines *)

Lemma lines_kept_line l rest acc :
  Forall (λ c, c ≠ newline) l → lines_kept (l ++ newline :: rest) acc = (rev acc ++ l ++ [newline]) :: lines_kept rest [].
Proof.
  intros Hl. revert acc. induction Hl as [|c l Hc Hl IH]; intros acc; cbn [app lines_kept].
  - rewrite decide_True by done. done.
  - rewrite decide_False by done. rewrite IH. cbn [rev]. by rewrite <- app_assoc.
Qed.

Lemma file_lines_of ls :
  Forall (λ s, Forall (λ c, c ≠ newline) (chars s)) ls →
  file_lines (foldr (λ s t, line_of s +:+ t) "" ls) = line_of <$> ls.
Proof.
  unfold file_lines. induction 1 as [|s ls Hs Hls IH]; [done|]. cbn [foldr]. unfold line_of at 1.
  rewrite !chars_app, <- app_assoc. change (chars (String newline "")) with [newline]. cbn [app].
  rewrite lines_kept_line by done. cbn [rev app fmap list_fmap]. rewrite IH. f_equal.
  apply chars_inj. rewrite chars_str. unfold line_of. by rewrite chars_app.
Qed.

(** A line with something else than the directive behind its indentation. *)
Definition other_line (word : string) (s : string) : Prop :=
  ∃ n l, chars s = replicate n " "%char ++ l ∧ from_option space_char false (head l) = false ∧
    starts_with (chars word) (l ++ [newline]) = false.

Lemma lit_no_success word r l : starts_with (chars word) l = false → no_success (RSeq (RLit word) r) l.
Proof.
  intros Hs p g. assert (Hl : ∀ p, run_rx (RLit word) (Spot p l g) = []).
  { unfold RLit. revert l Hs. induction (chars word) as [|c w IH]; intros l Hs q; [done|].
    destruct l as [|x l]; [done|]. cbn in Hs |- *. destruct (decide (c = x)) as [->|Hne].
    - rewrite bool_decide_eq_true_2 in Hs |- * by done. cbn in Hs |- *. rewrite app_nil_r. by apply IH.
    - by rewrite bool_decide_eq_false_2. }
  cbn [run_rx]. by rewrite Hl.
Qed.

Lemma other_no_match word r c w n l :
  chars word = c :: w → space_char c = false →
  starts_with (chars word) l = false → from_option space_char false (head l) = false ∨ l = [newline] →
  no_success (RSeq spaces0 (RSeq (RLit word) r)) (replicate n " "%char ++ l).
Proof.
  intros Hword Hc Hno Hl. apply seq_no_success. intros p g s Hs.
  apply star_took in Hs as (a & Heq & Ha & _). apply lit_no_success.
  destruct (decide (length a ≤ n)%nat) as [Hle|Hgt].
  - assert (Hd : sp_rest s = replicate (n - length a) " "%char ++ l).
    { apply (f_equal (drop (length a))) in Heq. rewrite drop_app_length in Heq. rewrite <- Heq.
      rewrite drop_app_le by (rewrite length_replicate; lia). by rewrite drop_replicate. }
    rewrite Hd. destruct (n - length a)%nat; [done|]. rewrite Hword. cbn.
    rewrite bool_decide_eq_false_2; [done|]. intros ->. by vm_compute in Hc.
  - destruct Hl as [Hl| ->].
    2: { apply (f_equal (λ l, drop (length a) l)) in Heq. rewrite drop_app_length in Heq. rewrite <- Heq.
         rewrite drop_ge by (rewrite length_app, length_replicate; cbn; lia). by rewrite Hword. }
    assert (Hin : ∃ x, head l = Some x ∧ x ∈ a).
    { assert (Ht : take (length a) (replicate n " "%char ++ l) = a) by (rewrite Heq; apply take_app_length).
      rewrite take_app_ge in Ht by (rewrite length_replicate; lia). rewrite length_replicate in Ht.
      destruct l as [|x l].
      - rewrite take_nil, app_nil_r in Ht. apply (f_equal length) in Ht. rewrite length_replicate in Ht. lia.
      - exists x. split; [done|]. rewrite <- Ht. destruct (length a - n)%nat eqn:Hk; [lia|]. cbn. set_solver. }
    destruct Hin as (x & Hx & Hin). rewrite Hx in Hl. cbn in Hl. rewrite Forall_forall in Ha.
    by rewrite (Ha x Hin) in Hl.
Qed.

Lemma directive_none word c w s :
  chars word = c :: w → space_char c = false → other_line word s →
  directive_symbols (DIRECTIVE word) (line_of s) = [].
Proof.
  intros Hword Hc (n & l & Hs & Hl & Hno). unfold directive_symbols, rx_match, DIRECTIVE, spot_at.
  change (run_rx (RSeq RBol ?r) ?s) with (s' ← run_rx RBol s; run_rx r s').
  cbn [run_rx sp_prev mbind list_bind]. rewrite app_nil_r.
  assert (Hchars : chars (line_of s) = replicate n " "%char ++ (l ++ [newline])).
  { unfold line_of. rewrite chars_app, Hs, <- app_assoc. done. }
  rewrite Hchars. pose proof (other_no_match word) as Hm.
  specialize (Hm (RSeq (ROpt (RLit "zp")) (RSeq (RPlus (RChar space_char)) (RSeq (RGroup 1 (RPlusLazy (RChar is_any))) line_tail)))
    c w n (l ++ [newline]) Hword Hc Hno ltac:(destruct l; [by right|by left]) None []).
  cbn [run_rx mbind] in Hm. by rewrite Hm.
Qed.

(** ** Keys and sets *)

Lemma dict_set_keys {V} k k' (v : V) (d : list (string * V)) :
  k ∈ (dict_set k' v d).*1 ↔ k = k' ∨ k ∈ d.*1.
Proof.
  induction d as [|[k'' v''] d IH]; cbn; [set_solver|]. destruct (decide (k'' = k')) as [->|]; cbn; set_solver.
Qed.

Lemma filter_elem {A} (f : A → bool) x l : x ∈ List.filter f l ↔ x ∈ l ∧ f x = true.
Proof. by rewrite list_elem_of_In, List.filter_In, <- list_elem_of_In. Qed.

Section gate.
Context `{!Tree}.

(** A file among those of a source that exports the symbol. *)
Definition exported (spec s : string) : Prop :=
  ∃ f text, f ∈ collect_export_files spec ∧ tr_open f = Some text ∧ s ∈ text_symbols EXPORT_RE text.

Lemma add_exports_keys s l d : s ∈ (foldl add_export d l).*1 ↔ s ∈ d.*1 ∨ s ∈ l.*1.
Proof.
  revert d. induction l as [|[s' p] l IH]; intros d; cbn [foldl]; [set_solver|].
  rewrite IH. unfold add_export. cbn [fst snd]. rewrite dict_set_keys. set_solver.
Qed.

Lemma parse_exports_keys s spec : s ∈ (parse_exports (collect_export_files spec)).*1 ↔ exported spec s.
Proof.
  unfold parse_exports. rewrite add_exports_keys. unfold exported.
  set (syms := λ p, match tr_open p with
                    | Some text => (λ s, (s, p)) <$> text_symbols EXPORT_RE text
                    | None => []
                    end).
  assert (Hs : ∀ files, s ∈ (mjoin (syms <$> files)).*1 ↔
    ∃ f text, f ∈ files ∧ tr_open f = Some text ∧ s ∈ text_symbols EXPORT_RE text).
  { induction files as [|f files IH]; [set_solver|]. cbn [fmap list_fmap].
    change (mjoin (?a :: ?b)) with (a ++ mjoin b). rewrite fmap_app, elem_of_app, IH. unfold syms at 1.
    destruct (tr_open f) as [text|] eqn:Hf.
    - rewrite <- list_fmap_compose. change (fst ∘ (λ s : string, (s, f))) with (λ s : string, s). rewrite list_fmap_id.
      set_solver.
    - set_solver. }
  rewrite Hs. set_solver.
Qed.

Lemma merge_keys s l d : s ∈ (merge_exports d l).*1 ↔ s ∈ d.*1 ∨ s ∈ l.*1.
Proof.
  unfold merge_exports. revert d. induction l as [|[s' p] l IH]; intros d; cbn [foldl]; [set_solver|].
  rewrite IH, dict_set_keys. set_solver.
Qed.
End gate.

(** A line of an interface file: a declaration, or a line of something else. *)
Inductive abi_line := Declares (d : declaration) | Other (s : string).
Definition abi_text (word : string) (a : abi_line) : string :=
  match a with Declares d => declared word d | Other s => s end.
Definition abi_ok (word : string) (a : abi_line) : Prop :=
  Forall (λ c, c ≠ newline) (chars (abi_text word a)) ∧
  match a with Declares d => declaration_ok d | Other s => other_line word s end.
Definition abi_symbols (a : abi_line) : list string :=
  match a with Declares d => dl_names d | Other _ => [] end.

Module Drift.

(** Declarations are read as they are written: from a file of lines that either declare symbols,
    indented or not, in either form, one or many, padded and commented, or hold something else (blank
    lines, comments, the other directive), the symbols are exactly the names declared, in order. *)
Theorem declarations_read word as_ :
  word = ".import" ∨ word = ".export" → Forall (abi_ok word) as_ →
  text_symbols (DIRECTIVE word) (foldr (λ s t, line_of s +:+ t) "" (abi_text word <$> as_)) =
    mjoin (abi_symbols <$> as_).
Proof.
  intros Hword Has. unfold text_symbols. rewrite file_lines_of.
  2: { apply Forall_fmap. eapply Forall_impl; [exact Has|]. by intros a [? _]. }
  assert (Hw : ∃ c w, chars word = c :: w ∧ space_char c = false) by (destruct Hword as [-> | ->]; by eexists _, _).
  destruct Hw as (c & w & Hcw & Hc). clear Hword.
  induction Has as [|a as_ [_ Ha] Has IH]; [done|]. cbn [fmap list_fmap].
  change (mjoin (?x :: ?y)) with (x ++ mjoin y). rewrite <- IH. f_equal. destruct a as [d|s]; cbn.
  - apply directive_symbols_declared; [done|]. by exists c, w.
  - by apply (directive_none word c w).
Qed.

Lemma declarations_read_witness :
  text_symbols IMPORT_RE (line_of "; field" +:+ (line_of "" +:+ (line_of "  .importzp  fe_mul, fe_sqr ; both" +:+
    (line_of ".export x" +:+ ""))))
  = ["fe_mul"; "fe_sqr"].
Proof.
  apply (declarations_read ".import"
    [Other "; field"; Other ""; Declares (Declaration 2 true 1 ["fe_mul"; "fe_sqr"] 1 (Some " both")); Other ".export x"]).
  - left. reflexivity.
  - constructor; [split|constructor; [split|constructor; [split|constructor; [split|constructor]]]].
    1,3,5,7: vm_compute; repeat constructor; discriminate.
    + exists 0%nat, (chars "; field"). split_and!; reflexivity.
    + exists 0%nat, []. split_and!; reflexivity.
    + split_and!; [discriminate|repeat constructor|]. intros c [= <-]. vm_compute. repeat constructor; discriminate.
    + exists 0%nat, (chars ".export x"). split_and!; reflexivity.
Defined.

(** C38. The gate is exact: it exits with 2 only without an interface file, else with 0 exactly when
    every symbol the interface imports is exported by a readable file of a sibling or is one of the
    tool's own, and with 1 when not; its lists are the imports that are satisfied, those that block and
    the exports nobody imports. *)
Theorem drift_gate_exact `{!Tree} abi x25519 chacha :
  match main abi x25519 chacha with
  | None => tr_is_file abi = true ∧ tr_open abi = None
  | Some (rc, None) => rc = 2 ∧ tr_is_file abi = false
  | Some (rc, Some r) =>
      ∃ text, tr_is_file abi = true ∧ tr_open abi = Some text ∧
        let imported s := s ∈ text_symbols IMPORT_RE text in
        let provided s := exported x25519 s ∨ exported chacha s in
        (rc = 0 ∨ rc = 1) ∧ (rc = 0 ↔ ∀ s, imported s → provided s ∨ is_wg_only s = true) ∧
        (∀ s, s ∈ dr_satisfied r ↔ imported s ∧ provided s) ∧
        (∀ s, s ∈ dr_real r ↔ imported s ∧ ¬ provided s ∧ is_wg_only s = false) ∧
        (∀ s, s ∈ dr_extra r ↔ provided s ∧ ¬ imported s)
  end.
Proof.
  unfold main. destruct (tr_is_file abi) eqn:Hfile; cbn [negb]; [|done].
  unfold parse_imports. destruct (tr_open abi) as [text|] eqn:Hopen; cbn [fmap option_fmap option_map mbind option_bind];
    [|done].
  exists text. split; [done|]. split; [done|]. cbn [foldl].
  set (siblings := (merge_exports (merge_exports [] _) _).*1).
  assert (Hsib : ∀ s, s ∈ siblings ↔ exported x25519 s ∨ exported chacha s).
  { intros s. unfold siblings. rewrite !merge_keys, !parse_exports_keys. set_solver. }
  assert (Hreal : ∀ s, s ∈ dr_real (report_of (text_symbols IMPORT_RE text) siblings) ↔
    s ∈ text_symbols IMPORT_RE text ∧ ¬ (exported x25519 s ∨ exported chacha s) ∧ is_wg_only s = false).
  { intros s. cbn [dr_real report_of]. rewrite filter_elem, sort_unique_elem, filter_elem, <- Hsib.
    rewrite !negb_true_iff, bool_decide_eq_false. tauto. }
  cbv zeta. split_and!.
  - case_bool_decide; auto.
  - transitivity (dr_real (report_of (text_symbols IMPORT_RE text) siblings) = []).
    { case_bool_decide as Hb; split; done. }
    split.
    + intros Hnil s Hin. destruct (is_wg_only s) eqn:Hw; [by right|left]. rewrite <- Hsib.
      destruct (decide (s ∈ siblings)) as [|Hno]; [done|]. exfalso. apply (not_elem_of_nil s). rewrite <- Hnil.
      apply Hreal. by rewrite <- Hsib.
    + intros Hall. destruct (dr_real _) as [|s l] eqn:Hr; [done|]. exfalso.
      destruct (proj1 (Hreal s)) as (Hin & Hno & Hw); [by left|].
      destruct (Hall s Hin) as [|]; [done|congruence].
  - intros s. cbn [dr_satisfied report_of]. rewrite sort_unique_elem, filter_elem, bool_decide_eq_true, Hsib. done.
  - exact Hreal.
  - intros s. cbn [dr_extra report_of]. rewrite sort_unique_elem, filter_elem, negb_true_iff, bool_decide_eq_false, Hsib. done.
Qed.

End Drift.
