(* ===== verification/ServerMain.v ===== *)
(** * Starting the responder (tools/wg_responder/server.py, keys.py)

    The keys as hexadecimal text, and the way from the command line to a server that listens. *)

From S2P Require Import Caps.
From S2P Require Export PyRegex Server.

(** ** Key pairs *)

(** [X25519PrivateKey.generate()]: the raw private key. *)
Class KeySource (W : Type) := { generate_private : W → bytes * W }.

Inductive key_error := NotHexKey | WrongKeyLength (n : Z).

Section keys.
Context {N NE : Type} `{Lib : NoiseLib N NE}.

Definition generate_keypair {W} `{!KeySource W} (w : W) : string * string * W :=
  let '(priv, w) := generate_private w in
  (hex_bytes priv, hex_bytes (x25519_public priv), w).

Definition priv_to_pub (priv_hex : string) : res key_error string :=
  match fromhex (chars priv_hex) with
  | None => Err NotHexKey
  | Some priv =>
      if len priv =? 32 then Ok (hex_bytes (x25519_public priv)) else Err (WrongKeyLength (len priv))
  end.
End keys.

(** ** The command line *)

Record arguments := Arguments {
  a_listen : string;
  a_priv : string;
  a_peer_pub : string;
  a_psk : option string;
  a_interactive : bool;
}.
Definition LISTEN_DEFAULT : string := "0.0.0.0:51820".

Inductive start_error (NE : Type) :=
| NotAPort (s : string)
| NotHexText (s : string)
| NoResponder (e : rexn NE)
| CannotBind (host : string) (port : Z).
Arguments NotAPort {NE} s.
Arguments NotHexText {NE} s.
Arguments NoResponder {NE} e.
Arguments CannotBind {NE} host port.

Section main.
Context {N NE : Type} `{Lib : NoiseLib N NE}.
Context (char_to_petscii : Z → option Z) (C64_RECV_MTU C64_TUNNEL_MTU : Z).
Context (sendto : bytes → address → bool).
(** Whether an address can be bound, and [os.urandom(4)]. *)
Context (bind : string → Z → bool) (rnd : bytes).

(** [host:port], every address where there is no host. *)
Definition parse_listen (listen : string) : res (start_error NE) (string * Z) :=
  let '(host, _, port_str) := rpartition ":" listen in
  let host := if bool_decide (host = "") then "0.0.0.0" else host in
  match parse_int 10 port_str with
  | Some port => Ok (host, port)
  | None => Err (NotAPort port_str)
  end.

Definition key_bytes (s : string) : res (start_error NE) bytes :=
  match fromhex (chars s) with Some l => Ok l | None => Err (NotHexText s) end.

(** A key that is not given, or is empty, is none. *)
Definition parse_psk (psk : option string) : res (start_error NE) (option bytes) :=
  match psk with
  | None => Ok None
  | Some s => if bool_decide (s = "") then Ok None else l ← key_bytes s; Ok (Some l)
  end.

(** [run_server], over what arrives and what is typed. *)
Definition run_server (host : string) (port : Z) (r : responder N) (interactive : bool) (inputs : list input) :
    res (start_error NE) (outcome (server N) (sexn NE) (list event)) :=
  if bind host port
  then Ok (serve char_to_petscii C64_RECV_MTU C64_TUNNEL_MTU sendto interactive
             (if interactive then inputs
              else List.filter (λ i, match i with Arrives _ _ => true | Types _ => false end) inputs)
             (new_server r))
  else Err (CannotBind host port).

Definition main (a : arguments) (inputs : list input) :
    res (start_error NE) (outcome (server N) (sexn NE) (list event)) :=
  hp ← parse_listen (a_listen a);
  priv ← key_bytes (a_priv a);
  peer_pub ← key_bytes (a_peer_pub a);
  psk ← parse_psk (a_psk a);
  match new_responder priv peer_pub psk rnd with
  | Err e => Err (NoResponder e)
  | Ok r => run_server hp.1 hp.2 r (a_interactive a) inputs
  end.
End main.

(** The module as it is run: the ceilings are the ones c64_caps exports. *)
Definition server_main {N NE} `{Lib : NoiseLib N NE, Fs : Files} (env : option string) (char_to_petscii : Z → option Z) :=
  main char_to_petscii (C64_RECV_MTU env) (C64_TUNNEL_MTU env).
