(* ===== verification/ServerMainThms.v ===== *)
(** * Starting the responder: the properties

    Keys written as text are read back, and a server started from them is the one with those keys. *)

From S2P Require Import Caps.
From S2P Require Export RegexThms ServerThms ServerMain.
#[local] Set Warnings "-clear-no-such-hyp".

Lemma partition_chars_first c l r : c ∉ l → partition_chars c (l ++ c :: r) = (l, true, r).
Proof.
  induction l as [|x l IH]; cbn [partition_chars app]; [by rewrite decide_True|].
  intros [Hx Hl]%not_elem_of_cons. rewrite decide_False by congruence. by rewrite IH.
Qed.

Lemma rpartition_last c s t : c ∉ chars t → rpartition c (s +:+ String c t) = (s, true, t).
Proof.
  intros Ht. unfold rpartition. rewrite chars_app. change (chars (String c t)) with (c :: chars t).
  rewrite rev_app_distr. cbn [rev]. rewrite <- app_assoc. cbn [app].
  rewrite partition_chars_first by (by rewrite list_elem_of_In, <- in_rev, <- list_elem_of_In).
  by rewrite !rev_involutive, !str_chars.
Qed.

Section keys.
Context {N NE : Type} `{Lib : NoiseLib N NE}.

Lemma priv_to_pub_hex priv : is_bytes priv → len priv = 32 → priv_to_pub (hex_bytes priv) = Ok (hex_bytes (x25519_public priv)).
Proof. intros Hb Hl. unfold priv_to_pub. by rewrite fromhex_hex, Hl. Qed.

Lemma key_bytes_hex l : is_bytes l → key_bytes (NE:=NE) (hex_bytes l) = Ok l.
Proof. intros Hl. unfold key_bytes. by rewrite fromhex_hex. Qed.

Lemma parse_psk_hex (psk : option bytes) :
  (∀ l, psk = Some l → is_bytes l ∧ l ≠ []) → parse_psk (NE:=NE) (hex_bytes <$> psk) = Ok psk.
Proof.
  destruct psk as [l|]; [|done]. intros Hpsk. destruct (Hpsk l eq_refl) as [Hb Hne].
  cbn [fmap option_fmap option_map parse_psk]. rewrite bool_decide_eq_false_2; [by rewrite (key_bytes_hex l Hb)|].
  intros Heq. destruct l as [|b l]; [done|]. apply (f_equal chars) in Heq. unfold hex_bytes in Heq.
  by rewrite chars_str in Heq.
Qed.
End keys.

Lemma parse_listen_address {NE} host port :
  host ≠ "" → 0 ≤ port → parse_listen (NE:=NE) (host +:+ ":" +:+ dec port) = Ok (host, port).
Proof.
  intros Hh Hp. unfold parse_listen. change (":" +:+ dec port) with (String ":" (dec port)).
  rewrite rpartition_last by (apply dec_without; [done|vm_compute; lia]).
  by rewrite bool_decide_eq_false_2, parse_dec.
Qed.

(** A source of keys and a key exchange, for the witnesses. *)
#[export] Instance toy_keys : KeySource nat := {| generate_private n := (replicate 32 (Z.of_nat n), S n) |}.

Module Start.
Section claims.
Context {N NE : Type} `{Lib : NoiseLib N NE}.
Context (char_to_petscii : Z → option Z) (C64_RECV_MTU C64_TUNNEL_MTU : Z).
Context (sendto : bytes → address → bool) (bind : string → Z → bool) (rnd : bytes).
Abbreviation main := (main char_to_petscii C64_RECV_MTU C64_TUNNEL_MTU sendto bind rnd).

(** C29. A responder started from text is the one that was meant: with a free address written host:port, the
    two keys written in hexadecimal and, if there is one, a pre-shared key that is not empty, the server that runs is a
    fresh one with exactly those 32-byte keys, whose public key (the one its MAC is checked with) is the
    one that the key helper derives from the same text and that a freshly generated pair shows. *)
Theorem started_with_keys {W} `{!KeySource W} (w : W) priv host port peer psk interactive inputs :
  fst (generate_private w) = priv → is_bytes priv → len priv = 32 →
  is_bytes peer → len peer = 32 →
  (∀ l, psk = Some l → is_bytes l ∧ l ≠ []) →
  host ≠ "" → 0 ≤ port → bind host port = true →
  ∃ r, new_responder priv peer psk rnd = Ok r ∧
    main (Arguments (host +:+ ":" +:+ dec port) (fst (fst (generate_keypair w))) (hex_bytes peer)
            (hex_bytes <$> psk) interactive) inputs
    = run_server char_to_petscii C64_RECV_MTU C64_TUNNEL_MTU sendto bind host port r interactive inputs ∧
    (∃ o, run_server char_to_petscii C64_RECV_MTU C64_TUNNEL_MTU sendto bind host port r interactive inputs = Ok o) ∧
    priv_to_pub (fst (fst (generate_keypair w))) = Ok (hex_bytes (r_static_pub r)) ∧
    snd (fst (generate_keypair w)) = hex_bytes (r_static_pub r) ∧
    r_mac1_key_for_t1 r = mac1_key (r_static_pub r).
Proof.
  intros Hpriv Hb Hl Hpb Hpl Hpsk Hh Hp Hbind.
  assert (Hgen : generate_keypair w = (hex_bytes priv, hex_bytes (x25519_public priv), snd (generate_private w))).
  { unfold generate_keypair. destruct (generate_private w) as [p w']. cbn in Hpriv. by subst p. }
  rewrite Hgen. cbn [fst snd]. unfold ServerMain.main. cbn [a_listen a_priv a_peer_pub a_psk a_interactive].
  rewrite (parse_listen_address host port Hh Hp). cbn [mbind res_bind].
  rewrite (key_bytes_hex priv Hb), (key_bytes_hex peer Hpb). cbn [mbind res_bind].
  rewrite parse_psk_hex by done. cbn [mbind res_bind].
  eexists. unfold new_responder. rewrite Hl, Hpl. cbn [negb Z.eqb].
  split; [reflexivity|]. split; [reflexivity|]. split; [unfold run_server; rewrite Hbind; by eexists|].
  cbn [r_static_pub r_mac1_key_for_t1]. split_and!; [by apply priv_to_pub_hex|done..].
Qed.

(** Nothing is served for arguments that are not well formed: a server runs only if the port is a number, the
    keys are hexadecimal texts of 32 bytes each, a pre-shared key that is given and not empty is
    hexadecimal, and the address could be bound. *)
Theorem serves_only_well_formed a inputs o :
  main a inputs = Ok o →
  ∃ host port priv peer psk r, parse_listen (NE:=NE) (a_listen a) = Ok (host, port) ∧
    fromhex (chars (a_priv a)) = Some priv ∧ len priv = 32 ∧
    fromhex (chars (a_peer_pub a)) = Some peer ∧ len peer = 32 ∧
    (∀ s, a_psk a = Some s → s ≠ "" → is_Some (fromhex (chars s))) ∧
    new_responder priv peer psk rnd = Ok r ∧ bind host port = true.
Proof.
  unfold ServerMain.main. destruct (parse_listen (a_listen a)) as [[host port]|] eqn:Hl; [|done]. cbn [mbind res_bind].
  unfold key_bytes. destruct (fromhex (chars (a_priv a))) as [priv|] eqn:Hpriv; [|done]. cbn [mbind res_bind].
  destruct (fromhex (chars (a_peer_pub a))) as [peer|] eqn:Hpeer; [|done]. cbn [mbind res_bind].
  destruct (parse_psk (a_psk a)) as [psk|] eqn:Hpsk; [|done]. cbn [mbind res_bind fst snd].
  destruct (new_responder priv peer psk rnd) as [r|] eqn:Hr; [|done].
  unfold run_server. destruct (bind host port) eqn:Hb; [|done]. intros _.
  assert (len priv = 32 ∧ len peer = 32) as [? ?].
  { clear - Hr. unfold new_responder in Hr. destruct (Z.eqb_spec (len priv) 32); [|done].
    by destruct (Z.eqb_spec (len peer) 32). }
  exists host, port, priv, peer, psk, r. split_and!; try done.
  intros s Hs Hne. unfold parse_psk in Hpsk. rewrite Hs, bool_decide_eq_false_2 in Hpsk by done.
  unfold key_bytes in Hpsk. destruct (fromhex (chars s)); [by eexists|done].
Qed.
End claims.

(** C28. No datagram of a server that was started is larger than the C64 can receive: whatever arrives and
    whatever is typed, with the ceilings resolved from the labels of a build, its sources or the
    defaults, as long as they leave room for a response and for the 32 bytes of a transport packet. *)
Theorem sent_fits_ceiling {N NE} `{Lib : NoiseLib N NE, Fs : Files} (send_nonce : N → Z) `{Laws : !NoiseLaws N NE send_nonce}
    env char_to_petscii sendto bind rnd a inputs evs (s' : server N) :
  (∀ p c (n n' : N), noise_encrypt p n = Ret c n' → len c = len p + 16) →
  is_bytes rnd → length rnd = 4%nat → Forall typed_input inputs →
  0 ≤ C64_RECV_MTU env → 32 ≤ WG_DATA_OVERHEAD env → T2_TOTAL ≤ C64_RECV_MAX env →
  server_main env char_to_petscii sendto bind rnd a inputs = Ok (Ret evs s') →
  ∀ pkt to, Datagram pkt to ∈ evs → len pkt ≤ C64_RECV_MAX env.
Proof.
  intros Htag Hb Hl Hin Hmtu Ho H2 Hrun. unfold server_main, ServerMain.main in Hrun.
  destruct (parse_listen (a_listen a)) as [[host port]|]; [|done]. cbn [mbind res_bind] in Hrun.
  destruct (key_bytes (a_priv a)) as [priv|]; [|done]. cbn [mbind res_bind] in Hrun.
  destruct (key_bytes (a_peer_pub a)) as [peer|]; [|done]. cbn [mbind res_bind] in Hrun.
  destruct (parse_psk (a_psk a)) as [psk|]; [|done]. cbn [mbind res_bind] in Hrun.
  destruct (new_responder priv peer psk rnd) as [r|] eqn:Hr; [|done].
  unfold run_server in Hrun. destruct (bind _ _); [|done]. injection Hrun as Hrun.
  assert (Hs : server_inv send_nonce (new_server r)).
  { apply new_server_inv; [by eapply new_responder_inv|].
    clear -Hr. revert Hr. unfold new_responder. repeat case_match; [done..|]. by intros [= <-]. }
  refine (serve_sizes send_nonce _ _ _ _ _ _ _ _ _ _ Htag Hmtu _ H2 Hs _ Hrun).
  - unfold C64_RECV_MTU, recv_mtu, WG_DATA_OVERHEAD, C64_RECV_MAX in *. lia.
  - destruct (a_interactive a); [done|]. apply Forall_forall. intros i Hi.
    apply list_elem_of_In, filter_In in Hi as [Hi _]. rewrite Forall_forall in Hin. apply Hin. by apply list_elem_of_In.
Qed.

(** A tree without a build and without sources: the ceilings are the defaults. *)
Definition no_files : Files := {| read_text _ := None; is_dir _ := false; exists_ _ := false |}.

Lemma sent_fits_ceiling_witness :
  ∃ evs s', server_main (Lib:=WgResponder.toy_noise) (Fs:=no_files) None WgServer.toy_to_petscii WgServer.toy_sendto
      (λ _ _, true) [1; 2; 3; 4] (Arguments ":51820" (hex_bytes (replicate 32 1)) (hex_bytes (replicate 32 2)) None true)
      WgServer.toy_inputs = Ok (Ret evs s') ∧ ∀ pkt to, Datagram pkt to ∈ evs → len pkt ≤ 1472.
Proof.
  destruct (server_main (Lib:=WgResponder.toy_noise) (Fs:=no_files) None WgServer.toy_to_petscii WgServer.toy_sendto
      (λ _ _, true) [1; 2; 3; 4] (Arguments ":51820" (hex_bytes (replicate 32 1)) (hex_bytes (replicate 32 2)) None true)
      WgServer.toy_inputs) as [[evs s'|e s']|e] eqn:Hrun.
  - exists evs, s'. split; [reflexivity|].
    refine (sent_fits_ceiling (Lib:=WgResponder.toy_noise) (Fs:=no_files) id (Laws:=WgResponder.toy_laws) None
      WgServer.toy_to_petscii WgServer.toy_sendto (λ _ _, true) [1; 2; 3; 4] _ WgServer.toy_inputs evs s' _ _ _ _ _ _ _ Hrun).
    + intros p c n n' H'. injection H' as <- _. unfold len. rewrite length_app. cbn. lia.
    + apply (bool_decide_unpack _). vm_compute. reflexivity.
    + reflexivity.
    + exact WgServer.toy_inputs_typed.
    + vm_compute. discriminate.
    + vm_compute. discriminate.
    + vm_compute. discriminate.
  - exfalso. vm_compute in Hrun. discriminate Hrun.
  - exfalso. vm_compute in Hrun. discriminate Hrun.
Defined.

Lemma started_with_keys_witness :
  ∃ r, new_responder (H:=WgResponder.toy_noise) (replicate 32 7) (replicate 32 9) None [1; 0; 0; 0] = Ok r ∧
    priv_to_pub (Lib:=WgResponder.toy_noise) (fst (fst (generate_keypair (Lib:=WgResponder.toy_noise) 7%nat))) = Ok (hex_bytes (r_static_pub r)).
Proof.
  pose proof (started_with_keys (Lib:=WgResponder.toy_noise) (λ z, Some z) 100 100 (λ _ _, true) (λ _ _, true) [1; 0; 0; 0]
    7%nat (replicate 32 7) "127.0.0.1" 51820 (replicate 32 9) None true []) as Hspec.
  destruct Hspec as (r & Hr & _ & _ & Hpub & _);
    [reflexivity|apply (bool_decide_unpack _); vm_compute; reflexivity|reflexivity
    |apply (bool_decide_unpack _); vm_compute; reflexivity|reflexivity|discriminate|discriminate|lia|reflexivity|].
  exists r. split; [exact Hr|exact Hpub].
Defined.

Lemma serves_only_well_formed_witness :
  ∃ host port, parse_listen (NE:=unit) ":51820" = Ok (host, port) ∧ host = "0.0.0.0".
Proof.
  destruct (serves_only_well_formed (Lib:=WgResponder.toy_noise) (λ z, Some z) 100 100 (λ _ _, true) (λ _ _, true) [1; 0; 0; 0]
      (Arguments ":51820" (hex_bytes (replicate 32 7)) (hex_bytes (replicate 32 9)) None false) []
      (Ret [] (new_server (match new_responder (H:=WgResponder.toy_noise) (replicate 32 7) (replicate 32 9) None [1; 0; 0; 0] with
                           | Ok r => r | Err _ => Responder [] [] [] [] [] [] None None 0 0 ∅ None false end))))
    as (host & port & priv & peer & psk & r & Hl & _).
  - vm_compute. reflexivity.
  - exists host, port. split; [exact Hl|]. vm_compute in Hl. injection Hl as <- _. reflexivity.
Defined.
End Start.
